(** * Token-budget formatting, preference encoding and shard writing

    A shallow embedding of the dataset preprocessing pipeline:
    - [data_preprocessing/utils.py]: [chunk], [format_fim], [truncate_helper],
      [pad_helper], [truncate_or_pad_helper], [fim];
    - [chunk_data_processing/dpo_data_token_generator.py]:
      [tokenize_text], [build_tokenized_answer], [encode];
    - [data_preprocessing/data_preprocessor.py]: the process topology,
      [save_buffer_to_hdf5], [append_df_to_hdf5], [update_checkpoint] and
      the parsing done by [read_checkpoint].

    Python integers are [Z]; token arrays are [list Z]; Python exceptions and
    a [while] loop that may spin forever are results of type [outcome]. *)

From Stdlib Require Import ZArith List String Ascii Lia Bool Arith QArith.
From Stdlib Require Import Decimal DecimalString DecimalPos DecimalZ.
From stdpp Require Import base list strings gmap.
Import ListNotations.
Local Open Scope Z_scope.
Local Open Scope list_scope.

(** ** Results of running Python code *)

Inductive exn : Type :=
| IndexError
| AssertionError
| ValueError (msg : string)
| TypeError (msg : string)
| RuntimeError (msg : string).

(** [OutOfFuel] is not a Python result: it says that the loop was still
    running when the iteration budget given to the model was used up. *)
Inductive outcome (A : Type) : Type :=
| Ret (a : A)
| Raise (e : exn)
| OutOfFuel.
Arguments Ret {A} a.
Arguments Raise {A} e.
Arguments OutOfFuel {A}.

Definition bind {A B : Type} (m : outcome A) (k : A -> outcome B) : outcome B :=
  match m with
  | Ret a => k a
  | Raise e => Raise e
  | OutOfFuel => OutOfFuel
  end.

Notation "'let*' x ':=' m 'in' k" := (bind m (fun x => k))
  (at level 10, x pattern, m at level 100, k at level 200).

(** * utils.py: fill-in-the-middle formatting *)

(** A sub-context as [chunk] returns it: the token lists
    [[prefix, middle, suffix]].  [pad_helper] appends the padding array as a
    further entry of the last sub-context; [pads] holds the entries after
    the first three. *)
Record segment : Type := Segment {
  prefix : list Z;
  middle : list Z;
  suffix : list Z;
  pads : list (list Z)
}.

Inductive fim_format : Type := PSM | SPM | AR.

(** [sample_i[remove_idx_i]] for a remove index 0, 1 or 2. *)
Definition section (r : nat) (s : segment) : list Z :=
  match r with
  | O => prefix s
  | S O => middle s
  | _ => suffix s
  end.

(** [sample_i[remove_idx_i].pop(pop_idx)] with
    [pop_idx = -1 if remove_idx_i == 2 else 0]. *)
Definition pop_section (r : nat) (s : segment) : segment :=
  match r with
  | O => Segment (tail (prefix s)) (middle s) (suffix s) (pads s)
  | S O => Segment (prefix s) (tail (middle s)) (suffix s) (pads s)
  | _ => Segment (prefix s) (middle s) (removelast (suffix s)) (pads s)
  end.

Definition nonempty {A : Type} (l : list A) : bool :=
  match l with
  | [] => false
  | _ :: _ => true
  end.

(** The variables of [truncate_helper]'s loop. *)
Record trunc_state : Type := TruncState {
  samples_lst : list segment;
  remove_idxs : list nat;
  cur : nat;
  diff : Z
}.

(** One pass through the body of [while diff:]. *)
Definition truncate_body (num_groups : nat) (st : trunc_state)
  : outcome trunc_state :=
  match remove_idxs st !! cur st, samples_lst st !! cur st with
  | Some remove_idx_i, Some sample_i =>
      let st' :=
        if nonempty (section remove_idx_i sample_i) then
          TruncState (<[cur st := pop_section remove_idx_i sample_i]> (samples_lst st))
                     (remove_idxs st) (cur st) (diff st - 1)
        else
          TruncState (samples_lst st)
                     (<[cur st := ((remove_idx_i + 1) mod 3)%nat]> (remove_idxs st))
                     (cur st) (diff st)
      in
      Ret (TruncState (samples_lst st') (remove_idxs st')
                      ((cur st + 1) mod num_groups)%nat (diff st'))
  | _, _ => Raise IndexError
  end.

(** [while diff: ...]; the loop test comes first, so a zero [diff] returns
    whatever budget is left. *)
Fixpoint truncate_loop (fuel : nat) (num_groups : nat) (st : trunc_state)
  : outcome (list segment) :=
  if diff st =? 0 then Ret (samples_lst st)
  else
    match fuel with
    | O => OutOfFuel
    | S fuel' =>
        let* st' := truncate_body num_groups st in
        truncate_loop fuel' num_groups st'
    end.

(** [truncate_helper(samples_lst, diff, sample_idx)]; [sample_idx] is only
    used in the log message. *)
Definition truncate_helper (fuel : nat) (samples : list segment) (d : Z)
    (sample_idx : Z) : outcome (list segment) :=
  let num_groups := length samples in
  truncate_loop fuel num_groups
    (TruncState samples (replicate num_groups 2%nat) 0%nat d).

(** [samples_lst[-1].append(np.full(np.abs(diff), fim_pad_tok_id))]. *)
Definition add_pad (padding : list Z) (s : segment) : segment :=
  Segment (prefix s) (middle s) (suffix s) (pads s ++ [padding]).

Definition pad_helper (samples : list segment) (d : Z) (fim_pad_tok_id : Z)
  : outcome (list segment) :=
  let padding := replicate (Z.to_nat (Z.abs d)) fim_pad_tok_id in
  match last samples with
  | None => Raise IndexError
  | Some s => Ret (removelast samples ++ [add_pad padding s])
  end.

(** [truncate_or_pad_helper]: positive [diff] truncates, negative pads. *)
Definition truncate_or_pad_helper (fuel : nat)
    (segments_fim_format_pairs : list (segment * fim_format))
    (d : Z) (fim_pad_tok_id : Z) (sample_idx : Z)
  : outcome (list (segment * fim_format)) :=
  let segments := map fst segments_fim_format_pairs in
  let fim_formats := map snd segments_fim_format_pairs in
  let* segments' := (if 0 <=? d then truncate_helper fuel segments d sample_idx
                     else pad_helper segments d fim_pad_tok_id) in
  Ret (combine segments' fim_formats).

(** [optional_padding = sample_i[-1] if len(sample_i) > 3 else []]. *)
Definition optional_padding (s : segment) : list Z :=
  match last (pads s) with
  | Some p => p
  | None => []
  end.

(** The body of [format_fim]'s loop for one sub-context: special tokens,
    sections in the order of the format, then the padding. *)
Definition format_segment (suffix_tok_id prefix_tok_id middle_tok_id eos_tok_id : Z)
    (opt_bos_tok_id : list Z) (p : segment * fim_format) : list Z :=
  let sample_i := fst p in
  (match snd p with
   | PSM =>
       opt_bos_tok_id ++ [prefix_tok_id] ++ prefix sample_i ++ [suffix_tok_id]
         ++ suffix sample_i ++ [middle_tok_id] ++ middle sample_i ++ [eos_tok_id]
   | SPM =>
       opt_bos_tok_id ++ [prefix_tok_id; suffix_tok_id] ++ suffix sample_i
         ++ [middle_tok_id] ++ prefix sample_i ++ middle sample_i ++ [eos_tok_id]
   | AR =>
       opt_bos_tok_id ++ prefix sample_i ++ middle sample_i ++ suffix sample_i
         ++ [eos_tok_id]
   end) ++ optional_padding sample_i.

Definition sum_nat (l : list nat) : nat := fold_right Nat.add 0%nat l.

(** The integer a 64-bit float holds after NumPy converts the 64-bit
    integer [z] to it: [z] itself up to [2 ^ 53] in magnitude, beyond that
    the nearest float, a multiple of the spacing [2 ^ e] of the floats
    around [z], a tie going to the even significand. *)
Definition f64_round (z : Z) : Z :=
  let a := Z.abs z in
  if a <=? 2 ^ 53 then z
  else
    let e := Z.log2 a - 52 in
    let q := a / 2 ^ e in
    let r := a mod 2 ^ e in
    let half := 2 ^ (e - 1) in
    let q := if (half <? r) || ((r =? half) && Z.odd q) then q + 1 else q in
    Z.sgn z * (q * 2 ^ e).

(** [.astype(np.int64)] of a float that holds the integer [x]: [x] when a
    64-bit integer can hold it; a float out of that range, as [2 ^ 63],
    gives the least 64-bit integer on x86-64. *)
Definition int64_of_f64 (x : Z) : Z :=
  if (- 2 ^ 63 <=? x) && (x <? 2 ^ 63) then x else - 2 ^ 63.

(** A 64-bit integer that went through an array of floats. *)
Definition via_f64 (z : Z) : Z := int64_of_f64 (f64_round z).

(** The ids that no conversion to floats changes: those up to [2 ^ 53] in
    magnitude. *)
Definition f64_exact (z : Z) : Prop := Z.abs z <= 2 ^ 53.

(** Whether [format_fim] builds the tokens of a sub-context as an array of
    floats: [np.concatenate] makes an array of floats of a Python list
    without elements, and the result of joining is then an array of
    floats.  Such a list is an empty [opt_bos_tok_id], an empty section, or
    the [[]] that stands for [optional_padding] when there is none. *)
Definition joined_as_floats (opt_bos_tok_id : list Z) (sample_i : segment)
  : bool :=
  negb (nonempty opt_bos_tok_id)
  || negb (nonempty (prefix sample_i))
  || negb (nonempty (middle sample_i))
  || negb (nonempty (suffix sample_i))
  || negb (nonempty (pads sample_i)).

(** [np.concatenate(sample).astype(np.int64)] for the tokens [tokens] of
    all sub-contexts: one array of floats among them turns them all into
    floats, which are then converted back. *)
Definition as_int64 (opt_bos_tok_id : list Z)
    (segment_fim_format_pairs : list (segment * fim_format))
    (tokens : list Z) : list Z :=
  if existsb (fun p => joined_as_floats opt_bos_tok_id (fst p))
             segment_fim_format_pairs
  then map via_f64 tokens
  else tokens.

(** [format_fim]: [np.concatenate] of an empty list and [np.ones] of a
    negative size raise [ValueError]. *)
Definition format_fim (segment_fim_format_pairs : list (segment * fim_format))
    (max_seq_len : Z)
    (suffix_tok_id prefix_tok_id middle_tok_id eos_tok_id : Z)
    (opt_bos_tok_id : list Z)
  : outcome (list Z * list Z * list Z) :=
  let total_padding_len :=
    Z.of_nat (sum_nat (map (fun p => length (optional_padding (fst p)))
                           segment_fim_format_pairs)) in
  match segment_fim_format_pairs with
  | [] => Raise (ValueError "need at least one array to concatenate")
  | _ =>
      let sample :=
        as_int64 opt_bos_tok_id segment_fim_format_pairs
          (concat (map (format_segment suffix_tok_id prefix_tok_id middle_tok_id
                                       eos_tok_id opt_bos_tok_id)
                       segment_fim_format_pairs)) in
      let label := tail sample in
      let sample := removelast sample in
      if max_seq_len - total_padding_len <? 0
      then Raise (ValueError "negative dimensions are not allowed")
      else
        let sample_mask := replicate (Z.to_nat (max_seq_len - total_padding_len)) 1 in
        let padding_mask := replicate (Z.to_nat total_padding_len) 0 in
        Ret (sample, sample_mask ++ padding_mask, label)
  end.

(** [np.argwhere(sample == v)]: the positions holding [v], in order. *)
Fixpoint argwhere_from (pos : nat) (sample : list Z) (v : Z) : list nat :=
  match sample with
  | [] => []
  | x :: rest =>
      if x =? v then pos :: argwhere_from (S pos) rest v
      else argwhere_from (S pos) rest v
  end.

Definition argwhere (sample : list Z) (v : Z) : list nat :=
  argwhere_from 0%nat sample v.

(** [sample[a:b]] for indices that are not negative. *)
Definition slice {A : Type} (l : list A) (a b : nat) : list A :=
  drop a (take b l).

Definition segment_len (s : segment) : nat :=
  (length (prefix s) + length (middle s) + length (suffix s))%nat.

(** [flatten_2d([pair[0] for pair in pairs]).shape[0]]. *)
Definition total_tokens (segs : list segment) : nat :=
  sum_nat (map segment_len segs).

Section Fim.

(** The tokenizer is used through [encode] and [decode] only. *)
Variable encode : string -> list Z.
Variable decode : list Z -> string.

(** [np.random]: the generator's hidden state is passed along.
    [binomial p g] is [np.random.binomial(1, p)], [randint high g] is
    [np.random.randint(low=0, high=high, size=2)]. *)
Variable rng : Type.
Variable binomial : Q -> rng -> nat * rng.
Variable randint : nat -> rng -> (nat * nat) * rng.

(** [chunk]: with probability [fim_rate] split the decoded text at two
    random character boundaries and encode the three parts again;
    otherwise keep the tokens as [[[], [], sample]].  [randint] is called
    with [high = len(contents) + 1 > 0], so its [ValueError] cannot occur. *)
Definition chunk (sample : list Z) (fim_rate spm_rate : Q) (g : rng)
  : (segment * fim_format) * rng :=
  let '(do_fim, g) := binomial fim_rate g in
  if negb (do_fim =? 0)%nat then
    let contents := decode sample in
    let '((x, y), g) := randint (String.length contents + 1)%nat g in
    let b0 := Nat.min x y in
    let b1 := Nat.max x y in
    let prefix_text := substring 0 b0 contents in
    let middle_text := substring b0 (b1 - b0) contents in
    let suffix_text := substring b1 (String.length contents - b1) contents in
    let '(is_spm, g) := binomial spm_rate g in
    ((Segment (encode prefix_text) (encode middle_text) (encode suffix_text) [],
      if negb (is_spm =? 0)%nat then SPM else PSM), g)
  else
    ((Segment [] [] sample [], AR), g).

(** [for loc in np.nditer(segment_breaks)]: a sub-document that ends at
    an end-of-document token is chunked only when it is not empty. *)
Fixpoint fim_loop (sample : list Z) (fim_rate spm_rate : Q)
    (segment_breaks : list nat) (curr_start_position : nat)
    (pairs : list (segment * fim_format)) (g : rng)
  : list (segment * fim_format) * nat * rng :=
  match segment_breaks with
  | [] => (pairs, curr_start_position, g)
  | loc :: rest =>
      let '(pairs, g) :=
        if 0 <? Z.of_nat loc - Z.of_nat curr_start_position then
          let '(p, g) := chunk (slice sample curr_start_position loc)
                               fim_rate spm_rate g in
          (pairs ++ [p], g)
        else (pairs, g) in
      fim_loop sample fim_rate spm_rate rest (loc + 1)%nat pairs g
  end.

(** The first half of [fim]: split the sample by document and chunk each
    part. *)
Definition fim_segments (sample : list Z) (eos_tok_id : Z)
    (fim_rate spm_rate : Q) (g : rng)
  : list (segment * fim_format) * rng :=
  let segment_breaks := argwhere sample eos_tok_id in
  match segment_breaks with
  | _ :: _ =>
      let '(pairs, curr_start_position, g) :=
        fim_loop sample fim_rate spm_rate segment_breaks 0%nat [] g in
      let '(p, g) := chunk (drop curr_start_position sample)
                           fim_rate spm_rate g in
      (pairs ++ [p], g)
  | [] =>
      let '(p, g) := chunk sample fim_rate spm_rate g in
      ([p], g)
  end.

(** [add_constant]: the special tokens each sub-context will receive,
    less one for the shift between inputs and labels. *)
Definition add_constant (pairs : list (segment * fim_format))
    (opt_bos_tok_id : list Z) : Z :=
  fold_left
    (fun acc p =>
       let acc := match snd p with AR => acc + 1 | _ => acc + 4 end in
       if nonempty opt_bos_tok_id then acc + 1 else acc)
    pairs (-1).

(** The two [try: assert ... except: raise AssertionError] blocks at the
    end of [fim]; [labels[-1]] of an empty array fails inside the [try]. *)
Definition check_outputs (inputs mask labels : list Z) (max_seq_len : nat)
    (eos_tok_id : Z) : outcome (list Z * list Z * list Z) :=
  if negb ((length inputs =? max_seq_len)%nat
           && (length mask =? max_seq_len)%nat
           && (length labels =? max_seq_len)%nat)
  then Raise AssertionError
  else
    match last labels with
    | Some t => if t =? eos_tok_id then Ret (inputs, mask, labels)
                else Raise AssertionError
    | None => Raise AssertionError
    end.

(** [np.stack([inputs, mask, labels], axis=0)]: the mask is an array of
    floats, so the stack is one, and the ids in it are converted.  The
    floats of the stack are whole numbers and are given as integers. *)
Definition stack_outputs (inputs mask labels : list Z)
  : list Z * list Z * list Z :=
  (map f64_round inputs, mask, map f64_round labels).

(** [fim]: [sample_array] is the stack of input ids, mask and labels; the
    result is the stack [(inputs, mask, labels)]. *)
Definition fim (fuel : nat) (sample_array : list (list Z)) (sample_idx : Z)
    (fim_rate spm_rate : Q)
    (suffix_tok_id prefix_tok_id middle_tok_id fim_pad_tok_id eos_tok_id : Z)
    (opt_bos_tok_id : list Z) (g : rng)
  : outcome (list Z * list Z * list Z) :=
  if negb (Qle_bool fim_rate 1 && Qle_bool 0 fim_rate) then Raise AssertionError
  else
    match sample_array !! 0%nat, sample_array !! 1%nat with
    | Some sample, Some mask =>
        let max_seq_len := length sample in
        let '(pairs, _) := fim_segments sample eos_tok_id fim_rate spm_rate g in
        let total_len := Z.of_nat (total_tokens (map fst pairs)) in
        let d := (total_len + add_constant pairs opt_bos_tok_id)
                 - Z.of_nat max_seq_len in
        let* pairs := truncate_or_pad_helper fuel pairs d fim_pad_tok_id sample_idx in
        let* (inputs, mask, labels) :=
          format_fim pairs (Z.of_nat max_seq_len) suffix_tok_id prefix_tok_id
                     middle_tok_id eos_tok_id opt_bos_tok_id in
        let* (inputs, mask, labels) :=
          check_outputs inputs mask labels max_seq_len eos_tok_id in
        Ret (stack_outputs inputs mask labels)
    | _, _ => Raise IndexError
    end.

End Fim.

(** * Python list and string primitives *)

(** The bound of a slice: a negative index counts from the end, and the
    result is clamped to the length. *)
Definition clamp_index (n : nat) (k : Z) : nat :=
  if k <? 0 then Z.to_nat (Z.of_nat n + k) else Nat.min n (Z.to_nat k).

(** [l[:k]], [l[k:]] and the assignment [l[:k] = v]. *)
Definition slice_to {A : Type} (l : list A) (k : Z) : list A :=
  take (clamp_index (length l) k) l.

Definition slice_from {A : Type} (l : list A) (k : Z) : list A :=
  drop (clamp_index (length l) k) l.

Definition assign_slice_to {A : Type} (l : list A) (k : Z) (v : list A) : list A :=
  v ++ slice_from l k.

(** [[x] * n]: empty when [n] is not positive. *)
Definition py_repeat {A : Type} (x : A) (n : Z) : list A :=
  replicate (Z.to_nat n) x.

Definition zlen {A : Type} (l : list A) : Z := Z.of_nat (length l).

(** [s.rfind(sub)]: the highest index where [sub] starts, or [-1]. *)
Fixpoint rfind_aux (sub s : string) (pos : nat) (best : Z) : Z :=
  let best := if String.prefix sub s then Z.of_nat pos else best in
  match s with
  | EmptyString => best
  | String _ rest => rfind_aux sub rest (S pos) best
  end.

Definition rfind (s sub : string) : Z := rfind_aux sub s 0%nat (-1).

(** [s.lower()] for a text of ASCII characters: only [A-Z] change.  It
    stands for [str.lower] in the examples, whose texts are ASCII. *)
Definition lower_ascii (c : ascii) : ascii :=
  let n := nat_of_ascii c in
  if ((65 <=? n) && (n <=? 90))%nat then ascii_of_nat (n + 32) else c.

Fixpoint ascii_lower (s : string) : string :=
  match s with
  | EmptyString => EmptyString
  | String c rest => String (lower_ascii c) (ascii_lower rest)
  end.

(** [s[:k]] for a string. *)
Definition str_slice_to (s : string) (k : Z) : string :=
  substring 0 (clamp_index (String.length s) k) s.

(** * dpo_data_token_generator.py *)

Record message : Type := Message { content : string; role : string }.

(** A field of the document: a string or a list of chat messages. *)
Inductive field : Type :=
| FStr (s : string)
| FMsgs (l : list message).

Record data_stats : Type := DataStats {
  discarded : Z;
  processed : Z;
  successful : Z;
  raw_chars_count : Z;
  raw_bytes_count : Z;
  num_pad_tokens : Z;
  num_masked_tokens : Z;
  loss_valid_tokens : Z;
  num_tokens : Z;
  normalized_chars_count : Z;
  normalized_bytes_count : Z
}.

(** The attributes [DPOTokenGenerator.__init__] sets and [encode] reads. *)
Record dpo_config : Type := DpoConfig {
  use_ftfy : bool;
  wikitext_detokenize : bool;
  max_seq_length : Z;
  max_prompt_length : Z;
  eos_id : Z;
  pad_id : Z;
  can_apply_chat_template : bool;
  user_role : string;
  assistant_role : string;
  response_delimiter : option string;
  add_bos_token : bool;
  bos_token_id : Z
}.

(** What [tokenize_text] returns; the ["labels"] entry is never read. *)
Record features : Type := Features {
  input_ids : list Z;
  attention_mask : list Z
}.

(** What [build_tokenized_answer] returns. *)
Record answer_tokens : Type := AnswerTokens {
  prompt_input_ids : list Z;
  prompt_attention_mask : list Z;
  answer_input_ids : list Z;
  answer_attention_mask : list Z
}.

Definition msg_concat_length : string :=
  "Concatenated prompt-response and full prompt-response input ids should have the same length.".
Definition msg_prompt_mask_length : string :=
  "Prompt input ids and attention mask should have the same length.".
Definition msg_prompt_differs : string :=
  "Chosen and rejected prompt_input_ids might only differ on the last token due to tokenizer merge ops.".
Definition msg_stack_shape : string :=
  "all input arrays must have the same shape".
Definition msg_none_plus_list : string :=
  "unsupported operand type(s) for +: 'NoneType' and 'list'".

(** [sum([a != b for a, b in zip(xs, ys)])]. *)
Fixpoint num_diff_tokens (xs ys : list Z) : Z :=
  match xs, ys with
  | a :: xs', b :: ys' => (if a =? b then 0 else 1) + num_diff_tokens xs' ys'
  | _, _ => 0
  end.

Definition list_eqb (xs ys : list Z) : bool :=
  if decide (xs = ys) then true else false.

(** The nested [format_chat]: role tags around each message. *)
Fixpoint format_chat (messages : list message) : string :=
  match messages with
  | [] => EmptyString
  | m :: rest =>
      ((if String.eqb (role m) "user" then "[INST] " ++ content m ++ " [/INST] "
        else if String.eqb (role m) "system" then "<<SYS>> " ++ content m ++ " <</SYS>> "
        else if String.eqb (role m) "assistant" then content m
        else EmptyString) ++ format_chat rest)%string
  end.

(** [value == ""]. *)
Definition is_empty_str (v : field) : bool :=
  match v with
  | FStr s => String.eqb s ""
  | FMsgs _ => false
  end.

Definition isinstance_str (v : field) : bool :=
  match v with
  | FStr _ => true
  | FMsgs _ => false
  end.

(** [all(isinstance(item, dict) for item in v)]: the items of a string are
    characters, so this holds for a string only when it is empty. *)
Definition all_dicts (v : field) : bool :=
  match v with
  | FStr s => String.eqb s ""
  | FMsgs _ => true
  end.

Definition field_messages (v : field) : list message :=
  match v with
  | FStr _ => []
  | FMsgs l => l
  end.

Definition initial_stats : data_stats := DataStats 0 1 0 0 0 0 0 0 0 0 0.

Definition set_discarded (st : data_stats) : data_stats :=
  DataStats 1 (processed st) (successful st) (raw_chars_count st)
            (raw_bytes_count st) (num_pad_tokens st) (num_masked_tokens st)
            (loss_valid_tokens st) (num_tokens st) (normalized_chars_count st)
            (normalized_bytes_count st).

Section Dpo.

Variable cfg : dpo_config.

(** The tokenizer: [callable(self.tokenizer)], the call itself (a dict
    with ['input_ids'] and ['attention_mask']), [encode] and
    [apply_chat_template(..., chat_template=self.chat_template,
    tokenize=False, add_generation_prompt=True)]. *)
Variable callable : bool.
Variable tokenizer_call : string -> features.
Variable tokenizer_encode : string -> list Z.
Variable tokenizer_apply_chat_template : list message -> string.

(** [ftfy.fix_text], [wikitext_detokenizer] and [len(s.encode("utf-8"))]. *)
Variable fix_text : string -> string.
Variable wikitext_detokenizer : string -> string.
Variable utf8_len : string -> Z.

(** [str.lower]. *)
Variable lower : string -> string.

Definition tokenize_text (text : string) : features :=
  if callable then tokenizer_call text
  else
    let token_ids := tokenizer_encode text in
    Features token_ids (replicate (length token_ids) 1).

Definition build_tokenized_answer (prompt prompt_response : string)
  : outcome answer_tokens :=
  let full_tokenized := tokenize_text prompt_response in
  let prompt_ids := input_ids (tokenize_text prompt) in
  let answer_ids := slice_from (input_ids full_tokenized) (zlen prompt_ids) in
  let full_concat_input_ids := prompt_ids ++ answer_ids in
  if negb (length (input_ids full_tokenized) =? length full_concat_input_ids)%nat
  then Raise (ValueError msg_concat_length)
  else
    let response_token_ids_start_idx :=
      if negb (list_eqb prompt_ids
                        (slice_to (input_ids full_tokenized) (zlen prompt_ids)))
      then zlen prompt_ids - 1 else zlen prompt_ids in
    let prompt_ids :=
      slice_to (input_ids full_tokenized) response_token_ids_start_idx in
    let prompt_mask :=
      slice_to (attention_mask full_tokenized) response_token_ids_start_idx in
    if negb (length prompt_ids =? length prompt_mask)%nat
    then Raise (ValueError msg_prompt_mask_length)
    else
      Ret (AnswerTokens prompt_ids prompt_mask
             (slice_from (input_ids full_tokenized) response_token_ids_start_idx)
             (slice_from (attention_mask full_tokenized) response_token_ids_start_idx)).

(** A step of [encode] either drops the document with its statistics or
    goes on. *)
Inductive step (A : Type) : Type :=
| Discard (stats : data_stats)
| Continue (a : A).
Arguments Discard {A} stats.
Arguments Continue {A} a.

(** [if doc_field: ... return [], data_stats]: some of [chosen],
    [rejected] is the empty string. *)
Definition has_empty_field (chosen rejected : field) : bool :=
  let empty_fields := List.filter is_empty_str [chosen; rejected] in
  nonempty empty_fields.

(** [if prompt is None: ...]: take the prompt from [chosen], up to and
    including the last assistant marker. *)
Definition derive_prompt (prompt : option field) (chosen rejected : field)
    (stats : data_stats) : step (option field) :=
  match prompt, chosen with
  | None, FStr c =>
      if isinstance_str rejected then
        let last_assistant_index :=
          rfind (lower c) (assistant_role cfg ++ ":")%string in
        if last_assistant_index =? -1 then Discard (set_discarded stats)
        else
          Continue
            (Some (FStr (str_slice_to c
                           (last_assistant_index
                            + Z.of_nat (String.length (assistant_role cfg)) + 1))))
      else Continue None
  | _, _ => Continue prompt
  end.

(** [isinstance(x, str)] turns [x] into a one-message chat. *)
Definition as_messages (r : string) (v : field) : list message :=
  match v with
  | FStr s => [Message s r]
  | FMsgs l => l
  end.

Definition render_chat (messages : list message) : string :=
  if can_apply_chat_template cfg then tokenizer_apply_chat_template messages
  else format_chat messages.

(** [prompt_chosen, prompt_rejected]: the rendered conversations.  When
    [prompt] is still [None] the nested [apply_chat_template] adds [None]
    to a list. *)
Definition render (prompt : option field) (chosen rejected : field)
  : outcome (string * string) :=
  match prompt with
  | Some p =>
      if all_dicts chosen && all_dicts rejected then
        Ret (render_chat (field_messages chosen),
             render_chat (field_messages rejected))
      else
        let prompt_messages := as_messages (user_role cfg) p in
        Ret (render_chat (prompt_messages ++ as_messages (assistant_role cfg) chosen),
             render_chat (prompt_messages ++ as_messages (assistant_role cfg) rejected))
  | None => Raise (TypeError msg_none_plus_list)
  end.

(** The character and byte counts, and the optional clean-up of the two
    rendered strings. *)
Definition normalize (prompt_chosen prompt_rejected : string)
    (stats : data_stats) : string * string * data_stats :=
  let chars :=
    Z.of_nat (String.length prompt_chosen)
    + Z.of_nat (String.length prompt_rejected) in
  let bytes := utf8_len prompt_chosen + utf8_len prompt_rejected in
  let c1 := if use_ftfy cfg then fix_text prompt_chosen else prompt_chosen in
  let r1 := if use_ftfy cfg then fix_text prompt_rejected else prompt_rejected in
  let c2 := if wikitext_detokenize cfg then wikitext_detokenizer c1 else c1 in
  let r2 := if wikitext_detokenize cfg then wikitext_detokenizer r1 else r1 in
  let changed := use_ftfy cfg || wikitext_detokenize cfg in
  (c2, r2,
   DataStats (discarded stats) (processed stats) (successful stats)
     chars bytes
     (num_pad_tokens stats) (num_masked_tokens stats)
     (loss_valid_tokens stats) (num_tokens stats)
     (if changed
      then Z.of_nat (String.length c2) + Z.of_nat (String.length r2)
      else chars)
     (if changed then utf8_len c2 + utf8_len r2 else bytes)).

(** Where the response starts in the rendered [chosen] conversation. *)
Definition find_response (prompt_chosen : string) : Z :=
  match response_delimiter cfg with
  | Some d =>
      if nonempty (list_ascii_of_string d) then rfind prompt_chosen d
      else Z.max (rfind prompt_chosen "[/INST]") (rfind prompt_chosen "<|assistant|>")
  | None =>
      Z.max (rfind prompt_chosen "[/INST]") (rfind prompt_chosen "<|assistant|>")
  end.

(** [encode] up to the two calls of [build_tokenized_answer]. *)
Definition encode_tokenize (doc : option field * field * field)
  : outcome (step (answer_tokens * answer_tokens * data_stats)) :=
  let '(prompt, chosen, rejected) := doc in
  let stats := initial_stats in
  if has_empty_field chosen rejected then Ret (Discard (set_discarded stats))
  else
    match derive_prompt prompt chosen rejected stats with
    | Discard stats => Ret (Discard stats)
    | Continue prompt =>
        let* (prompt_chosen, prompt_rejected) := render prompt chosen rejected in
        let '(prompt_chosen, prompt_rejected, stats) :=
          normalize prompt_chosen prompt_rejected stats in
        let last_assistant_index := find_response prompt_chosen in
        if last_assistant_index =? -1 then Ret (Discard (set_discarded stats))
        else
          let prompt := str_slice_to prompt_chosen last_assistant_index in
          let* chosen_tokens := build_tokenized_answer prompt prompt_chosen in
          let* rejected_tokens := build_tokenized_answer prompt prompt_rejected in
          Ret (Continue (chosen_tokens, rejected_tokens, stats))
    end.

(** [if num_diff_tokens > 1 or num_diff_len > 1: raise ValueError]. *)
Definition prompts_differ (chosen_tokens rejected_tokens : answer_tokens) : bool :=
  let n := num_diff_tokens (prompt_input_ids chosen_tokens)
                           (prompt_input_ids rejected_tokens) in
  let num_diff_len :=
    Z.abs (zlen (prompt_input_ids chosen_tokens)
           - zlen (prompt_input_ids rejected_tokens)) in
  (1 <? n) || (1 <? num_diff_len).

(** [if not self.add_bos_token]: put the BOS token before the prompt. *)
Definition add_bos (t : answer_tokens) : answer_tokens :=
  if negb (add_bos_token cfg) then
    AnswerTokens (bos_token_id cfg :: prompt_input_ids t)
                 (1 :: prompt_attention_mask t)
                 (answer_input_ids t) (answer_attention_mask t)
  else t.

(** [answer_tokens["input_ids"].append(self.eos_id)]. *)
Definition add_eos (t : answer_tokens) : answer_tokens :=
  AnswerTokens (prompt_input_ids t) (prompt_attention_mask t)
               (answer_input_ids t ++ [eos_id cfg]) (answer_attention_mask t).

(** First truncation loop, with [truncation_mode = "keep_end"]. *)
Definition truncate_prompt (longer_response_length : Z) (t : answer_tokens)
  : answer_tokens :=
  if max_seq_length cfg <? zlen (prompt_input_ids t) + longer_response_length then
    AnswerTokens (slice_from (prompt_input_ids t) (- max_prompt_length cfg))
                 (slice_from (prompt_attention_mask t) (- max_prompt_length cfg))
                 (answer_input_ids t) (answer_attention_mask t)
  else t.

(** Second truncation loop: cut the response. *)
Definition truncate_response (longer_response_length : Z) (t : answer_tokens)
  : answer_tokens :=
  if max_seq_length cfg <? zlen (prompt_input_ids t) + longer_response_length then
    AnswerTokens (prompt_input_ids t) (prompt_attention_mask t)
                 (slice_to (answer_input_ids t)
                           (max_seq_length cfg - max_prompt_length cfg))
                 (slice_to (answer_attention_mask t)
                           (max_seq_length cfg - max_prompt_length cfg))
  else t.

(** [{input_ids, attention_mask, labels}] of one conversation: the labels
    are the ids shifted by one, with [pad_id] over the prompt. *)
Definition sequence_tokens (t : answer_tokens) : list Z * list Z * list Z :=
  let ids := prompt_input_ids t ++ answer_input_ids t in
  let mask := prompt_attention_mask t ++ answer_attention_mask t in
  let p := zlen (prompt_input_ids t) in
  let labels := assign_slice_to (tail ids) (p - 1) (py_repeat (pad_id cfg) (p - 1)) in
  (ids, mask, labels).

(** [padded_tokens = [pad_value] * max_seq_length;
     padded_tokens[:len(tokens)] = tokens]. *)
Definition pad_to_max (pad_value : Z) (tokens : list Z) : list Z :=
  assign_slice_to (py_repeat pad_value (max_seq_length cfg)) (zlen tokens) tokens.

(** [batch[...attention_mask][:p - 1] = [0] * (p - 1)]. *)
Definition mask_prompt (t : answer_tokens) (padded_mask : list Z) : list Z :=
  let p := zlen (prompt_input_ids t) in
  assign_slice_to padded_mask (p - 1) (py_repeat 0 (p - 1)).

(** [np.stack(list(batch.values()), axis=0)]. *)
Definition np_stack (rows : list (list Z)) : outcome (list (list Z)) :=
  match rows with
  | [] => Raise (ValueError "need at least one array to stack")
  | r :: rest =>
      if forallb (fun x => (length x =? length r)%nat) rest then Ret rows
      else Raise (ValueError msg_stack_shape)
  end.

(** [encode] from the prompt check to the end. *)
Definition encode_tokens (chosen_tokens rejected_tokens : answer_tokens)
    (stats : data_stats) : outcome (list (list (list Z)) * data_stats) :=
  if prompts_differ chosen_tokens rejected_tokens
  then Raise (ValueError msg_prompt_differs)
  else
    let chosen_tokens := add_eos (add_bos chosen_tokens) in
    let rejected_tokens := add_eos (add_bos rejected_tokens) in
    let longer_response_length :=
      Z.max (zlen (answer_input_ids chosen_tokens))
            (zlen (answer_input_ids rejected_tokens)) in
    let chosen_tokens := truncate_prompt longer_response_length chosen_tokens in
    let rejected_tokens := truncate_prompt longer_response_length rejected_tokens in
    let chosen_tokens := truncate_response longer_response_length chosen_tokens in
    let rejected_tokens := truncate_response longer_response_length rejected_tokens in
    let '(c_ids, c_mask, c_labels) := sequence_tokens chosen_tokens in
    let '(r_ids, r_mask, r_labels) := sequence_tokens rejected_tokens in
    let total_pad_tokens :=
      (max_seq_length cfg - zlen c_ids) + (max_seq_length cfg - zlen c_mask)
      + (max_seq_length cfg - zlen c_labels)
      + (max_seq_length cfg - zlen r_ids) + (max_seq_length cfg - zlen r_mask)
      + (max_seq_length cfg - zlen r_labels) in
    let chosen_attention_mask := mask_prompt chosen_tokens (pad_to_max 0 c_mask) in
    let rejected_attention_mask := mask_prompt rejected_tokens (pad_to_max 0 r_mask) in
    let total_loss_valid_tokens :=
      zlen chosen_attention_mask - (zlen (prompt_input_ids chosen_tokens) - 1)
      + zlen rejected_attention_mask
      - (zlen (prompt_input_ids rejected_tokens) - 1) in
    let total_masked_tokens := 2 * max_seq_length cfg - total_loss_valid_tokens in
    let* stacked_batch :=
      np_stack [pad_to_max (pad_id cfg) c_ids; chosen_attention_mask;
                pad_to_max (pad_id cfg) c_labels;
                pad_to_max (pad_id cfg) r_ids; rejected_attention_mask;
                pad_to_max (pad_id cfg) r_labels] in
    Ret ([stacked_batch],
         DataStats (discarded stats) (processed stats) 1
           (raw_chars_count stats) (raw_bytes_count stats)
           total_pad_tokens total_masked_tokens total_loss_valid_tokens
           (6 * max_seq_length cfg)
           (normalized_chars_count stats) (normalized_bytes_count stats)).

(** [DPOTokenGenerator.encode]: the sample is [[]] for a discarded
    document and an array of shape [(1, 6, _)] otherwise. *)
Definition encode (doc : option field * field * field)
  : outcome (list (list (list Z)) * data_stats) :=
  let* r := encode_tokenize doc in
  match r with
  | Discard stats => Ret ([], stats)
  | Continue (chosen_tokens, rejected_tokens, stats) =>
      encode_tokens chosen_tokens rejected_tokens stats
  end.

End Dpo.

Arguments Discard {A} stats.
Arguments Continue {A} a.

(** * data_preprocessor.py *)

(** ** Process topology *)

Inductive topology : Type := FileSplit | TaskSplit.

(** [math.ceil(a / b)] for a positive [b]. *)
Definition ceil_div (a b : Z) : Z := - ((- a) / b).

(** [process_processing_params]: [(self.processes - 1) // 2] writers when
    shuffling, [math.ceil((self.processes - 1) / 10)] otherwise. *)
Definition writer_process_num (processes : Z) (shuffle : bool) : Z :=
  if shuffle then (processes - 1) / 2 else ceil_div (processes - 1) 10.

Definition tokenize_process_num (processes : Z) (shuffle : bool) : Z :=
  processes - 1 - writer_process_num processes shuffle.

(** [process_dataset]: [if self.processes < 3] file split, else task split. *)
Definition process_dataset_topology (processes : Z) : topology :=
  if processes <? 3 then FileSplit else TaskSplit.

(** The processes of [task_split_process_dataset]: the parent runs
    [reader_process] itself and starts one [Process] per index of
    [range(self.tokenize_process_num)] and [range(self.writer_process_num)]. *)
Record roles : Type := Roles {
  reader_processes : Z;
  tokenizer_processes : Z;
  writer_processes : Z
}.

Definition task_split_roles (processes : Z) (shuffle : bool) : roles :=
  Roles 1 (Z.max 0 (tokenize_process_num processes shuffle))
          (Z.max 0 (writer_process_num processes shuffle)).

(** ** Shards *)

(** An array of integers: the shape of one row and the rows, each row in
    row-major order; [shape[0]] is the number of rows. *)
Record ndarray : Type := NdArray {
  row_shape : list nat;
  rows : list (list Z)
}.

Definition shape0 (a : ndarray) : Z := zlen (rows a).

Definition msg_concat_empty : string := "need at least one array to concatenate".
Definition msg_concat_dims : string :=
  "all the input array dimensions except for the concatenation axis must match exactly".
Definition msg_name_exists : string := "Unable to create dataset (name already exists)".
Definition msg_not_iterable : string := "'numpy.int64' object is not iterable".
Definition msg_choice_empty : string :=
  "'a' cannot be empty unless no samples are taken".
Definition msg_chunk_shape : string :=
  "Chunk shape must not be greater than data shape in any dimension.".
Definition msg_chunk_positive : string :=
  "All chunk dimensions must be positive (all chunk dimensions must be positive)".
Definition msg_resize : string :=
  "Unable to set dataset extent (dimension cannot exceed the existing maximal size)".
Definition msg_broadcast : string := "Can't broadcast".

Definition same_row_shape (a b : ndarray) : bool :=
  if decide (row_shape a = row_shape b) then true else false.

(** [np.concatenate(arrays, axis=0)]. *)
Definition np_concatenate (arrays : list ndarray) : outcome ndarray :=
  match arrays with
  | [] => Raise (ValueError msg_concat_empty)
  | a :: rest =>
      if forallb (same_row_shape a) rest
      then Ret (NdArray (row_shape a) (concat (map rows arrays)))
      else Raise (ValueError msg_concat_dims)
  end.

(** What a dataset of [dtype="i4"] keeps of an integer written to it:
    HDF5 converts to 32 bits and clips what does not fit. *)
Definition clamp_i4 (v : Z) : Z := Z.max (- 2 ^ 31) (Z.min (2 ^ 31 - 1) v).

Definition as_i4 (data : ndarray) : ndarray :=
  NdArray (row_shape data) (map (map clamp_i4) (rows data)).

(** [create_dataset(..., chunks=chunks_shape, ...)] with
    [chunks_shape = (1, *data.shape[1:])] for data of more than one
    dimension and [None] otherwise.  h5py refuses a chunk longer than the
    data in a dimension that [maxshape] does not leave open (one row of
    chunk for data without rows, when [maxshape] is not given), and HDF5
    refuses a chunk dimension of size 0. *)
Definition chunk_error (data : ndarray) (fixed_size : bool) : option exn :=
  match row_shape data with
  | [] => None
  | _ =>
      if fixed_size && (shape0 data <? 1)
      then Some (ValueError msg_chunk_shape)
      else if existsb (Nat.eqb 0) (row_shape data)
      then Some (ValueError msg_chunk_positive)
      else None
  end.

(** A shard file: its datasets by name (what is stored, 32-bit values),
    the [n_examples] attribute, and the names of the datasets created with
    [maxshape=(None, ...)], the ones that can grow. *)
Record h5file : Type := H5File {
  datasets : gmap string ndarray;
  n_examples_attr : option Z;
  resizable : gset string
}.

Definition empty_h5file : h5file := H5File ∅ None ∅.

(** A 32-bit array made by NumPy from a 64-bit scalar: the value wraps
    around. *)
Definition wrap_i4 (v : Z) : Z := (v + 2 ^ 31) mod 2 ^ 32 - 2 ^ 31.

(** What [save_buffer_to_hdf5] leaves in the new dataset.  The dataset is
    created from [data], HDF5 clipping the values.  When [write_in_batch]
    is off every row is then written again, [dset[idx] = f]: a row of an
    array of one dimension is a NumPy scalar, which h5py turns into a
    32-bit array with NumPy before it writes it; a row that is an array
    is converted by HDF5 as before. *)
Definition saved_data (write_in_batch : bool) (data : ndarray) : ndarray :=
  match row_shape data with
  | [] =>
      if write_in_batch then as_i4 data
      else NdArray [] (map (map wrap_i4) (rows data))
  | _ => as_i4 data
  end.

(** The loop of [save_buffer_to_hdf5]: each field is concatenated and a
    dataset of fixed size is created from it; [n_examples] keeps the row
    count of the field written last.  An exception leaves what was written
    so far. *)
Fixpoint save_buffer_loop (h5 : h5file) (buffer : list (string * list ndarray))
    (write_in_batch : bool) (n_examples : Z) : h5file * outcome Z :=
  match buffer with
  | [] => (h5, Ret n_examples)
  | (data_label, arrays) :: rest =>
      match np_concatenate arrays with
      | Ret data =>
          match chunk_error data true with
          | Some e => (h5, Raise e)
          | None =>
              match datasets h5 !! data_label with
              | Some _ => (h5, Raise (ValueError msg_name_exists))
              | None =>
                  save_buffer_loop
                    (H5File (<[data_label := saved_data write_in_batch data]>
                               (datasets h5))
                            (n_examples_attr h5) (resizable h5))
                    rest write_in_batch (shape0 data)
              end
          end
      | Raise e => (h5, Raise e)
      | OutOfFuel => (h5, OutOfFuel)
      end
  end.

Definition save_buffer_to_hdf5 (h5 : h5file) (buffer : list (string * list ndarray))
    (write_in_batch : bool) : h5file * outcome unit :=
  match save_buffer_loop h5 buffer write_in_batch 0 with
  | (h5, Ret n_examples) =>
      (H5File (datasets h5) (Some n_examples) (resizable h5), Ret tt)
  | (h5, Raise e) => (h5, Raise e)
  | (h5, OutOfFuel) => (h5, OutOfFuel)
  end.

(** Step 1 of [append_df_to_hdf5]: concatenate every field and assert that
    all have the row count of the first. *)
Fixpoint concat_fields (tokenized_data : list (string * list ndarray))
    (n_examples : option Z) : outcome (list (string * ndarray) * option Z) :=
  match tokenized_data with
  | [] => Ret ([], n_examples)
  | (data_label, data_list) :: rest =>
      let* data := np_concatenate data_list in
      let* n :=
        match n_examples with
        | None => Ret (Some (shape0 data))
        | Some n => if n =? shape0 data then Ret (Some n) else Raise AssertionError
        end in
      let* (data_dict, n) := concat_fields rest n in
      Ret ((data_label, data) :: data_dict, n)
  end.

(** Step 3: the positions drawn for each output file, files in the order of
    their first draw. *)
Fixpoint group_indices (pos : nat) (shuffled_indices : list nat)
    (groups : list (nat * list nat)) : list (nat * list nat) :=
  match shuffled_indices with
  | [] => groups
  | idx_seq :: rest =>
      let groups :=
        if existsb (fun g => (fst g =? idx_seq)%nat) groups then
          map (fun g => if (fst g =? idx_seq)%nat then (fst g, snd g ++ [pos]) else g)
              groups
        else groups ++ [(idx_seq, [pos])] in
      group_indices (S pos) rest groups
  end.

(** [data[indices]]. *)
Definition take_rows (data : ndarray) (indices : list nat) : ndarray :=
  NdArray (row_shape data) (omap (fun i => rows data !! i) indices).

(** The number of elements of an array of shape [shape]. *)
Definition shape_size (shape : list nat) : nat := fold_right Nat.mul 1%nat shape.

(** h5py's [expand_shape]: the shape of the written array is matched with
    the shape of the selection from the last dimension on; a dimension of
    the array must be 1 or that of the selection, and the dimensions left
    over must not exceed 1.  Both shapes are given last dimension first. *)
Fixpoint expand_shape (source count : list nat) : option (list nat) :=
  match count with
  | [] => if forallb (fun n => n <=? 1)%nat source then Some [] else None
  | c :: count' =>
      match source with
      | [] => cons 1%nat <$> expand_shape [] count'
      | t :: source' =>
          if (t =? 1)%nat || (c =? t)%nat
          then cons t <$> expand_shape source' count'
          else None
      end
  end.

(** [n] blocks of [size] elements. *)
Fixpoint blocks {A : Type} (size n : nat) (data : list A) : list (list A) :=
  match n with
  | O => []
  | S n' => take size data :: blocks size n' (drop size data)
  end.

(** The selection of shape [count] filled with an array of shape [eshape],
    repeated along the dimensions where [eshape] has 1. *)
Fixpoint tile (eshape count : list nat) (data : list Z) : list Z :=
  match eshape, count with
  | e :: eshape', c :: count' =>
      if (e =? c)%nat
      then concat (map (tile eshape' count')
                       (blocks (shape_size eshape') e data))
      else concat (replicate c (tile eshape' count' data))
  | _, _ => data
  end.

(** [dset[old_size:] = elements]: the rows written, when h5py can
    broadcast [elements] to the rows added. *)
Definition written_rows (old_row_shape : list nat) (elements : ndarray)
  : option (list (list Z)) :=
  if decide (row_shape elements = old_row_shape) then Some (rows elements)
  else
    let n := length (rows elements) in
    let count := n :: old_row_shape in
    match expand_shape (rev (n :: row_shape elements)) (rev count) with
    | Some eshape =>
        Some (blocks (shape_size old_row_shape) n
                     (tile (rev eshape) count (concat (rows elements))))
    | None => None
    end.

(** Step 4 for one field of one output file.  A new dataset is created
    with [maxshape=(None, ...)].  An existing one is resized and the new
    rows are written after the old ones: [resize] fails on a dataset that
    cannot grow, and the assignment fails, after the resize, when the rows
    cannot be broadcast. *)
Definition append_dataset (h5 : h5file) (data_label : string) (elements : ndarray)
  : h5file * outcome unit :=
  match datasets h5 !! data_label with
  | None =>
      match chunk_error elements false with
      | Some e => (h5, Raise e)
      | None =>
          (H5File (<[data_label := as_i4 elements]> (datasets h5))
                  (n_examples_attr h5) ({[data_label]} ∪ resizable h5),
           Ret tt)
      end
  | Some old =>
      if negb (bool_decide (data_label ∈ resizable h5))
         && (0 <? shape0 elements)
      then (h5, Raise (RuntimeError msg_resize))
      else
        let grown new_rows :=
          H5File (<[data_label := NdArray (row_shape old) (rows old ++ new_rows)]>
                    (datasets h5))
                 (n_examples_attr h5) (resizable h5) in
        match written_rows (row_shape old) elements with
        | Some new_rows => (grown (map (map clamp_i4) new_rows), Ret tt)
        | None =>
            (grown (replicate (length (rows elements))
                              (replicate (shape_size (row_shape old)) 0)),
             Raise (TypeError msg_broadcast))
        end
  end.

(** The loop over [data_dict.items()] for one output file. *)
Fixpoint write_fields (h5 : h5file) (data_dict : list (string * ndarray))
    (indices : list nat) : h5file * outcome unit :=
  match data_dict with
  | [] => (h5, Ret tt)
  | (data_label, data) :: rest =>
      match append_dataset h5 data_label (take_rows data indices) with
      | (h5, Ret _) => write_fields h5 rest indices
      | failed => failed
      end
  end.

(** Step 4 for one output file, opened in mode ["a"]: the attribute is
    raised before the fields are written. *)
Definition append_to_file (h5 : h5file) (data_dict : list (string * ndarray))
    (indices : list nat) : h5file * outcome unit :=
  let old_n_examples := default 0 (n_examples_attr h5) in
  let h5 := H5File (datasets h5) (Some (old_n_examples + zlen indices))
                   (resizable h5) in
  write_fields h5 data_dict indices.

(** The loop over [idx_seq_to_indices.items()]; an exception leaves the
    files as they are at that point. *)
Fixpoint write_groups (output_dir : gmap nat h5file)
    (data_dict : list (string * ndarray)) (groups : list (nat * list nat))
  : gmap nat h5file * outcome unit :=
  match groups with
  | [] => (output_dir, Ret tt)
  | (idx_seq, indices) :: rest =>
      let '(h5, result) :=
        append_to_file (default empty_h5file (output_dir !! idx_seq))
                       data_dict indices in
      let output_dir := <[idx_seq := h5]> output_dir in
      match result with
      | Ret _ => write_groups output_dir data_dict rest
      | Raise e => (output_dir, Raise e)
      | OutOfFuel => (output_dir, OutOfFuel)
      end
  end.

Section Append.

(** [np.random.choice(np.arange(total_output_files), n_examples)] for a
    population that is not empty. *)
Variable rng : Type.
Variable choice : Z -> Z -> rng -> list nat * rng.

(** [append_df_to_hdf5]: the output files are [output_chunk_<idx>.h5],
    kept here by their index; the result is the new directory, the
    generator and [n_examples]. *)
Definition append_df_to_hdf5 (total_output_files : Z)
    (tokenized_data : list (string * list ndarray))
    (output_dir : gmap nat h5file) (g : rng)
  : gmap nat h5file * rng * outcome Z :=
  match concat_fields tokenized_data None with
  | Ret (data_dict, Some n_examples) =>
      if (total_output_files <=? 0) && (0 <? n_examples)
      then (output_dir, g, Raise (ValueError msg_choice_empty))
      else
        let '(shuffled_indices, g) := choice total_output_files n_examples g in
        let groups := group_indices 0%nat shuffled_indices [] in
        let '(output_dir, result) := write_groups output_dir data_dict groups in
        (output_dir, g, let* _ := result in Ret n_examples)
  | Ret (_, None) => (output_dir, g, Raise (TypeError msg_not_iterable))
  | Raise e => (output_dir, g, Raise e)
  | OutOfFuel => (output_dir, g, OutOfFuel)
  end.

End Append.

(** ** Checkpoints *)

(** [str(n)] for an integer. *)
Definition py_str (n : Z) : string :=
  NilZero.string_of_int (Z.to_int n).

(** [update_checkpoint]: the text written to the worker's checkpoint file,
    [f"{d[0]}, {d[1]}, {d[2]}, {d[3]}, {d[4]}"]. *)
Definition update_checkpoint (checkpoint_data : list Z) : outcome string :=
  match checkpoint_data with
  | d0 :: d1 :: d2 :: d3 :: d4 :: _ =>
      Ret (py_str d0 ++ ", " ++ py_str d1 ++ ", " ++ py_str d2 ++ ", "
           ++ py_str d3 ++ ", " ++ py_str d4)%string
  | _ => Raise IndexError
  end.

(** [s.split(sep)] for a separator that is not empty: cut at each
    occurrence, left to right; [skip] counts the characters of a separator
    still to pass over. *)
Fixpoint split_aux (sep : string) (s : string) (skip : nat) (piece : string)
  : list string :=
  match s with
  | EmptyString => [piece]
  | String c rest =>
      match skip with
      | S k => split_aux sep rest k piece
      | O =>
          if String.prefix sep s
          then piece :: split_aux sep rest (String.length sep - 1) EmptyString
          else split_aux sep rest 0 (piece ++ String c EmptyString)
      end
  end.

Definition py_split (s sep : string) : list string :=
  split_aux sep s 0 EmptyString.

Definition is_space (c : ascii) : bool :=
  let n := nat_of_ascii c in
  ((n =? 32) || ((9 <=? n) && (n <=? 13)))%nat.

Definition is_digit (c : ascii) : bool :=
  let n := nat_of_ascii c in
  ((48 <=? n) && (n <=? 57))%nat.

Fixpoint lstrip (s : string) : string :=
  match s with
  | EmptyString => EmptyString
  | String c rest => if is_space c then lstrip rest else s
  end.

Fixpoint rstrip (s : string) : string :=
  match s with
  | EmptyString => EmptyString
  | String c rest =>
      match rstrip rest with
      | EmptyString => if is_space c then EmptyString else String c EmptyString
      | rest' => String c rest'
      end
  end.

(** Underscores may stand between two digits; they are taken out. *)
Fixpoint drop_underscores (s : string) (after_digit : bool) : option string :=
  match s with
  | EmptyString => Some EmptyString
  | String c rest =>
      if Ascii.eqb c "_" then
        match rest with
        | String d _ =>
            if after_digit && is_digit d then drop_underscores rest false else None
        | EmptyString => None
        end
      else option_map (String c) (drop_underscores rest (is_digit c))
  end.

(** [int(s)] for a decimal literal: surrounding white space, an optional
    sign, digits with single underscores between them; [None] stands for
    [ValueError]. *)
Definition py_int (s : string) : option Z :=
  let s := rstrip (lstrip s) in
  let '(negative, body) :=
    match s with
    | String c rest =>
        if Ascii.eqb c "-" then (true, rest)
        else if Ascii.eqb c "+" then (false, rest)
        else (false, s)
    | EmptyString => (false, s)
    end in
  match drop_underscores body false with
  | Some digits =>
      match NilZero.uint_of_string digits with
      | Some d => Some (Z.of_int (if negative then Neg d else Pos d))
      | None => None
      end
  | None => None
  end.

(** [[int(i) for i in xs]]. *)
Fixpoint ints_of (xs : list string) : option (list Z) :=
  match xs with
  | [] => Some []
  | x :: rest =>
      match py_int x, ints_of rest with
      | Some n, Some ns => Some (n :: ns)
      | _, _ => None
      end
  end.

Definition checkpoint : Type := (Z * Z * Z * Z * Z)%type.

(** The parsing inside [read_checkpoint]'s [try]: five integers separated
    by [", "]; [None] is any exception, which the [except] logs. *)
Definition parse_checkpoint (text : string) : option checkpoint :=
  match ints_of (py_split text ", ") with
  | Some [file_idx; doc_idx; start_chunk_number; num_chunks_written;
          num_sequences_written] =>
      Some (file_idx, doc_idx, start_chunk_number, num_chunks_written,
            num_sequences_written)
  | _ => None
  end.

(** [read_checkpoint] for one worker: [file] is the content of
    [<root>_process_<pid>.txt] when that file exists. *)
Definition read_process_checkpoint (resume_from_checkpoint : bool)
    (file : option string) : checkpoint :=
  match file with
  | Some text =>
      if resume_from_checkpoint then
        match parse_checkpoint text with
        | Some c => c
        | None => (0, 0, 0, 0, 0)
        end
      else (0, 0, 0, 0, 0)
  | None => (0, 0, 0, 0, 0)
  end.

(** [read_checkpoint(num_writers)]: one tuple per worker. *)
Definition read_checkpoint (resume_from_checkpoint : bool)
    (files : nat -> option string) (num_writers : nat) : list checkpoint :=
  map (fun pid => read_process_checkpoint resume_from_checkpoint (files pid))
      (seq 0 num_writers).


(** ** Work distribution *)

(** [range(n)]. *)
Definition py_range (n : Z) : list Z := map Z.of_nat (seq 0 (Z.to_nat n)).

(** [l[i]]: a negative index counts from the end; [None] stands for
    [IndexError]. *)
Definition py_index {A : Type} (l : list A) (i : Z) : option A :=
  if i <? 0 then
    if 0 <=? zlen l + i then l !! Z.to_nat (zlen l + i) else None
  else l !! Z.to_nat i.

(** [l[i] = x] for an index that [py_index] accepts. *)
Definition py_set_index {A : Type} (l : list A) (i : Z) (x : A) : list A :=
  if i <? 0 then <[Z.to_nat (zlen l + i) := x]> l else <[Z.to_nat i := x]> l.

(** [chunks_per_writer] in [task_split_process_dataset]: for each writer the
    number of tokenizer queues it serves, which is the number of
    end-of-stream sentinels it waits for. *)
Definition chunks_per_writer (tokenize_process_num writer_process_num : Z)
  : list Z :=
  map (fun i =>
         if i <? tokenize_process_num mod writer_process_num
         then tokenize_process_num / writer_process_num + 1
         else tokenize_process_num / writer_process_num)
      (py_range writer_process_num).

(** The queue index kept by [writer_process]: after each [get] it moves on
    by [writer_process_num], and goes back to [writer_idx] once it is past
    the last queue. *)
Definition next_tokenizer_idx (tokenize_process_num writer_process_num
    writer_idx tokenizer_idx : Z) : Z :=
  let tokenizer_idx := tokenizer_idx + writer_process_num in
  if tokenize_process_num <=? tokenizer_idx then writer_idx else tokenizer_idx.

(** [writer_index = tokenizer_index % self.writer_process_num] in
    [reader_process]. *)
Definition writer_index (writer_process_num tokenizer_index : Z) : Z :=
  tokenizer_index mod writer_process_num.

(** [sorted(process_checkpoints, key=lambda x: x[2])[0]]: the sort is
    stable, so this is the first checkpoint with the least start chunk. *)
Definition start_chunk (c : checkpoint) : Z :=
  let '(_, _, start_chunk_number, _, _) := c in start_chunk_number.

Fixpoint first_checkpoint (process_checkpoints : list checkpoint)
  : option checkpoint :=
  match process_checkpoints with
  | [] => None
  | c :: rest =>
      match first_checkpoint rest with
      | Some c' => if start_chunk c' <? start_chunk c then Some c' else Some c
      | None => Some c
      end
  end.

Section Reader.

(** The chunks of documents that [Reader.stream_data] yields. *)
Variable df_chunk : Type.
Variable stream_data : Z * Z -> list df_chunk.

(** What has been put in a queue, oldest first; [None] is the sentinel. *)
Definition queue : Type := list (option (Z * df_chunk)).

(** The body of [for df_chunk in reader.stream_data(checkpoint_args)];
    [None] is an exception ([ZeroDivisionError] or [IndexError]). *)
Definition reader_body (tokenize_process_num writer_process_num : Z)
    (process_checkpoints : list checkpoint) (start_chunk_number : Z)
    (st : Z * list queue) (chunk : df_chunk) : option (Z * list queue) :=
  let '(chunk_number, tokenizer_queues) := st in
  if tokenize_process_num =? 0 then None
  else
    let tokenizer_index :=
      (chunk_number - start_chunk_number) mod tokenize_process_num in
    if writer_process_num =? 0 then None
    else
      match py_index process_checkpoints
                     (writer_index writer_process_num tokenizer_index) with
      | None => None
      | Some c =>
          if chunk_number <? start_chunk c then
            Some (chunk_number + 1, tokenizer_queues)
          else
            match py_index tokenizer_queues tokenizer_index with
            | None => None
            | Some q =>
                Some (chunk_number + 1,
                      py_set_index tokenizer_queues tokenizer_index
                                   (q ++ [Some (chunk_number, chunk)]))
            end
      end.

(** The loop: an exception ends it, and the queues keep what they got. *)
Fixpoint reader_loop (tokenize_process_num writer_process_num : Z)
    (process_checkpoints : list checkpoint) (start_chunk_number : Z)
    (st : Z * list queue) (chunks : list df_chunk) : list queue :=
  match chunks with
  | [] => snd st
  | chunk :: rest =>
      match reader_body tokenize_process_num writer_process_num
                        process_checkpoints start_chunk_number st chunk with
      | Some st' =>
          reader_loop tokenize_process_num writer_process_num
                      process_checkpoints start_chunk_number st' rest
      | None => snd st
      end
  end.

(** [reader_process]: the [except] logs whatever was raised, the [finally]
    puts the sentinel in every tokenizer queue. *)
Definition reader_process (tokenize_process_num writer_process_num : Z)
    (process_checkpoints : list checkpoint) (tokenizer_queues : list queue)
  : list queue :=
  let tokenizer_queues :=
    match first_checkpoint process_checkpoints with
    | None => tokenizer_queues
    | Some (file_idx, doc_start_idx, start_chunk_number, _, _) =>
        reader_loop tokenize_process_num writer_process_num
                    process_checkpoints start_chunk_number
                    (start_chunk_number, tokenizer_queues)
                    (stream_data (file_idx, doc_start_idx))
    end in
  map (fun tq => tq ++ [None]) tokenizer_queues.

End Reader.

(** [file_split_process_dataset]: file [idx] goes to the list of process
    [idx % self.processes].  [None] is the [ZeroDivisionError] or
    [IndexError] of a process count that is not positive. *)
Fixpoint assign_files {A : Type} (processes : Z) (idx : Z)
    (input_files : list A) (process_file_lists : list (list A))
  : option (list (list A)) :=
  match input_files with
  | [] => Some process_file_lists
  | file :: rest =>
      if processes =? 0 then None
      else
        let target_process := idx mod processes in
        match py_index process_file_lists target_process with
        | None => None
        | Some files =>
            assign_files processes (idx + 1) rest
              (py_set_index process_file_lists target_process (files ++ [file]))
        end
  end.

Definition process_file_lists {A : Type} (processes : Z) (input_files : list A)
  : option (list (list A)) :=
  assign_files processes 0 input_files
               (map (fun _ => []) (py_range processes)).

(** ** Statistics *)

(** A [multiprocessing.Value("Q", ...)] holds an unsigned 64-bit integer;
    storing a value that does not fit keeps its low 64 bits. *)
Definition uint64 (n : Z) : Z := n mod 2 ^ 64.

(** [update_data_stats]: [data_stats] is given by its items.  With
    [shared_stats] the entries of [final_data_stats] are the shared
    counters of a plain dict, and a key that is missing raises
    [KeyError], returned with what was updated before it; without, the
    callers pass a [defaultdict(int)], where a missing key counts from 0. *)
Fixpoint update_data_stats (final_data_stats : gmap string Z)
    (data_stats : list (string * Z)) (shared_stats : bool)
  : gmap string Z * option string :=
  match data_stats with
  | [] => (final_data_stats, None)
  | (key, value) :: rest =>
      if shared_stats then
        match final_data_stats !! key with
        | Some old =>
            update_data_stats (<[key := uint64 (old + value)]> final_data_stats)
                              rest shared_stats
        | None => (final_data_stats, Some key)
        end
      else
        update_data_stats
          (<[key := default 0 (final_data_stats !! key) + value]> final_data_stats)
          rest shared_stats
  end.

(** * utils.py: tokenizing a long text in pieces *)

(** [s.find(sub, start)]: the lowest index not below [start] at which
    [sub] starts, or [-1]; a negative [start] counts from the end. *)
Fixpoint find_aux (sub s : string) (pos skip : nat) : Z :=
  match skip with
  | S k =>
      match s with
      | EmptyString => -1
      | String _ rest => find_aux sub rest (S pos) k
      end
  | O =>
      if String.prefix sub s then Z.of_nat pos
      else
        match s with
        | EmptyString => -1
        | String _ rest => find_aux sub rest (S pos) 0
        end
  end.

Definition py_find (s sub : string) (start : Z) : Z :=
  let start :=
    if start <? 0 then Z.max 0 (Z.of_nat (String.length s) + start)
    else start in
  find_aux sub s 0 (Z.to_nat start).

(** [s[a:b]] for indices that are not negative. *)
Definition str_slice (s : string) (a b : Z) : string :=
  substring (Z.to_nat a) (Z.to_nat b - Z.to_nat a) s.

Section SplitText.

Variable tokenizer_encode : string -> list Z.

(** One pass of [while curr_start < len(text)]; the state is
    [curr_start], [tok_ids] and [bos_token_id], which the first pass binds. *)
Definition split_text_body (text : string) (max_tok_len : Z)
    (remove_bos_in_chunks : bool) (st : Z * list Z * list Z)
  : outcome (Z * list Z * list Z) :=
  let '(curr_start, tok_ids, bos_token_id) := st in
  let n := Z.of_nat (String.length text) in
  let curr_end := Z.min (py_find text " " (curr_start + max_tok_len)) n in
  let '(curr_substr, curr_end) :=
    if curr_end <? 0 then (str_slice text curr_start n, n)
    else (str_slice text curr_start curr_end, curr_end) in
  let* bos_token_id :=
    (if curr_start =? 0 then
       match tokenizer_encode curr_substr with
       | t :: _ => Ret [t]
       | [] => Raise IndexError
       end
     else Ret bos_token_id) in
  let curr_tok_ids :=
    if remove_bos_in_chunks then tail (tokenizer_encode curr_substr)
    else tokenizer_encode curr_substr in
  Ret (curr_end, tok_ids ++ curr_tok_ids, bos_token_id).

Fixpoint split_text_loop (fuel : nat) (text : string) (max_tok_len : Z)
    (remove_bos_in_chunks : bool) (st : Z * list Z * list Z)
  : outcome (Z * list Z * list Z) :=
  if fst (fst st) <? Z.of_nat (String.length text) then
    match fuel with
    | O => OutOfFuel
    | S fuel' =>
        let* st' := split_text_body text max_tok_len remove_bos_in_chunks st in
        split_text_loop fuel' text max_tok_len remove_bos_in_chunks st'
    end
  else Ret st.

(** [split_text_and_tokenize(text, tokenizer, max_tok_len,
    remove_bos_in_chunks)]. *)
Definition split_text_and_tokenize (fuel : nat) (text : string)
    (max_tok_len : Z) (remove_bos_in_chunks : bool) : outcome (list Z) :=
  if (String.length text =? 0)%nat then Ret []
  else
    let* (_, tok_ids, bos_token_id) :=
      split_text_loop fuel text max_tok_len remove_bos_in_chunks (0, [], []) in
    Ret (if remove_bos_in_chunks then bos_token_id ++ tok_ids else tok_ids).

End SplitText.

(** * utils.py: from character ranges to token ranges *)

Definition msg_token_start : string :=
  "The implementation of offset mapping of this tokenizer may be incorrect. Check the huggingface implementation for more details.".
Definition msg_token_end : string :=
  "The huggingface implementation of offset mapping of this tokenizer may be incorrect. Check the huggingface implementation for more details.".

(** [next((i for i in range(start, len(l)) if test(l[i])), None)] for a
    [start] that is not negative; [pos] is the index of the head of [l]. *)
Fixpoint first_index_from {A : Type} (test : A -> bool) (l : list A)
    (pos start : nat) : option nat :=
  match l with
  | [] => None
  | x :: rest =>
      if (start <=? pos)%nat && test x then Some pos
      else first_index_from test rest (S pos) start
  end.

Section TokenRange.

(** The values of ["loss_weight"] and ["attention_mask"], which are only
    passed on. *)
Variables loss_weight_t attention_mask_t : Type.

(** A semantic region with its ["indices"]; [region.get] gives [None] for
    a key that is missing. *)
Record region : Type := Region {
  region_indices : Z * Z;
  region_loss_weight : option loss_weight_t;
  region_attention_mask : option attention_mask_t
}.

(** [find_token_range(region, offsets, starting_offset_position)] for a
    starting position that is not negative. *)
Definition find_token_range (r : region) (offsets : list (Z * Z))
    (starting_offset_position : nat) : outcome region :=
  let '(string_start, string_end) := region_indices r in
  match first_index_from
          (fun o => ((fst o <=? string_start) && (string_start <? snd o))
                    || (string_start <? fst o))
          offsets 0 starting_offset_position with
  | None => Raise (ValueError msg_token_start)
  | Some token_start =>
      match first_index_from
              (fun o => (string_end <=? snd o) && (fst o <? string_end))
              offsets 0 starting_offset_position with
      | None => Raise (ValueError msg_token_end)
      | Some token_end =>
          Ret (Region (Z.of_nat token_start, Z.of_nat token_end + 1)
                      (region_loss_weight r) (region_attention_mask r))
      end
  end.

End TokenRange.

(** * utils.py: regions of a formatted string *)

(** [s.replace(old, "")]: the occurrences of [old] that do not overlap,
    from the left, are taken out; an empty [old] changes nothing. *)
Fixpoint remove_aux (old s : string) (skip : nat) : string :=
  match s with
  | EmptyString => EmptyString
  | String c rest =>
      match skip with
      | S k => remove_aux old rest k
      | O =>
          if String.prefix old s then remove_aux old rest (String.length old - 1)
          else String c (remove_aux old rest 0)
      end
  end.

Definition py_remove (s old : string) : string :=
  match old with
  | EmptyString => s
  | _ => remove_aux old s 0
  end.

Definition msg_int_plus_none : string :=
  "unsupported operand type(s) for +: 'int' and 'NoneType'".

(** A text region: the keys ["region_identifier"], ["region_len"] and
    ["indices"], each possibly missing, and the keys that
    [find_region_in_formatted_string] does not touch. *)
Record text_region (other : Type) : Type := TextRegion {
  tr_identifier : option string;
  tr_len : option Z;
  tr_indices : option (Z * Z);
  tr_other : other
}.
Arguments TextRegion {other}.
Arguments tr_identifier {other}.
Arguments tr_len {other}.
Arguments tr_indices {other}.
Arguments tr_other {other}.

(** The body of [for semantic_region in text_semantic_region_list]; the
    state is [formatted_data] and [string_search_idx]. *)
Definition find_region_body {other : Type} (st : string * Z)
    (semantic_region : text_region other)
  : outcome (string * Z * text_region other) :=
  let '(formatted_data, string_search_idx) := st in
  let region_identifier := default EmptyString (tr_identifier semantic_region) in
  let region_len := tr_len semantic_region in
  let region_identifier_start_idx :=
    py_find formatted_data region_identifier string_search_idx in
  if region_identifier_start_idx =? -1 then Raise AssertionError
  else
    let formatted_data := py_remove formatted_data region_identifier in
    let start_idx := region_identifier_start_idx in
    match region_len with
    | None => Raise (TypeError msg_int_plus_none)
    | Some region_len =>
        let end_idx := start_idx + region_len in
        Ret (formatted_data, end_idx,
             TextRegion None (Some region_len) (Some (start_idx, end_idx))
                        (tr_other semantic_region))
    end.

Fixpoint find_region_loop {other : Type} (st : string * Z)
    (regions : list (text_region other))
  : outcome (string * list (text_region other)) :=
  match regions with
  | [] => Ret (fst st, [])
  | semantic_region :: rest =>
      let* (formatted_data, string_search_idx, semantic_region) :=
        find_region_body st semantic_region in
      let* (formatted_data, rest) :=
        find_region_loop (formatted_data, string_search_idx) rest in
      Ret (formatted_data, semantic_region :: rest)
  end.

(** [find_region_in_formatted_string(text_semantic_region_list,
    formatted_data)]. *)
Definition find_region_in_formatted_string {other : Type}
    (text_semantic_region_list : list (text_region other))
    (formatted_data : string)
  : outcome (string * list (text_region other)) :=
  find_region_loop (formatted_data, 0) text_semantic_region_list.

(** * utils.py: end-of-sequence tokens after semantic regions *)

(** [s[a:b]] for a string, any integers. *)
Definition py_str_slice (s : string) (a b : Z) : string :=
  let i := clamp_index (String.length s) a in
  let j := clamp_index (String.length s) b in
  substring i (j - i) s.

(** A data range: its ["indices"], the ["handle_turn_token"] key when it
    is set, and the keys that are only passed on. *)
Record data_range (other : Type) : Type := DataRange {
  dr_indices : Z * Z;
  dr_handle_turn_token : option bool;
  dr_other : other
}.
Arguments DataRange {other}.
Arguments dr_indices {other}.
Arguments dr_handle_turn_token {other}.
Arguments dr_other {other}.

Definition set_indices {other : Type} (r : data_range other) (indices : Z * Z)
  : data_range other :=
  DataRange indices (dr_handle_turn_token r) (dr_other r).

Definition set_handle_turn_token {other : Type} (r : data_range other)
  : data_range other :=
  DataRange (dr_indices r) (Some true) (dr_other r).

(** The first [while]: the occurrences of [eos_token] from
    [start_search_index] on, each search starting after the last find. *)
Fixpoint collect_eos (fuel : nat) (formatted_data eos_token : string)
    (start_search_index : Z) (eos_indices : list (Z * Z))
  : outcome (list (Z * Z)) :=
  if start_search_index <? Z.of_nat (String.length formatted_data) then
    match fuel with
    | O => OutOfFuel
    | S fuel' =>
        let eos_start_idx :=
          py_find formatted_data eos_token start_search_index in
        if eos_start_idx =? -1 then Ret eos_indices
        else
          let eos_end_idx :=
            eos_start_idx + Z.of_nat (String.length eos_token) in
          collect_eos fuel' formatted_data eos_token eos_end_idx
                      (eos_indices ++ [(eos_start_idx, eos_end_idx)])
    end
  else Ret eos_indices.

Section AppendEos.

Context {other : Type}.

(** [image_start_idx == -1] for the text between a region and an
    end-of-sequence token. *)
Definition no_image_between (formatted_data : string)
    (image_token : option string) (region_end_idx eos_start_idx : Z) : bool :=
  match image_token with
  | None => true
  | Some tok =>
      py_find (py_str_slice formatted_data region_end_idx eos_start_idx) tok 0
      =? -1
  end.

(** One pass of the second [while]; the state is [current_eos_pos],
    [current_data_range_pos] and [data_ranges]. *)
Definition attach_body (formatted_data : string) (image_token : option string)
    (eos_indices : list (Z * Z))
    (st : nat * nat * list (data_range other))
  : outcome (nat * nat * list (data_range other)) :=
  let '(current_eos_pos, current_data_range_pos, data_ranges) := st in
  match eos_indices !! current_eos_pos,
        data_ranges !! current_data_range_pos with
  | Some (eos_start_idx, eos_end_idx), Some region =>
      let '(region_start_idx, region_end_idx) := dr_indices region in
      if (region_start_idx <=? eos_start_idx) && (eos_start_idx <? region_end_idx)
      then Ret (S current_eos_pos, current_data_range_pos, data_ranges)
      else
        let attach :=
          if no_image_between formatted_data image_token region_end_idx
                              eos_start_idx
          then (S current_eos_pos,
                <[current_data_range_pos :=
                    set_indices region (region_start_idx, eos_end_idx)]>
                  data_ranges)
          else (current_eos_pos, data_ranges) in
        if (current_data_range_pos + 1 <? length data_ranges)%nat then
          match data_ranges !! (current_data_range_pos + 1)%nat with
          | Some next_region =>
              let '(next_region_start_idx, _) := dr_indices next_region in
              let '(current_eos_pos, data_ranges) :=
                if (region_end_idx <=? eos_start_idx)
                   && (eos_start_idx <? next_region_start_idx)
                then attach else (current_eos_pos, data_ranges) in
              Ret (current_eos_pos, S current_data_range_pos, data_ranges)
          | None => Raise IndexError
          end
        else
          let '(current_eos_pos, data_ranges) := attach in
          Ret (current_eos_pos, S current_data_range_pos, data_ranges)
  | _, _ => Raise IndexError
  end.

Fixpoint attach_loop (fuel : nat) (formatted_data : string)
    (image_token : option string) (eos_indices : list (Z * Z))
    (st : nat * nat * list (data_range other))
  : outcome (list (data_range other)) :=
  let '(current_eos_pos, current_data_range_pos, data_ranges) := st in
  if (current_eos_pos <? length eos_indices)%nat
     && (current_data_range_pos <? length data_ranges)%nat
  then
    match fuel with
    | O => OutOfFuel
    | S fuel' =>
        let* st' := attach_body formatted_data image_token eos_indices st in
        attach_loop fuel' formatted_data image_token eos_indices st'
    end
  else Ret data_ranges.

(** The body of [for i in range(1, len(data_ranges))]. *)
Definition turn_token_body (formatted_data : string)
    (data_ranges : list (data_range other)) (i : nat)
  : outcome (list (data_range other)) :=
  match data_ranges !! i, data_ranges !! (i - 1)%nat with
  | Some cur, Some prev =>
      let '(start_idx, end_idx) := dr_indices cur in
      let '(_, previous_end_idx) := dr_indices prev in
      let data_ranges :=
        if negb (previous_end_idx =? start_idx)
        then <[(i - 1)%nat := set_handle_turn_token prev]> data_ranges
        else data_ranges in
      if (i =? length data_ranges - 1)%nat
         && (end_idx <? Z.of_nat (String.length formatted_data))
      then
        match data_ranges !! i with
        | Some cur => Ret (<[i := set_handle_turn_token cur]> data_ranges)
        | None => Raise IndexError
        end
      else Ret data_ranges
  | _, _ => Raise IndexError
  end.

Fixpoint turn_token_loop (formatted_data : string)
    (data_ranges : list (data_range other)) (idxs : list nat)
  : outcome (list (data_range other)) :=
  match idxs with
  | [] => Ret data_ranges
  | i :: rest =>
      let* data_ranges := turn_token_body formatted_data data_ranges i in
      turn_token_loop formatted_data data_ranges rest
  end.

(** [append_eos_to_multiple_semantic_regions]; a missing or empty
    [eos_token] is [None] or the empty string. *)
Definition append_eos_to_multiple_semantic_regions (fuel : nat)
    (formatted_data : string) (data_ranges : list (data_range other))
    (eos_token image_token : option string) (is_chat_data : bool)
  : outcome (list (data_range other)) :=
  match data_ranges, eos_token with
  | [], _ | _, None | _, Some EmptyString => Ret data_ranges
  | first :: _, Some eos_token =>
      let start_search_index := fst (dr_indices first) in
      let* eos_indices :=
        collect_eos fuel formatted_data eos_token start_search_index [] in
      let* data_ranges :=
        attach_loop fuel formatted_data image_token eos_indices
                    (0%nat, 0%nat, data_ranges) in
      if negb is_chat_data || (1 <? length eos_indices)%nat then Ret data_ranges
      else
        turn_token_loop formatted_data data_ranges
                        (seq 1 (length data_ranges - 1))
  end.

End AppendEos.

(** * utils.py: truncation of a tokenized sequence *)

(** [del l[a:b]]. *)
Definition del_slice {A : Type} (l : list A) (a b : Z) : list A :=
  let i := clamp_index (length l) a in
  let j := clamp_index (length l) b in
  if (i <? j)%nat then take i l ++ drop j l else l.

(** [sorted(l, key=key, reverse=reverse)]: stable, also when reversed. *)
Fixpoint insert_sorted {A : Type} (goes_first : A -> A -> bool) (x : A)
    (l : list A) : list A :=
  match l with
  | [] => [x]
  | y :: l' =>
      if goes_first x y then x :: y :: l'
      else y :: insert_sorted goes_first x l'
  end.

Definition py_sorted {A : Type} (key : A -> Z) (reverse : bool) (l : list A)
  : list A :=
  foldr (insert_sorted
           (fun x y => if reverse then key y <=? key x else key x <=? key y))
        [] l.

(** Whether ["indices"] is a tuple or a list: a list can be assigned to. *)
Inductive seq_kind : Type := PyTuple | PyList.

(** A tokenized semantic region: its ["role"], its ["indices"], and the
    keys that are only passed on.  Every region has an ["indices"] object
    of its own. *)
Record token_region (other : Type) : Type := TokenRegion {
  tk_role : string;
  tk_kind : seq_kind;
  tk_indices : Z * Z;
  tk_other : other
}.
Arguments TokenRegion {other}.
Arguments tk_role {other}.
Arguments tk_kind {other}.
Arguments tk_indices {other}.
Arguments tk_other {other}.

(** The literals ['part_one'] and ['part_two'], ['keep_start'] and
    ['keep_end'] kept in the tuples of [_truncate]. *)
Inductive part_name : Type := part_one | part_two.
Inductive keep_mode : Type := keep_start | keep_end.

Definition part_name_eqb (p q : part_name) : bool :=
  match p, q with
  | part_one, part_one | part_two, part_two => true
  | _, _ => false
  end.

(** [(index, part, (start, end))] and [(index, part, mode, (start, end))]. *)
Definition turn_entry : Type := nat * part_name * (Z * Z).
Definition turn_removal : Type := nat * part_name * keep_mode * (Z * Z).

(** The second component of the result: the token ids, or the [{}] given
    back when the second part cannot be truncated enough. *)
Inductive truncated : Type :=
| Tokens (token_ids : list Z)
| EmptyDict.

(** [combined_rem_dict.get((index, part))]: the value stored last. *)
Definition rem_get (combined_rem : list turn_removal) (index : nat)
    (part : part_name) : option (keep_mode * (Z * Z)) :=
  match List.find (fun r : turn_removal =>
                     let '(i, p, _, _) := r in
                     (i =? index)%nat && part_name_eqb p part)
                  (rev combined_rem) with
  | Some (_, _, mode, removed) => Some (mode, removed)
  | None => None
  end.

(** One pass of the loop over [combined_list]; the state is
    [updated_ranges] and [cumulative_shift]. *)
Definition updated_range (combined_rem : list turn_removal)
    (st : list (Z * Z) * Z) (e : turn_entry) : list (Z * Z) * Z :=
  let '(updated_ranges, cumulative_shift) := st in
  let '(index, part, (original_start, original_end)) := e in
  match rem_get combined_rem index part with
  | Some (mode, (removed_start, removed_end)) =>
      let current_shift := removed_end - removed_start in
      let new_range :=
        match mode with
        | keep_start =>
            (original_start - cumulative_shift, removed_start - cumulative_shift)
        | keep_end =>
            (removed_end - cumulative_shift - current_shift,
             original_end - cumulative_shift - current_shift)
        end in
      (updated_ranges ++ [new_range], cumulative_shift + current_shift)
  | None =>
      (updated_ranges
         ++ [(original_start - cumulative_shift,
              original_end - cumulative_shift)],
       cumulative_shift + 0)
  end.

(** [region['indices'] = updated_ranges[index]]: the new value is a tuple. *)
Definition set_region_indices {other : Type} (r : token_region other)
    (indices : Z * Z) : token_region other :=
  TokenRegion (tk_role r) PyTuple indices (tk_other r).

Definition update_semantic_regions {other : Type}
    (tokenized_semantic_region_list : list (token_region other))
    (part_one_list part_two_list : list turn_entry)
    (part_one_indices_to_remove part_two_indices_to_remove : list turn_removal)
  : outcome (list (token_region other)) :=
  let combined_list :=
    py_sorted (fun x : turn_entry => fst (snd x)) false
              (part_one_list ++ part_two_list) in
  let combined_rem :=
    part_one_indices_to_remove ++ part_two_indices_to_remove in
  let '(updated_ranges, _) :=
    fold_left (updated_range combined_rem) combined_list ([], 0) in
  if negb (length updated_ranges =? length tokenized_semantic_region_list)%nat
  then Raise AssertionError
  else Ret (zip_with set_region_indices tokenized_semantic_region_list
                     updated_ranges).

(** [del token_ids[start:end]] for every range, in the order given. *)
Definition del_ranges (token_ids : list Z) (ranges : list turn_removal)
  : list Z :=
  fold_left (fun t (r : turn_removal) =>
               let '(_, _, _, (start, end_)) := r in del_slice t start end_)
            ranges token_ids.

Definition enumerate_part (part : part_name) (l : list (Z * Z))
  : list turn_entry :=
  imap (fun i x => (i, part, x)) l.

Definition turn_length (e : turn_entry) : Z := snd (snd e) - fst (snd e).

Definition removal_start (r : turn_removal) : Z := fst (snd r).

Section Truncate.

Context {other : Type}.
Variables max_sequence_length max_turn_length : Z.
Variable prompt_truncation_mode : string.

(** What the first loop appends for a turn; nothing for a mode that is
    neither ["keep_start"] nor ["keep_end"]. *)
Definition part_one_removal (index : nat) (part : part_name) (start end_ : Z)
    (amount : Z) : list turn_removal :=
  if String.eqb prompt_truncation_mode "keep_start"
  then [(index, part, keep_start, (end_ - amount, end_))]
  else if String.eqb prompt_truncation_mode "keep_end"
  then [(index, part, keep_end, (start, start + amount))]
  else [].

(** The loop over [sorted_part_one]: [inl] is the [return] inside the
    loop, [inr] the state when the loop runs to its end. *)
Fixpoint part_one_loop
    (tokenized_semantic_region_list : list (token_region other))
    (token_ids : list Z) (part_one_list part_two_list : list turn_entry)
    (sorted_part_one : list turn_entry) (truncate_length : Z)
    (part_one_indices_to_remove : list turn_removal)
  : outcome (list (token_region other) * truncated
             + Z * list turn_removal) :=
  match sorted_part_one with
  | [] => Ret (inr (truncate_length, part_one_indices_to_remove))
  | (index, part, (start, end_)) :: rest =>
      let length_of_turn := end_ - start in
      if max_turn_length >=? length_of_turn then
        part_one_loop tokenized_semantic_region_list token_ids part_one_list
                      part_two_list rest truncate_length
                      part_one_indices_to_remove
      else
        let available_truncate := length_of_turn - max_turn_length in
        if available_truncate <? truncate_length then
          part_one_loop tokenized_semantic_region_list token_ids part_one_list
                        part_two_list rest
                        (truncate_length - available_truncate)
                        (part_one_indices_to_remove
                           ++ part_one_removal index part start end_
                                               available_truncate)
        else
          let part_one_indices_to_remove :=
            part_one_indices_to_remove
              ++ part_one_removal index part start end_ truncate_length in
          let range_of_indices_to_remove_part_one :=
            py_sorted removal_start true part_one_indices_to_remove in
          let token_ids :=
            del_ranges token_ids range_of_indices_to_remove_part_one in
          if negb (Z.of_nat (length token_ids) =? max_sequence_length)
          then Raise AssertionError
          else
            let* tokenized_semantic_region_list :=
              update_semantic_regions tokenized_semantic_region_list
                part_one_list part_two_list part_one_indices_to_remove [] in
            Ret (inl (tokenized_semantic_region_list, Tokens token_ids))
  end.

(** The loop over [sorted_part_two], with its [break]. *)
Fixpoint part_two_loop (sorted_part_two : list turn_entry)
    (truncate_length : Z) (part_two_indices_to_remove : list turn_removal)
  : list turn_removal :=
  match sorted_part_two with
  | [] => part_two_indices_to_remove
  | (index, part, (start, end_)) :: rest =>
      let length_of_turn := end_ - start in
      if max_turn_length >=? length_of_turn then
        part_two_loop rest truncate_length part_two_indices_to_remove
      else
        let available_truncate := length_of_turn - max_turn_length in
        if available_truncate <? truncate_length then
          part_two_loop rest (truncate_length - available_truncate)
            (part_two_indices_to_remove
               ++ [(index, part, keep_start,
                    (end_ - available_truncate, end_))])
        else
          part_two_indices_to_remove
            ++ [(index, part, keep_start, (end_ - truncate_length, end_))]
  end.

Definition truncate_parts
    (tokenized_semantic_region_list : list (token_region other))
    (token_ids : list Z) (part_one_list part_two_list : list (Z * Z))
    (truncate_length : Z)
  : outcome (list (token_region other) * truncated) :=
  let part_one_list := enumerate_part part_one part_one_list in
  let part_two_list := enumerate_part part_two part_two_list in
  let sorted_part_one := py_sorted turn_length true part_one_list in
  let* first_part :=
    part_one_loop tokenized_semantic_region_list token_ids part_one_list
                  part_two_list sorted_part_one truncate_length [] in
  match first_part with
  | inl result => Ret result
  | inr (truncate_length, part_one_indices_to_remove) =>
      if negb (0 <? truncate_length) then Raise AssertionError
      else
        let total_possible_truncation :=
          fold_left (fun total (e : turn_entry) =>
                       total + (turn_length e - max_turn_length))
                    part_two_list 0 in
        if total_possible_truncation <? truncate_length
        then Ret (tokenized_semantic_region_list, EmptyDict)
        else
          let sorted_part_two := py_sorted turn_length true part_two_list in
          let part_two_indices_to_remove :=
            part_two_loop sorted_part_two truncate_length [] in
          let range_of_indices_to_remove :=
            py_sorted removal_start true
                      (part_one_indices_to_remove
                         ++ part_two_indices_to_remove) in
          let token_ids := del_ranges token_ids range_of_indices_to_remove in
          if negb (Z.of_nat (length token_ids) =? max_sequence_length)
          then Raise AssertionError
          else
            let* tokenized_semantic_region_list :=
              update_semantic_regions tokenized_semantic_region_list
                part_one_list part_two_list part_one_indices_to_remove
                part_two_indices_to_remove in
            Ret (tokenized_semantic_region_list, Tokens token_ids)
  end.

(** [_get_truncation_indices]: the indices of the regions of a role, and
    whether the role is a key. *)
Definition has_role (regions : list (token_region other)) (role : string)
  : bool :=
  existsb (fun r => String.eqb (tk_role r) role) regions.

Definition truncation_indices (regions : list (token_region other))
    (role : string) : list (Z * Z) :=
  map tk_indices (List.filter (fun r => String.eqb (tk_role r) role) regions).

(** [truncation_indices['prompt'][0][0] = 0] when it is not [0]: the
    first prompt region's own ["indices"] is assigned to. *)
Fixpoint adjust_first_prompt (regions : list (token_region other))
  : outcome (list (token_region other)) :=
  match regions with
  | [] => Raise IndexError
  | r :: rest =>
      if String.eqb (tk_role r) "prompt" then
        if negb (fst (tk_indices r) =? 0) then
          match tk_kind r with
          | PyTuple =>
              Raise (TypeError
                       "'tuple' object does not support item assignment")
          | PyList =>
              Ret (TokenRegion (tk_role r) PyList (0, snd (tk_indices r))
                               (tk_other r) :: rest)
          end
        else Ret regions
      else
        let* rest := adjust_first_prompt rest in Ret (r :: rest)
  end.

Definition truncate_sequence (token_ids : list Z)
    (tokenized_semantic_region_list : list (token_region other))
  : outcome (list (token_region other) * truncated) :=
  if negb (String.eqb prompt_truncation_mode "keep_start"
           || String.eqb prompt_truncation_mode "keep_end")
  then Raise (ValueError
                "prompt_truncation_mode should only be 'keep_start' or 'keep_end'.")
  else
    let truncate_length :=
      Z.of_nat (length token_ids) - max_sequence_length in
    if has_role tokenized_semantic_region_list "prompt"
       && has_role tokenized_semantic_region_list "completion"
    then
      let* tokenized_semantic_region_list :=
        adjust_first_prompt tokenized_semantic_region_list in
      truncate_parts tokenized_semantic_region_list token_ids
        (truncation_indices tokenized_semantic_region_list "prompt")
        (truncation_indices tokenized_semantic_region_list "completion")
        truncate_length
    else if has_role tokenized_semantic_region_list "user"
            && has_role tokenized_semantic_region_list "assistant"
    then
      truncate_parts tokenized_semantic_region_list token_ids
        (truncation_indices tokenized_semantic_region_list "user")
        (truncation_indices tokenized_semantic_region_list "assistant")
        truncate_length
    else Raise (ValueError
                  "Truncation is only supported for 'prompt'/'completion' or 'user'/'assistant'.").

End Truncate.

(** * Truncation: one sub-context at a time *)

(** What one pass of the loop body does to the sub-context it visits and
    to that sub-context's remove index. *)
Definition visit (p : segment * nat) : segment * nat :=
  if nonempty (section (snd p) (fst p))
  then (pop_section (snd p) (fst p), snd p)
  else (fst p, ((snd p + 1) mod 3)%nat).

Definition visits (k : nat) (s : segment) : segment * nat :=
  Nat.iter k visit (s, 2%nat).

(** The sub-context after [k] visits, in closed form: the suffix loses its
    end, then (one idle visit later) the prefix its start, then the middle
    its start; after that every visit is idle. *)
Definition phase (k : nat) (s : segment) : segment * nat :=
  let a := length (suffix s) in
  let b := length (prefix s) in
  let c := length (middle s) in
  if (k <=? a)%nat then
    (Segment (prefix s) (middle s) (take (a - k) (suffix s)) (pads s), 2%nat)
  else if (k <=? a + 1 + b)%nat then
    (Segment (drop (k - a - 1) (prefix s)) (middle s) [] (pads s), 0%nat)
  else if (k <=? a + b + 2 + c)%nat then
    (Segment [] (drop (k - a - b - 2) (middle s)) [] (pads s), 1%nat)
  else
    (Segment [] [] [] (pads s), ((k - (a + b + c) - 1) mod 3)%nat).

Lemma nonempty_length {A : Type} (l : list A) :
  nonempty l = true <-> (0 < length l)%nat.
Proof. destruct l; simpl; split; intros; try lia; try discriminate; auto. Qed.

Lemma nonempty_false {A : Type} (l : list A) : nonempty l = false <-> l = [].
Proof. destruct l; simpl; split; intros; try discriminate; auto. Qed.

Lemma removelast_take {A : Type} (l : list A) (j : nat) :
  (S j <= length l)%nat -> removelast (take (S j) l) = take j l.
Proof.
  revert j. induction l as [|x l IH]; intros j Hj; simpl in *; [lia|].
  destruct j as [|j].
  - destruct l; reflexivity.
  - simpl in *. rewrite <- (IH j) by lia.
    destruct l as [|y l]; simpl in *; [lia|]. reflexivity.
Qed.

Lemma tail_drop {A : Type} (l : list A) (j : nat) : tail (drop j l) = drop (S j) l.
Proof.
  revert j. induction l as [|x l IH]; intros [|j]; simpl; auto.
Qed.

Lemma take_all_eq {A : Type} (l : list A) : take (length l) l = l.
Proof. apply firstn_all. Qed.

Lemma visit_phase (k : nat) (s : segment) : visit (phase k s) = phase (S k) s.
Proof.
  unfold phase.
  set (a := length (suffix s)). set (b := length (prefix s)).
  set (c := length (middle s)).
  destruct (Nat.leb_spec k a) as [Hka|Hka];
    destruct (Nat.leb_spec (S k) a) as [Hk1|Hk1]; try lia.
  - unfold visit; cbn [fst snd section pop_section prefix middle suffix pads].
    assert (Hne : nonempty (take (a - k) (suffix s)) = true).
    { apply nonempty_length. rewrite length_take. fold a. lia. }
    rewrite Hne. f_equal. f_equal.
    replace (a - k)%nat with (S (a - S k)) by lia.
    apply removelast_take. fold a. lia.
  - assert (k = a) by lia. subst k.
    replace (a - a)%nat with 0%nat by lia.
    unfold visit; cbn [fst snd section pop_section prefix middle suffix pads take nonempty].
    destruct (Nat.leb_spec (S a) (a + 1 + b)) as [_|?]; [|lia].
    replace (S a - a - 1)%nat with 0%nat by lia. reflexivity.
  - destruct (Nat.leb_spec k (a + 1 + b)) as [Hkb|Hkb];
      destruct (Nat.leb_spec (S k) (a + 1 + b)) as [Hk2|Hk2]; try lia.
    + unfold visit; cbn [fst snd section pop_section prefix middle suffix pads].
      assert (Hne : nonempty (drop (k - a - 1) (prefix s)) = true).
      { apply nonempty_length. rewrite length_drop. fold b. lia. }
      rewrite Hne. f_equal. f_equal.
      rewrite tail_drop. f_equal. lia.
    + assert (k = (a + 1 + b)%nat) by lia. subst k.
      unfold visit; cbn [fst snd section pop_section prefix middle suffix pads].
      assert (Hne : nonempty (drop (a + 1 + b - a - 1) (prefix s)) = false).
      { apply nonempty_false. apply drop_ge. fold b. lia. }
      rewrite Hne.
      destruct (Nat.leb_spec (S (a + 1 + b)) (a + b + 2 + c)) as [_|?]; [|lia].
      replace (S (a + 1 + b) - a - b - 2)%nat with 0%nat by lia.
      rewrite drop_ge by (fold b; lia). reflexivity.
    + destruct (Nat.leb_spec k (a + b + 2 + c)) as [Hkc|Hkc];
        destruct (Nat.leb_spec (S k) (a + b + 2 + c)) as [Hk3|Hk3]; try lia.
      * unfold visit; cbn [fst snd section pop_section prefix middle suffix pads].
        assert (Hne : nonempty (drop (k - a - b - 2) (middle s)) = true).
        { apply nonempty_length. rewrite length_drop. fold c. lia. }
        rewrite Hne. f_equal. f_equal.
        rewrite tail_drop. f_equal. lia.
      * assert (k = (a + b + 2 + c)%nat) by lia. subst k.
        unfold visit; cbn [fst snd section pop_section prefix middle suffix pads].
        assert (Hne : nonempty (drop (a + b + 2 + c - a - b - 2) (middle s)) = false).
        { apply nonempty_false. apply drop_ge. fold c. lia. }
        rewrite Hne.
        rewrite drop_ge by (fold c; lia). f_equal.
        replace (S (a + b + 2 + c) - (a + b + c) - 1)%nat with 2%nat by lia.
        reflexivity.
      * unfold visit; cbn [fst snd].
        assert (Hsec : section ((k - (a + b + c) - 1) mod 3) (Segment [] [] [] (pads s)) = []).
        { destruct ((k - (a + b + c) - 1) mod 3)%nat as [|[|[|?]]]; reflexivity. }
        rewrite Hsec. cbn [nonempty]. f_equal.
        replace (S k - (a + b + c) - 1)%nat with ((k - (a + b + c) - 1) + 1)%nat by lia.
        rewrite (Nat.Div0.add_mod (k - (a + b + c) - 1) 1 3).
        reflexivity.
Qed.

Lemma visits_phase (k : nat) (s : segment) : visits k s = phase k s.
Proof.
  induction k as [|k IH].
  - unfold visits, phase; simpl.
    destruct s as [p m x y]; simpl. rewrite Nat.sub_0_r, take_all_eq. reflexivity.
  - unfold visits in *. simpl. rewrite IH. apply visit_phase.
Qed.

(** The removal policy relating a sub-context [s] to what is left of it:
    [c] tokens are gone from the end of the suffix, [a] from the start of
    the prefix, [b] from the start of the middle; the prefix is touched only
    once the suffix is used up, the middle only once both are. *)
Definition ordered_removal (s s' : segment) : Prop :=
  exists a b c : nat,
    s' = Segment (drop a (prefix s)) (drop b (middle s))
                 (take (length (suffix s) - c) (suffix s)) (pads s)
    /\ (a <= length (prefix s))%nat
    /\ (b <= length (middle s))%nat
    /\ (c <= length (suffix s))%nat
    /\ ((0 < a)%nat -> c = length (suffix s))
    /\ ((0 < b)%nat -> a = length (prefix s) /\ c = length (suffix s)).

Lemma phase_policy (k : nat) (s : segment) : ordered_removal s (fst (phase k s)).
Proof.
  unfold phase, ordered_removal.
  set (a := length (suffix s)). set (b := length (prefix s)).
  set (c := length (middle s)).
  destruct (Nat.leb_spec k a) as [Hka|Hka].
  { exists 0%nat, 0%nat, k. cbn [fst]. rewrite !drop_0. repeat split; auto; lia. }
  destruct (Nat.leb_spec k (a + 1 + b)) as [Hkb|Hkb].
  { exists (k - a - 1)%nat, 0%nat, a. cbn [fst].
    rewrite drop_0, Nat.sub_diag. repeat split; auto; lia. }
  destruct (Nat.leb_spec k (a + b + 2 + c)) as [Hkc|Hkc].
  { exists b, (k - a - b - 2)%nat, a. cbn [fst].
    rewrite Nat.sub_diag. rewrite (drop_ge (prefix s) b) by (fold b; lia).
    repeat split; auto; lia. }
  exists b, c, a. cbn [fst].
  rewrite Nat.sub_diag. rewrite (drop_ge (prefix s) b) by (fold b; lia).
  rewrite (drop_ge (middle s) c) by (fold c; lia).
  repeat split; auto; lia.
Qed.

Lemma policy_len (s s' : segment) :
  ordered_removal s s' -> (segment_len s' <= segment_len s)%nat.
Proof.
  intros (a & b & c & -> & Ha & Hb & Hc & _).
  unfold segment_len; cbn [prefix middle suffix].
  rewrite !length_drop, length_take. lia.
Qed.

Ltac phase_cases k s :=
  unfold phase, segment_len;
  let a := fresh "a" in let b := fresh "b" in let c := fresh "c" in
  set (a := length (suffix s)); set (b := length (prefix s));
  set (c := length (middle s));
  destruct (Nat.leb_spec k a);
  [| destruct (Nat.leb_spec k (a + 1 + b));
     [| destruct (Nat.leb_spec k (a + b + 2 + c)) ] ];
  cbn [fst prefix middle suffix pads length];
  rewrite ?length_drop, ?length_take; fold a b c.

(** Each visit removes at most one token. *)
Lemma phase_removed_le (k : nat) (s : segment) :
  (segment_len s <= segment_len (fst (phase k s)) + k)%nat.
Proof. phase_cases k s; lia. Qed.

(** A sub-context that still holds tokens has had at most two idle visits. *)
Lemma phase_removed_ge (k : nat) (s : segment) :
  (0 < segment_len (fst (phase k s)))%nat ->
  (segment_len (fst (phase k s)) + k <= segment_len s + 2)%nat.
Proof. phase_cases k s; lia. Qed.

(** While its suffix is not used up, every visit removed a token. *)
Lemma phase_removed_suffix (k : nat) (s : segment) :
  (0 < length (suffix (fst (phase k s))))%nat ->
  (segment_len (fst (phase k s)) + k = segment_len s)%nat.
Proof. phase_cases k s; lia. Qed.

Lemma phase_empty (k : nat) (s : segment) :
  (segment_len s + 3 <= k)%nat -> segment_len (fst (phase k s)) = 0%nat.
Proof. phase_cases k s; lia. Qed.

(** * Truncation: the whole loop *)

(** How often sub-context [j] of [n] was visited in the first [t] passes of
    a round-robin that starts at index 0. *)
Definition vcount (n t j : nat) : nat :=
  (t / n + (if (j <? t mod n)%nat then 1 else 0))%nat.

Lemma vcount_succ (n t j : nat) :
  (0 < n)%nat -> (j < n)%nat ->
  vcount n (S t) j = (vcount n t j + (if (j =? t mod n)%nat then 1 else 0))%nat.
Proof.
  intros Hn Hj. unfold vcount.
  pose proof (Nat.div_mod_eq t n) as Ht.
  pose proof (Nat.mod_upper_bound t n ltac:(lia)) as Hr.
  destruct (Nat.eq_dec (S (t mod n)) n) as [Heq|Hne].
  - assert (Hq : (S t / n = t / n + 1)%nat).
    { symmetry. apply (Nat.div_unique (S t) n (t / n + 1) 0); lia. }
    assert (Hm : (S t mod n = 0)%nat).
    { symmetry. apply (Nat.mod_unique (S t) n (t / n + 1) 0); lia. }
    rewrite Hq, Hm.
    destruct (Nat.ltb_spec j 0); [lia|].
    destruct (Nat.ltb_spec j (t mod n)); destruct (Nat.eqb_spec j (t mod n)); lia.
  - assert (Hq : (S t / n = t / n)%nat).
    { symmetry. apply (Nat.div_unique (S t) n (t / n) (S (t mod n))); lia. }
    assert (Hm : (S t mod n = S (t mod n))%nat).
    { symmetry. apply (Nat.mod_unique (S t) n (t / n) (S (t mod n))); lia. }
    rewrite Hq, Hm.
    destruct (Nat.ltb_spec j (S (t mod n)));
      destruct (Nat.ltb_spec j (t mod n)); destruct (Nat.eqb_spec j (t mod n)); lia.
Qed.

Lemma vcount_near (n t i j : nat) : (vcount n t i <= vcount n t j + 1)%nat.
Proof.
  unfold vcount.
  destruct (i <? t mod n)%nat; destruct (j <? t mod n)%nat; lia.
Qed.

Lemma vcount_ge (n t j : nat) : (t / n <= vcount n t j)%nat.
Proof. unfold vcount. lia. Qed.

Lemma total_tokens_insert (l : list segment) (i : nat) (s s' : segment) :
  l !! i = Some s ->
  (total_tokens (<[i := s']> l) + segment_len s = total_tokens l + segment_len s')%nat.
Proof.
  revert i. induction l as [|x l IH]; intros [|i] H; simpl in *; try discriminate.
  - injection H as ->. unfold total_tokens; simpl. lia.
  - specialize (IH i H). unfold total_tokens in *; simpl. lia.
Qed.

Lemma removelast_len {A : Type} (l : list A) :
  length (removelast l) = (length l - 1)%nat.
Proof.
  rewrite removelast_firstn_len, length_take. lia.
Qed.

Lemma visit_len (p : segment * nat) :
  (segment_len (fst (visit p)) <= segment_len (fst p)
   /\ segment_len (fst p) <= segment_len (fst (visit p)) + 1)%nat.
Proof.
  destruct p as [s r]. unfold visit; cbn [fst snd].
  destruct (nonempty (section r s)) eqn:Hne; cbn [fst]; [|lia].
  apply nonempty_length in Hne.
  destruct s as [p m x y]. unfold segment_len.
  destruct r as [|[|r]]; cbn [section pop_section prefix middle suffix] in *.
  - destruct p; simpl in *; lia.
  - destruct m; simpl in *; lia.
  - rewrite removelast_len. lia.
Qed.

(** A pass removes a token exactly when the visited section is not empty. *)
Lemma visit_pop_len (s : segment) (r : nat) :
  nonempty (section r s) = true ->
  (segment_len (pop_section r s) + 1 = segment_len s)%nat.
Proof.
  intros Hne. apply nonempty_length in Hne.
  destruct s as [p m x y]. unfold segment_len.
  destruct r as [|[|r]]; cbn [section pop_section prefix middle suffix] in *.
  - destruct p; simpl in *; lia.
  - destruct m; simpl in *; lia.
  - rewrite removelast_len. lia.
Qed.

Section Loop.

Variable segs0 : list segment.
Variable d0 : Z.
Let n := length segs0.

(** The loop variables after [t] passes: sub-context [j] has been visited
    [vcount n t j] times, and [diff] went down by the tokens removed. *)
Definition trunc_inv (t : nat) (st : trunc_state) : Prop :=
  samples_lst st = imap (fun j s => fst (visits (vcount n t j) s)) segs0
  /\ remove_idxs st = imap (fun j s => snd (visits (vcount n t j) s)) segs0
  /\ cur st = (t mod n)%nat
  /\ diff st + Z.of_nat (total_tokens segs0)
     = d0 + Z.of_nat (total_tokens (samples_lst st)).

Lemma trunc_inv_init :
  trunc_inv 0 (TruncState segs0 (replicate n 2%nat) 0%nat d0).
Proof.
  unfold trunc_inv; cbn [samples_lst remove_idxs cur diff].
  assert (Hv : forall j, vcount n 0 j = 0%nat).
  { intros j. unfold vcount.
    rewrite Nat.Div0.div_0_l, Nat.Div0.mod_0_l. reflexivity. }
  split; [|split; [|split]].
  - apply list_eq. intros j. rewrite list_lookup_imap.
    destruct (segs0 !! j); simpl; rewrite ?Hv; reflexivity.
  - apply list_eq. intros j. rewrite list_lookup_imap.
    destruct (segs0 !! j) eqn:E; simpl; rewrite ?Hv.
    + apply lookup_replicate_2. apply lookup_lt_Some in E. exact E.
    + apply lookup_replicate_None. apply lookup_ge_None in E. exact E.
  - symmetry. apply Nat.Div0.mod_0_l.
  - lia.
Qed.

Lemma trunc_body_inv (t : nat) (st : trunc_state) :
  (0 < n)%nat -> trunc_inv t st ->
  exists st', truncate_body n st = Ret st'
              /\ trunc_inv (S t) st'
              /\ diff st - 1 <= diff st' <= diff st.
Proof.
  intros Hn (Hs & Hr & Hc & Hd).
  set (i := (t mod n)%nat) in *.
  assert (Hi : (i < n)%nat) by (apply Nat.mod_upper_bound; lia).
  destruct (lookup_lt_is_Some_2 segs0 i Hi) as [s0 Hs0].
  set (p := visits (vcount n t i) s0).
  assert (Hsi : samples_lst st !! i = Some (fst p)).
  { rewrite Hs, list_lookup_imap, Hs0. reflexivity. }
  assert (Hri : remove_idxs st !! i = Some (snd p)).
  { rewrite Hr, list_lookup_imap, Hs0. reflexivity. }
  assert (Hstep : forall j s, segs0 !! j = Some s ->
            visits (vcount n (S t) j) s
            = if (j =? i)%nat then visit (visits (vcount n t j) s)
              else visits (vcount n t j) s).
  { intros j s Hj. apply lookup_lt_Some in Hj.
    rewrite vcount_succ by (fold n; lia). fold i.
    destruct (j =? i)%nat.
    - rewrite Nat.add_1_r. reflexivity.
    - rewrite Nat.add_0_r. reflexivity. }
  assert (Hsegs : forall v, v = fst (visit p) ->
            <[i := v]> (samples_lst st)
            = imap (fun j s => fst (visits (vcount n (S t) j) s)) segs0).
  { intros v ->. apply list_eq. intros j.
    rewrite list_lookup_imap.
    destruct (Nat.eq_dec j i) as [->|Hji].
    - rewrite list_lookup_insert_eq by (eapply lookup_lt_Some; eauto).
      rewrite Hs0. simpl. rewrite (Hstep i s0 Hs0), Nat.eqb_refl. reflexivity.
    - rewrite list_lookup_insert_ne by auto.
      rewrite Hs, list_lookup_imap.
      destruct (segs0 !! j) eqn:E; simpl; auto.
      rewrite (Hstep j s E).
      destruct (Nat.eqb_spec j i); [contradiction|reflexivity]. }
  assert (Hidxs : forall v, v = snd (visit p) ->
            <[i := v]> (remove_idxs st)
            = imap (fun j s => snd (visits (vcount n (S t) j) s)) segs0).
  { intros v ->. apply list_eq. intros j.
    rewrite list_lookup_imap.
    destruct (Nat.eq_dec j i) as [->|Hji].
    - rewrite list_lookup_insert_eq by (eapply lookup_lt_Some; eauto).
      rewrite Hs0. simpl. rewrite (Hstep i s0 Hs0), Nat.eqb_refl. reflexivity.
    - rewrite list_lookup_insert_ne by auto.
      rewrite Hr, list_lookup_imap.
      destruct (segs0 !! j) eqn:E; simpl; auto.
      rewrite (Hstep j s E).
      destruct (Nat.eqb_spec j i); [contradiction|reflexivity]. }
  assert (Hnext : ((i + 1) mod n = S t mod n)%nat).
  { unfold i. rewrite Nat.Div0.add_mod_idemp_l. f_equal. lia. }
  unfold truncate_body. rewrite Hc, Hri, Hsi.
  destruct (nonempty (section (snd p) (fst p))) eqn:Hne;
    cbn [samples_lst remove_idxs cur diff];
    (eexists; split; [reflexivity|]);
    (split; [|cbn [diff]; lia]).
  - assert (Hv : visit p = (pop_section (snd p) (fst p), snd p)).
    { unfold visit. rewrite Hne. reflexivity. }
    unfold trunc_inv; cbn [samples_lst remove_idxs cur diff].
    split; [|split; [|split]].
    + apply Hsegs. rewrite Hv. reflexivity.
    + rewrite <- (list_insert_id (remove_idxs st) i (snd p) Hri).
      apply Hidxs. rewrite Hv. reflexivity.
    + exact Hnext.
    + pose proof (total_tokens_insert (samples_lst st) i (fst p)
                    (pop_section (snd p) (fst p)) Hsi) as Ht.
      pose proof (visit_pop_len (fst p) (snd p) Hne). lia.
  - assert (Hv : visit p = (fst p, ((snd p + 1) mod 3)%nat)).
    { unfold visit. rewrite Hne. reflexivity. }
    unfold trunc_inv; cbn [samples_lst remove_idxs cur diff].
    split; [|split; [|split]].
    + rewrite <- (list_insert_id (samples_lst st) i (fst p) Hsi).
      apply Hsegs. rewrite Hv. reflexivity.
    + apply Hidxs. rewrite Hv. reflexivity.
    + exact Hnext.
    + exact Hd.
Qed.

Lemma trunc_loop_result (fuel t : nat) (st : trunc_state) (r : list segment) :
  (0 < n)%nat -> trunc_inv t st ->
  truncate_loop fuel n st = Ret r ->
  exists t', r = imap (fun j s => fst (visits (vcount n t' j) s)) segs0
             /\ Z.of_nat (total_tokens segs0) = d0 + Z.of_nat (total_tokens r).
Proof.
  intros Hn. revert t st.
  induction fuel as [|fuel IH]; intros t st Hinv Hrun; simpl in Hrun.
  - destruct (Z.eqb_spec (diff st) 0) as [Hz|Hz]; [|discriminate].
    injection Hrun as <-. exists t.
    destruct Hinv as (Hs & _ & _ & Hd). split; [exact Hs|lia].
  - destruct (Z.eqb_spec (diff st) 0) as [Hz|Hz].
    + injection Hrun as <-. exists t.
      destruct Hinv as (Hs & _ & _ & Hd). split; [exact Hs|lia].
    + destruct (trunc_body_inv t st Hn Hinv) as (st' & Hb & Hinv' & _).
      rewrite Hb in Hrun. simpl in Hrun. eapply IH; eauto.
Qed.

Lemma segment_len_le_total (l : list segment) (j : nat) (s : segment) :
  l !! j = Some s -> (segment_len s <= total_tokens l)%nat.
Proof.
  revert j. induction l as [|x l IH]; intros [|j] H; simpl in H; try discriminate.
  - injection H as ->. unfold total_tokens; simpl. lia.
  - specialize (IH j H). unfold total_tokens in *; simpl. lia.
Qed.

Lemma total_tokens_imap_0 (f : nat -> segment -> segment) (l : list segment) :
  (forall j s, l !! j = Some s -> segment_len (f j s) = 0%nat) ->
  total_tokens (imap f l) = 0%nat.
Proof.
  revert f. induction l as [|x l IH]; intros f H; [reflexivity|].
  rewrite imap_cons. unfold total_tokens in *; simpl.
  rewrite (H 0%nat x eq_refl).
  rewrite (IH (f ∘ S)); [reflexivity|].
  intros j s Hj. apply (H (S j) s Hj).
Qed.

Lemma trunc_inv_exhausted (t : nat) (st : trunc_state) :
  (0 < n)%nat -> trunc_inv t st ->
  (n * (total_tokens segs0 + 3) <= t)%nat ->
  total_tokens (samples_lst st) = 0%nat.
Proof.
  intros Hn (Hs & _) Ht. rewrite Hs.
  apply total_tokens_imap_0. intros j s Hj.
  rewrite visits_phase. apply phase_empty.
  pose proof (segment_len_le_total segs0 j s Hj).
  pose proof (vcount_ge n t j).
  assert (total_tokens segs0 + 3 <= t / n)%nat.
  { apply Nat.div_le_lower_bound; lia. }
  lia.
Qed.

Lemma trunc_loop_returns (fuel t : nat) (st : trunc_state) :
  (0 < n)%nat -> trunc_inv t st ->
  0 <= diff st -> d0 <= Z.of_nat (total_tokens segs0) ->
  (n * (total_tokens segs0 + 3) <= t + fuel)%nat ->
  exists r, truncate_loop fuel n st = Ret r.
Proof.
  intros Hn. revert t st.
  induction fuel as [|fuel IH]; intros t st Hinv Hpos Hd0 Hfuel; simpl.
  - destruct (Z.eqb_spec (diff st) 0) as [Hz|Hz]; [eauto|].
    exfalso.
    pose proof (trunc_inv_exhausted t st Hn Hinv ltac:(lia)) as He.
    destruct Hinv as (_ & _ & _ & Hd). lia.
  - destruct (Z.eqb_spec (diff st) 0) as [Hz|Hz]; [eauto|].
    destruct (trunc_body_inv t st Hn Hinv) as (st' & Hb & Hinv' & Hdd).
    rewrite Hb. simpl. apply (IH (S t) st'); auto; lia.
Qed.

End Loop.

(** With more tokens asked for than there are, the loop test never fails. *)
Lemma trunc_loop_never (fuel n : nat) (st : trunc_state) :
  length (samples_lst st) = n -> length (remove_idxs st) = n ->
  (cur st < n)%nat ->
  Z.of_nat (total_tokens (samples_lst st)) < diff st ->
  truncate_loop fuel n st = OutOfFuel.
Proof.
  revert st. induction fuel as [|fuel IH]; intros st Hls Hlr Hc Hd; simpl.
  - destruct (Z.eqb_spec (diff st) 0); [lia|reflexivity].
  - destruct (Z.eqb_spec (diff st) 0); [lia|].
    unfold truncate_body.
    destruct (lookup_lt_is_Some_2 (remove_idxs st) (cur st) ltac:(lia)) as [r Hr].
    destruct (lookup_lt_is_Some_2 (samples_lst st) (cur st) ltac:(lia)) as [s Hs].
    rewrite Hr, Hs.
    assert (Hm : ((cur st + 1) mod n < n)%nat) by (apply Nat.mod_upper_bound; lia).
    destruct (nonempty (section r s)) eqn:Hne; simpl; apply IH;
      cbn [samples_lst remove_idxs cur diff];
      rewrite ?length_insert; auto.
    pose proof (total_tokens_insert (samples_lst st) (cur st) s (pop_section r s) Hs).
    pose proof (visit_pop_len s r Hne). lia.
Qed.

Lemma truncate_helper_never (fuel : nat) (segs : list segment) (d idx : Z) :
  segs <> [] -> Z.of_nat (total_tokens segs) < d ->
  truncate_helper fuel segs d idx = OutOfFuel.
Proof.
  intros Hne Hd. unfold truncate_helper. apply trunc_loop_never;
    cbn [samples_lst remove_idxs cur diff]; auto.
  - apply length_replicate.
  - destruct segs; [contradiction|simpl; lia].
Qed.

Lemma truncate_helper_returns (segs : list segment) (d idx : Z) :
  0 <= d <= Z.of_nat (total_tokens segs) ->
  exists fuel r, truncate_helper fuel segs d idx = Ret r.
Proof.
  intros Hd. destruct segs as [|s segs].
  - exists 0%nat, []. unfold truncate_helper; simpl.
    unfold total_tokens in Hd; simpl in Hd.
    destruct (Z.eqb_spec d 0); [reflexivity|lia].
  - set (l := s :: segs) in *.
    exists (length l * (total_tokens l + 3))%nat.
    unfold truncate_helper.
    apply (trunc_loop_returns l d _ 0%nat).
    + simpl; lia.
    + apply trunc_inv_init.
    + cbn [diff]; lia.
    + lia.
    + cbv zeta. rewrite Nat.add_0_l. reflexivity.
Qed.

(** What holds of any result of [truncate_helper]: sub-context [j] has been
    visited [vcount n t j] times for some number [t] of passes. *)
Lemma truncate_helper_result (fuel : nat) (segs r : list segment) (d idx : Z) :
  truncate_helper fuel segs d idx = Ret r ->
  Z.of_nat (total_tokens segs) = d + Z.of_nat (total_tokens r)
  /\ exists t, r = imap (fun j s => fst (visits (vcount (length segs) t j) s)) segs.
Proof.
  intros Hrun. destruct segs as [|s segs].
  - unfold truncate_helper in Hrun. destruct fuel; simpl in Hrun;
      destruct (Z.eqb_spec d 0); try discriminate;
      injection Hrun as <-; (split; [unfold total_tokens; simpl; lia|exists 0%nat; reflexivity]).
  - unfold truncate_helper in Hrun.
    destruct (trunc_loop_result (s :: segs) d fuel 0%nat _ r
                ltac:(simpl; lia) (trunc_inv_init (s :: segs) d) Hrun)
      as (t & Hr & Hd).
    split; [lia|]. exists t. exact Hr.
Qed.

(** A run that is still going whatever budget it is given. *)
Definition never_returns {A : Type} (run : nat -> outcome A) : Prop :=
  forall fuel, run fuel = OutOfFuel.


Lemma imap_lookup_visits (segs r : list segment) (t j : nat) (s s' : segment) :
  r = imap (fun j s => fst (visits (vcount (length segs) t j) s)) segs ->
  segs !! j = Some s -> r !! j = Some s' ->
  s' = fst (phase (vcount (length segs) t j) s).
Proof.
  intros -> Hs Hr. rewrite list_lookup_imap, Hs in Hr. simpl in Hr.
  injection Hr as <-. rewrite visits_phase. reflexivity.
Qed.

(** C2, as amended: when [0 <= diff <= total tokens], [truncate_helper]
    returns, and every result it returns has lost exactly [diff] tokens, each
    sub-context by the ordered policy (end of the suffix, then start of the
    prefix, then start of the middle).  The sub-contexts are visited in turn,
    one per pass of the loop: after some number [t] of passes sub-context [j]
    is what [vcount n t j] visits leave of it.  So a sub-context [i] has lost
    at most 3 tokens more than any sub-context [j] that still holds tokens,
    and at most 1 more than any whose suffix is not used up. *)
Theorem truncate_helper_ordered_round_robin (segs : list segment) (d idx : Z) :
  0 <= d <= Z.of_nat (total_tokens segs) ->
  (exists fuel r, truncate_helper fuel segs d idx = Ret r)
  /\ (forall fuel r, truncate_helper fuel segs d idx = Ret r ->
        Z.of_nat (total_tokens r) = Z.of_nat (total_tokens segs) - d
        /\ length r = length segs
        /\ (forall j s s', segs !! j = Some s -> r !! j = Some s' ->
              ordered_removal s s')
        /\ (exists t, forall j s,
              segs !! j = Some s ->
              r !! j = Some (fst (visits (vcount (length segs) t j) s)))
        /\ (forall i j si si' sj sj',
              segs !! i = Some si -> r !! i = Some si' ->
              segs !! j = Some sj -> r !! j = Some sj' ->
              ((0 < segment_len sj')%nat ->
               (segment_len si + segment_len sj'
                <= segment_len si' + segment_len sj + 3)%nat)
              /\ ((0 < length (suffix sj'))%nat ->
                  (segment_len si + segment_len sj'
                   <= segment_len si' + segment_len sj + 1)%nat))).
Proof.
  intros Hd. split; [apply truncate_helper_returns; exact Hd|].
  intros fuel r Hrun.
  destruct (truncate_helper_result fuel segs r d idx Hrun) as (Htot & t & Hr).
  split; [lia|]. split; [rewrite Hr; apply length_imap|].
  split; [|split].
  - intros j s s' Hs Hs'.
    rewrite (imap_lookup_visits segs r t j s s' Hr Hs Hs').
    apply phase_policy.
  - exists t. intros j s Hs.
    rewrite Hr, list_lookup_imap, Hs. reflexivity.
  - intros i j si si' sj sj' Hi Hi' Hj Hj'.
    rewrite (imap_lookup_visits segs r t i si si' Hr Hi Hi').
    rewrite (imap_lookup_visits segs r t j sj sj' Hr Hj Hj').
    pose proof (vcount_near (length segs) t i j) as Hnear.
    pose proof (phase_removed_le (vcount (length segs) t i) si) as Hle.
    split; intros Hpos.
    + pose proof (phase_removed_ge (vcount (length segs) t j) sj Hpos). lia.
    + pose proof (phase_removed_suffix (vcount (length segs) t j) sj Hpos). lia.
Qed.

Lemma truncate_helper_ordered_round_robin_witness :
  exists fuel r,
    truncate_helper fuel
      [Segment [1; 2] [3] [4; 5; 6] []; Segment [] [7] [] []] 2 0 = Ret r.
Proof.
  apply (truncate_helper_ordered_round_robin
           [Segment [1; 2] [3] [4; 5; 6] []; Segment [] [7] [] []] 2 0).
  vm_compute. split; intro H; discriminate H.
Defined.

(** C2 as stated fails: with one token and [diff = 2] nothing is ever
    returned. *)
Lemma truncate_helper_short_of_tokens :
  0 <= 2 /\ never_returns (fun fuel => truncate_helper fuel [Segment [] [] [1] []] 2 0).
Proof.
  split; [lia|]. intros fuel. apply truncate_helper_never.
  - discriminate.
  - vm_compute. reflexivity.
Qed.

(** C10, as amended: for at least one sub-context and [diff >= 0],
    [truncate_helper] returns exactly when [diff] is at most the number of
    tokens in all prefix, middle and suffix lists; then the loop ends with
    [diff] tokens removed; otherwise the loop never ends. *)
Theorem truncate_helper_terminates_iff (segs : list segment) (d idx : Z) :
  segs <> [] -> 0 <= d ->
  ((exists fuel r, truncate_helper fuel segs d idx = Ret r)
   <-> d <= Z.of_nat (total_tokens segs))
  /\ (d <= Z.of_nat (total_tokens segs) ->
      exists fuel r, truncate_helper fuel segs d idx = Ret r
                     /\ Z.of_nat (total_tokens r) = Z.of_nat (total_tokens segs) - d)
  /\ (Z.of_nat (total_tokens segs) < d ->
      never_returns (fun fuel => truncate_helper fuel segs d idx)).
Proof.
  intros Hne Hpos.
  assert (Hnever : Z.of_nat (total_tokens segs) < d ->
                   never_returns (fun fuel => truncate_helper fuel segs d idx)).
  { intros Hlt fuel. apply truncate_helper_never; assumption. }
  split; [|split]; auto.
  - split.
    + intros (fuel & r & Hrun).
      destruct (Z.le_gt_cases d (Z.of_nat (total_tokens segs))) as [|Hlt]; auto.
      rewrite (Hnever Hlt fuel) in Hrun. discriminate.
    + intros Hle. apply truncate_helper_returns. lia.
  - intros Hle.
    destruct (truncate_helper_returns segs d idx ltac:(lia)) as (fuel & r & Hrun).
    exists fuel, r. split; auto.
    destruct (truncate_helper_result fuel segs r d idx Hrun) as (Htot & _). lia.
Qed.

Lemma truncate_helper_terminates_iff_witness :
  (exists fuel r, truncate_helper fuel [Segment [] [] [1] []] 1 0 = Ret r)
  <-> 1 <= Z.of_nat (total_tokens [Segment [] [] [1] []]).
Proof.
  apply (truncate_helper_terminates_iff [Segment [] [] [1] []] 1 0).
  - intro H; discriminate H.
  - vm_compute. intro H; discriminate H.
Defined.

(** C10 as stated fails on an empty list of sub-contexts: [diff = 1]
    exceeds the total of 0, and the first pass raises [IndexError] instead of
    looping. *)
Lemma truncate_helper_no_segments :
  Z.of_nat (total_tokens []) < 1
  /\ truncate_helper 1 [] 1 0 = Raise IndexError.
Proof. split; [vm_compute|]; reflexivity. Qed.

(** * Document splitting in [fim] *)

(** The sub-documents of a sample, spelled out: the runs of tokens between
    end-of-document tokens; a sample with [k] such tokens has [k + 1]
    sub-documents, some possibly empty. *)
Fixpoint split_on (eos : Z) (l : list Z) : list (list Z) :=
  match l with
  | [] => [[]]
  | x :: rest =>
      if x =? eos then [] :: split_on eos rest
      else
        match split_on eos rest with
        | p :: ps => (x :: p) :: ps
        | [] => [[x]]
        end
  end.

(** The sub-documents that [fim] passes to [chunk]: those that end at an
    end-of-document token when they are not empty, and always the one after
    the last such token. *)
Definition documents (eos : Z) (sample : list Z) : list (list Z) :=
  let pieces := split_on eos sample in
  List.filter nonempty (removelast pieces) ++ [List.last pieces []].

Lemma split_on_cons (eos : Z) (l : list Z) :
  exists p ps, split_on eos l = p :: ps.
Proof.
  destruct l as [|x rest]; simpl; [eauto|].
  destruct (x =? eos); [eauto|].
  destruct (split_on eos rest); eauto.
Qed.

(** [split_on] for a sample that starts inside a sub-document [partial]. *)
Definition split_from (eos : Z) (partial rest : list Z) : list (list Z) :=
  match split_on eos rest with
  | p :: ps => (partial ++ p) :: ps
  | [] => [partial]
  end.

Lemma split_from_nil (eos : Z) (rest : list Z) :
  split_from eos [] rest = split_on eos rest.
Proof.
  unfold split_from. destruct (split_on_cons eos rest) as (p & ps & ->). reflexivity.
Qed.

Lemma split_from_eos (eos : Z) (partial rest : list Z) :
  split_from eos partial (eos :: rest) = partial :: split_on eos rest.
Proof.
  unfold split_from. simpl. rewrite Z.eqb_refl. rewrite app_nil_r. reflexivity.
Qed.

Lemma split_from_other (eos x : Z) (partial rest : list Z) :
  x <> eos ->
  split_from eos partial (x :: rest) = split_from eos (partial ++ [x]) rest.
Proof.
  intros Hx. unfold split_from. simpl.
  destruct (Z.eqb_spec x eos); [contradiction|].
  destruct (split_on_cons eos rest) as (p & ps & ->).
  rewrite <- app_assoc. reflexivity.
Qed.

Lemma slice_app_mid {A : Type} (pre rest : list A) (c : nat) :
  slice (pre ++ rest) c (length pre) = drop c pre.
Proof.
  unfold slice. rewrite take_app_length. reflexivity.
Qed.

Section FimSplit.

Variable encode : string -> list Z.
Variable decode : list Z -> string.
Variable rng : Type.
Variable binomial : Q -> rng -> nat * rng.
Variable randint : nat -> rng -> (nat * nat) * rng.

Local Abbreviation chunk := (chunk encode decode rng binomial randint).
Local Abbreviation fim_loop := (fim_loop encode decode rng binomial randint).
Local Abbreviation fim_segments := (fim_segments encode decode rng binomial randint).

(** [chunk] applied to each document in turn, the generator passed along. *)
Fixpoint chunk_docs (docs : list (list Z)) (fim_rate spm_rate : Q) (g : rng)
  : list (segment * fim_format) * rng :=
  match docs with
  | [] => ([], g)
  | doc :: rest =>
      let '(p, g) := chunk doc fim_rate spm_rate g in
      let '(ps, g) := chunk_docs rest fim_rate spm_rate g in
      (p :: ps, g)
  end.

Lemma chunk_docs_app (xs ys : list (list Z)) (fim_rate spm_rate : Q) (g : rng) :
  chunk_docs (xs ++ ys) fim_rate spm_rate g
  = let '(ps, g) := chunk_docs xs fim_rate spm_rate g in
    let '(qs, g) := chunk_docs ys fim_rate spm_rate g in
    (ps ++ qs, g).
Proof.
  revert g. induction xs as [|x xs IH]; intros g; simpl.
  - destruct (chunk_docs ys fim_rate spm_rate g); reflexivity.
  - destruct (chunk x fim_rate spm_rate g) as [p g1].
    rewrite IH.
    destruct (chunk_docs xs fim_rate spm_rate g1) as [ps g2].
    destruct (chunk_docs ys fim_rate spm_rate g2) as [qs g3]. reflexivity.
Qed.

Lemma fim_loop_cons (sample : list Z) (fim_rate spm_rate : Q) (loc : nat)
    (breaks : list nat) (curr : nat) (pairs : list (segment * fim_format))
    (g : rng) :
  fim_loop sample fim_rate spm_rate (loc :: breaks) curr pairs g
  = (let '(pairs, g) :=
       if 0 <? Z.of_nat loc - Z.of_nat curr then
         let '(p, g) := chunk (slice sample curr loc) fim_rate spm_rate g in
         (pairs ++ [p], g)
       else (pairs, g) in
     fim_loop sample fim_rate spm_rate breaks (loc + 1)%nat pairs g).
Proof. reflexivity. Qed.

(** The loop over the positions of end-of-document tokens, started inside
    the sample: [pre] has been read, the open sub-document began at
    [curr]. *)
Lemma fim_loop_split (eos : Z) (fim_rate spm_rate : Q) (rest : list Z) :
  forall (sample pre : list Z) (pos curr : nat)
         (pairs : list (segment * fim_format)) (g : rng),
  sample = pre ++ rest -> pos = length pre -> (curr <= pos)%nat ->
  exists curr',
    fim_loop sample fim_rate spm_rate (argwhere_from pos rest eos) curr pairs g
    = (let '(ps, g) :=
         chunk_docs
           (List.filter nonempty
              (removelast (split_from eos (drop curr pre) rest)))
           fim_rate spm_rate g in
       (pairs ++ ps, curr', g))
    /\ drop curr' sample = List.last (split_from eos (drop curr pre) rest) [].
Proof.
  induction rest as [|x rest IH];
    intros sample pre pos curr pairs g Hsample Hpos Hc.
  - exists curr. unfold split_from; simpl. subst sample.
    rewrite !app_nil_r. auto.
  - simpl argwhere_from. destruct (Z.eqb_spec x eos) as [->|Hx].
    + rewrite split_from_eos.
      destruct (split_on_cons eos rest) as (p & ps & Hsp).
      rewrite Hsp.
      change (removelast (drop curr pre :: p :: ps))
        with (drop curr pre :: removelast (p :: ps)).
      change (List.last (drop curr pre :: p :: ps) [])
        with (List.last (p :: ps) []).
      rewrite <- Hsp.
      rewrite fim_loop_cons.
      assert (Hslice : slice sample curr pos = drop curr pre).
      { subst sample pos. apply slice_app_mid. }
      rewrite Hslice.
      assert (Hsample' : sample = (pre ++ [eos]) ++ rest).
      { subst sample. rewrite <- app_assoc. reflexivity. }
      assert (Hpos' : S pos = length (pre ++ [eos])).
      { rewrite length_app. simpl. lia. }
      assert (Hnil : drop (pos + 1) (pre ++ [eos]) = []).
      { apply drop_ge. lia. }
      simpl List.filter.
      destruct (Z.ltb_spec 0 (Z.of_nat pos - Z.of_nat curr)) as [Hlt|Hge].
      * assert (Hne : nonempty (drop curr pre) = true).
        { apply nonempty_length. rewrite length_drop. lia. }
        rewrite Hne. simpl chunk_docs.
        destruct (chunk (drop curr pre) fim_rate spm_rate g) as [q g1].
        destruct (IH sample (pre ++ [eos]) (S pos) (pos + 1)%nat (pairs ++ [q]) g1
                     Hsample' Hpos' ltac:(lia)) as (curr' & Hloop & Hdrop).
        rewrite Hnil, split_from_nil in Hloop, Hdrop.
        exists curr'. rewrite Hloop. split; [|exact Hdrop].
        destruct (chunk_docs (List.filter nonempty (removelast (split_on eos rest)))
                             fim_rate spm_rate g1) as [qs g2].
        rewrite <- app_assoc. reflexivity.
      * assert (Hne : nonempty (drop curr pre) = false).
        { apply nonempty_false. apply drop_ge. lia. }
        rewrite Hne.
        destruct (IH sample (pre ++ [eos]) (S pos) (pos + 1)%nat pairs g
                     Hsample' Hpos' ltac:(lia)) as (curr' & Hloop & Hdrop).
        rewrite Hnil, split_from_nil in Hloop, Hdrop.
        exists curr'. rewrite Hloop. split; [reflexivity|exact Hdrop].
    + rewrite (split_from_other eos x _ rest Hx).
      assert (Hsample' : sample = (pre ++ [x]) ++ rest).
      { subst sample. rewrite <- app_assoc. reflexivity. }
      assert (Hpos' : S pos = length (pre ++ [x])).
      { rewrite length_app. simpl. lia. }
      destruct (IH sample (pre ++ [x]) (S pos) curr pairs g
                   Hsample' Hpos' ltac:(lia)) as (curr' & Hloop & Hdrop).
      rewrite drop_app_le in Hloop, Hdrop by lia.
      exists curr'. split; assumption.
Qed.

Lemma argwhere_nil_split (eos : Z) (sample : list Z) (pos : nat) :
  argwhere_from pos sample eos = [] -> split_on eos sample = [sample].
Proof.
  revert pos. induction sample as [|x l IH]; intros pos H; simpl in *; auto.
  destruct (x =? eos); [discriminate|].
  rewrite (IH (S pos) H). reflexivity.
Qed.

(** [fim_segments] against the spelled-out splitting. *)
Lemma fim_segments_documents (sample : list Z) (eos : Z)
    (fim_rate spm_rate : Q) (g : rng) :
  fim_segments sample eos fim_rate spm_rate g
  = chunk_docs (documents eos sample) fim_rate spm_rate g.
Proof.
  unfold fim_segments, documents.
  destruct (argwhere sample eos) as [|b bs] eqn:Hbreaks.
  - unfold argwhere in Hbreaks.
    rewrite (argwhere_nil_split eos sample 0%nat Hbreaks). simpl.
    destruct (chunk sample fim_rate spm_rate g). reflexivity.
  - rewrite <- Hbreaks. unfold argwhere.
    destruct (fim_loop_split eos fim_rate spm_rate sample sample [] 0%nat 0%nat [] g
                eq_refl eq_refl ltac:(lia)) as (curr' & Hloop & Hdrop).
    simpl drop in Hloop, Hdrop. rewrite split_from_nil in Hloop, Hdrop.
    rewrite Hloop. rewrite chunk_docs_app.
    destruct (chunk_docs (List.filter nonempty (removelast (split_on eos sample)))
                         fim_rate spm_rate g) as [ps g1].
    simpl app at 1. rewrite Hdrop. simpl chunk_docs.
    destruct (chunk (List.last (split_on eos sample) []) fim_rate spm_rate g1).
    reflexivity.
Qed.

End FimSplit.

(** The sample is its sub-documents put back together around the
    end-of-document tokens, and no sub-document holds such a token. *)
Definition join_docs (eos : Z) (pieces : list (list Z)) : list Z :=
  match pieces with
  | [] => []
  | p :: ps => p ++ flat_map (fun q => eos :: q) ps
  end.

Lemma split_on_join (eos : Z) (l : list Z) : join_docs eos (split_on eos l) = l.
Proof.
  induction l as [|x l IH]; simpl; auto.
  destruct (Z.eqb_spec x eos) as [->|Hx].
  - simpl. destruct (split_on_cons eos l) as (p & ps & Hsp).
    rewrite Hsp in *. simpl in *. rewrite IH. reflexivity.
  - destruct (split_on_cons eos l) as (p & ps & Hsp).
    rewrite Hsp in *. simpl in *. rewrite IH. reflexivity.
Qed.

Lemma split_on_no_eos (eos : Z) (l : list Z) :
  Forall (fun p => ~ In eos p) (split_on eos l).
Proof.
  induction l as [|x l IH]; simpl.
  - constructor; [intros []|constructor].
  - destruct (Z.eqb_spec x eos) as [->|Hx].
    + constructor; [intros []|exact IH].
    + destruct (split_on_cons eos l) as (p & ps & Hsp).
      rewrite Hsp in *. inversion IH; subst.
      constructor; auto. intros [H|H]; [congruence|contradiction].
Qed.

(** C7, as amended: [fim] splits the sample at the end-of-document tokens
    and applies [chunk] to the sub-documents in order; an empty sub-document
    that ends at such a token gives no entry, but the sub-document after the
    last one (the whole sample when there is none) always gives an entry,
    also when it is empty. *)
Theorem fim_document_boundaries
    (encode : string -> list Z) (decode : list Z -> string) (rng : Type)
    (binomial : Q -> rng -> nat * rng) (randint : nat -> rng -> (nat * nat) * rng)
    (sample : list Z) (eos : Z) (fim_rate spm_rate : Q) (g : rng) :
  let pieces := split_on eos sample in
  join_docs eos pieces = sample
  /\ Forall (fun p => ~ In eos p) pieces
  /\ fim_segments encode decode rng binomial randint sample eos fim_rate spm_rate g
     = chunk_docs encode decode rng binomial randint
         (List.filter nonempty (removelast pieces) ++ [List.last pieces []])
         fim_rate spm_rate g.
Proof.
  cbv zeta. split; [apply split_on_join|]. split; [apply split_on_no_eos|].
  apply fim_segments_documents.
Qed.

(** * The example tokenizer and generator used for concrete runs *)

(** One token per character: the character's code. *)
Definition char_encode (s : string) : list Z :=
  map (fun c => Z.of_nat (nat_of_ascii c)) (list_ascii_of_string s).

Definition char_decode (l : list Z) : string :=
  string_of_list_ascii (map (fun t => ascii_of_nat (Z.to_nat t)) l).

(** A generator without state: a trial succeeds when its probability is 1,
    and both boundaries are drawn as 0. *)
Definition sure_binomial (p : Q) (g : unit) : nat * unit :=
  (if Qle_bool 1 p then 1%nat else 0%nat, g).

Definition zero_randint (high : nat) (g : unit) : (nat * nat) * unit :=
  ((0%nat, 0%nat), g).

(** C7 as stated fails: the empty sub-document after the final
    end-of-document token of [[5; 0]] gives a segment entry. *)
Lemma fim_trailing_empty_document :
  fst (fim_segments char_encode char_decode unit sure_binomial zero_randint
         [5; 0] 0 0 0 tt)
  = [(Segment [] [] [5] [], AR); (Segment [] [] [] [], AR)].
Proof. vm_compute. reflexivity. Qed.

(** * The length of what [format_fim] builds *)

(** The special tokens a sub-context of a given format receives; a
    beginning-of-sequence list counts once when it is not empty. *)
Definition fmt_overhead (bos : list Z) (f : fim_format) : Z :=
  (match f with AR => 1 | _ => 4 end) + (if nonempty bos then 1 else 0).

Definition overhead_sum (bos : list Z) (fmts : list fim_format) : Z :=
  fold_right (fun f acc => fmt_overhead bos f + acc) 0 fmts.

Lemma add_constant_fold (bos : list Z) (pairs : list (segment * fim_format)) (acc : Z) :
  fold_left
    (fun acc p =>
       let acc := match snd p with AR => acc + 1 | _ => acc + 4 end in
       if nonempty bos then acc + 1 else acc)
    pairs acc
  = acc + overhead_sum bos (map snd pairs).
Proof.
  revert acc. induction pairs as [|[s f] pairs IH]; intros acc; simpl; [lia|].
  rewrite IH. unfold fmt_overhead. destruct f, (nonempty bos); simpl; lia.
Qed.

Lemma add_constant_sum (bos : list Z) (pairs : list (segment * fim_format)) :
  add_constant pairs bos = -1 + overhead_sum bos (map snd pairs).
Proof. unfold add_constant. apply add_constant_fold. Qed.

Lemma overhead_sum_pos (bos : list Z) (fmts : list fim_format) :
  fmts <> [] -> 1 <= overhead_sum bos fmts.
Proof.
  assert (Hnn : forall l, 0 <= overhead_sum bos l).
  { induction l as [|f l IH]; simpl; [lia|].
    unfold fmt_overhead. destruct f, (nonempty bos); lia. }
  destruct fmts as [|f l]; [contradiction|]. intros _. simpl.
  specialize (Hnn l). unfold fmt_overhead. destruct f, (nonempty bos); lia.
Qed.

Definition padding_sum (pairs : list (segment * fim_format)) : nat :=
  sum_nat (map (fun p => length (optional_padding (fst p))) pairs).

Lemma f64_round_exact (z : Z) : f64_exact z -> f64_round z = z.
Proof.
  unfold f64_exact, f64_round. intros Hz.
  destruct (Z.leb_spec (Z.abs z) (2 ^ 53)); [reflexivity|lia].
Qed.

Lemma via_f64_exact (z : Z) : f64_exact z -> via_f64 z = z.
Proof.
  intros Hz. unfold via_f64. rewrite (f64_round_exact z Hz).
  unfold f64_exact in Hz. unfold int64_of_f64.
  destruct (Z.leb_spec (- 2 ^ 63) z); [|lia].
  destruct (Z.ltb_spec z (2 ^ 63)); [reflexivity|lia].
Qed.

Lemma map_exact (f : Z -> Z) (l : list Z) :
  (forall z, f64_exact z -> f z = z) -> Forall f64_exact l -> map f l = l.
Proof.
  intros Hf Hall. induction Hall as [|x l Hx _ IH]; [reflexivity|].
  cbn [map]. rewrite IH, (Hf x Hx). reflexivity.
Qed.

Lemma as_int64_exact (bos : list Z) (pairs : list (segment * fim_format))
    (tokens : list Z) :
  Forall f64_exact tokens -> as_int64 bos pairs tokens = tokens.
Proof.
  intros Hall. unfold as_int64. destruct (existsb _ _); [|reflexivity].
  apply map_exact; [exact via_f64_exact|exact Hall].
Qed.

Lemma last_map {A B : Type} (f : A -> B) (l : list A) :
  last (map f l) = option_map f (last l).
Proof.
  induction l as [|x l IH]; [reflexivity|].
  destruct l as [|y l']; [reflexivity|].
  change (map f (x :: y :: l')) with (f x :: f y :: map f l').
  rewrite !last_cons_cons. exact IH.
Qed.

(** The last token [format_fim] has after the conversion, when it is
    exact. *)
Lemma last_as_int64 (bos : list Z) (pairs : list (segment * fim_format))
    (tokens : list Z) (t : Z) :
  last tokens = Some t -> f64_exact t ->
  last (as_int64 bos pairs tokens) = Some t.
Proof.
  intros Hlast Ht. unfold as_int64. destruct (existsb _ _); [|exact Hlast].
  rewrite last_map, Hlast. cbn [option_map]. rewrite (via_f64_exact t Ht).
  reflexivity.
Qed.

Section Format.

Variables suffix_tok_id prefix_tok_id middle_tok_id eos_tok_id : Z.
Variable opt_bos_tok_id : list Z.
Hypothesis bos_short : (length opt_bos_tok_id <= 1)%nat.

Local Abbreviation fmt :=
  (format_segment suffix_tok_id prefix_tok_id middle_tok_id eos_tok_id
                  opt_bos_tok_id).

Lemma bos_len : Z.of_nat (length opt_bos_tok_id)
                = if nonempty opt_bos_tok_id then 1 else 0.
Proof.
  destruct opt_bos_tok_id as [|x [|y l]]; simpl in *; try lia.
Qed.

Lemma format_segment_length (p : segment * fim_format) :
  Z.of_nat (length (fmt p))
  = Z.of_nat (segment_len (fst p)) + fmt_overhead opt_bos_tok_id (snd p)
    + Z.of_nat (length (optional_padding (fst p))).
Proof.
  destruct p as [s f]. unfold format_segment, fmt_overhead, segment_len.
  cbn [fst snd]. pose proof bos_len as Hb.
  destruct f; rewrite !length_app; simpl length; rewrite ?length_app;
    simpl length; lia.
Qed.

Lemma concat_format_length (pairs : list (segment * fim_format)) :
  Z.of_nat (length (concat (map fmt pairs)))
  = Z.of_nat (total_tokens (map fst pairs))
    + overhead_sum opt_bos_tok_id (map snd pairs)
    + Z.of_nat (padding_sum pairs).
Proof.
  induction pairs as [|p pairs IH]; [reflexivity|].
  simpl concat. rewrite length_app, Nat2Z.inj_add, IH, format_segment_length.
  unfold total_tokens, padding_sum; simpl. lia.
Qed.

(** The last token built: the end-of-sequence token when the last
    sub-context carries no padding, else the last padding token. *)
Lemma last_format_segment (p : segment * fim_format) :
  last (fmt p)
  = match last (optional_padding (fst p)) with
    | Some t => Some t
    | None => Some eos_tok_id
    end.
Proof.
  destruct p as [s f]. unfold format_segment. cbn [fst snd].
  rewrite last_app.
  destruct (last (optional_padding s)); [reflexivity|].
  destruct f; rewrite !app_assoc; apply last_snoc.
Qed.

Lemma last_concat_format (init : list (segment * fim_format))
    (p : segment * fim_format) :
  last (concat (map fmt (init ++ [p]))) = last (fmt p).
Proof.
  rewrite map_app, concat_app. simpl. rewrite app_nil_r.
  rewrite last_app. rewrite last_format_segment.
  destruct (last (optional_padding (fst p))); reflexivity.
Qed.

Lemma as_int64_length (pairs : list (segment * fim_format))
    (tokens : list Z) :
  length (as_int64 opt_bos_tok_id pairs tokens) = length tokens.
Proof.
  unfold as_int64. destruct (existsb _ _); [apply length_map|reflexivity].
Qed.

(** [format_fim] followed by the two assertions of [fim] and the stacking,
    for a concatenation of [L + 1] tokens. *)
Lemma format_check (pairs : list (segment * fim_format)) (L : nat) (t : Z) :
  length (concat (map fmt pairs)) = S L ->
  (padding_sum pairs <= L)%nat ->
  last (as_int64 opt_bos_tok_id pairs (concat (map fmt pairs))) = Some t ->
  (let* (inputs, mask, labels) :=
     format_fim pairs (Z.of_nat L) suffix_tok_id prefix_tok_id middle_tok_id
                eos_tok_id opt_bos_tok_id in
   let* (inputs, mask, labels) :=
     check_outputs inputs mask labels L eos_tok_id in
   Ret (stack_outputs inputs mask labels))
  = if (1 <=? L)%nat && (t =? eos_tok_id)
    then Ret (stack_outputs
                (removelast (as_int64 opt_bos_tok_id pairs
                                      (concat (map fmt pairs))))
                (replicate (L - padding_sum pairs) 1
                   ++ replicate (padding_sum pairs) 0)
                (tail (as_int64 opt_bos_tok_id pairs
                                (concat (map fmt pairs)))))
    else Raise AssertionError.
Proof.
  intros Hlen Hpad Hlast.
  unfold format_fim. fold (padding_sum pairs).
  destruct pairs as [|p0 pairs0] eqn:Hp; [discriminate|]. rewrite <- Hp in *.
  clear Hp p0 pairs0.
  rewrite <- (as_int64_length pairs) in Hlen.
  set (xs := as_int64 opt_bos_tok_id pairs (concat (map fmt pairs))) in *.
  destruct (Z.ltb_spec (Z.of_nat L - Z.of_nat (padding_sum pairs)) 0); [lia|].
  cbn [bind]. unfold check_outputs.
  rewrite removelast_len, Hlen.
  rewrite length_app, !length_replicate.
  assert (Htl : length (tail xs) = L).
  { destruct xs; simpl in *; lia. }
  rewrite Htl.
  replace (Z.to_nat (Z.of_nat L - Z.of_nat (padding_sum pairs)))
    with (L - padding_sum pairs)%nat by lia.
  rewrite Nat2Z.id.
  replace (S L - 1)%nat with L by lia.
  replace (L - padding_sum pairs + padding_sum pairs)%nat with L by lia.
  rewrite !Nat.eqb_refl. cbn [andb negb].
  destruct (Nat.leb_spec 1 L) as [HL|HL].
  - assert (Hlt : last (tail xs) = Some t).
    { destruct xs as [|x [|y xs']]; simpl in Hlen; try lia.
      simpl tail. rewrite <- Hlast. symmetry. apply last_cons_cons. }
    rewrite Hlt. cbn [andb]. destruct (t =? eos_tok_id); reflexivity.
  - assert (Hnil : tail xs = []).
    { destruct xs as [|x [|y xs']]; simpl in Hlen; try lia. reflexivity. }
    rewrite Hnil. reflexivity.
Qed.

End Format.

(** An id beyond [2 ^ 53] does not come back from [format_fim] when one of
    the joined lists is empty: [2 ^ 53 + 1] is returned as [2 ^ 53]. *)
Lemma format_fim_rounds_large_ids :
  format_fim [(Segment [] [] [2 ^ 53 + 1; 7] [], AR)] 2 101 102 103 0 []
  = Ret ([2 ^ 53; 7], [1; 1], [7; 0]).
Proof. vm_compute. reflexivity. Qed.

(** With a beginning-of-sequence token, sections that all hold tokens and
    a padding, the tokens stay integers and come back as they are. *)
Lemma format_fim_keeps_integers :
  format_fim [(Segment [5] [6] [2 ^ 53 + 1] [[9]], PSM)] 8 101 102 103 0 [1]
  = Ret ([1; 102; 5; 101; 2 ^ 53 + 1; 103; 6; 0], [1; 1; 1; 1; 1; 1; 1; 0],
         [102; 5; 101; 2 ^ 53 + 1; 103; 6; 0; 9]).
Proof. vm_compute. reflexivity. Qed.

(** * Truncating or padding the sub-contexts of [fim] *)

Definition no_pads (pairs : list (segment * fim_format)) : Prop :=
  Forall (fun p => pads (fst p) = []) pairs.

Lemma no_pads_padding_sum (pairs : list (segment * fim_format)) :
  no_pads pairs -> padding_sum pairs = 0%nat.
Proof.
  induction 1 as [|p l Hp _ IH]; [reflexivity|].
  unfold padding_sum in *; simpl. rewrite IH.
  unfold optional_padding. rewrite Hp. reflexivity.
Qed.

Lemma combine_fst_snd {A B : Type} (l : list (A * B)) :
  combine (map fst l) (map snd l) = l.
Proof. induction l as [|[a b] l IH]; simpl; congruence. Qed.





Lemma combine_snoc {A B : Type} (xs : list A) (ys : list B) (x : A) (y : B) :
  length xs = length ys ->
  combine (xs ++ [x]) (ys ++ [y]) = combine xs ys ++ [(x, y)].
Proof.
  revert ys. induction xs as [|a xs IH]; intros [|b ys] H; simpl in *;
    try discriminate; auto. f_equal. apply IH. lia.
Qed.

(** [pad_helper] on the sub-contexts of [init ++ [(s, f)]], put back with
    the formats: the padding goes to the last sub-context. *)
Lemma pad_pairs (init : list (segment * fim_format)) (s : segment)
    (f : fim_format) (d pad : Z) :
  let pairs := init ++ [(s, f)] in
  (let* segs := pad_helper (map fst pairs) d pad in
   Ret (combine segs (map snd pairs)))
  = Ret (init ++ [(add_pad (replicate (Z.to_nat (Z.abs d)) pad) s, f)]).
Proof.
  cbv zeta. unfold pad_helper.
  rewrite !map_app. simpl map. rewrite last_snoc.
  rewrite removelast_last. cbn [bind]. f_equal.
  rewrite combine_snoc by (rewrite !length_map; reflexivity).
  rewrite combine_fst_snd. reflexivity.
Qed.

Section FimShape.

Variable encode : string -> list Z.
Variable decode : list Z -> string.
Variable rng : Type.
Variable binomial : Q -> rng -> nat * rng.
Variable randint : nat -> rng -> (nat * nat) * rng.

Local Abbreviation chunk := (chunk encode decode rng binomial randint).
Local Abbreviation chunk_docs := (chunk_docs encode decode rng binomial randint).
Local Abbreviation fim_segments :=
  (fim_segments encode decode rng binomial randint).
Local Abbreviation fim := (fim encode decode rng binomial randint).

Lemma chunk_no_pads (sample : list Z) (fim_rate spm_rate : Q) (g : rng) :
  pads (fst (fst (chunk sample fim_rate spm_rate g))) = [].
Proof.
  unfold chunk.
  destruct (binomial fim_rate g) as [b g1].
  destruct (negb (b =? 0)%nat); [|reflexivity].
  destruct (randint _ g1) as [[x y] g2].
  destruct (binomial spm_rate g2) as [c g3]. reflexivity.
Qed.

Lemma chunk_docs_shape (docs : list (list Z)) (fim_rate spm_rate : Q) (g : rng) :
  no_pads (fst (chunk_docs docs fim_rate spm_rate g))
  /\ length (fst (chunk_docs docs fim_rate spm_rate g)) = length docs.
Proof.
  revert g. induction docs as [|doc docs IH]; intros g; simpl.
  - split; [constructor|reflexivity].
  - pose proof (chunk_no_pads doc fim_rate spm_rate g) as Hp.
    destruct (chunk doc fim_rate spm_rate g) as [p g1].
    specialize (IH g1).
    destruct (chunk_docs docs fim_rate spm_rate g1) as [ps g2].
    cbn [fst] in *. destruct IH as [IH1 IH2].
    split; [constructor; assumption|simpl; congruence].
Qed.

(** The sub-contexts [fim] starts from: at least one, none with padding. *)
Lemma fim_segments_shape (sample : list Z) (eos : Z) (fim_rate spm_rate : Q)
    (g : rng) :
  no_pads (fst (fim_segments sample eos fim_rate spm_rate g))
  /\ fst (fim_segments sample eos fim_rate spm_rate g) <> [].
Proof.
  rewrite fim_segments_documents.
  destruct (chunk_docs_shape (documents eos sample) fim_rate spm_rate g)
    as [Hnp Hlen].
  split; [exact Hnp|].
  intros Hnil. rewrite Hnil in Hlen. unfold documents in Hlen.
  rewrite length_app in Hlen. simpl in Hlen. lia.
Qed.

Lemma last_replicate {A : Type} (k : nat) (x : A) :
  last (replicate (S k) x) = Some x.
Proof.
  induction k as [|k IH]; [reflexivity|].
  change (replicate (S (S k)) x) with (x :: x :: replicate k x).
  rewrite last_cons_cons. exact IH.
Qed.


Section Run.

Variables (sample mask : list Z) (more : list (list Z)) (sample_idx : Z).
Variables (fim_rate spm_rate : Q).
Variables (st pt mt pad eos : Z) (bos : list Z) (g : rng).
Hypothesis rate_valid : (0 <= fim_rate)%Q /\ (fim_rate <= 1)%Q.
Hypothesis bos_short : (length bos <= 1)%nat.

Let L := length sample.
Let pairs := fst (fim_segments sample eos fim_rate spm_rate g).
Let ac := add_constant pairs bos.
Let d := Z.of_nat (total_tokens (map fst pairs)) + ac - Z.of_nat L.

Lemma fim_unfold (fuel : nat) :
  fim fuel (sample :: mask :: more) sample_idx fim_rate spm_rate
      st pt mt pad eos bos g
  = (let* pairs' := truncate_or_pad_helper fuel pairs d pad sample_idx in
     let* (inputs, m, labels) :=
       format_fim pairs' (Z.of_nat L) st pt mt eos bos in
     let* (inputs, m, labels) := check_outputs inputs m labels L eos in
     Ret (stack_outputs inputs m labels)).
Proof using rate_valid.
  unfold fim.
  destruct rate_valid as [H0 H1].
  apply Qle_bool_iff in H0. apply Qle_bool_iff in H1.
  rewrite H0, H1. cbn [andb negb]. cbn [lookup list_lookup].
  unfold d, ac, pairs, L.
  destruct (fim_segments sample eos fim_rate spm_rate g) as [ps g'].
  reflexivity.
Qed.

Lemma ac_nonneg : 0 <= ac.
Proof.
  unfold ac. rewrite add_constant_sum.
  pose proof (overhead_sum_pos bos (map snd pairs)) as H.
  destruct (fim_segments_shape sample eos fim_rate spm_rate g) as [_ Hne].
  fold pairs in Hne.
  assert (map snd pairs <> []) by (destruct pairs; [contradiction|discriminate]).
  specialize (H ltac:(assumption)). lia.
Qed.


(** Padding needed: the last label is the padding token. *)
Lemma fim_pad_case (fuel : nat) :
  d < 0 -> f64_exact pad ->
  exists out,
    fim fuel (sample :: mask :: more) sample_idx fim_rate spm_rate
        st pt mt pad eos bos g
    = if pad =? eos then Ret out else Raise AssertionError.
Proof.
  intros Hd Hexact.
  destruct (fim_segments_shape sample eos fim_rate spm_rate g) as [Hnp Hne].
  fold pairs in Hnp, Hne.
  pose proof ac_nonneg as Hac0.
  assert (Hac' : ac = -1 + overhead_sum bos (map snd pairs))
    by (apply add_constant_sum).
  rewrite fim_unfold. unfold truncate_or_pad_helper.
  destruct (Z.leb_spec 0 d); [lia|].
  destruct (exists_last Hne) as (init & [s f] & Hpairs).
  rewrite Hpairs in Hnp.
  set (padding := replicate (Z.to_nat (Z.abs d)) pad).
  set (pairs' := init ++ [(add_pad padding s, f)]).
  assert (Hstep : (let* segs := pad_helper (map fst pairs) d pad in
                   Ret (combine segs (map snd pairs))) = Ret pairs').
  { rewrite Hpairs. apply pad_pairs. }
  rewrite Hstep. cbn [bind].
  unfold no_pads in Hnp. apply Forall_app in Hnp. destruct Hnp as [Hi Hs].
  inversion Hs as [|? ? Hsp _]; subst. cbn [fst] in Hsp.
  assert (Hopt : optional_padding (add_pad padding s) = padding).
  { unfold optional_padding, add_pad; cbn [pads]. rewrite Hsp. reflexivity. }
  assert (Hps : padding_sum pairs' = length padding).
  { unfold pairs', padding_sum. rewrite map_app. cbn [map fst].
    rewrite Hopt. fold (padding_sum init).
    assert (Happ : forall xs ys, sum_nat (xs ++ ys) = (sum_nat xs + sum_nat ys)%nat).
    { induction xs; intros; simpl; auto. unfold sum_nat in *; simpl.
      rewrite IHxs. lia. }
    rewrite Happ. fold (padding_sum init).
    rewrite (no_pads_padding_sum init Hi). simpl. lia. }
  assert (Hplen : length padding = Z.to_nat (- d)).
  { unfold padding. rewrite length_replicate. f_equal. lia. }
  assert (Htot : total_tokens (map fst pairs') = total_tokens (map fst pairs)).
  { rewrite Hpairs. unfold pairs'. rewrite !map_app. unfold total_tokens.
    rewrite !map_app. reflexivity. }
  assert (Hsnd : map snd pairs' = map snd pairs).
  { rewrite Hpairs. unfold pairs'. rewrite !map_app. reflexivity. }
  pose proof (concat_format_length st pt mt eos bos bos_short pairs') as Hlen.
  rewrite Hsnd, Htot, Hps in Hlen.
  assert (Hlast : last (concat (map (format_segment st pt mt eos bos) pairs'))
                  = Some pad).
  { unfold pairs'. rewrite last_concat_format, last_format_segment.
    cbn [fst]. rewrite Hopt.
    assert (Hl : last padding = Some pad).
    { unfold padding. destruct (Z.to_nat (Z.abs d)) as [|k] eqn:E; [lia|].
      apply last_replicate. }
    rewrite Hl. reflexivity. }
  rewrite (format_check st pt mt eos bos bos_short pairs' L pad).
  - destruct (Nat.leb_spec 1 L); [|unfold d in *; lia].
    cbn [andb]. eexists. reflexivity.
  - unfold d in *. lia.
  - rewrite Hps. unfold d in *. lia.
  - apply last_as_int64; [exact Hlast|exact Hexact].
Qed.


End Run.

End FimShape.



(** * Preference encoding *)

(** The positions, within the shorter of two token lists, where the lists
    differ. *)
Definition differing_positions (xs ys : list Z) : nat :=
  length (List.filter (fun i => negb (nth i xs 0 =? nth i ys 0))
                      (seq 0 (Nat.min (length xs) (length ys)))).

Lemma filter_map_length {A B : Type} (f : B -> bool) (h : A -> B) (l : list A) :
  length (List.filter f (map h l)) = length (List.filter (fun x => f (h x)) l).
Proof.
  induction l as [|x l IH]; simpl; auto.
  destruct (f (h x)); simpl; auto.
Qed.

(** The sum over [zip] in [encode] counts the differing positions. *)
Lemma num_diff_tokens_positions (xs ys : list Z) :
  num_diff_tokens xs ys = Z.of_nat (differing_positions xs ys).
Proof.
  revert ys. induction xs as [|a xs IH]; intros [|b ys]; try reflexivity.
  simpl num_diff_tokens. rewrite IH. unfold differing_positions.
  change (length (a :: xs)) with (S (length xs)).
  change (length (b :: ys)) with (S (length ys)).
  change (Nat.min (S (length xs)) (S (length ys)))
    with (S (Nat.min (length xs) (length ys))).
  change (seq 0 (S (Nat.min (length xs) (length ys))))
    with (0%nat :: seq 1 (Nat.min (length xs) (length ys))).
  rewrite <- seq_shift.
  cbn [List.filter nth].
  destruct (a =? b); cbn [negb length]; rewrite filter_map_length; cbn [nth]; lia.
Qed.

Lemma msg_differs_not_concat : msg_prompt_differs <> msg_concat_length.
Proof. unfold msg_prompt_differs, msg_concat_length. discriminate. Qed.

Lemma msg_differs_not_mask : msg_prompt_differs <> msg_prompt_mask_length.
Proof. unfold msg_prompt_differs, msg_prompt_mask_length. discriminate. Qed.

Lemma msg_differs_not_stack : msg_prompt_differs <> msg_stack_shape.
Proof. unfold msg_prompt_differs, msg_stack_shape. discriminate. Qed.

Section DpoProofs.

Variable cfg : dpo_config.
Variable callable : bool.
Variable tokenizer_call : string -> features.
Variable tokenizer_encode : string -> list Z.
Variable tokenizer_apply_chat_template : list message -> string.
Variable fix_text : string -> string.
Variable wikitext_detokenizer : string -> string.
Variable utf8_len : string -> Z.
Variable lower : string -> string.

Local Abbreviation build_tokenized_answer :=
  (build_tokenized_answer callable tokenizer_call tokenizer_encode).
Local Abbreviation encode_tokenize :=
  (encode_tokenize cfg callable tokenizer_call tokenizer_encode
                   tokenizer_apply_chat_template fix_text wikitext_detokenizer
                   utf8_len lower).
Local Abbreviation encode_tokens := (encode_tokens cfg).
Local Abbreviation encode :=
  (encode cfg callable tokenizer_call tokenizer_encode
          tokenizer_apply_chat_template fix_text wikitext_detokenizer utf8_len lower).

Lemma build_tokenized_answer_raises (prompt prompt_response : string) (e : exn) :
  build_tokenized_answer prompt prompt_response = Raise e ->
  e = ValueError msg_concat_length \/ e = ValueError msg_prompt_mask_length.
Proof.
  unfold build_tokenized_answer.
  destruct (negb _); [intros [= <-]; auto|].
  destruct (negb _); [intros [= <-]; auto|]. discriminate.
Qed.

(** What [encode] can raise before the prompt check. *)
Lemma encode_tokenize_raises (doc : option field * field * field) (e : exn) :
  encode_tokenize doc = Raise e ->
  e = TypeError msg_none_plus_list
  \/ e = ValueError msg_concat_length
  \/ e = ValueError msg_prompt_mask_length.
Proof.
  destruct doc as [[prompt chosen] rejected]. unfold encode_tokenize.
  destruct (has_empty_field chosen rejected); [discriminate|].
  destruct (derive_prompt cfg lower prompt chosen rejected initial_stats)
    as [st|prompt']; [discriminate|].
  destruct (render cfg tokenizer_apply_chat_template prompt' chosen rejected)
    as [[pc pr]| |] eqn:Hrender; cbn [bind].
  - destruct (normalize cfg fix_text wikitext_detokenizer utf8_len pc pr initial_stats)
      as [[pc' pr'] st'].
    destruct (find_response cfg pc' =? -1); [discriminate|].
    destruct (build_tokenized_answer _ pc') as [c| |] eqn:Hc; cbn [bind].
    + destruct (build_tokenized_answer _ pr') as [r| |] eqn:Hr; cbn [bind];
        try discriminate.
      intros [= <-]. right. eapply build_tokenized_answer_raises; eauto.
    + intros [= <-]. right. eapply build_tokenized_answer_raises; eauto.
    + discriminate.
  - intros [= <-]. left.
    unfold render in Hrender. destruct prompt'.
    + destruct (all_dicts chosen && all_dicts rejected); discriminate.
    + injection Hrender as <-. reflexivity.
  - discriminate.
Qed.

(** What [encode] can raise from the prompt check on. *)
Lemma encode_tokens_raises (c r : answer_tokens) (stats : data_stats) (e : exn) :
  encode_tokens c r stats = Raise e ->
  (prompts_differ c r = true /\ e = ValueError msg_prompt_differs)
  \/ (prompts_differ c r = false /\ e = ValueError msg_stack_shape).
Proof.
  unfold encode_tokens.
  destruct (prompts_differ c r); [intros [= <-]; auto|].
  destruct (sequence_tokens cfg _) as [[c_ids c_mask] c_labels].
  destruct (sequence_tokens cfg _) as [[r_ids r_mask] r_labels].
  unfold np_stack.
  destruct (forallb _ _); cbn [bind]; [discriminate|].
  intros [= <-]. auto.
Qed.

Lemma prompts_differ_spec (c r : answer_tokens) :
  prompts_differ c r = true
  <-> (1 < differing_positions (prompt_input_ids c) (prompt_input_ids r))%nat
      \/ 1 < Z.abs (zlen (prompt_input_ids c) - zlen (prompt_input_ids r)).
Proof.
  unfold prompts_differ. rewrite num_diff_tokens_positions.
  rewrite orb_true_iff, !Z.ltb_lt. split; intros [H|H]; auto; left; lia.
Qed.

(** The statistics of a document at the two exits of [encode_tokenize]. *)
Lemma encode_tokenize_stats (doc : option field * field * field) :
  match encode_tokenize doc with
  | Ret (Discard st) => discarded st = 1 /\ successful st = 0 /\ processed st = 1
  | Ret (Continue (_, _, st)) => discarded st = 0 /\ successful st = 0
  | _ => True
  end.
Proof.
  destruct doc as [[prompt chosen] rejected]. unfold encode_tokenize.
  destruct (has_empty_field chosen rejected); [cbn; auto|].
  assert (Hd : match derive_prompt cfg lower prompt chosen rejected initial_stats with
               | Discard st => st = set_discarded initial_stats
               | Continue _ => True
               end).
  { unfold derive_prompt. destruct prompt; [exact I|].
    destruct chosen; [|exact I].
    destruct (isinstance_str rejected); [|exact I].
    destruct (_ =? -1); [reflexivity|exact I]. }
  destruct (derive_prompt cfg lower prompt chosen rejected initial_stats)
    as [st|prompt']; [subst st; cbn; auto|].
  destruct (render cfg tokenizer_apply_chat_template prompt' chosen rejected)
    as [[pc pr]| |]; cbn [bind]; auto.
  unfold normalize.
  destruct (find_response cfg _ =? -1); [cbn; auto|].
  destruct (build_tokenized_answer _ _) as [c| |]; cbn [bind]; auto.
  destruct (build_tokenized_answer _ _) as [r| |]; cbn [bind]; auto.
Qed.

(** C5: [encode] raises the prompt-mismatch [ValueError] exactly for the
    documents whose chosen-prompt and rejected-prompt token ids differ in
    more than one position or differ in length by more than one. *)
Theorem encode_prompt_mismatch (doc : option field * field * field) :
  encode doc = Raise (ValueError msg_prompt_differs)
  <-> exists chosen_tokens rejected_tokens stats,
        encode_tokenize doc = Ret (Continue (chosen_tokens, rejected_tokens, stats))
        /\ ((1 < differing_positions (prompt_input_ids chosen_tokens)
                                     (prompt_input_ids rejected_tokens))%nat
            \/ 1 < Z.abs (zlen (prompt_input_ids chosen_tokens)
                          - zlen (prompt_input_ids rejected_tokens))).
Proof.
  unfold encode. split.
  - destruct (encode_tokenize doc) as [[st|[[c r] st]]|e|] eqn:Htok;
      cbn [bind]; try discriminate.
    + intros Hrun. exists c, r, st. split; [reflexivity|].
      apply prompts_differ_spec.
      destruct (encode_tokens_raises c r st _ Hrun) as [[Hd _]|[_ He]]; auto.
      exfalso. pose proof msg_differs_not_stack. congruence.
    + intros [= ->]. exfalso.
      pose proof msg_differs_not_concat. pose proof msg_differs_not_mask.
      destruct (encode_tokenize_raises doc _ Htok) as [He|[He|He]];
        congruence.
  - intros (c & r & st & Htok & Hdiff). rewrite Htok. cbn [bind].
    apply prompts_differ_spec in Hdiff.
    unfold encode_tokens. rewrite Hdiff. reflexivity.
Qed.

(** C8: a document whose [chosen] field is the empty string is dropped:
    [encode] returns the empty sample list with [discarded = 1] and
    [processed = 1], and raises nothing. *)
Theorem encode_empty_chosen (prompt : option field) (rejected : field) :
  exists stats,
    encode (prompt, FStr "", rejected) = Ret ([], stats)
    /\ discarded stats = 1 /\ processed stats = 1 /\ successful stats = 0.
Proof.
  exists (set_discarded initial_stats). unfold encode, encode_tokenize.
  unfold has_empty_field. cbn. auto.
Qed.

(** ** The shape of the sample *)

Lemma slice_from_length {A : Type} (l : list A) (k : Z) :
  length (slice_from l k) = (length l - clamp_index (length l) k)%nat.
Proof. unfold slice_from. apply length_drop. Qed.

Lemma pad_to_max_length (v : Z) (tokens : list Z) :
  0 <= max_seq_length cfg ->
  length (pad_to_max cfg v tokens)
  = Nat.max (Z.to_nat (max_seq_length cfg)) (length tokens).
Proof.
  intros HM. unfold pad_to_max, assign_slice_to, py_repeat, zlen.
  rewrite length_app, slice_from_length, length_replicate.
  unfold clamp_index.
  destruct (Z.ltb_spec (Z.of_nat (length tokens)) 0); [lia|].
  rewrite Nat2Z.id. lia.
Qed.

(** The labels are shorter than the ids they are cut from. *)
Lemma sequence_tokens_lengths (t : answer_tokens) (ids mask labels : list Z) :
  sequence_tokens cfg t = (ids, mask, labels) ->
  (length labels <= length ids - 1)%nat.
Proof.
  unfold sequence_tokens. intros [= <- <- <-].
  unfold assign_slice_to, py_repeat, zlen.
  rewrite length_app, slice_from_length, length_replicate.
  assert (Htl : forall (l : list Z), length (tail l) = (length l - 1)%nat).
  { intros [|? ?]; simpl; lia. }
  unfold clamp_index. rewrite ?Htl, ?length_app.
  destruct (Z.ltb_spec (Z.of_nat (length (prompt_input_ids t)) - 1) 0); lia.
Qed.

Lemma np_stack_rows (r0 : list Z) (rest stacked : list (list Z)) :
  np_stack (r0 :: rest) = Ret stacked ->
  stacked = r0 :: rest /\ Forall (fun x => length x = length r0) rest.
Proof.
  unfold np_stack.
  destruct (forallb _ rest) eqn:Hall; [|discriminate].
  intros [= <-]. split; [reflexivity|].
  rewrite forallb_forall in Hall. apply Forall_forall. intros x Hx.
  apply list_elem_of_In in Hx. specialize (Hall x Hx).
  apply Nat.eqb_eq in Hall. exact Hall.
Qed.

(** C6: for a maximum sequence length that is not negative, whatever
    [encode] returns for a document it does not discard is one stack of
    exactly six arrays, each of length [max_seq_length]: shape
    [(1, 6, max_seq_length)]. *)
Theorem encode_sample_shape (doc : option field * field * field)
    (sample : list (list (list Z))) (stats : data_stats) :
  0 <= max_seq_length cfg ->
  encode doc = Ret (sample, stats) ->
  (sample = [] /\ discarded stats = 1 /\ successful stats = 0)
  \/ (exists r1 r2 r3 r4 r5 r6,
        sample = [[r1; r2; r3; r4; r5; r6]]
        /\ Forall (fun r => zlen r = max_seq_length cfg) [r1; r2; r3; r4; r5; r6]
        /\ discarded stats = 0 /\ successful stats = 1).
Proof.
  intros HM. unfold encode.
  pose proof (encode_tokenize_stats doc) as Hst.
  destruct (encode_tokenize doc) as [[st|[[c r] st]]|e|]; cbn [bind];
    try discriminate.
  - intros [= <- <-]. left. destruct Hst as (? & ? & ?). auto.
  - intros Hrun. right. unfold encode_tokens in Hrun.
    destruct (prompts_differ c r); [discriminate|].
    set (longer := Z.max (zlen (answer_input_ids (add_eos cfg (add_bos cfg c))))
                         (zlen (answer_input_ids (add_eos cfg (add_bos cfg r)))))
      in Hrun.
    set (tc := truncate_response cfg longer
                 (truncate_prompt cfg longer (add_eos cfg (add_bos cfg c))))
      in Hrun.
    set (tr := truncate_response cfg longer
                 (truncate_prompt cfg longer (add_eos cfg (add_bos cfg r))))
      in Hrun.
    destruct (sequence_tokens cfg tc) as [[c_ids c_mask] c_labels] eqn:Hc.
    destruct (sequence_tokens cfg tr) as [[r_ids r_mask] r_labels] eqn:Hr.
    destruct (np_stack _) as [stacked| |] eqn:Hstack; cbn [bind] in Hrun;
      try discriminate.
    injection Hrun as <- <-.
    apply np_stack_rows in Hstack. destruct Hstack as [-> Hall].
    pose proof (sequence_tokens_lengths _ _ _ _ Hc) as Hlab.
    do 6 eexists. split; [reflexivity|].
    inversion Hall as [|? ? H2 Hall2]; subst.
    inversion Hall2 as [|? ? H3 Hall3]; subst.
    inversion Hall3 as [|? ? H4 Hall4]; subst.
    inversion Hall4 as [|? ? H5 Hall5]; subst.
    inversion Hall5 as [|? ? H6 _]; subst.
    pose proof (pad_to_max_length (pad_id cfg) c_labels HM) as Hl3.
    pose proof (pad_to_max_length (pad_id cfg) c_ids HM) as Hl1.
    assert (Hmax : length (pad_to_max cfg (pad_id cfg) c_ids)
                   = Z.to_nat (max_seq_length cfg)) by lia.
    cbn [discarded successful]. destruct Hst as [Hd _].
    split; [|split; [exact Hd|reflexivity]].
    unfold zlen.
    repeat (apply Forall_cons; split; [lia|]). constructor.
Qed.

End DpoProofs.

(** A configuration for concrete runs: no chat template, no clean-up, the
    default role names, sequences of 48 tokens with at most 16 for the
    prompt. *)
Definition example_config : dpo_config :=
  DpoConfig false false 48 16 0 1 false "user" "assistant" None false 2.

Definition example_encode (doc : option field * field * field)
  : outcome (list (list (list Z)) * data_stats) :=
  encode example_config false (fun _ => Features [] []) char_encode
         (fun _ => EmptyString) (fun s => s) (fun s => s)
         (fun s => Z.of_nat (String.length s)) ascii_lower doc.

Lemma encode_sample_shape_witness :
  exists sample stats,
    example_encode (Some (FStr "hi"), FStr "yes", FStr "no") = Ret (sample, stats)
    /\ ((sample = [] /\ discarded stats = 1 /\ successful stats = 0)
        \/ (exists r1 r2 r3 r4 r5 r6,
              sample = [[r1; r2; r3; r4; r5; r6]]
              /\ Forall (fun r => zlen r = max_seq_length example_config)
                        [r1; r2; r3; r4; r5; r6]
              /\ discarded stats = 0 /\ successful stats = 1)).
Proof.
  eexists. eexists. split.
  - vm_compute. reflexivity.
  - apply (encode_sample_shape example_config false (fun _ => Features [] [])
             char_encode (fun _ => EmptyString) (fun s => s) (fun s => s)
             (fun s => Z.of_nat (String.length s)) ascii_lower
             (Some (FStr "hi"), FStr "yes", FStr "no")).
    + vm_compute. intro H; discriminate H.
    + vm_compute. reflexivity.
Defined.

(** * Checkpoint files *)

Local Open Scope string_scope.

(** The characters [str] of an integer is made of. *)
Definition is_numeral_char (c : ascii) : bool := is_digit c || Ascii.eqb c "-".

Fixpoint all_chars (f : ascii -> bool) (s : string) : bool :=
  match s with
  | EmptyString => true
  | String c rest => f c && all_chars f rest
  end.

Lemma all_chars_weaken (f h : ascii -> bool) (s : string) :
  (forall c, f c = true -> h c = true) ->
  all_chars f s = true -> all_chars h s = true.
Proof.
  intros Hfh. induction s as [|c s IH]; simpl; auto.
  rewrite !andb_true_iff. intros [Hc Hs]. auto.
Qed.

Lemma digits_of_uint (d : uint) : all_chars is_digit (NilEmpty.string_of_uint d) = true.
Proof. induction d; simpl; auto. Qed.

Lemma digits_of_uint_nz (d : uint) :
  all_chars is_digit (NilZero.string_of_uint d) = true
  /\ NilZero.string_of_uint d <> "".
Proof.
  destruct d; simpl; split; try discriminate; try reflexivity;
    apply digits_of_uint.
Qed.

Lemma py_str_numeral (z : Z) : all_chars is_numeral_char (py_str z) = true.
Proof.
  unfold py_str.
  assert (Hd : forall d, all_chars is_numeral_char (NilZero.string_of_uint d) = true).
  { intros d. apply (all_chars_weaken is_digit); [|apply digits_of_uint_nz].
    intros c Hc. unfold is_numeral_char. rewrite Hc. reflexivity. }
  destruct (Z.to_int z); simpl; auto.
Qed.

(** ** Splitting the line *)

Lemma prefix_sep_other (c : ascii) (s : string) :
  Ascii.eqb c "," = false -> String.prefix ", " (String c s) = false.
Proof.
  intros Hc.
  change (String.prefix ", " (String c s))
    with (if Ascii.ascii_dec "," c then String.prefix " " s else false).
  destruct (Ascii.ascii_dec "," c) as [E|E]; [|reflexivity].
  subst c. discriminate.
Qed.

Lemma numeral_not_comma (c : ascii) :
  is_numeral_char c = true -> Ascii.eqb c "," = false.
Proof.
  destruct c as [[] [] [] [] [] [] [] []]; vm_compute; intros H;
    first [reflexivity | discriminate H].
Qed.

Lemma append_cons (a : ascii) (s t : string) :
  String a s ++ t = String a (s ++ t).
Proof. reflexivity. Qed.

Lemma append_assoc_char (acc : string) (c : ascii) (p : string) :
  (acc ++ String c EmptyString) ++ p = acc ++ String c p.
Proof.
  induction acc as [|a acc IH]; [reflexivity|].
  rewrite !append_cons, IH. reflexivity.
Qed.

Lemma append_empty_r (s : string) : s ++ "" = s.
Proof.
  induction s as [|a s IH]; [reflexivity|].
  rewrite append_cons, IH. reflexivity.
Qed.

Lemma prefix_sep_here (rest : string) :
  String.prefix ", " (String "," (String " " rest)) = true.
Proof.
  change (String.prefix ", " (String "," (String " " rest)))
    with (String.prefix "" rest).
  destruct rest; reflexivity.
Qed.

Lemma split_at_sep (rest acc : string) :
  split_aux ", " (", " ++ rest) 0 acc = acc :: split_aux ", " rest 0 "".
Proof.
  change (", " ++ rest) with (String "," (String " " rest)).
  cbn [split_aux]. rewrite prefix_sep_here. reflexivity.
Qed.

Lemma split_piece (piece rest acc : string) :
  all_chars is_numeral_char piece = true ->
  split_aux ", " (piece ++ ", " ++ rest) 0 acc
  = (acc ++ piece) :: split_aux ", " rest 0 "".
Proof.
  revert acc. induction piece as [|c p IH]; intros acc Hp.
  - rewrite append_empty_r. apply split_at_sep.
  - simpl in Hp. apply andb_true_iff in Hp. destruct Hp as [Hc Hp].
    rewrite append_cons. cbn [split_aux].
    rewrite (prefix_sep_other c _ (numeral_not_comma c Hc)).
    rewrite IH by exact Hp. rewrite append_assoc_char. reflexivity.
Qed.

Lemma split_last_piece (piece acc : string) :
  all_chars is_numeral_char piece = true ->
  split_aux ", " piece 0 acc = [acc ++ piece].
Proof.
  revert acc. induction piece as [|c p IH]; intros acc Hp.
  - rewrite append_empty_r. reflexivity.
  - simpl in Hp. apply andb_true_iff in Hp. destruct Hp as [Hc Hp].
    cbn [split_aux].
    rewrite (prefix_sep_other c _ (numeral_not_comma c Hc)).
    rewrite IH by exact Hp. rewrite append_assoc_char. reflexivity.
Qed.

(** ** Reading an integer back *)

Lemma numeral_not_space (c : ascii) : is_numeral_char c = true -> is_space c = false.
Proof.
  destruct c as [[] [] [] [] [] [] [] []]; vm_compute; intros H;
    first [reflexivity | discriminate H].
Qed.

Lemma numeral_not_underscore (c : ascii) :
  is_numeral_char c = true -> Ascii.eqb c "_" = false.
Proof.
  destruct c as [[] [] [] [] [] [] [] []]; vm_compute; intros H;
    first [reflexivity | discriminate H].
Qed.

Lemma digit_not_sign (c : ascii) :
  is_digit c = true -> Ascii.eqb c "-" = false /\ Ascii.eqb c "+" = false.
Proof.
  destruct c as [[] [] [] [] [] [] [] []]; vm_compute; intros H;
    first [split; reflexivity | discriminate H].
Qed.

Lemma lstrip_numeral (s : string) :
  all_chars is_numeral_char s = true -> lstrip s = s.
Proof.
  destruct s as [|c s]; simpl; auto.
  rewrite andb_true_iff. intros [Hc _].
  rewrite (numeral_not_space c Hc). reflexivity.
Qed.

Lemma rstrip_numeral (s : string) :
  all_chars is_numeral_char s = true -> rstrip s = s.
Proof.
  induction s as [|c s IH]; simpl; auto.
  rewrite andb_true_iff. intros [Hc Hs].
  rewrite (IH Hs), (numeral_not_space c Hc). destruct s; reflexivity.
Qed.

Lemma drop_underscores_numeral (s : string) (b : bool) :
  all_chars is_numeral_char s = true -> drop_underscores s b = Some s.
Proof.
  revert b. induction s as [|c s IH]; intros b; simpl; auto.
  rewrite andb_true_iff. intros [Hc Hs].
  rewrite (numeral_not_underscore c Hc), (IH _ Hs). reflexivity.
Qed.

Lemma uint_round_trip (d : uint) :
  exists d', NilZero.uint_of_string (NilZero.string_of_uint d) = Some d'
             /\ Z.of_uint d' = Z.of_uint d.
Proof.
  destruct (NilZero.usu_gen d) as [H|H].
  - exists d. auto.
  - destruct d; try (exists d; split; [apply NilZero.usu; discriminate|reflexivity]);
      try (eexists; split; [apply NilZero.usu; discriminate|reflexivity]).
    exists Decimal.zero. split; [exact H|reflexivity].
Qed.

(** [int(str(z)) == z]. *)
Lemma py_int_py_str (z : Z) : py_int (py_str z) = Some z.
Proof.
  pose proof (py_str_numeral z) as Hnum.
  unfold py_int. rewrite (lstrip_numeral _ Hnum), (rstrip_numeral _ Hnum).
  pose proof (DecimalZ.of_to z) as Hz.
  unfold py_str in *. destruct (Z.to_int z) as [d|d]; cbn [NilZero.string_of_int] in *.
  - destruct (digits_of_uint_nz d) as [Hd Hne].
    destruct (NilZero.string_of_uint d) as [|c s] eqn:Hs; [contradiction|].
    simpl in Hd. apply andb_true_iff in Hd. destruct Hd as [Hc Hd].
    destruct (digit_not_sign c Hc) as [H1 H2]. rewrite H1, H2.
    rewrite (drop_underscores_numeral _ _ Hnum). rewrite <- Hs.
    destruct (uint_round_trip d) as (d' & Hd' & Hv). rewrite Hd'.
    f_equal. simpl in *. congruence.
  - rewrite Ascii.eqb_refl.
    simpl in Hnum.
    rewrite (drop_underscores_numeral _ _ Hnum).
    destruct (uint_round_trip d) as (d' & Hd' & Hv). rewrite Hd'.
    f_equal. simpl in *. congruence.
Qed.

(** C9: what [update_checkpoint] writes for five integers,
    [read_checkpoint] parses back to the same five integers. *)
Theorem checkpoint_round_trip (file_idx doc_idx chunk_number chunks_written
    sequences_written : Z) :
  exists text,
    update_checkpoint
      [file_idx; doc_idx; chunk_number; chunks_written; sequences_written]
    = Ret text
    /\ parse_checkpoint text
       = Some (file_idx, doc_idx, chunk_number, chunks_written, sequences_written)
    /\ read_process_checkpoint true (Some text)
       = (file_idx, doc_idx, chunk_number, chunks_written, sequences_written).
Proof.
  eexists. split; [reflexivity|].
  assert (Hparse :
    parse_checkpoint
      (py_str file_idx ++ ", " ++ py_str doc_idx ++ ", " ++ py_str chunk_number
       ++ ", " ++ py_str chunks_written ++ ", " ++ py_str sequences_written)
    = Some (file_idx, doc_idx, chunk_number, chunks_written, sequences_written)).
  { unfold parse_checkpoint, py_split.
    rewrite !split_piece by apply py_str_numeral.
    rewrite split_last_piece by apply py_str_numeral.
    change (fun s => "" ++ s) with (fun s : string => s).
    repeat match goal with
           | |- context [ "" ++ ?s ] => change ("" ++ s) with s
           end.
    cbn [ints_of]. rewrite !py_int_py_str. reflexivity. }
  split; [exact Hparse|].
  unfold read_process_checkpoint. rewrite Hparse. reflexivity.
Qed.

Local Close Scope string_scope.

(** * Process topology *)

Lemma task_split_total (processes : Z) (shuffle : bool) :
  3 <= processes ->
  let r := task_split_roles processes shuffle in
  reader_processes r + tokenizer_processes r + writer_processes r = processes
  /\ 1 <= tokenizer_processes r /\ 1 <= writer_processes r.
Proof.
  intros Hp. unfold task_split_roles, tokenize_process_num, writer_process_num,
    ceil_div; cbn [reader_processes tokenizer_processes writer_processes].
  destruct shuffle; Z.to_euclidean_division_equations; lia.
Qed.

(** C3, as amended: the file split is chosen exactly for fewer than 3
    processes; 5 processes without shuffling run as one reader,
    [ceil(4/10) = 1] writer and [5 - 1 - 1 = 3] tokenizers, and in general the
    three roles of the task split add up to the process count. *)
Theorem process_dataset_roles :
  (forall processes, process_dataset_topology processes = FileSplit <-> processes < 3)
  /\ process_dataset_topology 5 = TaskSplit
  /\ task_split_roles 5 false = Roles 1 3 1
  /\ (forall processes shuffle,
        process_dataset_topology processes = TaskSplit ->
        let r := task_split_roles processes shuffle in
        reader_processes r + tokenizer_processes r + writer_processes r = processes).
Proof.
  split; [|split; [|split]].
  - intros p. unfold process_dataset_topology.
    destruct (Z.ltb_spec p 3); split; intros; try discriminate; try lia; reflexivity.
  - reflexivity.
  - reflexivity.
  - intros p s. unfold process_dataset_topology.
    destruct (Z.ltb_spec p 3); [discriminate|]. intros _.
    apply (task_split_total p s). lia.
Qed.

(** C3 as stated fails: with 5 processes the task split starts 3
    tokenizers, not 4. *)
Lemma five_processes_three_tokenizers :
  tokenizer_processes (task_split_roles 5 false) = 3
  /\ tokenizer_processes (task_split_roles 5 false) <> 4.
Proof. split; [reflexivity|discriminate]. Qed.

(** * Shard writing *)

Local Open Scope string_scope.

(** A buffer whose two fields disagree on the number of rows. *)
Definition mismatched_buffer : list (string * list ndarray) :=
  [("input_ids", [NdArray [3%nat] [[1; 2; 3]; [4; 5; 6]]]);
   ("labels", [NdArray [3%nat] [[2; 3; 0]]])].

(** C4 fails on the sequential path: [save_buffer_to_hdf5] writes the
    mismatched buffer without any check; the shard gets a dataset of 2 rows
    and one of 1 row, and [n_examples] is the row count of the field written
    last. *)
Theorem save_buffer_writes_mismatched_rows :
  let '(h5, result) := save_buffer_to_hdf5 empty_h5file mismatched_buffer false in
  result = Ret tt
  /\ shape0 <$> datasets h5 !! "input_ids" = Some 2
  /\ shape0 <$> datasets h5 !! "labels" = Some 1
  /\ n_examples_attr h5 = Some 1.
Proof. vm_compute. repeat split; reflexivity. Qed.

(** The append path does check: whatever step 1 of [append_df_to_hdf5]
    accepts has the same number of rows in every field. *)
Lemma concat_fields_checked (tokenized_data : list (string * list ndarray))
    (n0 : option Z) (data_dict : list (string * ndarray)) (n : option Z) :
  concat_fields tokenized_data n0 = Ret (data_dict, n) ->
  match n with
  | Some k => Forall (fun p => shape0 (snd p) = k) data_dict
              /\ (forall k0, n0 = Some k0 -> k0 = k)
  | None => data_dict = [] /\ n0 = None
  end.
Proof.
  revert n0 data_dict n.
  induction tokenized_data as [|[label arrays] rest IH]; intros n0 dict n; simpl.
  - intros [= <- <-]. destruct n0; [split; [constructor|congruence]|auto].
  - destruct (np_concatenate arrays) as [data| |]; cbn [bind]; try discriminate.
    destruct n0 as [k0|].
    + destruct (Z.eqb_spec k0 (shape0 data)) as [Hk|Hk]; cbn [bind];
        [|discriminate].
      destruct (concat_fields rest (Some k0)) as [[dict' n']| |] eqn:Hrest;
        cbn [bind]; try discriminate.
      intros [= <- <-]. specialize (IH _ _ _ Hrest).
      destruct n' as [k|]; [|destruct IH; discriminate].
      destruct IH as [Hall Hk0]. specialize (Hk0 k0 eq_refl). subst k.
      split; [constructor; [symmetry; exact Hk|exact Hall]|congruence].
    + cbn [bind].
      destruct (concat_fields rest (Some (shape0 data))) as [[dict' n']| |] eqn:Hrest;
        cbn [bind]; try discriminate.
      intros [= <- <-]. specialize (IH _ _ _ Hrest).
      destruct n' as [k|]; [|destruct IH; discriminate].
      destruct IH as [Hall Hk0]. specialize (Hk0 _ eq_refl). subst k.
      split; [constructor; [reflexivity|exact Hall]|congruence].
Qed.

(** On the mismatched buffer the append path raises [AssertionError] and
    leaves the output files as they were. *)
Lemma append_rejects_mismatched_rows (rng : Type)
    (choice : Z -> Z -> rng -> list nat * rng) (total_output_files : Z)
    (output_dir : gmap nat h5file) (g : rng) :
  append_df_to_hdf5 rng choice total_output_files mismatched_buffer output_dir g
  = (output_dir, g, Raise AssertionError).
Proof. reflexivity. Qed.

Local Close Scope string_scope.

(** * Further properties *)



(** X4.  Whatever [append_df_to_hdf5] accepts has the same number of rows,
    the returned [n_examples], in every field. *)
Theorem append_df_checks_row_counts (rng : Type)
    (choice : Z -> Z -> rng -> list nat * rng) (total_output_files : Z)
    (tokenized_data : list (string * list ndarray))
    (output_dir output_dir' : gmap nat h5file) (g g' : rng) (n_examples : Z) :
  append_df_to_hdf5 rng choice total_output_files tokenized_data output_dir g
  = (output_dir', g', Ret n_examples) ->
  exists data_dict,
    concat_fields tokenized_data None = Ret (data_dict, Some n_examples)
    /\ Forall (fun p => shape0 (snd p) = n_examples) data_dict.
Proof.
  unfold append_df_to_hdf5.
  destruct (concat_fields tokenized_data None) as [[dict [n|]]| |] eqn:Hc;
    try discriminate.
  destruct (_ && _); [discriminate|].
  destruct (choice total_output_files n g) as [idxs g1].
  destruct (write_groups _ _ _) as [dir' [u|e|]]; cbn [bind];
    try discriminate.
  intros [= _ _ <-]. exists dict. split; [reflexivity|].
  apply (concat_fields_checked _ _ _ _ Hc).
Qed.

(** A buffer of two fields with two rows each, and a draw that sends every
    row to output file 0. *)
Definition matched_buffer : list (string * list ndarray) :=
  [("input_ids"%string, [NdArray [3%nat] [[1; 2; 3]; [4; 5; 6]]]);
   ("labels"%string, [NdArray [3%nat] [[2; 3; 0]]; NdArray [3%nat] [[5; 6; 0]]])].

Definition first_file_choice (total_output_files n_examples : Z) (g : unit)
  : list nat * unit :=
  (replicate (Z.to_nat n_examples) 0%nat, g).

Lemma append_df_checks_row_counts_witness :
  exists data_dict,
    concat_fields matched_buffer None = Ret (data_dict, Some 2)
    /\ Forall (fun p => shape0 (snd p) = 2) data_dict.
Proof.
  apply (append_df_checks_row_counts unit first_file_choice 1 matched_buffer ∅
           (fst (fst (append_df_to_hdf5 unit first_file_choice 1 matched_buffer
                                        ∅ tt)))
           tt tt 2).
  reflexivity.
Defined.


(** * Work distribution among the processes *)

(** [sum(l)]. *)
Definition sum_Z (l : list Z) : Z := fold_right Z.add 0 l.

Lemma sum_Z_app (xs ys : list Z) : sum_Z (xs ++ ys) = sum_Z xs + sum_Z ys.
Proof. induction xs as [|x xs IH]; simpl; [reflexivity|]. rewrite IH. lia. Qed.

Lemma py_range_S (n : nat) :
  py_range (Z.of_nat (S n)) = py_range (Z.of_nat n) ++ [Z.of_nat n].
Proof.
  unfold py_range. rewrite !Nat2Z.id, seq_S, map_app. reflexivity.
Qed.

Lemma py_range_lookup (n : Z) (i : nat) :
  Z.of_nat i < n -> py_range n !! i = Some (Z.of_nat i).
Proof.
  intros Hi. unfold py_range.
  change (map Z.of_nat (seq 0 (Z.to_nat n))) with (Z.of_nat <$> seq 0 (Z.to_nat n)).
  rewrite list_lookup_fmap, lookup_seq_lt by lia. reflexivity.
Qed.

Lemma py_range_length (n : Z) : length (py_range n) = Z.to_nat n.
Proof. unfold py_range. rewrite length_map, length_seq. reflexivity. Qed.

Lemma chunks_sum_upto (q r : Z) (n : nat) :
  sum_Z (map (fun i => if i <? r then q + 1 else q) (py_range (Z.of_nat n)))
  = Z.of_nat n * q + Z.max 0 (Z.min (Z.of_nat n) r).
Proof.
  induction n as [|n IH]; [simpl; lia|].
  rewrite py_range_S, map_app, sum_Z_app, IH. simpl.
  destruct (Z.ltb_spec (Z.of_nat n) r); lia.
Qed.

(** X5.  The sentinel counts handed to the writers add up to the number of
    tokenizer processes: there is one count per writer, each is the
    quotient [T // W] or one more, and they sum to [T]. *)
Theorem chunks_per_writer_total (tokenize_process_num writer_process_num : Z) :
  0 < writer_process_num ->
  length (chunks_per_writer tokenize_process_num writer_process_num)
  = Z.to_nat writer_process_num
  /\ Forall (fun c => c = tokenize_process_num / writer_process_num
                      \/ c = tokenize_process_num / writer_process_num + 1)
            (chunks_per_writer tokenize_process_num writer_process_num)
  /\ sum_Z (chunks_per_writer tokenize_process_num writer_process_num)
     = tokenize_process_num.
Proof.
  intros HW. unfold chunks_per_writer. split; [|split].
  - rewrite length_map, py_range_length. reflexivity.
  - apply Forall_forall. intros c Hc. apply list_elem_of_In in Hc.
    apply in_map_iff in Hc. destruct Hc as (i & <- & _).
    destruct (_ <? _); auto.
  - replace (py_range writer_process_num)
      with (py_range (Z.of_nat (Z.to_nat writer_process_num)))
      by (rewrite Z2Nat.id; [reflexivity|lia]).
    rewrite chunks_sum_upto. rewrite Z2Nat.id by lia.
    pose proof (Z.mod_pos_bound tokenize_process_num writer_process_num HW).
    pose proof (Z.div_mod tokenize_process_num writer_process_num). lia.
Qed.

Lemma chunks_per_writer_total_witness :
  length (chunks_per_writer 7 3) = 3%nat
  /\ Forall (fun c => c = 2 \/ c = 3) (chunks_per_writer 7 3)
  /\ sum_Z (chunks_per_writer 7 3) = 7.
Proof. apply (chunks_per_writer_total 7 3). lia. Defined.

Lemma tour_bound (T W w i : Z) :
  0 < W -> 0 <= w < W -> 0 <= i ->
  (w + i * W < T <-> i < T / W + (if w <? T mod W then 1 else 0)).
Proof.
  intros HW Hw Hi.
  pose proof (Z.mod_pos_bound T W HW). pose proof (Z.div_mod T W).
  destruct (Z.ltb_spec w (T mod W)); nia.
Qed.

Lemma tour_position (T W w c : Z) (k : nat) :
  0 < W -> 0 <= w < W -> w < T ->
  c = T / W + (if w <? T mod W then 1 else 0) ->
  Nat.iter k (next_tokenizer_idx T W w) w = w + (Z.of_nat k mod c) * W.
Proof.
  intros HW Hw HT Hc.
  assert (Hc1 : 0 < c).
  { subst c. apply (tour_bound T W w 0 HW Hw); lia. }
  induction k as [|k IH]; [simpl; rewrite Z.mod_0_l by lia; lia|].
  rewrite Nat.iter_succ, IH. unfold next_tokenizer_idx.
  pose proof (Z.mod_pos_bound (Z.of_nat k) c Hc1) as Hm.
  set (m := Z.of_nat k mod c) in *.
  assert (Hnext : Z.of_nat (S k) mod c = (m + 1) mod c).
  { rewrite Nat2Z.inj_succ. unfold Z.succ, m.
    rewrite Z.add_mod_idemp_l by lia. reflexivity. }
  pose proof (tour_bound T W w (m + 1) HW Hw ltac:(lia)) as Hb.
  rewrite <- Hc in Hb. rewrite Hnext.
  destruct (Z.leb_spec T (w + m * W + W)) as [Hge|Hlt].
  - assert (m + 1 = c) as -> by lia. rewrite Z.mod_same by lia. lia.
  - rewrite Z.mod_small by lia. lia.
Qed.

(** X6.  A writer reads exactly the tokenizer queues that the reader
    counts as its own.  Writer [w] starts at queue [w], steps by the number
    of writers and wraps; its [k]-th read is queue [w + (k mod c) * W],
    where [c] is its entry of [chunks_per_writer], and a queue [j] is among
    the first [c] reads exactly when [j % W = w]. *)
Theorem writer_reads_its_queues (tokenize_process_num writer_process_num
    writer_idx : Z) :
  0 < writer_process_num ->
  0 <= writer_idx < writer_process_num ->
  writer_idx < tokenize_process_num ->
  let next :=
    next_tokenizer_idx tokenize_process_num writer_process_num writer_idx in
  exists c,
    chunks_per_writer tokenize_process_num writer_process_num
      !! Z.to_nat writer_idx = Some c
    /\ 1 <= c
    /\ (forall k : nat,
          Nat.iter k next writer_idx
          = writer_idx + (Z.of_nat k mod c) * writer_process_num)
    /\ (forall j, 0 <= j < tokenize_process_num ->
          (writer_index writer_process_num j = writer_idx
           <-> exists k : nat, Z.of_nat k < c /\ Nat.iter k next writer_idx = j)).
Proof.
  intros HW Hw HT next.
  set (T := tokenize_process_num) in *. set (W := writer_process_num) in *.
  set (w := writer_idx) in *.
  set (c := T / W + (if w <? T mod W then 1 else 0)).
  assert (Hc1 : 1 <= c).
  { pose proof (proj1 (tour_bound T W w 0 HW Hw ltac:(lia)) ltac:(lia)).
    unfold c. lia. }
  exists c. split; [|split; [exact Hc1|split]].
  - unfold chunks_per_writer.
    change (map ?f ?l) with (f <$> l).
    rewrite list_lookup_fmap, py_range_lookup by lia. simpl.
    rewrite Z2Nat.id by lia. unfold c. fold w. f_equal.
    destruct (w <? T mod W); lia.
  - intros k. apply tour_position; auto.
  - intros j Hj. unfold writer_index. split.
    + intros Hmod.
      pose proof (Z.div_mod j W ltac:(lia)) as Hdm.
      assert (Hq : 0 <= j / W) by (apply Z.div_pos; lia).
      assert (Hjc : j / W < c).
      { apply (tour_bound T W w (j / W) HW Hw Hq). lia. }
      exists (Z.to_nat (j / W)). rewrite Z2Nat.id by lia. split; [exact Hjc|].
      unfold next. rewrite (tour_position T W w c) by auto.
      rewrite Z2Nat.id, Z.mod_small by lia. lia.
    + intros (k & Hk & <-). unfold next.
      rewrite (tour_position T W w c) by auto.
      rewrite Z.mod_add by lia. apply Z.mod_small. lia.
Qed.

Lemma writer_reads_its_queues_witness :
  exists c,
    chunks_per_writer 7 3 !! Z.to_nat 1 = Some c
    /\ 1 <= c
    /\ (forall k : nat,
          Nat.iter k (next_tokenizer_idx 7 3 1) 1 = 1 + (Z.of_nat k mod c) * 3)
    /\ (forall j, 0 <= j < 7 ->
          (writer_index 3 j = 1
           <-> exists k : nat,
                 Z.of_nat k < c /\ Nat.iter k (next_tokenizer_idx 7 3 1) 1 = j)).
Proof. apply (writer_reads_its_queues 7 3 1); lia. Defined.

Lemma py_index_nat {A : Type} (l : list A) (i : nat) :
  py_index l (Z.of_nat i) = l !! i.
Proof.
  unfold py_index. destruct (Z.ltb_spec (Z.of_nat i) 0); [lia|].
  rewrite Nat2Z.id. reflexivity.
Qed.

Lemma py_set_index_nat {A : Type} (l : list A) (i : nat) (x : A) :
  py_set_index l (Z.of_nat i) x = <[i := x]> l.
Proof.
  unfold py_set_index. destruct (Z.ltb_spec (Z.of_nat i) 0); [lia|].
  rewrite Nat2Z.id. reflexivity.
Qed.

Section Assign.

Context {A : Type}.
Variable P : nat.
Hypothesis P_pos : (0 < P)%nat.

(** The lists of the processes once the files [done] have been handed
    out: list [p] holds the files at [p], [p + P], [p + 2 P], ... *)
Definition handed_out (done : list A) (lists : list (list A)) : Prop :=
  length lists = P
  /\ forall p k, (p < P)%nat ->
       lists !! p ≫= (.!! k) = done !! (p + k * P)%nat.

Lemma handed_out_length (done : list A) (lists : list (list A)) (l : list A) :
  handed_out done lists ->
  lists !! (length done mod P)%nat = Some l ->
  length l = (length done / P)%nat.
Proof.
  intros [_ H] Hl.
  pose proof (Nat.mod_upper_bound (length done) P ltac:(lia)) as Ht.
  pose proof (Nat.div_mod_eq (length done) P) as Hdm.
  assert (Hlk : forall k, l !! k = done !! (length done mod P + k * P)%nat).
  { intros k. rewrite <- (H _ k Ht), Hl. reflexivity. }
  apply Nat.le_antisymm.
  - destruct (Nat.le_gt_cases (length l) (length done / P)) as [|Hgt]; [assumption|].
    apply lookup_lt_is_Some_2 in Hgt. rewrite Hlk in Hgt.
    apply lookup_lt_is_Some_1 in Hgt. nia.
  - destruct (Nat.le_gt_cases (length done / P) (length l)) as [|Hgt]; [assumption|].
    pose proof (lookup_ge_None_2 l (length l) ltac:(lia)) as Hnone.
    rewrite Hlk in Hnone. apply lookup_ge_None_1 in Hnone. nia.
Qed.

Lemma handed_out_step (done : list A) (lists : list (list A)) (l : list A)
    (file : A) :
  handed_out done lists ->
  lists !! (length done mod P)%nat = Some l ->
  handed_out (done ++ [file]) (<[(length done mod P)%nat := l ++ [file]]> lists).
Proof.
  intros Hinv Hl. pose proof (handed_out_length _ _ _ Hinv Hl) as Hlen.
  destruct Hinv as [HP H].
  pose proof (Nat.mod_upper_bound (length done) P ltac:(lia)) as Ht.
  pose proof (Nat.div_mod_eq (length done) P) as Hdm.
  split; [rewrite length_insert; exact HP|].
  intros p k Hp.
  destruct (Nat.eq_dec p (length done mod P)%nat) as [->|Hne].
  - rewrite list_lookup_insert_eq by lia. simpl.
    specialize (H _ k Ht). rewrite Hl in H. simpl in H.
    destruct (Nat.lt_trichotomy k (length done / P)) as [Hk|[->|Hk]].
    + rewrite !lookup_app_l by (try rewrite Hlen; nia). exact H.
    + replace (length done mod P + length done / P * P)%nat
        with (length done) by nia.
      rewrite <- Hlen at 1. rewrite !list_lookup_middle by reflexivity.
      reflexivity.
    + rewrite !lookup_ge_None_2; [reflexivity| |];
        rewrite length_app; simpl; nia.
  - rewrite list_lookup_insert_ne by lia. rewrite (H _ k Hp).
    destruct (Nat.lt_trichotomy (p + k * P) (length done)) as [Hk|[Hk|Hk]].
    + rewrite lookup_app_l by lia. reflexivity.
    + exfalso. apply Hne. rewrite <- Hk.
      rewrite Nat.Div0.mod_add. symmetry. apply Nat.mod_small. exact Hp.
    + rewrite !lookup_ge_None_2; [reflexivity| |];
        try rewrite length_app; simpl; lia.
Qed.

Lemma assign_files_handed_out (rest done : list A) (lists : list (list A)) :
  handed_out done lists ->
  exists lists',
    assign_files (Z.of_nat P) (Z.of_nat (length done)) rest lists = Some lists'
    /\ handed_out (done ++ rest) lists'.
Proof.
  revert done lists. induction rest as [|file rest IH]; intros done lists Hinv.
  - exists lists. rewrite app_nil_r. split; [reflexivity|exact Hinv].
  - cbn [assign_files]. destruct (Z.eqb_spec (Z.of_nat P) 0) as [|_]; [lia|].
    rewrite <- Nat2Z.inj_mod, py_index_nat.
    pose proof (Nat.mod_upper_bound (length done) P ltac:(lia)) as Ht.
    destruct (lists !! (length done mod P)%nat) as [l|] eqn:Hl.
    2:{ apply lookup_ge_None_1 in Hl. destruct Hinv as [HP _]. lia. }
    rewrite py_set_index_nat.
    destruct (IH (done ++ [file]) _ (handed_out_step _ _ _ file Hinv Hl))
      as (lists' & Hrun & Hinv').
    exists lists'. rewrite <- app_assoc in Hinv'. split; [|exact Hinv'].
    rewrite <- Hrun. f_equal. rewrite length_app. simpl. lia.
Qed.

End Assign.

(** X7.  [file_split_process_dataset] deals the input files out in turn:
    with [P > 0] processes there are [P] lists, and the [k]-th file of
    process [p] is input file [p + k * P] (so every file is in exactly one
    list, in the order of the input). *)
Theorem files_dealt_in_turn {A : Type} (processes : Z) (input_files : list A) :
  0 < processes ->
  exists lists,
    process_file_lists processes input_files = Some lists
    /\ length lists = Z.to_nat processes
    /\ forall p k : nat,
         (p < Z.to_nat processes)%nat ->
         lists !! p ≫= (.!! k)
         = input_files !! (p + k * Z.to_nat processes)%nat.
Proof.
  intros HP. unfold process_file_lists.
  assert (Hinit : handed_out (Z.to_nat processes) ([] : list A)
                    (map (fun _ => []) (py_range processes))).
  { split; [rewrite length_map, py_range_length; reflexivity|].
    intros p k Hp. change (map ?f ?l) with (f <$> l).
    rewrite list_lookup_fmap, py_range_lookup by lia. reflexivity. }
  destruct (assign_files_handed_out (Z.to_nat processes) ltac:(lia)
              input_files [] _ Hinit) as (lists & Hrun & Hlen & Hlk).
  rewrite Z2Nat.id in Hrun by lia. exists lists. auto.
Qed.

Lemma files_dealt_in_turn_witness :
  exists lists,
    process_file_lists 2 [10; 11; 12; 13; 14] = Some lists
    /\ length lists = Z.to_nat 2
    /\ forall p k : nat,
         (p < Z.to_nat 2)%nat ->
         lists !! p ≫= (.!! k) = [10; 11; 12; 13; 14] !! (p + k * Z.to_nat 2)%nat.
Proof. apply (files_dealt_in_turn 2 [10; 11; 12; 13; 14]). lia. Defined.

(** [enumerate(l, start)]. *)
Fixpoint py_enumerate {A : Type} (start : Z) (l : list A) : list (Z * A) :=
  match l with
  | [] => []
  | x :: rest => (start, x) :: py_enumerate (start + 1) rest
  end.

Lemma py_index_nonneg {A : Type} (l : list A) (i : Z) :
  0 <= i -> py_index l i = l !! Z.to_nat i.
Proof.
  intros Hi. unfold py_index. destruct (Z.ltb_spec i 0); [lia|reflexivity].
Qed.

Lemma py_set_index_nonneg {A : Type} (l : list A) (i : Z) (x : A) :
  0 <= i -> py_set_index l i x = <[Z.to_nat i := x]> l.
Proof.
  intros Hi. unfold py_set_index. destruct (Z.ltb_spec i 0); [lia|reflexivity].
Qed.

Lemma first_checkpoint_replicate (n : nat) (c : checkpoint) :
  (0 < n)%nat -> first_checkpoint (replicate n c) = Some c.
Proof.
  induction n as [|n IH]; [lia|]. intros _. simpl.
  destruct n as [|n]; [reflexivity|].
  rewrite IH by lia. rewrite Z.ltb_irrefl. reflexivity.
Qed.

Section ReaderProofs.

Variable df_chunk : Type.
Variables T W : Z.
Hypothesis T_pos : 0 < T.
Hypothesis W_pos : 0 < W.

Local Abbreviation fresh := (replicate (Z.to_nat W) (0, 0, 0, 0, 0)).

Lemma reader_body_fresh (n0 : Z) (queues : list (queue df_chunk))
    (chunk : df_chunk) :
  0 <= n0 -> length queues = Z.to_nat T ->
  exists q,
    queues !! Z.to_nat (n0 mod T) = Some q
    /\ reader_body df_chunk T W fresh 0 (n0, queues) chunk
       = Some (n0 + 1,
               <[Z.to_nat (n0 mod T) := q ++ [Some (n0, chunk)]]> queues).
Proof.
  intros Hn Hlen. unfold reader_body, writer_index.
  pose proof (Z.mod_pos_bound n0 T T_pos) as Hti.
  pose proof (Z.mod_pos_bound (n0 mod T) W W_pos) as Hwi.
  destruct (lookup_lt_is_Some_2 queues (Z.to_nat (n0 mod T)) ltac:(lia))
    as [q Hq].
  exists q. split; [exact Hq|].
  destruct (Z.eqb_spec T 0); [lia|]. destruct (Z.eqb_spec W 0); [lia|].
  rewrite Z.sub_0_r.
  rewrite py_index_nonneg by lia.
  rewrite lookup_replicate_2 by lia. cbn [start_chunk].
  destruct (Z.ltb_spec n0 0); [lia|].
  rewrite py_index_nonneg, Hq by lia.
  rewrite py_set_index_nonneg by lia. reflexivity.
Qed.

Lemma reader_loop_fresh (chunks : list df_chunk) :
  forall (n0 : Z) (queues : list (queue df_chunk)),
  0 <= n0 -> length queues = Z.to_nat T ->
  forall (j : nat) (q : queue df_chunk),
  queues !! j = Some q ->
  reader_loop df_chunk T W fresh 0 (n0, queues) chunks !! j
  = Some (q ++ map Some
                   (List.filter (fun p => fst p mod T =? Z.of_nat j)
                                (py_enumerate n0 chunks))).
Proof.
  induction chunks as [|chunk rest IH]; intros n0 queues Hn Hlen j q Hq.
  - simpl. rewrite app_nil_r. exact Hq.
  - cbn [reader_loop py_enumerate List.filter fst].
    destruct (reader_body_fresh n0 queues chunk Hn Hlen) as (q' & Hq' & ->).
    pose proof (Z.mod_pos_bound n0 T T_pos) as Hti.
    destruct (Z.eqb_spec (n0 mod T) (Z.of_nat j)) as [Hj|Hj].
    + assert (Z.to_nat (n0 mod T) = j) as Hj' by lia.
      rewrite Hj' in Hq' |- *. assert (q' = q) as ->
        by (pose proof (eq_trans (eq_sym Hq) Hq') as E; injection E; auto).
      rewrite (IH (n0 + 1) _ ltac:(lia) ltac:(rewrite length_insert; exact Hlen)
                  j (q ++ [Some (n0, chunk)])).
      * rewrite <- app_assoc. reflexivity.
      * apply list_lookup_insert_eq. apply lookup_lt_Some in Hq. exact Hq.
    + apply (IH (n0 + 1) _ ltac:(lia) ltac:(rewrite length_insert; exact Hlen)).
      rewrite list_lookup_insert_ne by lia. exact Hq.
Qed.

End ReaderProofs.

(** X8.  On a run that does not resume, the reader deals the chunks to the
    tokenizer queues in turn: queue [j] of [T] receives, in order, the
    chunks whose number is [j] modulo [T], each with its number, and then
    the sentinel. *)
Theorem reader_deals_chunks_in_turn (df_chunk : Type)
    (stream_data : Z * Z -> list df_chunk)
    (tokenize_process_num writer_process_num : Z)
    (tokenizer_queues : list (queue df_chunk)) :
  0 < tokenize_process_num -> 0 < writer_process_num ->
  length tokenizer_queues = Z.to_nat tokenize_process_num ->
  forall (j : nat) (q : queue df_chunk),
  tokenizer_queues !! j = Some q ->
  reader_process df_chunk stream_data tokenize_process_num writer_process_num
                 (replicate (Z.to_nat writer_process_num) (0, 0, 0, 0, 0))
                 tokenizer_queues !! j
  = Some (q ++ map Some
                   (List.filter
                      (fun p => fst p mod tokenize_process_num =? Z.of_nat j)
                      (py_enumerate 0 (stream_data (0, 0))))
            ++ [None]).
Proof.
  intros HT HW Hlen j q Hq. unfold reader_process.
  rewrite first_checkpoint_replicate by lia.
  change (map ?f ?l !! j) with ((f <$> l) !! j).
  rewrite list_lookup_fmap.
  rewrite (reader_loop_fresh df_chunk _ _ HT HW _ 0 _ ltac:(lia) Hlen j q Hq).
  simpl. rewrite <- app_assoc. reflexivity.
Qed.

Lemma reader_deals_chunks_in_turn_witness :
  reader_process nat (fun _ => [7; 8; 9; 10; 11]%nat) 2 1
                 (replicate (Z.to_nat 1) (0, 0, 0, 0, 0)) [[]; []] !! 1%nat
  = Some ([] ++ map Some
                   (List.filter (fun p => fst p mod 2 =? Z.of_nat 1)
                                (py_enumerate 0 [7; 8; 9; 10; 11]%nat))
             ++ [None]).
Proof.
  apply (reader_deals_chunks_in_turn nat (fun _ => [7; 8; 9; 10; 11]%nat) 2 1
           [[]; []]); try lia; reflexivity.
Defined.

(** * Adding up statistics *)

(** [key in data_stats] and the sum of what [data_stats] holds for [key]. *)
Definition has_key (key : string) (data_stats : list (string * Z)) : bool :=
  existsb (fun p => String.eqb (fst p) key) data_stats.

Definition stat_total (key : string) (data_stats : list (string * Z)) : Z :=
  sum_Z (map snd (List.filter (fun p => String.eqb (fst p) key) data_stats)).

Lemma stat_total_absent (key : string) (data_stats : list (string * Z)) :
  has_key key data_stats = false -> stat_total key data_stats = 0.
Proof.
  unfold has_key, stat_total.
  induction data_stats as [|[k v] rest IH]; simpl; [reflexivity|].
  destruct (String.eqb k key); simpl; [discriminate|exact IH].
Qed.

Lemma has_key_cons (key k : string) (v : Z) (rest : list (string * Z)) :
  has_key key ((k, v) :: rest) = String.eqb k key || has_key key rest.
Proof. reflexivity. Qed.

Lemma stat_total_cons (key k : string) (v : Z) (rest : list (string * Z)) :
  stat_total key ((k, v) :: rest)
  = (if String.eqb k key then v else 0) + stat_total key rest.
Proof.
  unfold stat_total. simpl. destruct (String.eqb k key); reflexivity.
Qed.

Lemma update_local_lookup (data_stats : list (string * Z)) :
  forall (m : gmap string Z) (key : string),
  snd (update_data_stats m data_stats false) = None
  /\ fst (update_data_stats m data_stats false) !! key
     = if has_key key data_stats
       then Some (default 0 (m !! key) + stat_total key data_stats)
       else m !! key.
Proof.
  induction data_stats as [|[k v] rest IH]; intros m key; [split; reflexivity|].
  cbn [update_data_stats]. destruct (IH (<[k := default 0 (m !! k) + v]> m) key)
    as [Herr Hlk].
  split; [exact Herr|]. rewrite Hlk, has_key_cons, stat_total_cons.
  destruct (String.eqb_spec k key) as [->|Hne].
  - rewrite lookup_insert_eq. cbn [orb].
    destruct (has_key key rest) eqn:Hhas.
    + f_equal. cbn [default from_option]. unfold id. lia.
    + rewrite (stat_total_absent _ _ Hhas). f_equal.
      cbn [default from_option]. unfold id. lia.
  - rewrite lookup_insert_ne by exact Hne. reflexivity.
Qed.

(** X9.  Without [shared_stats] the statistics of a chunk are added key by
    key to the [defaultdict]: no key can fail, every counter grows by the
    chunk's value for it, and two chunks can be merged in either order. *)
Theorem update_data_stats_merge (final_data_stats : gmap string Z)
    (a b : list (string * Z)) :
  let run := fun m s => fst (update_data_stats m s false) in
  snd (update_data_stats final_data_stats a false) = None
  /\ (forall key,
        default 0 (run final_data_stats a !! key)
        = default 0 (final_data_stats !! key) + stat_total key a)
  /\ run (run final_data_stats a) b = run (run final_data_stats b) a.
Proof.
  intros run. split; [|split].
  - apply (update_local_lookup a final_data_stats EmptyString).
  - intros key. unfold run.
    rewrite (proj2 (update_local_lookup a final_data_stats key)).
    destruct (has_key key a) eqn:Hhas; [reflexivity|].
    rewrite (stat_total_absent _ _ Hhas). lia.
  - apply map_eq. intros key. unfold run.
    rewrite !(proj2 (update_local_lookup _ _ key)).
    destruct (has_key key a), (has_key key b); cbn [default from_option];
      unfold id; try reflexivity.
    f_equal. lia.
Qed.

Lemma update_shared_lookup (data_stats : list (string * Z)) :
  forall (m : gmap string Z),
  match snd (update_data_stats m data_stats true) with
  | None =>
      Forall (fun p => is_Some (m !! fst p)) data_stats
      /\ forall key,
           fst (update_data_stats m data_stats true) !! key
           = if has_key key data_stats
             then (fun old => uint64 (old + stat_total key data_stats))
                    <$> m !! key
             else m !! key
  | Some key => m !! key = None /\ has_key key data_stats = true
  end.
Proof.
  induction data_stats as [|[k v] rest IH]; intros m.
  - simpl. split; [constructor|reflexivity].
  - cbn [update_data_stats]. destruct (m !! k) as [old|] eqn:Hk.
    2:{ simpl. split; [exact Hk|]. unfold has_key. simpl.
        rewrite String.eqb_refl. reflexivity. }
    specialize (IH (<[k := uint64 (old + v)]> m)).
    destruct (snd (update_data_stats (<[k := uint64 (old + v)]> m) rest true))
      as [key|].
    + destruct IH as [Hnone Hhas]. split.
      * destruct (String.eqb_spec k key) as [->|Hne].
        -- rewrite lookup_insert_eq in Hnone. discriminate.
        -- rewrite lookup_insert_ne in Hnone by exact Hne. exact Hnone.
      * unfold has_key in *. simpl. rewrite Hhas. apply orb_true_r.
    + destruct IH as [Hall Hlk]. split.
      * constructor; [simpl; rewrite Hk; eauto|].
        eapply Forall_impl; [exact Hall|]. intros [k' v'] Hsome. simpl in *.
        destruct (String.eqb_spec k k') as [<-|Hne].
        -- rewrite Hk. eauto.
        -- rewrite lookup_insert_ne in Hsome by exact Hne. exact Hsome.
      * intros key. rewrite Hlk, has_key_cons, stat_total_cons.
        destruct (String.eqb_spec k key) as [->|Hne].
        -- rewrite lookup_insert_eq, Hk. cbn [orb fmap option_fmap option_map].
           destruct (has_key key rest) eqn:Hhas; f_equal.
           ++ unfold uint64. rewrite Zplus_mod_idemp_l. f_equal. lia.
           ++ rewrite (stat_total_absent _ _ Hhas). f_equal. lia.
        -- rewrite lookup_insert_ne by exact Hne. reflexivity.
Qed.

(** X10.  With [shared_stats] the counters are unsigned 64-bit values in a
    plain dict: the update succeeds exactly when every key of the chunk is
    a counter already, each counter then holds the low 64 bits of its sum,
    and otherwise the [KeyError] names a key of the chunk that is no
    counter. *)
Theorem update_data_stats_shared (final_data_stats : gmap string Z)
    (data_stats : list (string * Z)) :
  let result := update_data_stats final_data_stats data_stats true in
  (snd result = None
   <-> Forall (fun p => is_Some (final_data_stats !! fst p)) data_stats)
  /\ (snd result = None ->
      forall key,
        fst result !! key
        = if has_key key data_stats
          then (fun old => (old + stat_total key data_stats) mod 2 ^ 64)
                 <$> final_data_stats !! key
          else final_data_stats !! key)
  /\ (forall key, snd result = Some key ->
        final_data_stats !! key = None /\ has_key key data_stats = true).
Proof.
  intros result. pose proof (update_shared_lookup data_stats final_data_stats) as H.
  fold result in H. destruct (snd result) as [key|]; split; [|split| |split].
  - split; [discriminate|]. intros Hall. exfalso. destruct H as [Hnone Hhas].
    unfold has_key in Hhas. apply existsb_exists in Hhas.
    destruct Hhas as ([k v] & Hin & Heq). apply String.eqb_eq in Heq.
    simpl in Heq. subst k. rewrite Forall_forall in Hall.
    apply list_elem_of_In in Hin. specialize (Hall _ Hin). simpl in Hall.
    rewrite Hnone in Hall. destruct Hall as [? ?]. discriminate.
  - discriminate.
  - intros key' [= <-]. exact H.
  - split; [intros _; apply H|reflexivity].
  - intros _. apply H.
  - discriminate.
Qed.

(** * Shards written by the shuffling path *)

(** The positions, counted from [pos], at which output file [f] was drawn. *)
Fixpoint positions_of (f : nat) (pos : nat) (shuffled_indices : list nat)
  : list nat :=
  match shuffled_indices with
  | [] => []
  | idx_seq :: rest =>
      if (idx_seq =? f)%nat then pos :: positions_of f (S pos) rest
      else positions_of f (S pos) rest
  end.

(** [d.get(k)] for a dict given by its items. *)
Definition group_of (f : nat) (groups : list (nat * list nat))
  : option (list nat) :=
  snd <$> List.find (fun g => (fst g =? f)%nat) groups.

Definition field_of (label : string) (data_dict : list (string * ndarray))
  : option ndarray :=
  snd <$> List.find (fun p => String.eqb (fst p) label) data_dict.

Lemma group_of_absent (f : nat) (groups : list (nat * list nat)) :
  f ∉ map fst groups -> group_of f groups = None.
Proof.
  unfold group_of. induction groups as [|[k l] rest IH]; [reflexivity|].
  simpl. intros Hnot. apply not_elem_of_cons in Hnot. destruct Hnot as [Hne Hrest].
  destruct (Nat.eqb_spec k f); [congruence|]. apply IH. exact Hrest.
Qed.

Lemma group_of_existsb (f : nat) (groups : list (nat * list nat)) :
  existsb (fun g => (fst g =? f)%nat) groups = true <-> f ∈ map fst groups.
Proof.
  induction groups as [|[k l] rest IH]; simpl.
  - split; [discriminate|]. intros H. inversion H.
  - rewrite elem_of_cons, orb_true_iff, IH, Nat.eqb_eq. intuition congruence.
Qed.

Lemma group_of_update (f x pos : nat) (groups : list (nat * list nat)) :
  group_of f (map (fun g => if (fst g =? x)%nat then (fst g, snd g ++ [pos]) else g)
                  groups)
  = (fun l => if (x =? f)%nat then l ++ [pos] else l) <$> group_of f groups.
Proof.
  unfold group_of. induction groups as [|[k l] rest IH]; [reflexivity|].
  simpl. destruct (Nat.eqb_spec k x) as [->|Hkx]; simpl.
  - destruct (Nat.eqb_spec x f) as [->|Hxf]; simpl; [reflexivity|exact IH].
  - destruct (Nat.eqb_spec k f) as [->|Hkf]; simpl; [|exact IH].
    destruct (Nat.eqb_spec x f); [congruence|reflexivity].
Qed.

Lemma group_of_snoc (f x : nat) (l : list nat) (groups : list (nat * list nat)) :
  group_of f (groups ++ [(x, l)])
  = match group_of f groups with
    | Some l' => Some l'
    | None => if (x =? f)%nat then Some l else None
    end.
Proof.
  unfold group_of. induction groups as [|[k l'] rest IH]; simpl.
  - destruct (x =? f)%nat; reflexivity.
  - destruct (k =? f)%nat; [reflexivity|exact IH].
Qed.

Lemma keys_update (x pos : nat) (groups : list (nat * list nat)) :
  map fst (map (fun g => if (fst g =? x)%nat then (fst g, snd g ++ [pos]) else g)
               groups)
  = map fst groups.
Proof.
  induction groups as [|[k l] rest IH]; [reflexivity|]. simpl.
  rewrite IH. destruct (k =? x)%nat; reflexivity.
Qed.

(** Step 3 of [append_df_to_hdf5]: each file that was drawn gets its
    positions, in increasing order, and no file is listed twice. *)
Lemma group_indices_spec (shuffled_indices : list nat) :
  forall (pos : nat) (groups : list (nat * list nat)),
  NoDup (map fst groups) ->
  NoDup (map fst (group_indices pos shuffled_indices groups))
  /\ forall f,
       group_of f (group_indices pos shuffled_indices groups)
       = match group_of f groups, positions_of f pos shuffled_indices with
         | Some l, ps => Some (l ++ ps)
         | None, [] => None
         | None, ps => Some ps
         end.
Proof.
  induction shuffled_indices as [|x rest IH]; intros pos groups Hnd.
  - simpl. split; [exact Hnd|]. intros f.
    destruct (group_of f groups); [rewrite app_nil_r|]; reflexivity.
  - cbn [group_indices positions_of].
    destruct (existsb (fun g => (fst g =? x)%nat) groups) eqn:Hex.
    + match goal with
      | |- context [group_indices (S pos) rest ?gs] =>
          destruct (IH (S pos) gs) as [Hnd' Hlk];
            [rewrite keys_update; exact Hnd|]
      end.
      split; [exact Hnd'|]. intros f. rewrite Hlk, group_of_update.
      apply group_of_existsb in Hex.
      destruct (Nat.eqb_spec x f) as [->|Hxf].
      * destruct (group_of f groups) as [l|] eqn:Hg; simpl.
        -- rewrite <- app_assoc. reflexivity.
        -- exfalso. clear -Hex Hg. unfold group_of in Hg.
           induction groups as [|[k l] r IHr]; [inversion Hex|].
           simpl in *. destruct (Nat.eqb_spec k f); [discriminate|].
           apply elem_of_cons in Hex. destruct Hex as [|Hex]; [congruence|].
           apply IHr; assumption.
      * destruct (group_of f groups); reflexivity.
    + assert (Hnot : x ∉ map fst groups).
      { intros Hin. apply group_of_existsb in Hin. congruence. }
      destruct (IH (S pos) (groups ++ [(x, [pos])])) as [Hnd' Hlk].
      { rewrite map_app. simpl. apply NoDup_app. split; [exact Hnd|].
        split; [|apply NoDup_singleton].
        intros y Hy Hy'. apply list_elem_of_singleton in Hy'. congruence. }
      split; [exact Hnd'|]. intros f. rewrite Hlk, group_of_snoc.
      destruct (Nat.eqb_spec x f) as [->|Hxf].
      * rewrite (group_of_absent _ _ Hnot). reflexivity.
      * destruct (group_of f groups); reflexivity.
Qed.

Lemma field_of_absent (label : string) (dict : list (string * ndarray)) :
  label ∉ map fst dict -> field_of label dict = None.
Proof.
  unfold field_of. induction dict as [|[k a] rest IH]; [reflexivity|].
  simpl. intros Hnot. apply not_elem_of_cons in Hnot. destruct Hnot as [Hne Hrest].
  destruct (String.eqb_spec k label); [congruence|]. apply IH. exact Hrest.
Qed.

Lemma field_of_present (label : string) (dict : list (string * ndarray)) :
  label ∈ map fst dict ->
  exists data, field_of label dict = Some data /\ (label, data) ∈ dict.
Proof.
  unfold field_of. induction dict as [|[k a] rest IH]; simpl; intros Hin.
  - inversion Hin.
  - destruct (String.eqb_spec k label) as [->|Hne].
    + exists a. split; [reflexivity|]. apply elem_of_cons. auto.
    + apply elem_of_cons in Hin. destruct Hin as [|Hin]; [congruence|].
      destruct (IH Hin) as (d & Hd & Hd'). exists d. split; [exact Hd|].
      apply elem_of_cons. auto.
Qed.

(** The dataset [label] of the file can take the rows [elements]: it is
    not there yet and can be created, or it can grow and holds rows of the
    same shape. *)
Definition can_append (h5 : h5file) (label : string) (elements : ndarray)
  : Prop :=
  match datasets h5 !! label with
  | None => chunk_error elements false = None
  | Some old => label ∈ resizable h5 /\ row_shape old = row_shape elements
  end.

(** The dataset after that: the new rows, as 32-bit values, follow the old
    ones. *)
Definition appended (h5 : h5file) (label : string) (elements : ndarray)
  : ndarray :=
  match datasets h5 !! label with
  | Some old => NdArray (row_shape old) (rows old ++ rows (as_i4 elements))
  | None => as_i4 elements
  end.

Lemma append_dataset_ok (h5 : h5file) (label : string) (elements : ndarray) :
  can_append h5 label elements ->
  exists h5',
    append_dataset h5 label elements = (h5', Ret tt)
    /\ n_examples_attr h5' = n_examples_attr h5
    /\ datasets h5' = <[label := appended h5 label elements]> (datasets h5)
    /\ (forall l, l ∈ resizable h5' <-> l = label \/ l ∈ resizable h5).
Proof.
  unfold can_append, append_dataset, appended.
  destruct (datasets h5 !! label) as [old|].
  - intros [Hres Hshape].
    rewrite (bool_decide_eq_true_2 _ Hres). cbn [negb andb].
    unfold written_rows. rewrite decide_True by congruence.
    eexists. split; [reflexivity|]. cbn [n_examples_attr datasets resizable].
    split; [reflexivity|]. split; [reflexivity|].
    intros l. split; [auto|]. intros [->|H]; assumption.
  - intros ->. eexists. split; [reflexivity|].
    cbn [n_examples_attr datasets resizable].
    split; [reflexivity|]. split; [reflexivity|].
    intros l. rewrite elem_of_union, elem_of_singleton. reflexivity.
Qed.

Section Shards.

Variable data_dict : list (string * ndarray).
Variable indices : list nat.

(** All fields written: every dataset of the file takes its rows. *)
Lemma write_fields_ok (dict : list (string * ndarray)) :
  forall (h : h5file),
  NoDup (map fst dict) ->
  (forall label data, (label, data) ∈ dict ->
     can_append h label (take_rows data indices)) ->
  exists h',
    write_fields h dict indices = (h', Ret tt)
    /\ n_examples_attr h' = n_examples_attr h
    /\ (forall label,
          datasets h' !! label
          = match field_of label dict with
            | Some data => Some (appended h label (take_rows data indices))
            | None => datasets h !! label
            end)
    /\ (forall l, l ∈ resizable h' <-> l ∈ map fst dict \/ l ∈ resizable h).
Proof.
  induction dict as [|[k a] rest IH]; intros h Hnd Hcan.
  - exists h. cbn [write_fields map]. repeat split; auto.
    intros [H|H]; [inversion H|exact H].
  - cbn [map fst] in Hnd. apply NoDup_cons in Hnd. destruct Hnd as [Hk Hnd].
    cbn [write_fields].
    destruct (append_dataset_ok h k (take_rows a indices))
      as (h1 & Hrun & Hattr1 & Hdata1 & Hres1).
    { apply Hcan. apply elem_of_cons. auto. }
    rewrite Hrun.
    assert (Hother : forall label, label <> k ->
                     datasets h1 !! label = datasets h !! label).
    { intros label Hne. rewrite Hdata1. apply lookup_insert_ne. congruence. }
    destruct (IH h1 Hnd) as (h' & Hrun' & Hattr' & Hdata' & Hres').
    { intros label data Hin.
      assert (Hne : label <> k).
      { intros ->. apply Hk. apply list_elem_of_fmap. exists (k, data). auto. }
      specialize (Hcan label data ltac:(apply elem_of_cons; auto)).
      unfold can_append in *. rewrite (Hother label Hne).
      destruct (datasets h !! label); [|exact Hcan].
      destruct Hcan as [Hr Hs]. split; [apply Hres1; auto|exact Hs]. }
    exists h'. split; [exact Hrun'|]. split; [congruence|]. split.
    + intros label. rewrite Hdata'. unfold field_of. cbn [List.find fst snd].
      destruct (String.eqb_spec k label) as [->|Hne].
      * fold (field_of label rest). rewrite (field_of_absent _ _ Hk).
        cbn [fmap option_fmap option_map]. rewrite Hdata1.
        apply lookup_insert_eq.
      * fold (field_of label rest).
        destruct (field_of label rest) as [data|];
          cbn [fmap option_fmap option_map].
        -- unfold appended. rewrite (Hother label) by congruence. reflexivity.
        -- apply Hother. congruence.
    + intros l. rewrite Hres', Hres1. cbn [map fst]. rewrite elem_of_cons.
      tauto.
Qed.

End Shards.

(** The file with its attribute raised, before the fields are written. *)
Definition attr_raised (h5 : h5file) (count : Z) : h5file :=
  H5File (datasets h5) (Some (default 0 (n_examples_attr h5) + count))
         (resizable h5).

Lemma append_to_file_ok (data_dict : list (string * ndarray))
    (indices : list nat) (h5 : h5file) :
  NoDup (map fst data_dict) ->
  (forall label data, (label, data) ∈ data_dict ->
     can_append h5 label (take_rows data indices)) ->
  exists h5',
    append_to_file h5 data_dict indices = (h5', Ret tt)
    /\ n_examples_attr h5'
       = Some (default 0 (n_examples_attr h5) + zlen indices)
    /\ (forall label,
          datasets h5' !! label
          = match field_of label data_dict with
            | Some data => Some (appended h5 label (take_rows data indices))
            | None => datasets h5 !! label
            end)
    /\ (forall l, l ∈ resizable h5'
                  <-> l ∈ map fst data_dict \/ l ∈ resizable h5).
Proof.
  intros Hnd Hcan. unfold append_to_file.
  destruct (write_fields_ok indices data_dict
              (attr_raised h5 (zlen indices)) Hnd Hcan)
    as (h' & Hrun & Hattr & Hdata & Hres).
  exists h'. split; [exact Hrun|]. split; [exact Hattr|].
  split; [exact Hdata|exact Hres].
Qed.

(** Step 4 when every file that was drawn can take its rows. *)
Lemma write_groups_ok (data_dict : list (string * ndarray))
    (groups : list (nat * list nat)) :
  forall (dir : gmap nat h5file),
  NoDup (map fst groups) ->
  NoDup (map fst data_dict) ->
  (forall f ps label data,
     (f, ps) ∈ groups -> (label, data) ∈ data_dict ->
     can_append (default empty_h5file (dir !! f)) label (take_rows data ps)) ->
  exists dir',
    write_groups dir data_dict groups = (dir', Ret tt)
    /\ forall f,
         dir' !! f
         = match group_of f groups with
           | Some ps =>
               Some (fst (append_to_file (default empty_h5file (dir !! f))
                                         data_dict ps))
           | None => dir !! f
           end.
Proof.
  induction groups as [|[k ps] rest IH]; intros dir Hnd Hdict Hcan.
  - exists dir. split; reflexivity.
  - cbn [map fst] in Hnd. apply NoDup_cons in Hnd. destruct Hnd as [Hk Hnd].
    cbn [write_groups].
    destruct (append_to_file_ok data_dict ps (default empty_h5file (dir !! k))
                Hdict) as (h' & Hrun & _).
    { intros label data Hin. apply (Hcan k ps); [apply elem_of_cons; auto|].
      exact Hin. }
    rewrite Hrun.
    destruct (IH (<[k := h']> dir) Hnd Hdict) as (dir' & Hrun' & Hlk).
    { intros f qs label data Hf Hin.
      assert (Hne : k <> f).
      { intros ->. apply Hk. apply list_elem_of_fmap. exists (f, qs). auto. }
      rewrite lookup_insert_ne by exact Hne.
      apply (Hcan f qs); [apply elem_of_cons; auto|exact Hin]. }
    exists dir'. split; [exact Hrun'|]. intros f. rewrite Hlk.
    unfold group_of. cbn [List.find fst snd].
    destruct (Nat.eqb_spec k f) as [->|Hkf].
    + fold (group_of f rest). rewrite (group_of_absent _ _ Hk).
      cbn [fmap option_fmap option_map snd]. rewrite lookup_insert_eq, Hrun.
      reflexivity.
    + fold (group_of f rest). rewrite lookup_insert_ne by exact Hkf.
      reflexivity.
Qed.

Lemma take_rows_length (data : ndarray) (indices : list nat) :
  Forall (fun i => (i < length (rows data))%nat) indices ->
  length (rows (take_rows data indices)) = length indices.
Proof.
  intros Hall. unfold take_rows. cbn [rows].
  induction Hall as [|i l Hi Hall IH]; [reflexivity|].
  cbn [omap list_omap]. apply lookup_lt_is_Some_2 in Hi. destruct Hi as [r ->].
  simpl. f_equal. exact IH.
Qed.

Lemma positions_of_bound (f : nat) (shuffled_indices : list nat) :
  forall pos,
  Forall (fun i => (i < pos + length shuffled_indices)%nat)
         (positions_of f pos shuffled_indices).
Proof.
  induction shuffled_indices as [|x rest IH]; intros pos; [constructor|].
  simpl. specialize (IH (S pos)).
  assert (Hrest : Forall (fun i => (i < pos + S (length rest))%nat)
                         (positions_of f (S pos) rest)).
  { eapply Forall_impl; [exact IH|]. intros i Hi. simpl in Hi. lia. }
  destruct (x =? f)%nat; [constructor; [lia|exact Hrest]|exact Hrest].
Qed.

Lemma positions_of_count (f : nat) (shuffled_indices : list nat) (pos : nat) :
  length (positions_of f pos shuffled_indices)
  = length (List.filter (fun x => (x =? f)%nat) shuffled_indices).
Proof.
  revert pos. induction shuffled_indices as [|x rest IH]; intros pos; [reflexivity|].
  simpl. destruct (x =? f)%nat; simpl; rewrite IH; reflexivity.
Qed.

(** The shape of the rows of a field: [np.concatenate] keeps that of the
    first array. *)
Definition field_shape (arrays : list ndarray) : list nat :=
  match arrays with
  | a :: _ => row_shape a
  | [] => []
  end.

Definition field_shapes (tokenized_data : list (string * list ndarray))
  : list (string * list nat) :=
  map (fun p => (fst p, field_shape (snd p))) tokenized_data.

Lemma concat_fields_shapes (tokenized_data : list (string * list ndarray)) :
  forall (n0 : option Z) (data_dict : list (string * ndarray)) (n : option Z),
  concat_fields tokenized_data n0 = Ret (data_dict, n) ->
  map (fun p => (fst p, row_shape (snd p))) data_dict
  = field_shapes tokenized_data.
Proof.
  induction tokenized_data as [|[label arrays] rest IH]; intros n0 dict n; simpl.
  - intros [= <- _]. reflexivity.
  - destruct (np_concatenate arrays) as [data| |] eqn:Hcat; cbn [bind];
      try discriminate.
    destruct (match n0 with
              | Some k => if k =? shape0 data then Ret (Some k) else Raise AssertionError
              | None => Ret (Some (shape0 data))
              end) as [n1| |]; cbn [bind]; try discriminate.
    destruct (concat_fields rest n1) as [[dict' n']| |] eqn:Hrest;
      cbn [bind]; try discriminate.
    intros [= <- _]. cbn [map fst snd]. f_equal; [|exact (IH _ _ _ Hrest)].
    f_equal. unfold np_concatenate in Hcat. destruct arrays as [|a more];
      [discriminate|]. destruct (forallb _ _); [|discriminate].
    injection Hcat as <-. reflexivity.
Qed.

Lemma concat_fields_labels (tokenized_data : list (string * list ndarray)) :
  forall (n0 : option Z) (data_dict : list (string * ndarray)) (n : option Z),
  concat_fields tokenized_data n0 = Ret (data_dict, n) ->
  map fst data_dict = map fst tokenized_data.
Proof.
  intros n0 dict n Hc. apply concat_fields_shapes in Hc.
  apply (f_equal (map fst)) in Hc. unfold field_shapes in Hc.
  rewrite !map_map in Hc. exact Hc.
Qed.

(** A shard is consistent for the fields, given with the shape of their
    rows, when it is new, or when every field is a dataset that can grow,
    with rows of that shape, as many as its [n_examples] attribute says. *)
Definition shard_rows (fields : list (string * list nat)) (h5 : h5file) (n : Z)
  : Prop :=
  n_examples_attr h5 = Some n
  /\ forall label shape, (label, shape) ∈ fields ->
       exists a, datasets h5 !! label = Some a
                 /\ shape0 a = n /\ row_shape a = shape
                 /\ label ∈ resizable h5.

Definition shard_consistent (fields : list (string * list nat)) (h5 : h5file)
  : Prop :=
  h5 = empty_h5file \/ exists n, shard_rows fields h5 n.

Definition fields_of (data_dict : list (string * ndarray))
  : list (string * list nat) :=
  map (fun p => (fst p, row_shape (snd p))) data_dict.

Lemma consistent_can_append (data_dict : list (string * ndarray))
    (indices : list nat) (h5 : h5file) :
  Forall (fun p => Forall (fun d => d <> 0%nat) (snd p)) (fields_of data_dict) ->
  shard_consistent (fields_of data_dict) h5 ->
  forall label data, (label, data) ∈ data_dict ->
    can_append h5 label (take_rows data indices).
Proof.
  intros Hpos Hcons label data Hin. unfold can_append.
  assert (Hfield : (label, row_shape data) ∈ fields_of data_dict).
  { unfold fields_of. apply list_elem_of_fmap. exists (label, data). auto. }
  destruct Hcons as [->|(m & _ & Hall)].
  - cbn [empty_h5file datasets]. rewrite lookup_empty.
    unfold chunk_error. cbn [take_rows row_shape andb].
    rewrite Forall_forall in Hpos. specialize (Hpos _ Hfield). cbn [snd] in Hpos.
    destruct (row_shape data) as [|d ds] eqn:Hshape; [reflexivity|].
    replace (existsb (Nat.eqb 0) (d :: ds)) with false; [reflexivity|].
    symmetry. apply not_true_is_false. intros Hex.
    apply existsb_exists in Hex. destruct Hex as (x & Hx & Hx0).
    apply Nat.eqb_eq in Hx0. subst x. rewrite Forall_forall in Hpos.
    apply (Hpos 0%nat); [apply list_elem_of_In; exact Hx|reflexivity].
  - destruct (Hall _ _ Hfield) as (a & -> & _ & Hshape & Hres).
    split; [exact Hres|exact Hshape].
Qed.

Lemma append_to_file_consistent (data_dict : list (string * ndarray))
    (indices : list nat) (n : Z) (h5 : h5file) :
  NoDup (map fst data_dict) ->
  Forall (fun p => shape0 (snd p) = n) data_dict ->
  Forall (fun i => (i < Z.to_nat n)%nat) indices ->
  Forall (fun p => Forall (fun d => d <> 0%nat) (snd p)) (fields_of data_dict) ->
  shard_consistent (fields_of data_dict) h5 ->
  exists h5',
    append_to_file h5 data_dict indices = (h5', Ret tt)
    /\ shard_rows (fields_of data_dict) h5'
                  (default 0 (n_examples_attr h5) + zlen indices).
Proof.
  intros Hnd Hshape Hidx Hpos Hcons.
  destruct (append_to_file_ok data_dict indices h5 Hnd
              (consistent_can_append data_dict indices h5 Hpos Hcons))
    as (h' & Hrun & Hattr & Hdata & Hres).
  exists h'. split; [exact Hrun|]. split; [exact Hattr|].
  intros lab shape Hfield. unfold fields_of in Hfield.
  apply list_elem_of_fmap in Hfield. destruct Hfield as ([label data] & Heq & Hin).
  cbn [fst snd] in Heq. injection Heq as -> ->.
  assert (Hlabel : label ∈ map fst data_dict).
  { apply list_elem_of_fmap. exists (label, data). auto. }
  assert (Hfield : (label, row_shape data) ∈ fields_of data_dict).
  { unfold fields_of. apply list_elem_of_fmap. exists (label, data). auto. }
  destruct (field_of_present _ _ Hlabel) as (data' & Hfo & Hin').
  rewrite Hdata, Hfo.
  rewrite Forall_forall in Hshape.
  pose proof (Hshape _ Hin') as Hn'. cbn [snd] in Hn'.
  assert (Hrows : length (rows (take_rows data' indices)) = length indices).
  { apply take_rows_length. eapply Forall_impl; [exact Hidx|].
    intros i Hi. cbn beta in Hi. unfold shape0, zlen in Hn'. lia. }
  eexists. split; [reflexivity|].
  assert (Hsame : row_shape data' = row_shape data).
  { clear -Hnd Hin Hin'. induction data_dict as [|[k a] rest IH];
      [inversion Hin|].
    cbn [map fst] in Hnd. apply NoDup_cons in Hnd. destruct Hnd as [Hk Hnd].
    apply elem_of_cons in Hin. apply elem_of_cons in Hin'.
    destruct Hin as [Heq|Hin]; destruct Hin' as [Heq'|Hin'].
    - congruence.
    - exfalso. apply Hk. apply list_elem_of_fmap. exists (label, data').
      split; [cbn; congruence|exact Hin'].
    - exfalso. apply Hk. apply list_elem_of_fmap. exists (label, data).
      split; [cbn; congruence|exact Hin].
    - apply IH; assumption. }
  unfold appended.
  destruct Hcons as [->|(m & Hm & Hall)].
  - cbn [empty_h5file datasets n_examples_attr default from_option].
    rewrite lookup_empty. split; [|split].
    + unfold as_i4, shape0, zlen, id. cbn [rows].
      rewrite length_map, Hrows. lia.
    + exact Hsame.
    + apply Hres. auto.
  - destruct (Hall _ _ Hfield) as (a & -> & Ha & Hsh & Hr). rewrite Hm.
    cbn [default from_option]. split; [|split].
    + unfold as_i4, shape0, zlen, id in *. cbn [rows].
      rewrite length_app, length_map, Hrows. lia.
    + exact Hsh.
    + apply Hres. auto.
Qed.

(** The file drawn first is the first group. *)
Lemma group_indices_keeps_head (shuffled_indices : list nat) :
  forall (pos : nat) (g : nat * list nat) (groups : list (nat * list nat)),
  exists others,
    group_indices pos shuffled_indices (g :: groups)
    = (fst g, snd g ++ positions_of (fst g) pos shuffled_indices) :: others.
Proof.
  induction shuffled_indices as [|x rest IH]; intros pos [k l] groups.
  - exists groups. cbn [group_indices positions_of fst snd].
    rewrite app_nil_r. reflexivity.
  - cbn [group_indices positions_of fst snd existsb].
    destruct (Nat.eqb_spec k x) as [->|Hne].
    + cbn [orb map fst snd]. rewrite Nat.eqb_refl.
      match goal with
      | |- context [group_indices (S pos) rest (?g' :: ?gs)] =>
          destruct (IH (S pos) g' gs) as [others Hrun]
      end.
      rewrite Hrun. cbn [fst snd]. rewrite <- app_assoc. eauto.
    + destruct (Nat.eqb_spec x k) as [|_]; [congruence|]. cbn [orb].
      destruct (existsb _ groups).
      * cbn [map fst snd]. destruct (Nat.eqb_spec k x); [congruence|].
        match goal with
        | |- context [group_indices (S pos) rest (?g' :: ?gs)] =>
            destruct (IH (S pos) g' gs) as [others Hrun]
        end.
        rewrite Hrun. eauto.
      * cbn [app].
        match goal with
        | |- context [group_indices (S pos) rest (?g' :: ?gs)] =>
            destruct (IH (S pos) g' gs) as [others Hrun]
        end.
        rewrite Hrun. eauto.
Qed.

(** X11.  The shuffling path and the shards it is given.
    - Shards that are new, or whose fields are datasets that can grow,
      with rows of the shape of the incoming rows and as many as the
      [n_examples] attribute says, are kept so: when step 1 succeeds,
      [append_df_to_hdf5] returns [n_examples], every file is such a shard
      again, and the attribute of each file has grown by the number of
      times the file was drawn.
    - A shard holding the first field as a dataset that cannot grow (as
      [save_buffer_to_hdf5] creates it) makes [resize] raise
      [RuntimeError] when the file is the first one drawn: the attribute
      of the file has then been raised already, and no row was added. *)
Theorem append_keeps_shards_consistent (rng : Type)
    (choice : Z -> Z -> rng -> list nat * rng) (total_output_files : Z)
    (tokenized_data : list (string * list ndarray))
    (output_dir : gmap nat h5file) (g : rng)
    (data_dict : list (string * ndarray)) (n_examples : Z) :
  concat_fields tokenized_data None = Ret (data_dict, Some n_examples) ->
  0 < total_output_files ->
  length (fst (choice total_output_files n_examples g)) = Z.to_nat n_examples ->
  let shuffled_indices := fst (choice total_output_files n_examples g) in
  let run :=
    append_df_to_hdf5 rng choice total_output_files tokenized_data
                      output_dir g in
  (NoDup (map fst tokenized_data) ->
   Forall (fun p => Forall (fun d => d <> 0%nat) (snd p))
          (field_shapes tokenized_data) ->
   (forall f h5, output_dir !! f = Some h5 ->
                 shard_consistent (field_shapes tokenized_data) h5) ->
   exists output_dir',
     run = (output_dir', snd (choice total_output_files n_examples g),
            Ret n_examples)
     /\ (forall f h5, output_dir' !! f = Some h5 ->
                      shard_consistent (field_shapes tokenized_data) h5)
     /\ (forall f,
           default 0 (output_dir' !! f ≫= n_examples_attr)
           = default 0 (output_dir !! f ≫= n_examples_attr)
             + zlen (List.filter (fun x => (x =? f)%nat) shuffled_indices)))
  /\ (forall f0 label0 h5 old,
        head shuffled_indices = Some f0 ->
        head (map fst tokenized_data) = Some label0 ->
        output_dir !! f0 = Some h5 ->
        datasets h5 !! label0 = Some old ->
        label0 ∉ resizable h5 ->
        run = (<[f0 := attr_raised h5
                         (zlen (List.filter (fun x => (x =? f0)%nat)
                                            shuffled_indices))]> output_dir,
               snd (choice total_output_files n_examples g),
               Raise (RuntimeError msg_resize))).
Proof.
  intros Hc Htotal Hlen shuffled_indices run.
  assert (Hrun : run
    = let '(dir, result) :=
        write_groups output_dir data_dict
                     (group_indices 0 shuffled_indices []) in
      (dir, snd (choice total_output_files n_examples g),
       let* _ := result in Ret n_examples)).
  { unfold run, append_df_to_hdf5, shuffled_indices. rewrite Hc.
    destruct (Z.leb_spec total_output_files 0); [lia|]. cbn [andb].
    destruct (choice total_output_files n_examples g) as [idxs g1].
    reflexivity. }
  pose proof (concat_fields_labels _ _ _ _ Hc) as Hlabels.
  pose proof (concat_fields_shapes _ _ _ _ Hc) as Hshapes.
  pose proof (concat_fields_checked _ _ _ _ Hc) as [Hshape _].
  fold shuffled_indices in Hlen.
  destruct (group_indices_spec shuffled_indices 0 [] (NoDup_nil_2))
    as [Hgnd Hgrp].
  assert (Hvalid : forall f,
            Forall (fun i => (i < Z.to_nat n_examples)%nat)
                   (positions_of f 0 shuffled_indices)).
  { intros f. pose proof (positions_of_bound f shuffled_indices 0) as Hb.
    eapply Forall_impl; [exact Hb|]. intros i Hi. cbn beta in Hi. lia. }
  split.
  - intros Hnd Hpos Hdir. rewrite <- Hshapes in Hpos, Hdir |- *.
    fold (fields_of data_dict) in Hpos, Hdir |- *.
    rewrite <- Hlabels in Hnd.
    assert (Hgroup : forall f ps,
              (f, ps) ∈ group_indices 0 shuffled_indices [] ->
              ps = positions_of f 0 shuffled_indices).
    { intros f ps Hin.
      assert (Hg : group_of f (group_indices 0 shuffled_indices []) = Some ps).
      { clear -Hin Hgnd. induction (group_indices 0 shuffled_indices [])
          as [|[k l] rest IH]; [inversion Hin|].
        cbn [map fst] in Hgnd. apply NoDup_cons in Hgnd.
        destruct Hgnd as [Hk Hgnd]. unfold group_of. cbn [List.find fst].
        apply elem_of_cons in Hin. destruct Hin as [[= <- <-]|Hin].
        - rewrite Nat.eqb_refl. reflexivity.
        - destruct (Nat.eqb_spec k f) as [->|Hne].
          + exfalso. apply Hk. apply list_elem_of_fmap. exists (f, ps). auto.
          + apply IH; assumption. }
      rewrite Hgrp in Hg. cbn [group_of List.find fmap option_fmap option_map]
        in Hg.
      destruct (positions_of f 0 shuffled_indices); congruence. }
    assert (Hshard : forall f, shard_consistent (fields_of data_dict)
                                 (default empty_h5file (output_dir !! f))).
    { intros f. destruct (output_dir !! f) as [h|] eqn:Hf.
      - exact (Hdir _ _ Hf).
      - left. reflexivity. }
    destruct (write_groups_ok data_dict (group_indices 0 shuffled_indices [])
                output_dir Hgnd Hnd) as (dir' & Hwrite & Hlk).
    { intros f ps label data _ Hin.
      exact (consistent_can_append data_dict ps _ Hpos (Hshard f) label data
               Hin). }
    rewrite Hrun, Hwrite. cbn [bind]. exists dir'.
    split; [reflexivity|].
    assert (Hstep : forall f,
      exists h5',
        append_to_file (default empty_h5file (output_dir !! f)) data_dict
                       (positions_of f 0 shuffled_indices) = (h5', Ret tt)
        /\ shard_rows (fields_of data_dict) h5'
             (default 0 (output_dir !! f ≫= n_examples_attr)
              + zlen (positions_of f 0 shuffled_indices))).
    { intros f.
      replace (default 0 (output_dir !! f ≫= n_examples_attr))
        with (default 0 (n_examples_attr
                           (default empty_h5file (output_dir !! f))))
        by (destruct (output_dir !! f); reflexivity).
      apply (append_to_file_consistent data_dict _ n_examples);
        [exact Hnd|exact Hshape|apply Hvalid|exact Hpos|apply Hshard]. }
    assert (Hlk' : forall f,
      dir' !! f
      = match positions_of f 0 shuffled_indices with
        | [] => output_dir !! f
        | ps => Some (fst (append_to_file
                             (default empty_h5file (output_dir !! f))
                             data_dict ps))
        end).
    { intros f. rewrite Hlk, Hgrp.
      cbn [group_of List.find fmap option_fmap option_map].
      destruct (positions_of f 0 shuffled_indices); reflexivity. }
    split.
    + intros f h5 Hf. rewrite Hlk' in Hf.
      destruct (positions_of f 0 shuffled_indices) as [|p ps] eqn:Hps.
      * exact (Hdir _ _ Hf).
      * injection Hf as <-. right.
        destruct (Hstep f) as (h' & Hh' & Hrows). rewrite Hps in Hh', Hrows.
        rewrite Hh'. eexists. exact Hrows.
    + intros f. rewrite Hlk'. unfold zlen.
      rewrite <- (positions_of_count f shuffled_indices 0).
      destruct (Hstep f) as (h' & Hh' & [Hattr _]).
      destruct (positions_of f 0 shuffled_indices) as [|p ps] eqn:Hps.
      * simpl. lia.
      * rewrite Hh'. cbn [mbind option_bind fst]. rewrite Hattr. reflexivity.
  - intros f0 label0 h5 old Hhead Hlabel Hf0 Hold Hfixed.
    destruct shuffled_indices as [|x more] eqn:Hidx; [discriminate|].
    injection Hhead as ->.
    cbn [group_indices existsb app] in Hrun.
    destruct (group_indices_keeps_head more 1 (f0, [0%nat]) [])
      as [others Hgroups].
    cbn [fst snd] in Hgroups. rewrite Hgroups in Hrun.
    set (ps := [0%nat] ++ positions_of f0 1 more) in *.
    assert (Hps : ps = positions_of f0 0 (f0 :: more)).
    { cbn [positions_of]. rewrite Nat.eqb_refl. reflexivity. }
    destruct tokenized_data as [|[l arrays] rest]; [discriminate|].
    injection Hlabel as ->.
    destruct data_dict as [|[l data] dict']; [discriminate|].
    cbn [map fst] in Hlabels. injection Hlabels as -> _.
    assert (Hfail :
      append_to_file h5 ((label0, data) :: dict') ps
      = (attr_raised h5 (zlen ps), Raise (RuntimeError msg_resize))).
    { unfold append_to_file. fold (attr_raised h5 (zlen ps)).
      cbn [write_fields]. unfold append_dataset.
      cbn [attr_raised datasets resizable]. rewrite Hold.
      rewrite (bool_decide_eq_false_2 _ Hfixed). cbn [negb andb].
      assert (Hrows : length (rows (take_rows data ps)) = length ps).
      { apply take_rows_length. rewrite Hps.
        apply Forall_cons in Hshape. destruct Hshape as [Hd _].
        cbn [snd] in Hd.
        eapply Forall_impl; [apply (Hvalid f0)|].
        intros i Hi. cbn beta in Hi. unfold shape0, zlen in Hd. lia. }
      unfold shape0, zlen. rewrite Hrows.
      destruct (Z.ltb_spec 0 (Z.of_nat (length ps))) as [_|Hz];
        [reflexivity|]. unfold ps in Hz. cbn [app length] in Hz. lia. }
    rewrite Hrun. cbn [write_groups]. rewrite Hf0.
    cbn [default from_option]. unfold id. rewrite Hfail. cbn [bind].
    rewrite Hps. unfold zlen.
    rewrite (positions_of_count f0 (f0 :: more) 0). reflexivity.
Qed.

(** The shard that holds the rows of [matched_buffer] after one call on an
    empty directory, and the one [save_buffer_to_hdf5] writes for it. *)
Definition grown_once : gmap nat h5file :=
  fst (fst (append_df_to_hdf5 unit first_file_choice 1 matched_buffer ∅ tt)).

Definition saved_shard : h5file :=
  fst (save_buffer_to_hdf5 empty_h5file matched_buffer true).

Lemma append_keeps_shards_consistent_witness :
  (exists output_dir',
     append_df_to_hdf5 unit first_file_choice 1 matched_buffer grown_once tt
     = (output_dir', snd (first_file_choice 1 2 tt), Ret 2)
     /\ (forall f h5, output_dir' !! f = Some h5 ->
                      shard_consistent (field_shapes matched_buffer) h5)
     /\ (forall f,
           default 0 (output_dir' !! f ≫= n_examples_attr)
           = default 0 (grown_once !! f ≫= n_examples_attr)
             + zlen (List.filter (fun x => (x =? f)%nat)
                                 (fst (first_file_choice 1 2 tt)))))
  /\ append_df_to_hdf5 unit first_file_choice 1 matched_buffer
                       (<[0%nat := saved_shard]> ∅) tt
     = (<[0%nat := attr_raised saved_shard
                     (zlen (List.filter (fun x => (x =? 0)%nat)
                                        (fst (first_file_choice 1 2 tt))))]>
          (<[0%nat := saved_shard]> ∅),
        snd (first_file_choice 1 2 tt), Raise (RuntimeError msg_resize)).
Proof.
  split.
  - apply (proj1 (append_keeps_shards_consistent unit first_file_choice 1
                    matched_buffer grown_once tt
                    [("input_ids"%string, NdArray [3%nat] [[1; 2; 3]; [4; 5; 6]]);
                     ("labels"%string, NdArray [3%nat] [[2; 3; 0]; [5; 6; 0]])]
                    2 eq_refl eq_refl eq_refl)).
    + repeat (apply NoDup_cons; split;
              [vm_compute; intros H; inversion H as [|? ? ? H'];
               try inversion H'; discriminate|]).
      apply NoDup_nil_2.
    + repeat constructor; discriminate.
    + intros f h5 Hf.
      assert (Hdir : grown_once
                     = <[0%nat := default empty_h5file (grown_once !! 0%nat)]> ∅)
        by (vm_compute; reflexivity).
      rewrite Hdir in Hf. apply lookup_insert_Some in Hf.
      destruct Hf as [[<- <-]|[_ Hf]]; [|rewrite lookup_empty in Hf; discriminate].
      right. exists 2. split; [vm_compute; reflexivity|].
      intros label shape Hin. cbn in Hin.
      apply elem_of_cons in Hin. destruct Hin as [[= -> ->]|Hin].
      { eexists. split; [vm_compute; reflexivity|].
        split; [reflexivity|]. split; [reflexivity|].
        refine (bool_decide_unpack _ _). vm_compute. exact I. }
      apply elem_of_cons in Hin. destruct Hin as [[= -> ->]|Hin];
        [|inversion Hin].
      eexists. split; [vm_compute; reflexivity|].
      split; [reflexivity|]. split; [reflexivity|].
      refine (bool_decide_unpack _ _). vm_compute. exact I.
  - apply (proj2 (append_keeps_shards_consistent unit first_file_choice 1
                    matched_buffer (<[0%nat := saved_shard]> ∅) tt
                    [("input_ids"%string, NdArray [3%nat] [[1; 2; 3]; [4; 5; 6]]);
                     ("labels"%string, NdArray [3%nat] [[2; 3; 0]; [5; 6; 0]])]
                    2 eq_refl eq_refl eq_refl)
             0%nat "input_ids"%string saved_shard
             (NdArray [3%nat] [[1; 2; 3]; [4; 5; 6]]) eq_refl eq_refl).
    + apply lookup_insert_eq.
    + vm_compute. reflexivity.
    + refine (proj1 (bool_decide_eq_false _) _). vm_compute. reflexivity.
Defined.

(** * Preference encoding: further properties *)

Lemma clamp_index_nonneg (n : nat) (k : Z) :
  0 <= k -> clamp_index n k = Nat.min n (Z.to_nat k).
Proof. intros Hk. unfold clamp_index. destruct (Z.ltb_spec k 0); [lia|reflexivity]. Qed.

Lemma list_eqb_true (xs ys : list Z) : list_eqb xs ys = true <-> xs = ys.
Proof. unfold list_eqb. destruct (decide (xs = ys)); split; congruence. Qed.

(** The result of [build_tokenized_answer] in closed form, for a tokenizer
    that is not callable. *)
Lemma build_tokenized_answer_closed (tokenizer_call : string -> features)
    (tokenizer_encode : string -> list Z) (prompt prompt_response : string) :
  let full := tokenizer_encode prompt_response in
  let p := tokenizer_encode prompt in
  let k := if decide (take (length p) full = p)
           then length p else (length p - 1)%nat in
  build_tokenized_answer false tokenizer_call tokenizer_encode
                         prompt prompt_response
  = if (length p <=? length full)%nat
    then Ret (AnswerTokens (take k full) (replicate k 1)
                           (drop k full) (replicate (length full - k) 1))
    else Raise (ValueError msg_concat_length).
Proof.
  intros full p k. unfold build_tokenized_answer, tokenize_text.
  cbn [input_ids attention_mask]. fold full. fold p.
  unfold slice_from, slice_to, zlen.
  rewrite !clamp_index_nonneg by lia. rewrite Nat2Z.id.
  rewrite length_app, length_drop.
  destruct (Nat.leb_spec (length p) (length full)) as [Hle|Hgt].
  2:{ destruct (Nat.eqb_spec (length full)
                  (length p + (length full - Nat.min (length full) (length p))));
        [lia|reflexivity]. }
  destruct (Nat.eqb_spec (length full)
              (length p + (length full - Nat.min (length full) (length p))));
    [|lia].
  cbn [negb]. rewrite (Nat.min_r (length full) (length p)) by lia.
  assert (Hk : (k <= length full)%nat).
  { unfold k. destruct (decide _); lia. }
  assert (Hstart :
    (if negb (list_eqb p (take (length p) full))
     then Z.of_nat (length p) - 1 else Z.of_nat (length p)) = Z.of_nat k).
  { unfold k, list_eqb.
    destruct (decide (p = take (length p) full)) as [Heq|Hne];
      destruct (decide (take (length p) full = p)) as [Heq'|Hne'];
      try congruence; cbn [negb]; [reflexivity|].
    destruct p as [|x p']; [exfalso; apply Hne; reflexivity|].
    simpl length. lia. }
  rewrite Hstart. rewrite !clamp_index_nonneg by lia. rewrite !Nat2Z.id.
  rewrite length_replicate, (Nat.min_r (length full) k) by lia.
  rewrite take_replicate, drop_replicate, (Nat.min_l k (length full)) by lia.
  rewrite length_take, length_replicate, (Nat.min_l k (length full)) by lia.
  rewrite Nat.eqb_refl. reflexivity.
Qed.

(** X12.  With a tokenizer that is not callable, [build_tokenized_answer]
    fails exactly when the prompt has more tokens than the whole text, and
    then with the length error; otherwise it cuts the tokens of the whole
    text in two: prompt and answer together are those tokens, the cut is
    after the prompt's tokens when these start the text and one token
    earlier when they do not, and both masks are all ones. *)
Theorem build_tokenized_answer_splits (tokenizer_call : string -> features)
    (tokenizer_encode : string -> list Z) (prompt prompt_response : string) :
  let full := tokenizer_encode prompt_response in
  let p := tokenizer_encode prompt in
  let run := build_tokenized_answer false tokenizer_call tokenizer_encode
                                    prompt prompt_response in
  ((length full < length p)%nat -> run = Raise (ValueError msg_concat_length))
  /\ ((length p <= length full)%nat ->
      exists t,
        run = Ret t
        /\ prompt_input_ids t ++ answer_input_ids t = full
        /\ prompt_attention_mask t = replicate (length (prompt_input_ids t)) 1
        /\ answer_attention_mask t = replicate (length (answer_input_ids t)) 1
        /\ (take (length p) full = p -> prompt_input_ids t = p)
        /\ (take (length p) full <> p ->
            prompt_input_ids t = take (length p - 1) full)).
Proof.
  intros full p run. unfold run.
  rewrite build_tokenized_answer_closed. fold full. fold p. split.
  - intros Hlt. destruct (Nat.leb_spec (length p) (length full)) as [Hle|_]; [lia|reflexivity].
  - intros Hle. destruct (Nat.leb_spec (length p) (length full)) as [_|Hgt]; [|lia].
    eexists. split; [reflexivity|]. cbn [prompt_input_ids answer_input_ids
      prompt_attention_mask answer_attention_mask].
    assert (Hk : ((if decide (take (length p) full = p)
                   then length p else (length p - 1)%nat) <= length full)%nat).
    { destruct (decide _); lia. }
    split; [apply take_drop|].
    split; [rewrite length_take, Nat.min_l by lia; reflexivity|].
    split; [rewrite length_drop; reflexivity|].
    destruct (decide (take (length p) full = p)) as [Heq|Hne]; split;
      intros Hp; congruence.
Qed.

Section DpoMore.

Variable cfg : dpo_config.
Variable callable : bool.
Variable tokenizer_call : string -> features.
Variable tokenizer_encode : string -> list Z.
Variable tokenizer_apply_chat_template : list message -> string.
Variable fix_text : string -> string.
Variable wikitext_detokenizer : string -> string.
Variable utf8_len : string -> Z.
Variable lower : string -> string.

Local Abbreviation encode_tokenize :=
  (encode_tokenize cfg callable tokenizer_call tokenizer_encode
                   tokenizer_apply_chat_template fix_text wikitext_detokenizer
                   utf8_len lower).
Local Abbreviation encode :=
  (encode cfg callable tokenizer_call tokenizer_encode
          tokenizer_apply_chat_template fix_text wikitext_detokenizer utf8_len lower).

Lemma has_empty_field_false (chosen rejected : field) :
  is_empty_str chosen = false -> is_empty_str rejected = false ->
  has_empty_field chosen rejected = false.
Proof.
  intros Hc Hr. unfold has_empty_field. simpl. rewrite Hc, Hr. reflexivity.
Qed.

(** Where the tokens that [encode] goes on with come from. *)
Lemma encode_tokenize_continue (doc : option field * field * field)
    (c r : answer_tokens) (stats : data_stats) :
  encode_tokenize doc = Ret (Continue (c, r, stats)) ->
  exists prompt prompt_chosen prompt_rejected,
    build_tokenized_answer callable tokenizer_call tokenizer_encode
                           prompt prompt_chosen = Ret c
    /\ build_tokenized_answer callable tokenizer_call tokenizer_encode
                              prompt prompt_rejected = Ret r.
Proof.
  destruct doc as [[prompt chosen] rejected]. unfold encode_tokenize.
  destruct (has_empty_field chosen rejected); [discriminate|].
  destruct (derive_prompt cfg lower prompt chosen rejected initial_stats)
    as [st|prompt']; [discriminate|].
  destruct (render cfg tokenizer_apply_chat_template prompt' chosen rejected)
    as [[pc pr]| |]; cbn [bind]; try discriminate.
  destruct (normalize cfg fix_text wikitext_detokenizer utf8_len pc pr initial_stats)
    as [[pc' pr'] st'].
  destruct (find_response cfg pc' =? -1); [discriminate|].
  destruct (build_tokenized_answer _ _ _ _ pc') as [c0| |] eqn:Hc; cbn [bind];
    try discriminate.
  destruct (build_tokenized_answer _ _ _ _ pr') as [r0| |] eqn:Hr; cbn [bind];
    try discriminate.
  intros [= <- <- _]. eauto.
Qed.

End DpoMore.

(** X13.  A document without a prompt is only usable when both answers are
    strings.  With neither answer empty: if one of them is a list of
    messages, [encode] raises the [TypeError] of adding [None] to a list;
    if both are strings and [chosen.lower()], whatever [str.lower] makes of
    the text, does not hold the assistant role followed by a colon, the
    document is discarded. *)
Theorem encode_without_prompt (cfg : dpo_config) (callable : bool)
    (tokenizer_call : string -> features) (tokenizer_encode : string -> list Z)
    (tokenizer_apply_chat_template : list message -> string)
    (fix_text wikitext_detokenizer : string -> string) (utf8_len : string -> Z)
    (lower : string -> string)
    (chosen rejected : field) :
  is_empty_str chosen = false -> is_empty_str rejected = false ->
  let run :=
    encode cfg callable tokenizer_call tokenizer_encode
           tokenizer_apply_chat_template fix_text wikitext_detokenizer utf8_len lower
           (None, chosen, rejected) in
  (isinstance_str chosen && isinstance_str rejected = false ->
   run = Raise (TypeError msg_none_plus_list))
  /\ (forall c r,
        chosen = FStr c -> rejected = FStr r ->
        rfind (lower c) (assistant_role cfg ++ ":") = -1 ->
        exists stats,
          run = Ret ([], stats)
          /\ discarded stats = 1 /\ processed stats = 1 /\ successful stats = 0).
Proof.
  intros Hc Hr run. unfold run, encode, encode_tokenize.
  rewrite (has_empty_field_false _ _ Hc Hr). split.
  - intros Hstr. unfold derive_prompt.
    destruct chosen as [c|cm]; destruct rejected as [r|rm];
      cbn [isinstance_str andb] in *; try discriminate; reflexivity.
  - intros c r -> -> Hfind. unfold derive_prompt. cbn [isinstance_str].
    rewrite Hfind. cbn [Z.eqb bind]. eexists. split; [reflexivity|].
    repeat split; reflexivity.
Qed.

Lemma encode_without_prompt_witness :
  example_encode (None, FMsgs [Message "yes" "assistant"],
                  FMsgs [Message "no" "assistant"])
  = Raise (TypeError msg_none_plus_list)
  /\ exists stats,
       example_encode (None, FStr "Yes, it is.", FStr "No.") = Ret ([], stats)
       /\ discarded stats = 1 /\ processed stats = 1 /\ successful stats = 0.
Proof.
  split.
  - apply (proj1 (encode_without_prompt example_config false
                    (fun _ => Features [] []) char_encode (fun _ => EmptyString)
                    (fun s => s) (fun s => s)
                    (fun s => Z.of_nat (String.length s)) ascii_lower
                    (FMsgs [Message "yes" "assistant"])
                    (FMsgs [Message "no" "assistant"]) eq_refl eq_refl)).
    reflexivity.
  - apply (proj2 (encode_without_prompt example_config false
                    (fun _ => Features [] []) char_encode (fun _ => EmptyString)
                    (fun s => s) (fun s => s)
                    (fun s => Z.of_nat (String.length s)) ascii_lower
                    (FStr "Yes, it is.") (FStr "No.") eq_refl eq_refl)
             "Yes, it is." "No." eq_refl eq_refl).
    reflexivity.
Defined.

Lemma slice_to_length {A : Type} (l : list A) (k : Z) :
  length (slice_to l k) = Nat.min (clamp_index (length l) k) (length l).
Proof. unfold slice_to. apply length_take. Qed.

Section DpoFit.

Variable cfg : dpo_config.
Hypothesis bos_added : add_bos_token cfg = false.
Hypothesis prompt_room : 1 <= max_prompt_length cfg <= max_seq_length cfg.

(** The masks of [build_tokenized_answer] are as long as the tokens. *)
Definition masks_match (t : answer_tokens) : Prop :=
  length (prompt_attention_mask t) = length (prompt_input_ids t)
  /\ length (answer_attention_mask t) = length (answer_input_ids t).

(** What [encode] stacks for one answer: the tokens with the BOS and EOS
    tokens, the prompt and then the response cut to size. *)
Definition final_tokens (longer_response_length : Z) (t : answer_tokens)
  : answer_tokens :=
  truncate_response cfg longer_response_length
    (truncate_prompt cfg longer_response_length (add_eos cfg (add_bos cfg t))).

Lemma final_tokens_fit (longer : Z) (t : answer_tokens) :
  masks_match t ->
  zlen (answer_input_ids t) + 1 <= longer ->
  let t' := final_tokens longer t in
  (1 <= length (prompt_input_ids t'))%nat
  /\ length (prompt_attention_mask t') = length (prompt_input_ids t')
  /\ (length (answer_attention_mask t') <= length (answer_input_ids t'))%nat
  /\ zlen (prompt_input_ids t') + zlen (answer_input_ids t')
     <= max_seq_length cfg.
Proof.
  intros [Hpm Ham] Hlonger. unfold final_tokens, add_bos, add_eos.
  rewrite bos_added. cbn [negb prompt_input_ids prompt_attention_mask
    answer_input_ids answer_attention_mask].
  unfold truncate_prompt, truncate_response.
  cbn [prompt_input_ids prompt_attention_mask answer_input_ids
       answer_attention_mask].
  unfold zlen in *.
  destruct (max_seq_length cfg
            <? Z.of_nat (length (bos_token_id cfg :: prompt_input_ids t)) + longer)
    eqn:H1;
    cbn [prompt_input_ids prompt_attention_mask answer_input_ids
         answer_attention_mask];
    match goal with
    | |- context [max_seq_length cfg <? Z.of_nat (length ?p) + longer] =>
        destruct (max_seq_length cfg <? Z.of_nat (length p) + longer) eqn:H2
    end;
    cbn [prompt_input_ids prompt_attention_mask answer_input_ids
         answer_attention_mask];
    rewrite ?slice_from_length, ?slice_to_length, ?length_app in *;
    cbn [length] in *; unfold clamp_index in *;
    repeat match goal with
           | |- context [?a <? ?b] => destruct (Z.ltb_spec a b)
           | H : context [?a <? ?b] |- _ => destruct (Z.ltb_spec a b)
           end;
    try discriminate; rewrite ?length_app in *; cbn [length] in *; lia.
Qed.

Lemma final_rows_fit (t' : answer_tokens) (ids mask labels : list Z) :
  (1 <= length (prompt_input_ids t'))%nat ->
  length (prompt_attention_mask t') = length (prompt_input_ids t') ->
  (length (answer_attention_mask t') <= length (answer_input_ids t'))%nat ->
  zlen (prompt_input_ids t') + zlen (answer_input_ids t') <= max_seq_length cfg ->
  sequence_tokens cfg t' = (ids, mask, labels) ->
  length (pad_to_max cfg (pad_id cfg) ids) = Z.to_nat (max_seq_length cfg)
  /\ length (mask_prompt t' (pad_to_max cfg 0 mask))
     = Z.to_nat (max_seq_length cfg)
  /\ length (pad_to_max cfg (pad_id cfg) labels) = Z.to_nat (max_seq_length cfg).
Proof.
  intros Hp Hpm Ham Hfit Hseq.
  pose proof (sequence_tokens_lengths cfg t' ids mask labels Hseq) as Hlab.
  unfold sequence_tokens in Hseq. injection Hseq as Hids Hmask _.
  assert (Hmsl : 0 <= max_seq_length cfg) by lia.
  assert (Hlen_ids : length ids
                     = (length (prompt_input_ids t')
                        + length (answer_input_ids t'))%nat).
  { rewrite <- Hids. apply length_app. }
  assert (Hlen_mask : (length mask <= length ids)%nat).
  { rewrite <- Hmask, Hlen_ids, length_app. lia. }
  unfold zlen in *.
  split; [|split].
  - rewrite pad_to_max_length by exact Hmsl. lia.
  - unfold mask_prompt, assign_slice_to, py_repeat.
    rewrite length_app, length_replicate, slice_from_length.
    rewrite pad_to_max_length by exact Hmsl.
    unfold zlen, clamp_index.
    destruct (Z.ltb_spec (Z.of_nat (length (prompt_input_ids t')) - 1) 0); lia.
  - rewrite pad_to_max_length by exact Hmsl. lia.
Qed.

Lemma encode_tokens_fits (c r : answer_tokens) (stats : data_stats) :
  masks_match c -> masks_match r ->
  prompts_differ c r = false ->
  exists out, encode_tokens cfg c r stats = Ret out.
Proof.
  intros Hc Hr Hdiff. unfold encode_tokens. rewrite Hdiff.
  set (longer := Z.max (zlen (answer_input_ids (add_eos cfg (add_bos cfg c))))
                       (zlen (answer_input_ids (add_eos cfg (add_bos cfg r))))).
  assert (Hlc : zlen (answer_input_ids c) + 1 <= longer).
  { unfold longer, add_eos, add_bos, zlen. rewrite bos_added.
    cbn [negb answer_input_ids]. rewrite !length_app. simpl. lia. }
  assert (Hlr : zlen (answer_input_ids r) + 1 <= longer).
  { unfold longer, add_eos, add_bos, zlen. rewrite bos_added.
    cbn [negb answer_input_ids]. rewrite !length_app. simpl. lia. }
  fold (final_tokens longer c). fold (final_tokens longer r).
  destruct (final_tokens_fit longer c Hc Hlc) as (Hc1 & Hc2 & Hc3 & Hc4).
  destruct (final_tokens_fit longer r Hr Hlr) as (Hr1 & Hr2 & Hr3 & Hr4).
  destruct (sequence_tokens cfg (final_tokens longer c))
    as [[c_ids c_mask] c_labels] eqn:Hsc.
  destruct (sequence_tokens cfg (final_tokens longer r))
    as [[r_ids r_mask] r_labels] eqn:Hsr.
  destruct (final_rows_fit _ _ _ _ Hc1 Hc2 Hc3 Hc4 Hsc) as (Ec1 & Ec2 & Ec3).
  destruct (final_rows_fit _ _ _ _ Hr1 Hr2 Hr3 Hr4 Hsr) as (Er1 & Er2 & Er3).
  unfold np_stack. cbn [forallb].
  rewrite Ec1, Ec2, Ec3, Er1, Er2, Er3, !Nat.eqb_refl. cbn [andb bind].
  eauto.
Qed.

End DpoFit.

(** X14.  The rows of a sample always fit.  With a tokenizer that is not
    callable, the BOS token added by [encode] and
    [1 <= max_prompt_length <= max_seq_length], the truncation of prompt
    and response leaves at most [max_seq_length] tokens, so stacking the six
    rows cannot fail: a document that is tokenized with prompts that agree
    gives a sample, and whatever [encode] raises is the [TypeError] of a
    missing prompt, the length error of [build_tokenized_answer] or the
    error for prompts that differ. *)
Theorem encode_rows_always_fit (cfg : dpo_config)
    (tokenizer_call : string -> features) (tokenizer_encode : string -> list Z)
    (tokenizer_apply_chat_template : list message -> string)
    (fix_text wikitext_detokenizer : string -> string) (utf8_len : string -> Z)
    (lower : string -> string)
    (doc : option field * field * field) :
  add_bos_token cfg = false ->
  1 <= max_prompt_length cfg <= max_seq_length cfg ->
  let run :=
    encode cfg false tokenizer_call tokenizer_encode
           tokenizer_apply_chat_template fix_text wikitext_detokenizer utf8_len lower
           doc in
  (forall c r stats,
      encode_tokenize cfg false tokenizer_call tokenizer_encode
                      tokenizer_apply_chat_template fix_text
                      wikitext_detokenizer utf8_len lower doc
      = Ret (Continue (c, r, stats)) ->
      prompts_differ c r = false ->
      exists out, run = Ret out)
  /\ (forall e,
        run = Raise e ->
        e = TypeError msg_none_plus_list
        \/ e = ValueError msg_concat_length
        \/ e = ValueError msg_prompt_differs).
Proof.
  intros Hbos Hroom run.
  assert (Hmasks : forall p q t,
    build_tokenized_answer false tokenizer_call tokenizer_encode p q = Ret t ->
    masks_match t).
  { intros p q t Ht. rewrite build_tokenized_answer_closed in Ht.
    destruct (_ <=? _)%nat eqn:Hle; [|discriminate]. injection Ht as <-.
    apply Nat.leb_le in Hle. unfold masks_match.
    cbn [prompt_input_ids answer_input_ids prompt_attention_mask
         answer_attention_mask].
    rewrite !length_replicate, length_take, length_drop.
    destruct (decide _); lia. }
  assert (Hfit : forall c r stats,
    encode_tokenize cfg false tokenizer_call tokenizer_encode
                    tokenizer_apply_chat_template fix_text
                    wikitext_detokenizer utf8_len lower doc
    = Ret (Continue (c, r, stats)) ->
    prompts_differ c r = false ->
    exists out, encode_tokens cfg c r stats = Ret out).
  { intros c r st Htok Hdiff.
    destruct (encode_tokenize_continue _ _ _ _ _ _ _ _ _ _ _ _ _ Htok)
      as (p & pc & pr & Hc & Hr).
    exact (encode_tokens_fits cfg Hbos Hroom c r st
             (Hmasks _ _ _ Hc) (Hmasks _ _ _ Hr) Hdiff). }
  split.
  - intros c r st Htok Hdiff. unfold run, encode. rewrite Htok. cbn [bind].
    exact (Hfit _ _ _ Htok Hdiff).
  - intros e. unfold run, encode.
    destruct (encode_tokenize cfg false tokenizer_call tokenizer_encode
                tokenizer_apply_chat_template fix_text wikitext_detokenizer
                utf8_len lower doc) as [[st|[[c r] st]]|e'|] eqn:Htok; cbn [bind];
      try discriminate.
    + intros Hrun. destruct (prompts_differ c r) eqn:Hdiff.
      * unfold encode_tokens in Hrun. rewrite Hdiff in Hrun.
        injection Hrun as <-. auto.
      * destruct (Hfit _ _ _ eq_refl Hdiff) as [out Hout].
        rewrite Hout in Hrun. discriminate.
    + intros [= <-].
      destruct (encode_tokenize_raises _ _ _ _ _ _ _ _ _ _ _ Htok) as [H|[H|H]];
        auto.
      exfalso. subst e'.
      destruct doc as [[prompt chosen] rejected]. unfold encode_tokenize in Htok.
      destruct (has_empty_field chosen rejected); [discriminate|].
      destruct (derive_prompt cfg lower prompt chosen rejected initial_stats)
        as [st|prompt']; [discriminate|].
      destruct (render cfg tokenizer_apply_chat_template prompt' chosen rejected)
        as [[pc pr]|e'|] eqn:Hrender; cbn [bind] in Htok; try discriminate.
      2:{ injection Htok as ->. unfold render in Hrender.
          destruct prompt'; [|discriminate].
          destruct (all_dicts chosen && all_dicts rejected); discriminate. }
      destruct (normalize cfg fix_text wikitext_detokenizer utf8_len pc pr
                  initial_stats) as [[pc' pr'] st'].
      destruct (find_response cfg pc' =? -1); [discriminate|].
      rewrite !build_tokenized_answer_closed in Htok.
      repeat match type of Htok with
             | context [(?a <=? ?b)%nat] => destruct (a <=? b)%nat
             end; cbn [bind] in Htok; try discriminate;
        injection Htok as Hmsg;
        apply (f_equal String.length) in Hmsg; vm_compute in Hmsg; discriminate.
Qed.

Lemma encode_rows_always_fit_witness :
  let doc := (Some (FStr "hi"), FStr "yes", FStr "no") in
  (forall c r stats,
      encode_tokenize example_config false (fun _ => Features [] []) char_encode
                      (fun _ => EmptyString) (fun s => s) (fun s => s)
                      (fun s => Z.of_nat (String.length s)) ascii_lower doc
      = Ret (Continue (c, r, stats)) ->
      prompts_differ c r = false ->
      exists out, example_encode doc = Ret out)
  /\ (forall e,
        example_encode doc = Raise e ->
        e = TypeError msg_none_plus_list
        \/ e = ValueError msg_concat_length
        \/ e = ValueError msg_prompt_differs).
Proof.
  apply (encode_rows_always_fit example_config (fun _ => Features [] [])
           char_encode (fun _ => EmptyString) (fun s => s) (fun s => s)
           (fun s => Z.of_nat (String.length s)) ascii_lower
           (Some (FStr "hi"), FStr "yes", FStr "no"));
    [reflexivity|simpl; lia].
Defined.

(** * Token ranges of semantic regions *)

Lemma first_index_from_some {A : Type} (test : A -> bool) (l : list A) :
  forall (pos start i : nat),
  first_index_from test l pos start = Some i ->
  (start <= i)%nat /\ (pos <= i)%nat
  /\ (exists x, l !! (i - pos)%nat = Some x /\ test x = true)
  /\ forall j x, (start <= j)%nat -> (pos <= j < i)%nat ->
                 l !! (j - pos)%nat = Some x -> test x = false.
Proof.
  induction l as [|y rest IH]; intros pos start i; simpl; [discriminate|].
  destruct ((start <=? pos)%nat && test y) eqn:Hhead.
  - intros [= <-]. apply andb_true_iff in Hhead. destruct Hhead as [Hs Ht].
    apply Nat.leb_le in Hs. split; [lia|]. split; [lia|]. split.
    + exists y. rewrite Nat.sub_diag. auto.
    + intros j x _ Hj. lia.
  - intros Hrest. destruct (IH _ _ _ Hrest) as (Hs & Hp & (x & Hx & Htx) & Hbefore).
    split; [exact Hs|]. split; [lia|]. split.
    + exists x. replace (i - pos)%nat with (S (i - S pos)) by lia. auto.
    + intros j z Hsj Hj Hz. destruct (Nat.eq_dec j pos) as [->|Hne].
      * rewrite Nat.sub_diag in Hz. injection Hz as <-.
        apply andb_false_iff in Hhead. destruct Hhead as [Hs'|Ht]; [|exact Ht].
        apply Nat.leb_gt in Hs'. lia.
      * apply (Hbefore j z Hsj); [lia|].
        replace (j - pos)%nat with (S (j - S pos)) in Hz by lia. exact Hz.
Qed.

Lemma first_index_from_none {A : Type} (test : A -> bool) (l : list A) :
  forall (pos start : nat),
  first_index_from test l pos start = None ->
  forall j x, (start <= pos + j)%nat -> l !! j = Some x -> test x = false.
Proof.
  induction l as [|y rest IH]; intros pos start; simpl.
  - intros _ j x _ Hx. destruct j; discriminate.
  - destruct ((start <=? pos)%nat && test y) eqn:Hhead; [discriminate|].
    intros Hrest j x Hj Hx. destruct j as [|j].
    + injection Hx as <-. apply andb_false_iff in Hhead.
      destruct Hhead as [Hs|Ht]; [apply Nat.leb_gt in Hs; lia|exact Ht].
    + apply (IH _ _ Hrest j x); [lia|exact Hx].
Qed.

(** X15.  For a region that is not empty ([string_start < string_end]),
    [find_token_range] returns a token range that is not empty and lies
    between the starting position and the end of the offsets: its last
    token is the first one from the starting position that holds the
    region's end, its first token the first one that holds or follows the
    region's start; weight and mask are passed on.  It raises [ValueError]
    exactly when no token from the starting position on holds the end. *)
Theorem find_token_range_spec (loss_weight_t attention_mask_t : Type)
    (r : region loss_weight_t attention_mask_t) (offsets : list (Z * Z))
    (starting_offset_position : nat) :
  fst (region_indices _ _ r) < snd (region_indices _ _ r) ->
  let string_start := fst (region_indices _ _ r) in
  let string_end := snd (region_indices _ _ r) in
  match find_token_range _ _ r offsets starting_offset_position with
  | Ret out =>
      exists token_start token_end : nat,
        out = Region _ _ (Z.of_nat token_start, Z.of_nat token_end + 1)
                     (region_loss_weight _ _ r) (region_attention_mask _ _ r)
        /\ (starting_offset_position <= token_start <= token_end)%nat
        /\ (token_end < length offsets)%nat
        /\ (exists a b, offsets !! token_end = Some (a, b)
                        /\ a < string_end <= b)
        /\ (exists a b, offsets !! token_start = Some (a, b)
                        /\ (a <= string_start < b \/ string_start < a))
  | Raise e =>
      (e = ValueError msg_token_start \/ e = ValueError msg_token_end)
      /\ forall i a b,
           (starting_offset_position <= i)%nat ->
           offsets !! i = Some (a, b) -> ~ (a < string_end <= b)
  | OutOfFuel => False
  end.
Proof.
  intros Hne string_start string_end. unfold find_token_range.
  destruct (region_indices _ _ r) as [s e] eqn:Hidx. cbn [fst snd] in *.
  subst string_start string_end.
  set (test_start := fun o : Z * Z =>
         ((fst o <=? s) && (s <? snd o)) || (s <? fst o)).
  set (test_end := fun o : Z * Z => (e <=? snd o) && (fst o <? e)).
  assert (Himp : forall o, test_end o = true -> test_start o = true).
  { intros [a b]. unfold test_end, test_start. cbn [fst snd]. lia. }
  destruct (first_index_from test_start offsets 0 starting_offset_position)
    as [ts|] eqn:Hts.
  - destruct (first_index_from test_end offsets 0 starting_offset_position)
      as [te|] eqn:Hte.
    + destruct (first_index_from_some _ _ _ _ _ Hts)
        as (Hs1 & _ & ([a1 b1] & Hx1 & Ht1) & Hbefore).
      destruct (first_index_from_some _ _ _ _ _ Hte)
        as (Hs2 & _ & ([a2 b2] & Hx2 & Ht2) & _).
      rewrite Nat.sub_0_r in Hx1, Hx2.
      exists ts, te. split; [reflexivity|].
      assert (Hle : (ts <= te)%nat).
      { destruct (Nat.le_gt_cases ts te) as [|Hgt]; [assumption|].
        specialize (Hbefore te (a2, b2) Hs2 ltac:(lia)).
        rewrite Nat.sub_0_r in Hbefore. specialize (Hbefore Hx2).
        rewrite (Himp _ Ht2) in Hbefore. discriminate. }
      split; [lia|]. split; [apply lookup_lt_Some in Hx2; exact Hx2|].
      split.
      * exists a2, b2. split; [exact Hx2|].
        unfold test_end in Ht2. cbn [fst snd] in Ht2. lia.
      * exists a1, b1. split; [exact Hx1|].
        unfold test_start in Ht1. cbn [fst snd] in Ht1. lia.
    + split; [auto|]. intros i a b Hi Hlk Hcov.
      pose proof (first_index_from_none _ _ _ _ Hte i (a, b) ltac:(lia) Hlk) as Hf.
      unfold test_end in Hf. cbn [fst snd] in Hf. lia.
  - split; [auto|]. intros i a b Hi Hlk Hcov.
    pose proof (first_index_from_none _ _ _ _ Hts i (a, b) ltac:(lia) Hlk) as Hf.
    unfold test_start in Hf. cbn [fst snd] in Hf. lia.
Qed.

Lemma find_token_range_spec_witness :
  exists token_start token_end : nat,
    Region unit unit (1, 3) None None
    = Region unit unit (Z.of_nat token_start, Z.of_nat token_end + 1) None None
    /\ (0 <= token_start <= token_end)%nat
    /\ (token_end < length [(0, 3); (3, 5); (5, 9); (9, 12)])%nat
    /\ (exists a b, [(0, 3); (3, 5); (5, 9); (9, 12)] !! token_end = Some (a, b)
                    /\ a < 8 <= b)
    /\ (exists a b, [(0, 3); (3, 5); (5, 9); (9, 12)] !! token_start = Some (a, b)
                    /\ (a <= 4 < b \/ 4 < a)).
Proof.
  apply (find_token_range_spec unit unit (Region unit unit (4, 8) None None)
           [(0, 3); (3, 5); (5, 9); (9, 12)] 0).
  simpl. lia.
Defined.

(** * Tokenizing a long text in pieces *)

Local Open Scope string_scope.

(** The pieces put back together. *)
Definition join_chunks (chunks : list string) : string :=
  fold_right String.append "" chunks.

Lemma prefix_space_cons (c : ascii) (rest : string) :
  String.prefix " " (String c rest) = if ascii_dec " " c then true else false.
Proof.
  change (String.prefix " " (String c rest))
    with (if ascii_dec " " c then String.prefix "" rest else false).
  destruct (ascii_dec " " c); [|reflexivity]. destruct rest; reflexivity.
Qed.

Lemma prefix_space_nil : String.prefix " " "" = false.
Proof. reflexivity. Qed.

Lemma find_aux_space (s : string) :
  forall (pos skip : nat) (r : Z),
  find_aux " " s pos skip = r ->
  r = -1
  \/ (Z.of_nat (pos + skip) <= r < Z.of_nat (pos + String.length s)
      /\ String.get (Z.to_nat r - pos) s = Some " "%char).
Proof.
  induction s as [|c rest IH]; intros pos skip r.
  - destruct skip; cbn [find_aux]; [rewrite prefix_space_nil|]; intros <-; auto.
  - destruct skip as [|k]; cbn [find_aux].
    + rewrite prefix_space_cons. destruct (ascii_dec " " c) as [<-|Hne].
      * intros <-. right. rewrite Nat2Z.id, Nat.sub_diag. simpl. split; [lia|reflexivity].
      * intros Hr. destruct (IH _ _ _ Hr) as [->|[Hb Hg]]; [auto|]. right.
        cbn [String.length]. split; [lia|].
        replace (Z.to_nat r - pos)%nat with (S (Z.to_nat r - S pos)) by lia.
        exact Hg.
    + intros Hr. destruct (IH _ _ _ Hr) as [->|[Hb Hg]]; [auto|]. right.
      cbn [String.length]. split; [lia|].
      replace (Z.to_nat r - pos)%nat with (S (Z.to_nat r - S pos)) by lia.
      exact Hg.
Qed.

Lemma py_find_space (s : string) (start : Z) :
  0 <= start ->
  py_find s " " start = -1
  \/ (start <= py_find s " " start < Z.of_nat (String.length s)
      /\ String.get (Z.to_nat (py_find s " " start)) s = Some " "%char).
Proof.
  intros Hs. unfold py_find. destruct (Z.ltb_spec start 0); [lia|].
  destruct (find_aux_space s 0 (Z.to_nat start) _ eq_refl) as [->|[Hb Hg]];
    [auto|].
  right. rewrite Nat.sub_0_r in Hg. split; [lia|exact Hg].
Qed.

Lemma substring_nil (a k : nat) : substring a k "" = "".
Proof. destruct a, k; reflexivity. Qed.

Lemma substring_glue (s : string) :
  forall a b c : nat,
  (a <= b <= c)%nat ->
  substring a (b - a) s ++ substring b (c - b) s = substring a (c - a) s.
Proof.
  induction s as [|x rest IH]; intros a b c Habc.
  - rewrite !substring_nil. reflexivity.
  - destruct a as [|a].
    + rewrite !Nat.sub_0_r. destruct b as [|b].
      * rewrite Nat.sub_0_r. reflexivity.
      * destruct c as [|c]; [lia|]. cbn [substring]. rewrite append_cons.
        f_equal. specialize (IH 0%nat b c ltac:(lia)).
        rewrite !Nat.sub_0_r in IH. rewrite <- IH. reflexivity.
    + destruct b as [|b]; [lia|]. destruct c as [|c]; [lia|].
      replace (S b - S a)%nat with (b - a)%nat by lia.
      replace (S c - S b)%nat with (c - b)%nat by lia.
      replace (S c - S a)%nat with (c - a)%nat by lia.
      cbn [substring]. apply IH. lia.
Qed.

Lemma substring_all (s : string) : substring 0 (String.length s) s = s.
Proof. induction s as [|x rest IH]; [reflexivity|]. simpl. rewrite IH. reflexivity. Qed.

Lemma substring_length (s : string) :
  forall a k : nat,
  (a + k <= String.length s)%nat -> String.length (substring a k s) = k.
Proof.
  induction s as [|x rest IH]; intros a k Hk; simpl in Hk.
  - rewrite substring_nil. simpl. lia.
  - destruct a as [|a].
    + destruct k as [|k]; [reflexivity|]. simpl. f_equal. apply (IH 0%nat). lia.
    + cbn [substring]. apply IH. lia.
Qed.

Lemma substring_head (s : string) :
  forall (a k : nat) (c : ascii),
  String.get a s = Some c ->
  substring a (S k) s = String c (substring (S a) k s).
Proof.
  induction s as [|x rest IH]; intros a k c; simpl; [discriminate|].
  destruct a as [|a].
  - intros [= <-]. destruct k; destruct rest; reflexivity.
  - intros Hg. rewrite (IH _ _ _ Hg). reflexivity.
Qed.

Local Close Scope string_scope.

Lemma substring_zero (s : string) (a : nat) : substring a 0 s = ""%string.
Proof.
  revert a. induction s as [|x rest IH]; intros a; [apply substring_nil|].
  destruct a; [reflexivity|]. simpl. apply IH.
Qed.

Section SplitTextProofs.

Variable tokenizer_encode : string -> list Z.
Variable text : string.
Variable max_tok_len : Z.
Variable remove_bos_in_chunks : bool.
Hypothesis max_tok_len_pos : 1 <= max_tok_len.

Local Abbreviation n := (Z.of_nat (String.length text)).

(** Where the piece that starts at [curr_start] ends. *)
Definition next_end (curr_start : Z) : Z :=
  let curr_end := Z.min (py_find text " "%string (curr_start + max_tok_len)) n in
  if curr_end <? 0 then n else curr_end.

(** The tokens one piece adds to [tok_ids]. *)
Definition piece_tokens (piece : string) : list Z :=
  if remove_bos_in_chunks then tail (tokenizer_encode piece)
  else tokenizer_encode piece.

(** The pieces of the text from [curr_start] on. *)
Fixpoint text_chunks (fuel : nat) (curr_start : Z) : list string :=
  if curr_start <? n then
    match fuel with
    | O => []
    | S fuel' =>
        str_slice text curr_start (next_end curr_start)
          :: text_chunks fuel' (next_end curr_start)
    end
  else [].

Lemma next_end_spec (cs : Z) :
  0 <= cs < n ->
  cs < next_end cs <= n
  /\ (next_end cs = n
      \/ (cs + max_tok_len <= next_end cs
          /\ String.get (Z.to_nat (next_end cs)) text = Some " "%char)).
Proof.
  intros Hcs. unfold next_end.
  destruct (py_find_space text (cs + max_tok_len) ltac:(lia)) as [->|[Hb Hg]].
  - rewrite Z.min_l by lia. simpl. lia.
  - rewrite Z.min_l by lia.
    destruct (Z.ltb_spec (py_find text " "%string (cs + max_tok_len)) 0); [lia|].
    split; [lia|]. right. split; [lia|exact Hg].
Qed.

Lemma split_text_body_eq (cs : Z) (toks bos : list Z) :
  split_text_body tokenizer_encode text max_tok_len remove_bos_in_chunks
                  (cs, toks, bos)
  = (let piece := str_slice text cs (next_end cs) in
     let* bos' :=
       (if cs =? 0 then
          match tokenizer_encode piece with
          | t :: _ => Ret [t]
          | [] => Raise IndexError
          end
        else Ret bos) in
     Ret (next_end cs, toks ++ piece_tokens piece, bos')).
Proof.
  unfold split_text_body, next_end, piece_tokens.
  destruct (Z.min (py_find text " "%string (cs + max_tok_len)) n <? 0); reflexivity.
Qed.

Lemma split_text_loop_rest (fuel : nat) :
  forall (cs : Z) (toks bos : list Z),
  0 < cs <= n -> n - cs <= Z.of_nat fuel ->
  split_text_loop tokenizer_encode fuel text max_tok_len remove_bos_in_chunks
                  (cs, toks, bos)
  = Ret (n, toks ++ concat (map piece_tokens (text_chunks fuel cs)), bos).
Proof.
  induction fuel as [|fuel IH]; intros cs toks bos Hcs Hfuel.
  - assert (cs = n) as -> by lia. simpl. rewrite Z.ltb_irrefl.
    rewrite app_nil_r. reflexivity.
  - cbn [split_text_loop text_chunks fst].
    destruct (Z.ltb_spec cs n) as [Hlt|Hge].
    + rewrite split_text_body_eq. cbv zeta.
      destruct (Z.eqb_spec cs 0); [lia|]. cbn [bind].
      destruct (next_end_spec cs ltac:(lia)) as [Hb _].
      rewrite IH by lia. cbn [map concat]. rewrite <- app_assoc. reflexivity.
    + assert (cs = n) as -> by lia. simpl. rewrite app_nil_r. reflexivity.
Qed.

Lemma text_chunks_fuel (f1 : nat) :
  forall (f2 : nat) (cs : Z),
  0 <= cs <= n -> n - cs <= Z.of_nat f1 -> n - cs <= Z.of_nat f2 ->
  text_chunks f1 cs = text_chunks f2 cs.
Proof.
  induction f1 as [|f1 IH]; intros f2 cs Hcs H1 H2.
  - assert (cs = n) as -> by lia. destruct f2; simpl; rewrite Z.ltb_irrefl;
      reflexivity.
  - destruct f2 as [|f2].
    + assert (cs = n) as -> by lia. simpl. rewrite Z.ltb_irrefl. reflexivity.
    + cbn [text_chunks]. destruct (Z.ltb_spec cs n) as [Hlt|]; [|reflexivity].
      destruct (next_end_spec cs ltac:(lia)) as [Hb _].
      f_equal. apply IH; lia.
Qed.

Definition starts_with_space (c : string) : Prop := String.prefix " "%string c = true.

Lemma text_chunks_spec (fuel : nat) :
  forall cs : Z,
  0 <= cs <= n -> n - cs <= Z.of_nat fuel ->
  let chunks := text_chunks fuel cs in
  join_chunks chunks = str_slice text cs n
  /\ Forall (fun c => c <> ""%string) chunks
  /\ Forall (fun c => max_tok_len <= Z.of_nat (String.length c))
            (removelast chunks)
  /\ Forall starts_with_space (tail chunks)
  /\ (String.get (Z.to_nat cs) text = Some " "%char ->
      Forall starts_with_space chunks).
Proof.
  induction fuel as [|fuel IH]; intros cs Hcs Hfuel.
  - assert (cs = n) as -> by lia. simpl. rewrite Z.ltb_irrefl.
    unfold str_slice. rewrite Nat.sub_diag, substring_zero.
    repeat split; constructor.
  - cbn [text_chunks]. destruct (Z.ltb_spec cs n) as [Hlt|Hge].
    2:{ assert (cs = n) as -> by lia. unfold str_slice.
        rewrite Nat.sub_diag, substring_zero. repeat split; constructor. }
    destruct (next_end_spec cs ltac:(lia)) as [Hb Hend].
    set (ce := next_end cs) in *.
    destruct (IH ce ltac:(lia) ltac:(lia)) as (Hjoin & Hne & Hlen & Htail & Hsp).
    assert (Hclen : String.length (str_slice text cs ce)
                    = (Z.to_nat ce - Z.to_nat cs)%nat).
    { unfold str_slice. apply substring_length. lia. }
    assert (Hrest : ce = n -> text_chunks fuel ce = []).
    { intros ->. destruct fuel; simpl; rewrite Z.ltb_irrefl; reflexivity. }
    cbv zeta. split; [|split; [|split; [|split]]].
    + cbn [join_chunks fold_right]. fold (join_chunks (text_chunks fuel ce)).
      rewrite Hjoin. unfold str_slice. apply substring_glue. lia.
    + constructor; [|exact Hne]. intros Hempty.
      rewrite Hempty in Hclen. simpl in Hclen. lia.
    + destruct (text_chunks fuel ce) as [|c' rest'] eqn:Hch; [constructor|].
      cbn [removelast]. constructor; [|exact Hlen].
      destruct Hend as [Hn|[Hm _]]; [specialize (Hrest Hn); congruence|].
      rewrite Hclen. lia.
    + cbn [tail]. destruct Hend as [Hn|[_ Hg]].
      * rewrite (Hrest Hn). constructor.
      * apply Hsp. exact Hg.
    + intros Hg. constructor.
      * unfold starts_with_space, str_slice.
        replace (Z.to_nat ce - Z.to_nat cs)%nat
          with (S (Z.to_nat ce - Z.to_nat cs - 1)) by lia.
        rewrite (substring_head _ _ _ _ Hg), prefix_space_cons.
        destruct (ascii_dec " "%char " "%char); [reflexivity|congruence].
      * destruct Hend as [Hn|[_ Hg']].
        -- rewrite (Hrest Hn). constructor.
        -- apply Hsp. exact Hg'.
Qed.

End SplitTextProofs.

(** X16.  For [max_tok_len >= 1] the loop of [split_text_and_tokenize]
    ends within [len(text)] passes.  An empty text gives no tokens.
    Otherwise the text is cut into pieces that are not empty and that put
    together are the text; every piece but the last has at least
    [max_tok_len] characters and every piece but the first starts with the
    space it was cut at.  The result is the first token of the first piece
    followed by the tokens of every piece without its first token (all
    tokens of all pieces when [remove_bos_in_chunks] is off), and
    [IndexError] when the tokenizer gives no token for the first piece. *)
Theorem split_text_and_tokenize_pieces (tokenizer_encode : string -> list Z)
    (text : string) (max_tok_len : Z) (remove_bos_in_chunks : bool) :
  1 <= max_tok_len ->
  let run := fun fuel =>
    split_text_and_tokenize tokenizer_encode fuel text max_tok_len
                            remove_bos_in_chunks in
  (text = ""%string -> forall fuel, run fuel = Ret [])
  /\ (text <> ""%string ->
      exists first rest,
        join_chunks (first :: rest) = text
        /\ Forall (fun c => c <> ""%string) (first :: rest)
        /\ Forall (fun c => max_tok_len <= Z.of_nat (String.length c))
                  (removelast (first :: rest))
        /\ Forall (fun c => String.prefix " "%string c = true) rest
        /\ forall fuel, (String.length text <= fuel)%nat ->
             run fuel
             = match tokenizer_encode first with
               | [] => Raise IndexError
               | t :: _ =>
                   Ret (if remove_bos_in_chunks
                        then t :: concat (map (fun c => tail (tokenizer_encode c))
                                              (first :: rest))
                        else concat (map tokenizer_encode (first :: rest)))
               end).
Proof.
  intros Hm run. split.
  - intros -> fuel. reflexivity.
  - intros Hne.
    assert (Hlen : (1 <= String.length text)%nat).
    { destruct text; [congruence|simpl; lia]. }
    set (chunks := text_chunks text max_tok_len (String.length text) 0).
    destruct (text_chunks_spec text max_tok_len Hm (String.length text) 0
                ltac:(lia) ltac:(lia))
      as (Hjoin & Hnonempty & Hlong & Htail & _).
    fold chunks in Hjoin, Hnonempty, Hlong, Htail.
    assert (Hchunks : chunks
      = str_slice text 0 (next_end text max_tok_len 0)
          :: text_chunks text max_tok_len (String.length text - 1)
                         (next_end text max_tok_len 0)).
    { unfold chunks. destruct (String.length text) as [|k] eqn:Hk; [lia|].
      cbn [text_chunks]. rewrite <- Hk.
      destruct (Z.ltb_spec 0 (Z.of_nat (String.length text))); [|lia].
      rewrite Hk. replace (S k - 1)%nat with k by lia. reflexivity. }
    rewrite Hchunks in Hjoin, Hnonempty, Hlong, Htail.
    eexists _, _. split; [|split; [exact Hnonempty|split; [exact Hlong|split]]].
    + rewrite Hjoin. unfold str_slice. simpl. rewrite Nat.sub_0_r.
      rewrite Nat2Z.id. apply substring_all.
    + exact Htail.
    + intros fuel Hfuel. unfold run, split_text_and_tokenize.
      destruct (Nat.eqb_spec (String.length text) 0); [lia|].
      destruct fuel as [|fuel]; [lia|]. cbn [split_text_loop fst].
      destruct (Z.ltb_spec 0 (Z.of_nat (String.length text))); [|lia].
      rewrite split_text_body_eq. cbv zeta. cbn [Z.eqb].
      destruct (tokenizer_encode (str_slice text 0 (next_end text max_tok_len 0)))
        as [|t ts] eqn:Henc; cbn [bind]; [reflexivity|].
      destruct (next_end_spec text max_tok_len Hm 0 ltac:(lia)) as [Hb _].
      rewrite (split_text_loop_rest tokenizer_encode text max_tok_len
                 remove_bos_in_chunks Hm) by lia.
      cbn [bind].
      rewrite (text_chunks_fuel text max_tok_len Hm fuel
                 (String.length text - 1)) by lia.
      unfold piece_tokens.
      destruct remove_bos_in_chunks; cbn [map concat app]; rewrite Henc;
        reflexivity.
Qed.

Lemma split_text_and_tokenize_pieces_witness :
  let run := fun fuel =>
    split_text_and_tokenize char_encode fuel "ab cd ef"%string 2 true in
  ("ab cd ef"%string = ""%string -> forall fuel, run fuel = Ret [])
  /\ ("ab cd ef"%string <> ""%string ->
      exists first rest,
        join_chunks (first :: rest) = "ab cd ef"%string
        /\ Forall (fun c => c <> ""%string) (first :: rest)
        /\ Forall (fun c => 2 <= Z.of_nat (String.length c))
                  (removelast (first :: rest))
        /\ Forall (fun c => String.prefix " "%string c = true) rest
        /\ forall fuel, (String.length "ab cd ef"%string <= fuel)%nat ->
             run fuel
             = match char_encode first with
               | [] => Raise IndexError
               | t :: _ =>
                   Ret (if true
                        then t :: concat (map (fun c => tail (char_encode c))
                                              (first :: rest))
                        else concat (map char_encode (first :: rest)))
               end).
Proof. apply (split_text_and_tokenize_pieces char_encode "ab cd ef"%string 2 true). lia. Defined.

Lemma py_find_leading_space (rest : string) :
  py_find (String " "%char rest) " "%string 0 = 0.
Proof.
  unfold py_find. change (0 <? 0) with false. cbv iota.
  change (Z.to_nat 0) with 0%nat. cbn [find_aux]. rewrite prefix_space_cons.
  destruct (ascii_dec " "%char " "%char); [reflexivity|congruence].
Qed.

(** X17.  With [max_tok_len = 0] and a text that starts with a space the
    first piece is empty and the loop never moves on: the call does not
    return, unless the tokenizer gives no token for the empty string, in
    which case the first pass raises [IndexError]. *)
Theorem split_text_and_tokenize_stalls (tokenizer_encode : string -> list Z)
    (rest : string) (remove_bos_in_chunks : bool) :
  let run := fun fuel =>
    split_text_and_tokenize tokenizer_encode fuel (String " "%char rest) 0
                            remove_bos_in_chunks in
  (tokenizer_encode ""%string <> [] -> never_returns run)
  /\ (tokenizer_encode ""%string = [] -> forall fuel, run (S fuel) = Raise IndexError).
Proof.
  intros run.
  assert (Hbody : forall toks bos,
    split_text_body tokenizer_encode (String " "%char rest) 0 remove_bos_in_chunks
                    (0, toks, bos)
    = match tokenizer_encode ""%string with
      | t :: _ =>
          Ret (0, toks ++ (if remove_bos_in_chunks
                           then tail (tokenizer_encode ""%string)
                           else tokenizer_encode ""%string), [t])
      | [] => Raise IndexError
      end).
  { intros toks bos. unfold split_text_body. change (0 + 0) with 0.
    rewrite py_find_leading_space, Z.min_l by lia.
    change (0 <? 0) with false. change (0 =? 0) with true. cbv iota beta.
    change (str_slice (String " "%char rest) 0 0) with ""%string.
    destruct (tokenizer_encode ""%string); reflexivity. }
  split.
  - intros Hne fuel. unfold run, split_text_and_tokenize. cbn [String.length Nat.eqb].
    assert (Hloop : forall toks bos,
      split_text_loop tokenizer_encode fuel (String " "%char rest) 0
                      remove_bos_in_chunks (0, toks, bos) = OutOfFuel).
    { induction fuel as [|fuel IH]; intros toks bos; cbn [split_text_loop fst].
      - destruct (Z.ltb_spec 0 (Z.of_nat (String.length (String " "%char rest))));
          [reflexivity|cbn [String.length] in *; lia].
      - destruct (Z.ltb_spec 0 (Z.of_nat (String.length (String " "%char rest))));
          [|cbn [String.length] in *; lia].
        rewrite Hbody. destruct (tokenizer_encode ""%string) as [|t ts]; [congruence|].
        cbn [bind]. apply IH. }
    rewrite Hloop. reflexivity.
  - intros Hnil fuel. unfold run, split_text_and_tokenize.
    cbn [String.length Nat.eqb split_text_loop fst].
    destruct (Z.ltb_spec 0 (Z.of_nat (S (String.length rest)))); [|lia].
    rewrite Hbody, Hnil. reflexivity.
Qed.


(** * [fim] when no sub-context is permuted *)

(** What [chunk] returns for a document it leaves alone. *)
Definition ar_pair (doc : list Z) : segment * fim_format :=
  (Segment [] [] doc [], AR).

Lemma format_ar_docs (st pt mt eos : Z) (docs : list (list Z)) :
  concat (map (format_segment st pt mt eos []) (map ar_pair docs))
  = concat (map (fun doc => doc ++ [eos]) docs).
Proof.
  induction docs as [|doc rest IH]; [reflexivity|].
  cbn [map concat]. rewrite IH. unfold format_segment, ar_pair, optional_padding.
  cbn. rewrite app_nil_r. reflexivity.
Qed.

Lemma total_ar_docs (docs : list (list Z)) :
  total_tokens (map fst (map ar_pair docs)) = length (concat docs).
Proof.
  unfold total_tokens. induction docs as [|doc rest IH]; [reflexivity|].
  cbn [map sum_nat fold_right concat] in *. rewrite length_app, <- IH.
  reflexivity.
Qed.

Lemma overhead_ar_docs (docs : list (list Z)) :
  overhead_sum [] (map snd (map ar_pair docs)) = Z.of_nat (length docs).
Proof.
  induction docs as [|doc rest IH]; [reflexivity|].
  change (overhead_sum [] (map snd (map ar_pair (doc :: rest))))
    with (fmt_overhead [] AR + overhead_sum [] (map snd (map ar_pair rest))).
  rewrite IH. unfold fmt_overhead. cbn [nonempty length]. lia.
Qed.

Lemma no_pads_ar_docs (docs : list (list Z)) : no_pads (map ar_pair docs).
Proof.
  unfold no_pads. induction docs; constructor; [reflexivity|assumption].
Qed.

Lemma concat_filter_nonempty (pieces : list (list Z)) :
  concat (List.filter nonempty pieces) = concat pieces.
Proof.
  induction pieces as [|p rest IH]; [reflexivity|].
  destruct p; cbn [List.filter nonempty concat]; [exact IH|].
  rewrite IH. reflexivity.
Qed.

Lemma filter_nonempty_all (pieces : list (list Z)) :
  Forall (fun p => p <> []) pieces -> List.filter nonempty pieces = pieces.
Proof.
  induction 1 as [|p rest Hp _ IH]; [reflexivity|].
  destruct p; [congruence|]. cbn [List.filter nonempty]. rewrite IH. reflexivity.
Qed.

Lemma filter_nonempty_fewer (pieces : list (list Z)) :
  Exists (fun p => p = []) pieces ->
  (length (List.filter nonempty pieces) < length pieces)%nat.
Proof.
  assert (Hle : forall l : list (list Z),
           (length (List.filter nonempty l) <= length l)%nat).
  { induction l as [|p l IH]; [reflexivity|].
    destruct p; cbn [List.filter nonempty length]; lia. }
  induction 1 as [p rest Hp|p rest _ IH].
  - subst p. cbn [List.filter nonempty length]. specialize (Hle rest). lia.
  - destruct p; cbn [List.filter nonempty length]; lia.
Qed.

Lemma join_docs_length (eos : Z) (init : list (list Z)) (lst : list Z) :
  length (join_docs eos (init ++ [lst]))
  = (length (concat (init ++ [lst])) + length init)%nat.
Proof.
  assert (Hflat : forall ps : list (list Z),
           length (flat_map (fun q => eos :: q) ps)
           = (length (concat ps) + length ps)%nat).
  { induction ps as [|q ps IH]; [reflexivity|].
    cbn [flat_map concat length]. rewrite !length_app. cbn [length].
    rewrite IH. lia. }
  destruct init as [|p ps]; cbn [app join_docs concat flat_map length].
  - rewrite app_nil_r. lia.
  - rewrite !length_app, Hflat, !length_app. cbn [length]. lia.
Qed.

Lemma join_docs_eos (eos : Z) (p : list Z) (ps : list (list Z)) :
  concat (map (fun doc => doc ++ [eos]) (p :: ps))
  = join_docs eos (p :: ps) ++ [eos].
Proof.
  revert p. induction ps as [|q ps IH]; intros p.
  - cbn. rewrite !app_nil_r. reflexivity.
  - specialize (IH q). cbn [map concat join_docs flat_map] in *.
    rewrite IH. rewrite <- !app_assoc. reflexivity.
Qed.

Section FimNever.

Variable encode : string -> list Z.
Variable decode : list Z -> string.
Variable rng : Type.
Variable binomial : Q -> rng -> nat * rng.
Variable randint : nat -> rng -> (nat * nat) * rng.

(** [np.random.binomial(1, 0)] is 0. *)
Hypothesis binomial_zero : forall g, fst (binomial 0 g) = 0%nat.

Lemma chunk_never (doc : list Z) (spm_rate : Q) (g : rng) :
  fst (chunk encode decode rng binomial randint doc 0 spm_rate g) = ar_pair doc.
Proof.
  unfold chunk. pose proof (binomial_zero g) as H.
  destruct (binomial 0 g) as [b g']. cbn [fst] in H. subst b. reflexivity.
Qed.

Lemma chunk_docs_never (docs : list (list Z)) (spm_rate : Q) (g : rng) :
  fst (chunk_docs encode decode rng binomial randint docs 0 spm_rate g)
  = map ar_pair docs.
Proof.
  revert g. induction docs as [|doc rest IH]; intros g; [reflexivity|].
  cbn [chunk_docs]. pose proof (chunk_never doc spm_rate g) as Hc.
  destruct (chunk encode decode rng binomial randint doc 0 spm_rate g)
    as [p g1].
  specialize (IH g1).
  destruct (chunk_docs encode decode rng binomial randint rest 0 spm_rate g1)
    as [ps g2].
  cbn [fst map] in *. congruence.
Qed.

Variables (sample mask : list Z) (more : list (list Z)) (sample_idx : Z).
Variables (spm_rate : Q) (st pt mt pad eos : Z) (g : rng).

Lemma fim_never_segments :
  fst (fim_segments encode decode rng binomial randint sample eos 0 spm_rate g)
  = map ar_pair (documents eos sample).
Proof. rewrite fim_segments_documents. apply chunk_docs_never. Qed.

(** The length [fim] has to reconcile: one token is missing for every
    empty sub-document that ends at an end-of-document token. *)
Lemma fim_never_diff :
  let pairs := map ar_pair (documents eos sample) in
  let init := removelast (split_on eos sample) in
  Z.of_nat (total_tokens (map fst pairs)) + add_constant pairs []
    - Z.of_nat (length sample)
  = Z.of_nat (length (List.filter nonempty init)) - Z.of_nat (length init).
Proof.
  cbv zeta. rewrite total_ar_docs, add_constant_sum, overhead_ar_docs.
  unfold documents.
  destruct (split_on_cons eos sample) as (p & ps & Hsp).
  assert (Hne : split_on eos sample <> []) by (rewrite Hsp; discriminate).
  destruct (exists_last Hne) as (init & lst & Hpieces).
  pose proof (split_on_join eos sample) as Hjoin.
  rewrite Hpieces in *. rewrite removelast_last, last_last.
  rewrite <- Hjoin, join_docs_length.
  rewrite !concat_app, !length_app, concat_filter_nonempty.
  cbn [length]. lia.
Qed.

End FimNever.

(** X18.  [fim] with [fim_rate = 0] permutes nothing.  Without a
    beginning-of-sequence token, for a sample that is not empty and ids
    that no conversion to floats changes (the sample's, the
    end-of-sequence token and the padding token are at most [2 ^ 53] in
    magnitude):
    - when no sub-document that ends at an end-of-document token is empty
      (the sample does not start with that token and never holds it twice
      in a row), the inputs are the sample itself, the mask is all ones,
      whatever mask came in, and the labels are the sample shifted by one
      with the end-of-sequence token last;
    - when there is such an empty sub-document, its end-of-document token is
      lost, the sample is padded, and with a padding token other than the
      end-of-sequence token the assertion on the last label raises
      [AssertionError]. *)
Theorem fim_rate_zero
    (encode : string -> list Z) (decode : list Z -> string) (rng : Type)
    (binomial : Q -> rng -> nat * rng) (randint : nat -> rng -> (nat * nat) * rng)
    (sample mask : list Z) (more : list (list Z)) (sample_idx : Z)
    (spm_rate : Q)
    (suffix_tok_id prefix_tok_id middle_tok_id fim_pad_tok_id eos_tok_id : Z)
    (g : rng) :
  (forall g, fst (binomial 0%Q g) = 0%nat) ->
  sample <> [] ->
  Forall f64_exact (fim_pad_tok_id :: eos_tok_id :: sample) ->
  let init := removelast (split_on eos_tok_id sample) in
  let run := fun fuel =>
    fim encode decode rng binomial randint fuel (sample :: mask :: more)
        sample_idx 0 spm_rate suffix_tok_id prefix_tok_id middle_tok_id
        fim_pad_tok_id eos_tok_id [] g in
  (Forall (fun doc => doc <> []) init ->
   forall fuel,
     run fuel = Ret (sample, replicate (length sample) 1,
                     tail sample ++ [eos_tok_id]))
  /\ (Exists (fun doc => doc = []) init ->
      fim_pad_tok_id <> eos_tok_id ->
      forall fuel, run fuel = Raise AssertionError).
Proof.
  intros Hbin Hsample Hexact init run.
  apply Forall_cons in Hexact. destruct Hexact as [Hpadx Hexact].
  apply Forall_cons in Hexact. destruct Hexact as [Heosx Hsx].
  assert (Hrate : (0 <= 0)%Q /\ (0 <= 1)%Q) by (split; discriminate).
  pose proof (fim_never_segments encode decode rng binomial randint Hbin
                sample spm_rate eos_tok_id g) as Hseg.
  pose proof (fim_never_diff sample eos_tok_id) as Hdiff. cbv zeta in Hdiff.
  fold init in Hdiff.
  split.
  - intros Hall fuel. unfold run.
    rewrite (fim_unfold encode decode rng binomial randint sample mask more
               sample_idx 0 spm_rate suffix_tok_id prefix_tok_id middle_tok_id
               fim_pad_tok_id eos_tok_id [] g Hrate).
    rewrite Hseg, Hdiff, (filter_nonempty_all init Hall), Z.sub_diag.
    assert (Hdocs : documents eos_tok_id sample = split_on eos_tok_id sample).
    { unfold documents. fold init. rewrite (filter_nonempty_all init Hall).
      unfold init.
      destruct (split_on_cons eos_tok_id sample) as (p & ps & Hsp).
      assert (Hne : split_on eos_tok_id sample <> [])
        by (rewrite Hsp; discriminate).
      destruct (exists_last Hne) as (i & l & ->).
      rewrite removelast_last, last_last. reflexivity. }
    set (pairs := map ar_pair (documents eos_tok_id sample)).
    assert (Hstep : truncate_or_pad_helper fuel pairs 0 fim_pad_tok_id sample_idx
                    = Ret pairs).
    { unfold truncate_or_pad_helper, truncate_helper. cbn [Z.leb Z.compare].
      destruct fuel; cbn [truncate_loop diff Z.eqb samples_lst bind];
        rewrite combine_fst_snd; reflexivity. }
    rewrite Hstep. cbn [bind].
    assert (Hxs : concat (map (format_segment suffix_tok_id prefix_tok_id
                                 middle_tok_id eos_tok_id []) pairs)
                  = sample ++ [eos_tok_id]).
    { unfold pairs. rewrite format_ar_docs, Hdocs.
      destruct (split_on_cons eos_tok_id sample) as (p & ps & Hsp).
      rewrite Hsp, join_docs_eos, <- Hsp, split_on_join. reflexivity. }
    assert (Hall' : Forall f64_exact (sample ++ [eos_tok_id])).
    { apply Forall_app. split; [exact Hsx|].
      constructor; [exact Heosx|constructor]. }
    assert (Hys : as_int64 [] pairs
                    (concat (map (format_segment suffix_tok_id prefix_tok_id
                                    middle_tok_id eos_tok_id []) pairs))
                  = sample ++ [eos_tok_id]).
    { rewrite Hxs. apply as_int64_exact. exact Hall'. }
    assert (Hpads : padding_sum pairs = 0%nat).
    { apply no_pads_padding_sum, no_pads_ar_docs. }
    assert (HL : (1 <= length sample)%nat).
    { destruct sample; [congruence|cbn [length]; lia]. }
    rewrite (format_check suffix_tok_id prefix_tok_id middle_tok_id eos_tok_id []
               ltac:(cbn [length]; lia) pairs (length sample) eos_tok_id).
    + destruct (Nat.leb_spec 1 (length sample)); [|lia].
      rewrite Z.eqb_refl. cbn [andb]. rewrite Hys, Hpads, Nat.sub_0_r.
      rewrite removelast_last. cbn [replicate]. rewrite app_nil_r.
      unfold stack_outputs.
      rewrite (map_exact f64_round sample f64_round_exact Hsx).
      destruct sample as [|x rest]; [congruence|].
      cbn [app tail]. apply Forall_cons in Hall'. destruct Hall' as [_ Hrest].
      rewrite (map_exact f64_round (rest ++ [eos_tok_id]) f64_round_exact Hrest).
      reflexivity.
    + rewrite Hxs, length_app. cbn [length]. lia.
    + rewrite Hpads. lia.
    + rewrite Hys. apply last_snoc.
  - intros Hempty Hpad fuel. unfold run.
    destruct (fim_pad_case encode decode rng binomial randint sample mask more
                sample_idx 0 spm_rate suffix_tok_id prefix_tok_id middle_tok_id
                fim_pad_tok_id eos_tok_id [] g Hrate ltac:(cbn [length]; lia)
                fuel) as [out Hout].
    + rewrite Hseg, Hdiff.
      pose proof (filter_nonempty_fewer init Hempty). lia.
    + exact Hpadx.
    + rewrite Hout.
      destruct (Z.eqb_spec fim_pad_tok_id eos_tok_id); [contradiction|reflexivity].
Qed.

Lemma fim_rate_zero_witness :
  let init := removelast (split_on 0 [5; 0; 6; 7]) in
  let run := fun fuel =>
    fim char_encode char_decode unit sure_binomial zero_randint fuel
        [[5; 0; 6; 7]; [1; 1; 0; 0]; [0; 6; 7; 0]] 3 0 (1 # 2)
        101 102 103 9 0 [] tt in
  (Forall (fun doc => doc <> []) init ->
   forall fuel,
     run fuel = Ret ([5; 0; 6; 7], replicate (length [5; 0; 6; 7]) 1,
                     tail [5; 0; 6; 7] ++ [0]))
  /\ (Exists (fun doc => doc = []) init ->
      9 <> 0 ->
      forall fuel, run fuel = Raise AssertionError).
Proof.
  apply (fim_rate_zero char_encode char_decode unit sure_binomial zero_randint
           [5; 0; 6; 7] [1; 1; 0; 0] [[0; 6; 7; 0]] 3 (1 # 2) 101 102 103 9 0 tt).
  - intros g. reflexivity.
  - discriminate.
  - repeat constructor; unfold f64_exact; simpl; lia.
Defined.

(** * Preference encoding: what the rows hold *)

Section DpoContent.

Variable cfg : dpo_config.
Hypothesis bos_added : add_bos_token cfg = false.

(** The three rows of one conversation when nothing is cut: the ids with
    BOS and EOS, the mask with ones over the response and its EOS only, and
    the labels with the response and its EOS only, each filled up to
    [max_seq_length]. *)
Definition dpo_rows (t : answer_tokens) : list (list Z) :=
  let P := prompt_input_ids t in
  let A := answer_input_ids t in
  let L := Z.to_nat (max_seq_length cfg) in
  [ (bos_token_id cfg :: P ++ A ++ [eos_id cfg])
      ++ replicate (L - (length P + length A + 2)) (pad_id cfg);
    replicate (length P) 0 ++ replicate (length A + 1) 1
      ++ replicate (L - (length P + length A + 1)) 0;
    replicate (length P) (pad_id cfg) ++ A ++ [eos_id cfg]
      ++ replicate (L - (length P + length A + 1)) (pad_id cfg) ].

Lemma pad_to_max_eq (v : Z) (tokens : list Z) :
  0 <= max_seq_length cfg ->
  pad_to_max cfg v tokens
  = tokens ++ replicate (Z.to_nat (max_seq_length cfg) - length tokens) v.
Proof.
  intros HL. unfold pad_to_max, assign_slice_to, slice_from, py_repeat, zlen.
  rewrite length_replicate, clamp_index_nonneg by lia.
  rewrite drop_replicate, Nat2Z.id. f_equal. f_equal. lia.
Qed.

Lemma ones_then_drop (p a : nat) (rest : list Z) :
  drop p (1 :: (replicate p 1 ++ replicate a 1) ++ rest)
  = replicate (a + 1) 1 ++ rest.
Proof.
  assert (Hshift : forall (k : nat) (l : list Z),
    1 :: replicate k 1 ++ l = replicate k 1 ++ 1 :: l).
  { induction k as [|k IH]; intros l; [reflexivity|].
    cbn [replicate app]. rewrite IH. reflexivity. }
  rewrite <- app_assoc, Hshift.
  rewrite drop_app_length' by (symmetry; apply length_replicate).
  replace (a + 1)%nat with (S a) by lia. reflexivity.
Qed.

Lemma final_tokens_uncut (longer : Z) (t : answer_tokens) :
  zlen (prompt_input_ids t) + 1 + longer <= max_seq_length cfg ->
  final_tokens cfg longer t
  = AnswerTokens (bos_token_id cfg :: prompt_input_ids t)
                 (1 :: prompt_attention_mask t)
                 (answer_input_ids t ++ [eos_id cfg]) (answer_attention_mask t).
Proof.
  intros Hfit. unfold final_tokens, add_bos, add_eos. rewrite bos_added.
  cbn [negb prompt_input_ids prompt_attention_mask answer_input_ids
       answer_attention_mask].
  unfold truncate_prompt.
  cbn [prompt_input_ids prompt_attention_mask answer_input_ids
       answer_attention_mask].
  assert (Hno : (max_seq_length cfg
                 <? zlen (bos_token_id cfg :: prompt_input_ids t) + longer)
                = false).
  { apply Z.ltb_ge. unfold zlen in *. cbn [length]. lia. }
  rewrite Hno. unfold truncate_response.
  cbn [prompt_input_ids prompt_attention_mask answer_input_ids
       answer_attention_mask].
  rewrite Hno. reflexivity.
Qed.

Lemma uncut_rows (t : answer_tokens) :
  0 <= max_seq_length cfg ->
  prompt_attention_mask t = replicate (length (prompt_input_ids t)) 1 ->
  answer_attention_mask t = replicate (length (answer_input_ids t)) 1 ->
  let t' := AnswerTokens (bos_token_id cfg :: prompt_input_ids t)
                         (1 :: prompt_attention_mask t)
                         (answer_input_ids t ++ [eos_id cfg])
                         (answer_attention_mask t) in
  [pad_to_max cfg (pad_id cfg) (fst (fst (sequence_tokens cfg t')));
   mask_prompt t' (pad_to_max cfg 0 (snd (fst (sequence_tokens cfg t'))));
   pad_to_max cfg (pad_id cfg) (snd (sequence_tokens cfg t'))]
  = dpo_rows t.
Proof.
  intros HL Hpm Ham t'. unfold sequence_tokens, mask_prompt, dpo_rows. subst t'.
  cbn [fst snd prompt_input_ids prompt_attention_mask answer_input_ids
       answer_attention_mask].
  set (P := prompt_input_ids t) in *. set (A := answer_input_ids t) in *.
  rewrite Hpm, Ham. rewrite !pad_to_max_eq by exact HL.
  unfold assign_slice_to, slice_from, py_repeat, zlen.
  cbn [length tail app].
  replace (Z.of_nat (S (length P)) - 1) with (Z.of_nat (length P)) by lia.
  rewrite !clamp_index_nonneg by lia. rewrite !Nat2Z.id.
  rewrite !length_app, !length_replicate. cbn [length].
  f_equal; [|f_equal; [|f_equal]].
  - do 3 f_equal. lia.
  - f_equal.
    match goal with
    | |- drop ?k _ = _ => replace k with (length P) by lia
    end.
    rewrite ones_then_drop. do 2 f_equal. lia.
  - match goal with
    | |- context [drop ?k _] => replace k with (length P) by lia
    end.
    rewrite drop_app_length, length_app, <- !app_assoc. cbn [length app].
    do 4 f_equal. lia.
Qed.

End DpoContent.
Lemma dpo_rows_lengths (cfg : dpo_config) (t : answer_tokens) :
  zlen (prompt_input_ids t) + zlen (answer_input_ids t) + 2
    <= max_seq_length cfg ->
  Forall (fun row => length row = Z.to_nat (max_seq_length cfg))
         (dpo_rows cfg t).
Proof.
  unfold zlen, dpo_rows. intros Hfit.
  repeat constructor; cbn [length]; rewrite ?length_app, ?length_replicate;
    cbn [length]; rewrite ?length_app, ?length_replicate; cbn [length]; lia.
Qed.

Lemma build_masks_ones (tokenizer_call : string -> features)
    (tokenizer_encode : string -> list Z) (prompt prompt_response : string)
    (t : answer_tokens) :
  build_tokenized_answer false tokenizer_call tokenizer_encode
                         prompt prompt_response = Ret t ->
  prompt_attention_mask t = replicate (length (prompt_input_ids t)) 1
  /\ answer_attention_mask t = replicate (length (answer_input_ids t)) 1.
Proof.
  rewrite build_tokenized_answer_closed.
  destruct (_ <=? _)%nat eqn:Hle; [|discriminate]. intros [= <-].
  apply Nat.leb_le in Hle.
  cbn [prompt_input_ids answer_input_ids prompt_attention_mask
       answer_attention_mask].
  rewrite length_take, length_drop.
  split; f_equal; destruct (decide _); lia.
Qed.

(** X19.  What a sample holds when nothing has to be cut.  With a tokenizer
    that is not callable and the BOS token added by [encode], for a document
    that is tokenized with agreeing prompts, and with room for BOS, prompt,
    the longer response and EOS within [max_seq_length]: each of the two
    conversations gives the ids [BOS, prompt, response, EOS], labels that
    are these ids shifted by one with the padding id over the prompt, and an
    attention mask that is one exactly where the labels hold the response
    and its EOS; all rows are filled up to [max_seq_length].  The statistics
    count the prompt tokens as masked and every other position, padding
    included, as valid for the loss. *)
Theorem encode_rows_content (cfg : dpo_config)
    (tokenizer_call : string -> features) (tokenizer_encode : string -> list Z)
    (tokenizer_apply_chat_template : list message -> string)
    (fix_text wikitext_detokenizer : string -> string) (utf8_len : string -> Z)
    (lower : string -> string)
    (doc : option field * field * field) (c r : answer_tokens)
    (stats : data_stats) :
  add_bos_token cfg = false ->
  encode_tokenize cfg false tokenizer_call tokenizer_encode
                  tokenizer_apply_chat_template fix_text wikitext_detokenizer
                  utf8_len lower doc
  = Ret (Continue (c, r, stats)) ->
  prompts_differ c r = false ->
  let longer_response_length :=
    Z.max (zlen (answer_input_ids c)) (zlen (answer_input_ids r)) + 1 in
  zlen (prompt_input_ids c) + 1 + longer_response_length
    <= max_seq_length cfg ->
  zlen (prompt_input_ids r) + 1 + longer_response_length
    <= max_seq_length cfg ->
  exists stats',
    encode cfg false tokenizer_call tokenizer_encode
           tokenizer_apply_chat_template fix_text wikitext_detokenizer utf8_len lower
           doc
    = Ret ([dpo_rows cfg c ++ dpo_rows cfg r], stats')
    /\ successful stats' = 1
    /\ num_masked_tokens stats'
       = zlen (prompt_input_ids c) + zlen (prompt_input_ids r)
    /\ loss_valid_tokens stats'
       = 2 * max_seq_length cfg
         - (zlen (prompt_input_ids c) + zlen (prompt_input_ids r)).
Proof.
  intros Hbos Htok Hdiff longer Hfc Hfr.
  destruct (encode_tokenize_continue _ _ _ _ _ _ _ _ _ _ _ _ _ Htok)
    as (p & pc & pr & Hc & Hr).
  destruct (build_masks_ones _ _ _ _ _ Hc) as [Hcp Hca].
  destruct (build_masks_ones _ _ _ _ _ Hr) as [Hrp Hra].
  assert (HL : 0 <= max_seq_length cfg) by (unfold zlen in *; lia).
  unfold encode. rewrite Htok. cbn [bind]. unfold encode_tokens. rewrite Hdiff.
  set (longer' := Z.max (zlen (answer_input_ids (add_eos cfg (add_bos cfg c))))
                        (zlen (answer_input_ids (add_eos cfg (add_bos cfg r))))).
  assert (Hlonger : longer' = longer).
  { unfold longer', longer, add_eos, add_bos, zlen. rewrite Hbos.
    cbn [negb answer_input_ids]. rewrite !length_app. cbn [length]. lia. }
  fold (final_tokens cfg longer' c). fold (final_tokens cfg longer' r).
  rewrite Hlonger.
  rewrite (final_tokens_uncut cfg Hbos longer c Hfc).
  rewrite (final_tokens_uncut cfg Hbos longer r Hfr).
  pose proof (uncut_rows cfg c HL Hcp Hca) as Hrc.
  pose proof (uncut_rows cfg r HL Hrp Hra) as Hrr.
  cbv zeta in Hrc, Hrr.
  destruct (sequence_tokens cfg (AnswerTokens (bos_token_id cfg :: prompt_input_ids c) _ _ _))
    as [[c_ids c_mask] c_labels].
  destruct (sequence_tokens cfg (AnswerTokens (bos_token_id cfg :: prompt_input_ids r) _ _ _))
    as [[r_ids r_mask] r_labels].
  cbn [fst snd] in Hrc, Hrr.
  assert (Hlc : Forall (fun row => length row = Z.to_nat (max_seq_length cfg))
                       (dpo_rows cfg c)).
  { apply dpo_rows_lengths. unfold longer in *. lia. }
  assert (Hlr : Forall (fun row => length row = Z.to_nat (max_seq_length cfg))
                       (dpo_rows cfg r)).
  { apply dpo_rows_lengths. unfold longer in *. lia. }
  rewrite <- Hrc in Hlc. rewrite <- Hrr in Hlr.
  inversion Hlc as [|? ? Ec1 Hlc1]; subst. inversion Hlc1 as [|? ? Ec2 Hlc2]; subst.
  inversion Hlc2 as [|? ? Ec3 _]; subst.
  inversion Hlr as [|? ? Er1 Hlr1]; subst. inversion Hlr1 as [|? ? Er2 Hlr2]; subst.
  inversion Hlr2 as [|? ? Er3 _]; subst.
  unfold np_stack. cbn [forallb]. cbn [prompt_input_ids] in *.
  rewrite Ec1, Ec2, Ec3, Er1, Er2, Er3, !Nat.eqb_refl. cbn [andb bind].
  unfold zlen. rewrite Ec2, Er2.
  unfold dpo_rows in Hrc, Hrr. cbv zeta in Hrc, Hrr.
  injection Hrc as Hc1 Hc2 Hc3. injection Hrr as Hr1 Hr2 Hr3.
  eexists. split; [rewrite Hc1, Hc2, Hc3, Hr1, Hr2, Hr3; reflexivity|].
  split; [reflexivity|].
  cbn [num_masked_tokens loss_valid_tokens length]. lia.
Qed.

Lemma encode_rows_content_witness :
  let c := AnswerTokens [91; 73; 78; 83; 84; 93; 32; 104; 105; 32]
                        [1; 1; 1; 1; 1; 1; 1; 1; 1; 1]
                        [91; 47; 73; 78; 83; 84; 93; 32; 121; 101; 115]
                        [1; 1; 1; 1; 1; 1; 1; 1; 1; 1; 1] in
  let r := AnswerTokens [91; 73; 78; 83; 84; 93; 32; 104; 105; 32]
                        [1; 1; 1; 1; 1; 1; 1; 1; 1; 1]
                        [91; 47; 73; 78; 83; 84; 93; 32; 110; 111]
                        [1; 1; 1; 1; 1; 1; 1; 1; 1; 1] in
  exists stats',
    example_encode (Some (FStr "hi"), FStr "yes", FStr "no")
    = Ret ([dpo_rows example_config c ++ dpo_rows example_config r], stats')
    /\ successful stats' = 1
    /\ num_masked_tokens stats'
       = zlen (prompt_input_ids c) + zlen (prompt_input_ids r)
    /\ loss_valid_tokens stats'
       = 2 * max_seq_length example_config
         - (zlen (prompt_input_ids c) + zlen (prompt_input_ids r)).
Proof.
  apply (encode_rows_content example_config (fun _ => Features [] [])
           char_encode (fun _ => EmptyString) (fun s => s) (fun s => s)
           (fun s => Z.of_nat (String.length s)) ascii_lower
           (Some (FStr "hi"), FStr "yes", FStr "no")
           (AnswerTokens [91; 73; 78; 83; 84; 93; 32; 104; 105; 32]
                         [1; 1; 1; 1; 1; 1; 1; 1; 1; 1]
                         [91; 47; 73; 78; 83; 84; 93; 32; 121; 101; 115]
                         [1; 1; 1; 1; 1; 1; 1; 1; 1; 1; 1])
           (AnswerTokens [91; 73; 78; 83; 84; 93; 32; 104; 105; 32]
                         [1; 1; 1; 1; 1; 1; 1; 1; 1; 1]
                         [91; 47; 73; 78; 83; 84; 93; 32; 110; 111]
                         [1; 1; 1; 1; 1; 1; 1; 1; 1; 1])
           (DataStats 0 1 0 41 41 0 0 0 0 41 41)).
  - reflexivity.
  - vm_compute. reflexivity.
  - reflexivity.
  - vm_compute. discriminate.
  - vm_compute. discriminate.
Defined.

(** * Shards written by the sequential path *)

Definition fits_i4 (v : Z) : Prop := - 2 ^ 31 <= v <= 2 ^ 31 - 1.

(** The dataset [stored] holds [data] as 32-bit values: the same shape
    and number of rows; the values clipped to 32 bits when the field was
    written in one batch or has more than one dimension; in every case
    the values themselves when they all fit in 32 bits. *)
Definition kept_as_i4 (write_in_batch : bool) (data stored : ndarray) : Prop :=
  row_shape stored = row_shape data
  /\ shape0 stored = shape0 data
  /\ (write_in_batch = true \/ row_shape data <> [] -> stored = as_i4 data)
  /\ (Forall (Forall fits_i4) (rows data) -> rows stored = rows data).

(** Field [p] of the buffer is in the file: its arrays, concatenated and
    kept as 32-bit values. *)
Definition field_written (write_in_batch : bool) (h5 : h5file)
    (p : string * list ndarray) : Prop :=
  exists data stored,
    np_concatenate (snd p) = Ret data
    /\ (row_shape data = [] \/ rows data <> [])
    /\ datasets h5 !! fst p = Some stored
    /\ kept_as_i4 write_in_batch data stored.

(** The exception [e] is that of field [arrays]: [np.concatenate] raises
    it, or the arrays make up an array of more than one dimension without
    rows, for which h5py refuses the chunk shape. *)
Definition field_fails (arrays : list ndarray) (e : exn) : Prop :=
  np_concatenate arrays = Raise e
  \/ exists data,
       np_concatenate arrays = Ret data
       /\ row_shape data <> [] /\ rows data = []
       /\ e = ValueError msg_chunk_shape.

(** No array of the buffer has a dimension of size 0 after the first. *)
Definition rows_not_empty (buffer : list (string * list ndarray)) : Prop :=
  Forall (fun p => Forall (fun a => Forall (fun d => d <> 0%nat) (row_shape a))
                          (snd p)) buffer.

Lemma np_concatenate_result (arrays : list ndarray) :
  np_concatenate arrays <> OutOfFuel.
Proof.
  unfold np_concatenate. destruct arrays; [discriminate|].
  destruct (forallb _ _); discriminate.
Qed.

Lemma np_concatenate_shape (arrays : list ndarray) (data : ndarray) :
  np_concatenate arrays = Ret data ->
  Forall (fun a => Forall (fun d => d <> 0%nat) (row_shape a)) arrays ->
  existsb (Nat.eqb 0) (row_shape data) = false.
Proof.
  unfold np_concatenate. destruct arrays as [|a rest]; [discriminate|].
  destruct (forallb _ _); [|discriminate]. intros [= <-] Hall.
  apply Forall_cons in Hall. destruct Hall as [Ha _]. cbn [row_shape].
  apply not_true_is_false. intros Hex. apply existsb_exists in Hex.
  destruct Hex as (x & Hx & Hx0). apply Nat.eqb_eq in Hx0. subst x.
  rewrite Forall_forall in Ha.
  apply (Ha 0%nat); [apply list_elem_of_In; exact Hx|reflexivity].
Qed.

(** The check of the chunk shape for a new dataset of fixed size. *)
Lemma chunk_error_fixed (data : ndarray) :
  existsb (Nat.eqb 0) (row_shape data) = false ->
  match chunk_error data true with
  | None => row_shape data = [] \/ rows data <> []
  | Some e => row_shape data <> [] /\ rows data = []
              /\ e = ValueError msg_chunk_shape
  end.
Proof.
  intros Hpos. unfold chunk_error. destruct (row_shape data) as [|d ds] eqn:Hs.
  - left. reflexivity.
  - rewrite Hpos. cbn [andb]. unfold shape0, zlen.
    destruct (rows data) as [|r rs].
    + cbn [length]. destruct (Z.ltb_spec (Z.of_nat 0) 1); [|lia].
      repeat split. discriminate.
    + cbn [length]. destruct (Z.ltb_spec (Z.of_nat (S (length rs))) 1); [lia|].
      right. discriminate.
Qed.

Lemma clamp_i4_fits (v : Z) : fits_i4 v -> clamp_i4 v = v.
Proof. unfold fits_i4, clamp_i4. lia. Qed.

Lemma wrap_i4_fits (v : Z) : fits_i4 v -> wrap_i4 v = v.
Proof.
  unfold fits_i4, wrap_i4. intros Hv.
  rewrite Z.mod_small by lia. lia.
Qed.

Lemma map_rows_fits (f : Z -> Z) (rs : list (list Z)) :
  (forall v, fits_i4 v -> f v = v) ->
  Forall (Forall fits_i4) rs -> map (map f) rs = rs.
Proof.
  intros Hf Hall. induction Hall as [|r rs Hr _ IH]; [reflexivity|].
  cbn [map]. rewrite IH. f_equal.
  induction Hr as [|v r Hv _ IHr]; [reflexivity|].
  cbn [map]. rewrite IHr, (Hf v Hv). reflexivity.
Qed.

Lemma saved_data_kept (write_in_batch : bool) (data : ndarray) :
  kept_as_i4 write_in_batch data (saved_data write_in_batch data).
Proof.
  unfold kept_as_i4, saved_data, as_i4, shape0, zlen.
  destruct (row_shape data) as [|d ds] eqn:Hshape.
  - destruct write_in_batch; cbn [row_shape rows]; rewrite length_map;
      (split; [congruence|]); (split; [reflexivity|]); split.
    + intros _. reflexivity.
    + apply map_rows_fits, clamp_i4_fits.
    + intros [H|H]; [discriminate|congruence].
    + apply map_rows_fits, wrap_i4_fits.
  - cbn [row_shape rows]. rewrite length_map.
    split; [congruence|]. split; [reflexivity|]. split.
    + intros _. reflexivity.
    + apply map_rows_fits, clamp_i4_fits.
Qed.

Lemma save_buffer_loop_spec (write_in_batch : bool)
    (buffer : list (string * list ndarray)) :
  forall (h5 : h5file) (n : Z),
  NoDup (map fst buffer) ->
  rows_not_empty buffer ->
  (forall label, label ∈ map fst buffer -> datasets h5 !! label = None) ->
  let '(h5', result) := save_buffer_loop h5 buffer write_in_batch n in
  n_examples_attr h5' = n_examples_attr h5
  /\ resizable h5' = resizable h5
  /\ (forall label, label ∉ map fst buffer ->
        datasets h5' !! label = datasets h5 !! label)
  /\ match result with
     | Ret n' =>
         Forall (field_written write_in_batch h5') buffer
         /\ n' = default n (shape0 <$> (last buffer ≫= fun p =>
                                          datasets h5' !! fst p))
     | Raise e =>
         exists pre label arrays post,
           buffer = pre ++ (label, arrays) :: post
           /\ field_fails arrays e
           /\ Forall (field_written write_in_batch h5') pre
           /\ (forall l, l ∈ label :: map fst post -> datasets h5' !! l = None)
     | OutOfFuel => False
     end.
Proof.
  induction buffer as [|[label arrays] rest IH]; intros h5 n Hnd Hpos Hfresh.
  - cbn [save_buffer_loop]. repeat split; constructor.
  - cbn [save_buffer_loop]. cbn [map fst] in Hnd, Hfresh.
    apply NoDup_cons in Hnd. destruct Hnd as [Hlabel Hnd].
    apply Forall_cons in Hpos. destruct Hpos as [Harrays Hpos].
    cbn [snd] in Harrays.
    destruct (np_concatenate arrays) as [data|e|] eqn:Hcat.
    + pose proof (chunk_error_fixed data
                    (np_concatenate_shape _ _ Hcat Harrays)) as Hchunk.
      destruct (chunk_error data true) as [e|].
      { destruct Hchunk as (Hdims & Hrows & ->).
        split; [reflexivity|]. split; [reflexivity|]. split; [reflexivity|].
        exists [], label, arrays, rest. split; [reflexivity|].
        split; [right; exists data; auto|]. split; [constructor|exact Hfresh]. }
      rewrite (Hfresh label) by (apply elem_of_cons; auto).
      set (h1 := H5File (<[label := saved_data write_in_batch data]> (datasets h5))
                        (n_examples_attr h5) (resizable h5)).
      assert (Hfresh1 : forall l, l ∈ map fst rest -> datasets h1 !! l = None).
      { intros l Hl. cbn [h1 datasets]. rewrite lookup_insert_ne.
        - apply Hfresh. apply elem_of_cons. auto.
        - intros ->. contradiction. }
      specialize (IH h1 (shape0 data) Hnd Hpos Hfresh1).
      destruct (save_buffer_loop h1 rest write_in_batch (shape0 data))
        as [h5' result].
      destruct IH as (Hattr & Hres0 & Hkeep & Hres).
      assert (Hhead : datasets h5' !! label
                      = Some (saved_data write_in_batch data)).
      { rewrite (Hkeep label Hlabel). cbn [h1 datasets]. apply lookup_insert_eq. }
      assert (Hwritten : field_written write_in_batch h5' (label, arrays)).
      { exists data, (saved_data write_in_batch data).
        split; [exact Hcat|]. split; [exact Hchunk|]. split; [exact Hhead|].
        apply saved_data_kept. }
      split; [exact Hattr|]. split; [exact Hres0|]. split.
      * intros l Hl. cbn [map fst] in Hl. apply not_elem_of_cons in Hl.
        destruct Hl as [Hne Hl]. rewrite (Hkeep l Hl). cbn [h1 datasets].
        apply lookup_insert_ne. congruence.
      * destruct result as [n'|e|]; [| |exact Hres].
        -- destruct Hres as [Hall Hn]. split.
           ++ constructor; [exact Hwritten|exact Hall].
           ++ destruct rest as [|q rest'].
              ** cbn [last mbind option_bind fst]. rewrite Hhead.
                 rewrite Hn. cbn [fmap option_fmap option_map default
                   from_option id].
                 destruct (saved_data_kept write_in_batch data) as (_ & -> & _).
                 reflexivity.
              ** change (last ((label, arrays) :: q :: rest'))
                   with (last (q :: rest')).
                 rewrite Hn. destruct (last (q :: rest')) as [z|] eqn:Hlast.
                 --- apply last_Some_elem_of in Hlast.
                     rewrite Forall_forall in Hall.
                     destruct (Hall z Hlast) as (dz & sz & _ & _ & Hz & _).
                     cbn [mbind option_bind]. rewrite Hz. reflexivity.
                 --- apply last_None in Hlast. discriminate.
        -- destruct Hres as (pre & l & a & post & Hrest & Hl & Hpre & Hnone).
           exists ((label, arrays) :: pre), l, a, post.
           split; [rewrite Hrest; reflexivity|]. split; [exact Hl|].
           split; [|exact Hnone].
           constructor; [exact Hwritten|exact Hpre].
    + split; [reflexivity|]. split; [reflexivity|]. split; [reflexivity|].
      exists [], label, arrays, rest. split; [reflexivity|].
      split; [left; exact Hcat|]. split; [constructor|exact Hfresh].
    + exfalso. exact (np_concatenate_result arrays Hcat).
Qed.

(** X20.  [save_buffer_to_hdf5] on a file that has none of the buffer's
    fields yet, for arrays without a dimension of size 0 after the first.
    The fields are written in order, each as the concatenation of its
    arrays kept as 32-bit values (the same shape and rows; the values
    clipped to 32 bits when the field is written in one batch or has more
    than one dimension, and unchanged when they all fit in 32 bits), in
    datasets that cannot grow; the other datasets are left alone.  On success [n_examples] is
    the row count of the dataset written last (0 for an empty buffer),
    whatever the other fields hold.  The call fails at the first field
    that [np.concatenate] refuses, with its exception, or whose
    concatenation has more than one dimension and no rows, with the
    [ValueError] of the chunk shape: the fields before it are in the file,
    this field and the later ones are missing, and the [n_examples]
    attribute is not written. *)
Theorem save_buffer_writes_in_order (h5 : h5file)
    (buffer : list (string * list ndarray)) (write_in_batch : bool) :
  NoDup (map fst buffer) ->
  rows_not_empty buffer ->
  (forall label, label ∈ map fst buffer -> datasets h5 !! label = None) ->
  let '(h5', result) := save_buffer_to_hdf5 h5 buffer write_in_batch in
  (forall label, label ∉ map fst buffer ->
     datasets h5' !! label = datasets h5 !! label)
  /\ resizable h5' = resizable h5
  /\ match result with
     | Ret _ =>
         Forall (field_written write_in_batch h5') buffer
         /\ n_examples_attr h5'
            = Some (default 0 (shape0 <$> (last buffer ≫= fun p =>
                                             datasets h5' !! fst p)))
     | Raise e =>
         exists pre label arrays post,
           buffer = pre ++ (label, arrays) :: post
           /\ field_fails arrays e
           /\ Forall (field_written write_in_batch h5') pre
           /\ (forall l, l ∈ label :: map fst post -> datasets h5' !! l = None)
           /\ n_examples_attr h5' = n_examples_attr h5
     | OutOfFuel => False
     end.
Proof.
  intros Hnd Hpos Hfresh. unfold save_buffer_to_hdf5.
  pose proof (save_buffer_loop_spec write_in_batch buffer h5 0 Hnd Hpos Hfresh)
    as Hloop.
  destruct (save_buffer_loop h5 buffer write_in_batch 0) as [h5' [n'|e|]];
    destruct Hloop as (Hattr & Hres0 & Hkeep & Hres).
  - cbn [datasets n_examples_attr resizable]. split; [exact Hkeep|].
    split; [exact Hres0|].
    destruct Hres as [Hall Hn]. split; [exact Hall|]. rewrite Hn. reflexivity.
  - split; [exact Hkeep|]. split; [exact Hres0|].
    destruct Hres as (pre & l & a & post & Hb & Hl & Hpre & Hnone).
    exists pre, l, a, post. auto.
  - contradiction.
Qed.

(** A buffer whose second field has a row shape but no rows, and values
    that do not fit in 32 bits. *)
Definition rowless_buffer : list (string * list ndarray) :=
  [("input_ids"%string, [NdArray [2%nat] [[5000000000; -5000000000]]]);
   ("labels"%string, [NdArray [2%nat] []])].

Lemma save_buffer_writes_in_order_witness :
  (let '(h5', result) := save_buffer_to_hdf5 empty_h5file matched_buffer true in
   (forall label, label ∉ map fst matched_buffer ->
      datasets h5' !! label = datasets empty_h5file !! label)
   /\ resizable h5' = resizable empty_h5file
   /\ match result with
      | Ret _ =>
          Forall (field_written true h5') matched_buffer
          /\ n_examples_attr h5'
             = Some (default 0 (shape0 <$> (last matched_buffer ≫= fun p =>
                                              datasets h5' !! fst p)))
      | Raise e =>
          exists pre label arrays post,
            matched_buffer = pre ++ (label, arrays) :: post
            /\ field_fails arrays e
            /\ Forall (field_written true h5') pre
            /\ (forall l, l ∈ label :: map fst post -> datasets h5' !! l = None)
            /\ n_examples_attr h5' = n_examples_attr empty_h5file
      | OutOfFuel => False
      end)
  /\ (let '(h5', result) :=
        save_buffer_to_hdf5 empty_h5file rowless_buffer false in
      (forall label, label ∉ map fst rowless_buffer ->
         datasets h5' !! label = datasets empty_h5file !! label)
      /\ resizable h5' = resizable empty_h5file
      /\ match result with
         | Ret _ =>
             Forall (field_written false h5') rowless_buffer
             /\ n_examples_attr h5'
                = Some (default 0 (shape0 <$> (last rowless_buffer ≫= fun p =>
                                                 datasets h5' !! fst p)))
         | Raise e =>
             exists pre label arrays post,
               rowless_buffer = pre ++ (label, arrays) :: post
               /\ field_fails arrays e
               /\ Forall (field_written false h5') pre
               /\ (forall l, l ∈ label :: map fst post ->
                     datasets h5' !! l = None)
               /\ n_examples_attr h5' = n_examples_attr empty_h5file
         | OutOfFuel => False
         end).
Proof.
  split.
  - apply (save_buffer_writes_in_order empty_h5file matched_buffer true).
    + repeat (apply NoDup_cons; split;
              [vm_compute; intros H; inversion H as [|? ? ? H'];
               try inversion H'; discriminate|]).
      apply NoDup_nil_2.
    + repeat constructor; discriminate.
    + intros label _. apply lookup_empty.
  - apply (save_buffer_writes_in_order empty_h5file rowless_buffer false).
    + repeat (apply NoDup_cons; split;
              [vm_compute; intros H; inversion H as [|? ? ? H'];
               try inversion H'; discriminate|]).
      apply NoDup_nil_2.
    + repeat constructor; discriminate.
    + intros label _. apply lookup_empty.
Defined.

(** * Padding, then formatting *)

Lemma sum_nat_app (xs ys : list nat) :
  sum_nat (xs ++ ys) = (sum_nat xs + sum_nat ys)%nat.
Proof.
  unfold sum_nat. induction xs as [|x xs IH]; [reflexivity|].
  cbn [app fold_right]. rewrite IH. lia.
Qed.

(** X2.  The padding path of [fim].  For a negative [diff] and sub-contexts
    as [chunk] returns them, [truncate_or_pad_helper] raises [IndexError]
    when there is no sub-context; otherwise it keeps the formats, and what
    [format_fim] then concatenates is what it would have concatenated
    without padding, followed by [|diff|] padding tokens: the padding comes
    after the last end-of-sequence token.  The mask has as many zeros, at
    its end, and [format_fim] raises [ValueError] when the padding is longer
    than [max_seq_len].  The tokens are ids that no conversion to floats
    changes, at most [2 ^ 53] in magnitude. *)
Theorem pad_then_format (fuel : nat) (pairs : list (segment * fim_format))
    (d fim_pad_tok_id sample_idx max_seq_len : Z)
    (suffix_tok_id prefix_tok_id middle_tok_id eos_tok_id : Z)
    (opt_bos_tok_id : list Z) :
  d < 0 -> no_pads pairs ->
  let run := truncate_or_pad_helper fuel pairs d fim_pad_tok_id sample_idx in
  let tokens := concat (map (format_segment suffix_tok_id prefix_tok_id
                               middle_tok_id eos_tok_id opt_bos_tok_id) pairs)
                  ++ replicate (Z.to_nat (- d)) fim_pad_tok_id in
  Forall f64_exact tokens ->
  (pairs = [] -> run = Raise IndexError)
  /\ (pairs <> [] ->
      exists pairs',
        run = Ret pairs'
        /\ map snd pairs' = map snd pairs
        /\ format_fim pairs' max_seq_len suffix_tok_id prefix_tok_id
                      middle_tok_id eos_tok_id opt_bos_tok_id
           = if max_seq_len + d <? 0
             then Raise (ValueError "negative dimensions are not allowed")
             else Ret (removelast tokens,
                       replicate (Z.to_nat (max_seq_len + d)) 1
                         ++ replicate (Z.to_nat (- d)) 0,
                       tail tokens)).
Proof.
  intros Hd Hnp run tokens Hexact. split.
  - intros ->. unfold run, truncate_or_pad_helper.
    destruct (Z.leb_spec 0 d); [lia|]. reflexivity.
  - intros Hne. destruct (exists_last Hne) as (init & [s f] & Hpairs).
    set (padding := replicate (Z.to_nat (Z.abs d)) fim_pad_tok_id).
    set (pairs' := init ++ [(add_pad padding s, f)]).
    exists pairs'.
    assert (Hrun : run = Ret pairs').
    { unfold run, truncate_or_pad_helper.
      destruct (Z.leb_spec 0 d); [lia|]. rewrite Hpairs. apply pad_pairs. }
    split; [exact Hrun|].
    split; [rewrite Hpairs; unfold pairs'; rewrite !map_app; reflexivity|].
    rewrite Hpairs in Hnp. unfold no_pads in Hnp.
    apply Forall_app in Hnp. destruct Hnp as [Hi Hs].
    inversion Hs as [|? ? Hsp _]; subst. cbn [fst] in Hsp.
    assert (Habs : Z.to_nat (Z.abs d) = Z.to_nat (- d)) by (f_equal; lia).
    assert (Hopt : optional_padding (add_pad padding s) = padding).
    { unfold optional_padding, add_pad; cbn [pads]. rewrite Hsp. reflexivity. }
    assert (Hopt0 : optional_padding s = []).
    { unfold optional_padding. rewrite Hsp. reflexivity. }
    assert (Hps : padding_sum pairs' = Z.to_nat (- d)).
    { unfold pairs', padding_sum. rewrite map_app, sum_nat_app.
      fold (padding_sum init). rewrite (no_pads_padding_sum init Hi).
      cbn [map fst sum_nat fold_right]. rewrite Hopt. unfold padding.
      rewrite length_replicate. lia. }
    assert (Htok : concat (map (format_segment suffix_tok_id prefix_tok_id
                                  middle_tok_id eos_tok_id opt_bos_tok_id) pairs')
                   = tokens).
    { unfold tokens, pairs'. rewrite !map_app, !concat_app. cbn [map concat].
      rewrite !app_nil_r, <- app_assoc. f_equal.
      unfold format_segment. cbn [fst snd prefix middle suffix add_pad].
      rewrite Hopt, Hopt0, app_nil_r. unfold padding. rewrite Habs.
      reflexivity. }
    unfold format_fim. fold (padding_sum pairs').
    rewrite Htok, Hps, (as_int64_exact opt_bos_tok_id pairs' tokens Hexact).
    destruct pairs' as [|p0 rest0] eqn:Hp'.
    { unfold pairs' in Hp'. destruct init; discriminate. }
    rewrite Z2Nat.id by lia.
    replace (max_seq_len - - d) with (max_seq_len + d) by lia.
    destruct (max_seq_len + d <? 0); reflexivity.
Qed.

Lemma pad_then_format_witness :
  let run := truncate_or_pad_helper 0 [(Segment [] [] [5; 6] [], AR)] (-2) 9 0 in
  let tokens := concat (map (format_segment 101 102 103 0 [])
                            [(Segment [] [] [5; 6] [], AR)])
                  ++ replicate (Z.to_nat (- -2)) 9 in
  Forall f64_exact tokens
  /\ ([(Segment [] [] [5; 6] [], AR)] = [] -> run = Raise IndexError)
  /\ ([(Segment [] [] [5; 6] [], AR)] <> [] ->
      exists pairs',
        run = Ret pairs'
        /\ map snd pairs' = map snd [(Segment [] [] [5; 6] [], AR)]
        /\ format_fim pairs' 4 101 102 103 0 []
           = if 4 + -2 <? 0
             then Raise (ValueError "negative dimensions are not allowed")
             else Ret (removelast tokens,
                       replicate (Z.to_nat (4 + -2)) 1
                         ++ replicate (Z.to_nat (- -2)) 0,
                       tail tokens)).
Proof.
  assert (Hexact : Forall f64_exact
                     (concat (map (format_segment 101 102 103 0 [])
                                  [(Segment [] [] [5; 6] [], AR)])
                        ++ replicate (Z.to_nat (- -2)) 9)).
  { repeat constructor; unfold f64_exact; simpl; lia. }
  split; [exact Hexact|].
  apply (pad_then_format 0 [(Segment [] [] [5; 6] [], AR)] (-2) 9 0 4
           101 102 103 0 []).
  - lia.
  - repeat constructor.
  - exact Hexact.
Defined.

(** * Preference encoding: the built-in chat format *)

Lemma rfind_aux_cons (sub : string) (x : ascii) (rest : string) (pos : nat)
    (best : Z) :
  rfind_aux sub (String x rest) pos best
  = rfind_aux sub rest (S pos)
      (if String.prefix sub (String x rest) then Z.of_nat pos else best).
Proof. reflexivity. Qed.

Lemma rfind_aux_range (sub s : string) :
  forall (pos : nat) (best : Z),
  rfind_aux sub s pos best = best
  \/ Z.of_nat pos <= rfind_aux sub s pos best <= Z.of_nat (pos + String.length s).
Proof.
  induction s as [|x rest IH]; intros pos best.
  - cbn [rfind_aux]. destruct (String.prefix sub ""); [right|left; reflexivity].
    cbn [String.length]. lia.
  - rewrite rfind_aux_cons. cbn [String.length].
    destruct (IH (S pos) (if String.prefix sub (String x rest)
                          then Z.of_nat pos else best)) as [->|Hr].
    + destruct (String.prefix sub (String x rest)); [right; lia|left; reflexivity].
    + right. lia.
Qed.

(** The position where the scan starts only shifts what is found. *)
Lemma rfind_aux_shift (sub s : string) :
  forall (pos : nat) (best : Z),
  rfind_aux sub s pos best
  = if rfind s sub =? -1 then best else Z.of_nat pos + rfind s sub.
Proof.
  unfold rfind. induction s as [|x rest IH]; intros pos best.
  - cbn [rfind_aux]. destruct (String.prefix sub "");
      [change (Z.of_nat 0 =? -1) with false; cbv iota; lia|reflexivity].
  - rewrite !rfind_aux_cons.
    rewrite (IH (S pos)), (IH 1%nat).
    destruct (rfind_aux_range sub rest 0 (-1)) as [Hr|Hr].
    + rewrite Hr. change (-1 =? -1) with true. cbv iota.
      destruct (String.prefix sub (String x rest));
        [change (Z.of_nat 0 =? -1) with false; cbv iota; lia|reflexivity].
    + destruct (Z.eqb_spec (rfind_aux sub rest 0 (-1)) (-1)) as [E|_]; [lia|].
      destruct (Z.eqb_spec (Z.of_nat 1 + rfind_aux sub rest 0 (-1)) (-1)); lia.
Qed.

(** Scanning [a ++ b]: what is found in [a] is the best so far for [b]. *)
Lemma rfind_aux_app (sub a b : string) :
  forall (pos : nat) (best : Z),
  exists best',
    (best' = best \/ Z.of_nat pos <= best' < Z.of_nat (pos + String.length a))
    /\ rfind_aux sub (a ++ b) pos best
       = rfind_aux sub b (pos + String.length a) best'.
Proof.
  induction a as [|x a IH]; intros pos best.
  - exists best. split; [left; reflexivity|].
    cbn [String.length]. rewrite Nat.add_0_r. reflexivity.
  - change (String x a ++ b)%string with (String x (a ++ b)%string).
    rewrite rfind_aux_cons.
    destruct (IH (S pos) (if String.prefix sub (String x (a ++ b))
                          then Z.of_nat pos else best)) as (best' & Hb & ->).
    exists best'. cbn [String.length]. split.
    + destruct Hb as [->|Hb]; [|right; lia].
      destruct (String.prefix sub (String x (a ++ b))); [right; lia|left; reflexivity].
    + f_equal. lia.
Qed.

Lemma prefix_head_differs (x y : ascii) (s t : string) :
  x <> y -> String.prefix (String x s) (String y t) = false.
Proof.
  intros Hxy.
  change (String.prefix (String x s) (String y t))
    with (if ascii_dec x y then String.prefix s t else false).
  destruct (ascii_dec x y); [contradiction|reflexivity].
Qed.

Lemma substring_app_prefix (a b : string) :
  substring 0 (String.length a) (a ++ b) = a.
Proof.
  induction a as [|x a IH]; [destruct b; reflexivity|].
  change (String x a ++ b)%string with (String x (a ++ b)%string).
  cbn [String.length substring]. rewrite IH. reflexivity.
Qed.

Lemma length_append (a b : string) :
  String.length (a ++ b) = (String.length a + String.length b)%nat.
Proof.
  induction a as [|x a IH]; [reflexivity|].
  change (String x a ++ b)%string with (String x (a ++ b)%string).
  cbn [String.length]. rewrite IH. reflexivity.
Qed.

Lemma append_assoc_str (a b c : string) :
  ((a ++ b) ++ c = a ++ (b ++ c))%string.
Proof.
  induction a as [|x a IH]; [reflexivity|].
  change ((String x a ++ b) ++ c)%string with (String x ((a ++ b) ++ c)%string).
  rewrite IH. reflexivity.
Qed.

(** The text before the closing tag of the user message. *)
Definition inst_open (p : string) : string := ("[INST] " ++ p ++ " ")%string.

Lemma format_chat_user_assistant (p c : string) :
  format_chat [Message p "user"; Message c "assistant"]
  = (inst_open p ++ "[/INST] " ++ c)%string.
Proof.
  unfold inst_open. cbn [format_chat role content String.eqb Ascii.eqb Bool.eqb].
  rewrite append_empty_r.
  change (" [/INST] ")%string with (" " ++ "[/INST] ")%string.
  rewrite !append_assoc_str. reflexivity.
Qed.

Lemma inst_open_length (p : string) :
  String.length (inst_open p) = (8 + String.length p)%nat.
Proof.
  unfold inst_open. rewrite !length_append. cbn [String.length]. lia.
Qed.

(** Where the response is found in a rendered conversation whose answer
    holds none of the two tags. *)
Lemma rfind_closing_tag (a c : string) :
  rfind c "[/INST]" = -1 -> rfind c "<|assistant|>" = -1 ->
  Z.max (rfind (a ++ "[/INST] " ++ c) "[/INST]")
        (rfind (a ++ "[/INST] " ++ c) "<|assistant|>")
  = Z.of_nat (String.length a).
Proof.
  intros Hc1 Hc2. unfold rfind at 1 2.
  destruct (rfind_aux_app "[/INST]" a ("[/INST] " ++ c) 0 (-1))
    as (b1 & _ & ->).
  destruct (rfind_aux_app "<|assistant|>" a ("[/INST] " ++ c) 0 (-1))
    as (b2 & Hb2 & ->).
  change ("[/INST] " ++ c)%string
    with (String "[" (String "/" (String "I" (String "N" (String "S"
           (String "T" (String "]" (String " " c)))))))).
  rewrite (rfind_aux_cons "[/INST]").
  change (String.prefix "[/INST]"
            (String "[" (String "/" (String "I" (String "N" (String "S"
               (String "T" (String "]" (String " " c)))))))))
    with true.
  cbv iota.
  repeat (rewrite rfind_aux_cons; rewrite prefix_head_differs by discriminate).
  rewrite !rfind_aux_shift, Hc1, Hc2. change (-1 =? -1) with true. cbv iota.
  cbn [Nat.add] in *. lia.
Qed.

(** The role names that the nested [format_chat] knows. *)
Definition known_role (r : string) : Prop :=
  r = "user"%string \/ r = "system"%string \/ r = "assistant"%string.

Lemma format_chat_unknown_roles (p c u a : string) :
  ~ known_role u -> ~ known_role a ->
  format_chat [Message p u; Message c a] = EmptyString.
Proof.
  unfold known_role. intros Hu Ha. cbn [format_chat role content].
  repeat match goal with
         | |- context [String.eqb ?x ?y] =>
             destruct (String.eqb_spec x y); [tauto|]
         end.
  reflexivity.
Qed.

Lemma rfind_empty (d : string) :
  d <> EmptyString -> rfind EmptyString d = -1.
Proof. destruct d; [congruence|reflexivity]. Qed.

(** X21.  String documents under the built-in chat format (no chat
    template, no clean-up of the text), with answers that are not empty.
    - With the default role names and no [response_delimiter], when the
      chosen answer holds neither ["[/INST]"] nor ["<|assistant|>"]: the
      conversations are rendered as ["[INST] <prompt> [/INST] <answer>"],
      and the prompt that is tokenized is the text before the closing tag,
      ["[INST] <prompt> "]; the tag itself is tokenized with both answers.
      The document is not discarded here.
    - With role names that [format_chat] does not know, for the user and for
      the assistant, the rendered conversation is empty and the document is
      discarded, whatever [response_delimiter] is. *)
Theorem encode_builtin_chat_format (cfg : dpo_config) (callable : bool)
    (tokenizer_call : string -> features) (tokenizer_encode : string -> list Z)
    (tokenizer_apply_chat_template : list message -> string)
    (fix_text wikitext_detokenizer : string -> string) (utf8_len : string -> Z)
    (lower : string -> string)
    (p c r : string) :
  can_apply_chat_template cfg = false ->
  use_ftfy cfg = false -> wikitext_detokenize cfg = false ->
  c <> EmptyString -> r <> EmptyString ->
  let doc := (Some (FStr p), FStr c, FStr r) in
  (user_role cfg = "user"%string -> assistant_role cfg = "assistant"%string ->
   response_delimiter cfg = None ->
   rfind c "[/INST]" = -1 -> rfind c "<|assistant|>" = -1 ->
   exists stats,
     discarded stats = 0
     /\ encode_tokenize cfg callable tokenizer_call tokenizer_encode
                        tokenizer_apply_chat_template fix_text
                        wikitext_detokenizer utf8_len lower doc
        = (let* chosen_tokens :=
             build_tokenized_answer callable tokenizer_call tokenizer_encode
               (inst_open p) (inst_open p ++ "[/INST] " ++ c) in
           let* rejected_tokens :=
             build_tokenized_answer callable tokenizer_call tokenizer_encode
               (inst_open p) (inst_open p ++ "[/INST] " ++ r) in
           Ret (Continue (chosen_tokens, rejected_tokens, stats))))
  /\ (~ known_role (user_role cfg) -> ~ known_role (assistant_role cfg) ->
      exists stats,
        discarded stats = 1
        /\ encode cfg callable tokenizer_call tokenizer_encode
                  tokenizer_apply_chat_template fix_text wikitext_detokenizer
                  utf8_len lower doc
           = Ret ([], stats)).
Proof.
  intros Htpl Hftfy Hwiki Hc Hr doc.
  assert (Hce : String.eqb c "" = false) by (apply String.eqb_neq; exact Hc).
  assert (Hre : String.eqb r "" = false) by (apply String.eqb_neq; exact Hr).
  assert (Hstart : forall u a,
    encode_tokenize cfg callable tokenizer_call tokenizer_encode
                    tokenizer_apply_chat_template fix_text
                    wikitext_detokenizer utf8_len lower doc
    = (let prompt_chosen := format_chat [Message p u; Message c a] in
       let prompt_rejected := format_chat [Message p u; Message r a] in
       let '(prompt_chosen, prompt_rejected, stats) :=
         normalize cfg fix_text wikitext_detokenizer utf8_len
                   prompt_chosen prompt_rejected initial_stats in
       let last_assistant_index := find_response cfg prompt_chosen in
       if last_assistant_index =? -1 then Ret (Discard (set_discarded stats))
       else
         let prompt := str_slice_to prompt_chosen last_assistant_index in
         let* chosen_tokens :=
           build_tokenized_answer callable tokenizer_call tokenizer_encode
                                  prompt prompt_chosen in
         let* rejected_tokens :=
           build_tokenized_answer callable tokenizer_call tokenizer_encode
                                  prompt prompt_rejected in
         Ret (Continue (chosen_tokens, rejected_tokens, stats)))
    \/ (u, a) <> (user_role cfg, assistant_role cfg)).
  { intros u a.
    destruct (decide ((u, a) = (user_role cfg, assistant_role cfg)))
      as [[= -> ->]|Hne]; [left|right; exact Hne].
    unfold doc, encode_tokenize, has_empty_field, derive_prompt, render,
      render_chat.
    cbn [List.filter is_empty_str all_dicts as_messages app]. rewrite Hce, Hre, Htpl.
    cbn [nonempty andb bind]. reflexivity. }
  assert (Hnorm : forall x y,
    normalize cfg fix_text wikitext_detokenizer utf8_len x y initial_stats
    = (x, y, DataStats 0 1 0
               (Z.of_nat (String.length x) + Z.of_nat (String.length y))
               (utf8_len x + utf8_len y) 0 0 0 0
               (Z.of_nat (String.length x) + Z.of_nat (String.length y))
               (utf8_len x + utf8_len y))).
  { intros x y. unfold normalize. rewrite Hftfy, Hwiki. reflexivity. }
  split.
  - intros Hu Ha Hdelim Hc1 Hc2.
    destruct (Hstart "user"%string "assistant"%string) as [Hrun|Hne];
      [|rewrite Hu, Ha in Hne; congruence].
    rewrite Hrun. cbv zeta. rewrite !format_chat_user_assistant, Hnorm.
    assert (Hfind : find_response cfg (inst_open p ++ "[/INST] " ++ c)
                    = Z.of_nat (String.length (inst_open p))).
    { unfold find_response. rewrite Hdelim. apply rfind_closing_tag; assumption. }
    rewrite Hfind.
    destruct (Z.eqb_spec (Z.of_nat (String.length (inst_open p))) (-1)); [lia|].
    assert (Hslice : str_slice_to (inst_open p ++ "[/INST] " ++ c)
                       (Z.of_nat (String.length (inst_open p)))
                     = inst_open p).
    { unfold str_slice_to. rewrite clamp_index_nonneg by lia.
      rewrite Nat2Z.id, length_append, Nat.min_r by lia.
      apply substring_app_prefix. }
    rewrite Hslice. eexists. split; [|reflexivity]. reflexivity.
  - intros Hu Ha.
    destruct (Hstart (user_role cfg) (assistant_role cfg)) as [Hrun|Hne];
      [|congruence].
    unfold encode. rewrite Hrun. cbv zeta.
    rewrite !format_chat_unknown_roles by assumption. rewrite Hnorm.
    assert (Hfind : find_response cfg EmptyString = -1).
    { unfold find_response.
      destruct (response_delimiter cfg) as [d|]; [|reflexivity].
      destruct d as [|x d']; [reflexivity|].
      cbn [list_ascii_of_string nonempty]. apply rfind_empty. discriminate. }
    rewrite Hfind. cbn [Z.eqb bind]. eexists. split; [|reflexivity]. reflexivity.
Qed.

Lemma encode_builtin_chat_format_witness :
  let doc := (Some (FStr "hi"), FStr "yes", FStr "no") in
  (user_role example_config = "user"%string ->
   assistant_role example_config = "assistant"%string ->
   response_delimiter example_config = None ->
   rfind "yes" "[/INST]" = -1 -> rfind "yes" "<|assistant|>" = -1 ->
   exists stats,
     discarded stats = 0
     /\ encode_tokenize example_config false (fun _ => Features [] [])
                        char_encode (fun _ => EmptyString) (fun s => s)
                        (fun s => s) (fun s => Z.of_nat (String.length s)) ascii_lower doc
        = (let* chosen_tokens :=
             build_tokenized_answer false (fun _ => Features [] []) char_encode
               (inst_open "hi") (inst_open "hi" ++ "[/INST] " ++ "yes") in
           let* rejected_tokens :=
             build_tokenized_answer false (fun _ => Features [] []) char_encode
               (inst_open "hi") (inst_open "hi" ++ "[/INST] " ++ "no") in
           Ret (Continue (chosen_tokens, rejected_tokens, stats))))
  /\ (~ known_role (user_role example_config) ->
      ~ known_role (assistant_role example_config) ->
      exists stats,
        discarded stats = 1
        /\ example_encode doc = Ret ([], stats)).
Proof.
  apply (encode_builtin_chat_format example_config false
           (fun _ => Features [] []) char_encode (fun _ => EmptyString)
           (fun s => s) (fun s => s) (fun s => Z.of_nat (String.length s)) ascii_lower
           "hi" "yes" "no"); try reflexivity; discriminate.
Defined.

(** * The task split, from process count to queues *)

(** X22.  With the process numbers that [process_processing_params] derives
    for a task split ([processes >= 3]), there is at least one writer and
    there are at least as many tokenizers as writers.  So every writer
    index is the index of a tokenizer queue that the reader counts as this
    writer's own, every writer waits for at least one end-of-stream
    sentinel, and every tokenizer queue belongs to one writer. *)
Theorem task_split_writers_have_queues (processes : Z) (shuffle : bool) :
  3 <= processes ->
  let W := writer_process_num processes shuffle in
  let T := tokenize_process_num processes shuffle in
  1 <= W <= T
  /\ Forall (fun c => 1 <= c) (chunks_per_writer T W)
  /\ (forall w, 0 <= w < W -> w < T /\ writer_index W w = w)
  /\ (forall j, 0 <= j < T -> 0 <= writer_index W j < W).
Proof.
  intros Hp W T.
  assert (HW : 1 <= W <= T).
  { unfold W, T, tokenize_process_num, writer_process_num, ceil_div.
    destruct shuffle; Z.to_euclidean_division_equations; lia. }
  split; [exact HW|]. split; [|split].
  - unfold chunks_per_writer. apply Forall_forall. intros c Hc.
    apply list_elem_of_In in Hc. apply in_map_iff in Hc.
    destruct Hc as (i & <- & _).
    assert (1 <= T / W) by (apply Z.div_le_lower_bound; lia).
    destruct (_ <? _); lia.
  - intros w Hw. split; [lia|]. unfold writer_index. apply Z.mod_small. lia.
  - intros j Hj. unfold writer_index. apply Z.mod_pos_bound. lia.
Qed.

Lemma task_split_writers_have_queues_witness :
  let W := writer_process_num 5 false in
  let T := tokenize_process_num 5 false in
  1 <= W <= T
  /\ Forall (fun c => 1 <= c) (chunks_per_writer T W)
  /\ (forall w, 0 <= w < W -> w < T /\ writer_index W w = w)
  /\ (forall j, 0 <= j < T -> 0 <= writer_index W j < W).
Proof. apply (task_split_writers_have_queues 5 false). lia. Defined.

(** * Regions of a formatted string *)

(** [s[k:]]. *)
Fixpoint sdrop (k : nat) (s : string) : string :=
  match k, s with
  | O, _ => s
  | S k', String _ rest => sdrop k' rest
  | S _, EmptyString => EmptyString
  end.

(** [sub] starts at position [k] of [s]. *)
Definition occurs_at (sub s : string) (k : nat) : bool :=
  String.prefix sub (sdrop k s).

(** [sub] starts nowhere in [s] but at [pos]. *)
Definition only_at (sub s : string) (pos : nat) : bool :=
  forallb (fun k => implb (occurs_at sub s k) (k =? pos)%nat)
          (seq 0 (S (String.length s))).

Lemma prefix_empty_r (sub : string) :
  sub <> EmptyString -> String.prefix sub EmptyString = false.
Proof. destruct sub; [congruence|reflexivity]. Qed.

Lemma sdrop_all (s : string) (k : nat) :
  (String.length s <= k)%nat -> sdrop k s = EmptyString.
Proof.
  revert k. induction s as [|c s IH]; intros k Hk; [destruct k; reflexivity|].
  destruct k as [|k]; [cbn [String.length] in Hk; lia|].
  cbn [sdrop]. apply IH. cbn [String.length] in Hk. lia.
Qed.

Lemma sdrop_app (a b : string) : sdrop (String.length a) (a ++ b) = b.
Proof.
  induction a as [|c a IH]; [reflexivity|].
  change (String c a ++ b)%string with (String c (a ++ b)%string).
  cbn [String.length sdrop]. exact IH.
Qed.

Lemma sdrop_app_more (a b : string) (k : nat) :
  sdrop (String.length a + k) (a ++ b) = sdrop k b.
Proof.
  induction a as [|c a IH]; [reflexivity|].
  change (String c a ++ b)%string with (String c (a ++ b)%string).
  cbn [String.length sdrop Nat.add]. exact IH.
Qed.

Lemma only_at_spec (sub s : string) (pos k : nat) :
  sub <> EmptyString -> only_at sub s pos = true ->
  occurs_at sub s k = true -> k = pos.
Proof.
  intros Hsub Honly Hk. unfold only_at in Honly.
  rewrite forallb_forall in Honly.
  destruct (Nat.le_gt_cases k (String.length s)) as [Hle|Hgt].
  - specialize (Honly k ltac:(apply in_seq; lia)). rewrite Hk in Honly.
    apply Nat.eqb_eq. exact Honly.
  - unfold occurs_at in Hk. rewrite sdrop_all in Hk by lia.
    rewrite prefix_empty_r in Hk by exact Hsub. discriminate.
Qed.

(** [find] gives the first position at or after the start where [sub]
    occurs. *)
Lemma find_aux_first (sub s : string) :
  forall (q skip pos : nat),
  sub <> EmptyString ->
  occurs_at sub s pos = true ->
  (forall k, (skip <= k < pos)%nat -> occurs_at sub s k = false) ->
  (skip <= pos)%nat ->
  find_aux sub s q skip = Z.of_nat (q + pos).
Proof.
  induction s as [|c rest IH]; intros q skip pos Hsub Hocc Hnone Hle.
  - unfold occurs_at in Hocc. rewrite sdrop_all in Hocc by (cbn; lia).
    rewrite prefix_empty_r in Hocc by exact Hsub. discriminate.
  - destruct skip as [|skip'].
    + cbn [find_aux]. destruct (String.prefix sub (String c rest)) eqn:Hp.
      * destruct pos as [|pos']; [f_equal; lia|].
        specialize (Hnone 0%nat ltac:(lia)). unfold occurs_at in Hnone.
        cbn [sdrop] in Hnone. congruence.
      * destruct pos as [|pos'].
        { unfold occurs_at in Hocc. cbn [sdrop] in Hocc. congruence. }
        rewrite (IH (S q) 0%nat pos' Hsub Hocc); [f_equal; lia| |lia].
        intros k Hk. apply (Hnone (S k)). lia.
    + destruct pos as [|pos']; [lia|]. cbn [find_aux].
      rewrite (IH (S q) skip' pos' Hsub Hocc); [f_equal; lia| |lia].
      intros k Hk. apply (Hnone (S k)). lia.
Qed.

Lemma remove_aux_skip (old a b : string) :
  remove_aux old (a ++ b) (String.length a) = remove_aux old b 0.
Proof.
  induction a as [|c a IH]; [reflexivity|].
  change (String c a ++ b)%string with (String c (a ++ b)%string).
  cbn [String.length remove_aux]. destruct a as [|c' a'].
  - cbn [String.length]. reflexivity.
  - exact IH.
Qed.

Lemma remove_aux_absent (old s : string) :
  (forall k, occurs_at old s k = false) -> remove_aux old s 0 = s.
Proof.
  induction s as [|c rest IH]; intros Hnone; [reflexivity|].
  cbn [remove_aux]. pose proof (Hnone 0%nat) as H0. unfold occurs_at in H0.
  cbn [sdrop] in H0. rewrite H0. f_equal. apply IH.
  intros k. exact (Hnone (S k)).
Qed.

Lemma prefix_app_self (sub post : string) :
  String.prefix sub (sub ++ post) = true.
Proof.
  induction sub as [|x s IH]; [destruct post; reflexivity|].
  change (String x s ++ post)%string with (String x (s ++ post)%string).
  change (String.prefix (String x s) (String x (s ++ post)))
    with (if ascii_dec x x then String.prefix s (s ++ post) else false).
  destruct (ascii_dec x x); [exact IH|congruence].
Qed.

(** Taking out an identifier that occurs once. *)
Lemma remove_aux_once (old pre post : string) :
  old <> EmptyString ->
  only_at old (pre ++ old ++ post) (String.length pre) = true ->
  remove_aux old (pre ++ old ++ post) 0 = (pre ++ post)%string.
Proof.
  intros Hold Honly.
  assert (Hspec : forall k, occurs_at old (pre ++ old ++ post) k = true ->
                            k = String.length pre).
  { intros k. apply only_at_spec; assumption. }
  clear Honly. revert Hspec. induction pre as [|c pre IH]; intros Hspec.
  - change (EmptyString ++ old ++ post)%string with (old ++ post)%string in *.
    change (EmptyString ++ post)%string with post.
    destruct old as [|c old']; [congruence|].
    change (String c old' ++ post)%string with (String c (old' ++ post)%string) in *.
    cbn [remove_aux].
    assert (Hp : String.prefix (String c old') (String c (old' ++ post)) = true).
    { exact (prefix_app_self (String c old') post). }
    rewrite Hp. cbn [String.length].
    replace (S (String.length old') - 1)%nat with (String.length old') by lia.
    rewrite remove_aux_skip. apply remove_aux_absent.
    intros k. destruct (occurs_at (String c old') post k) eqn:Hk; [|reflexivity].
    exfalso.
    specialize (Hspec (String.length (String c old') + k)%nat).
    unfold occurs_at in Hspec, Hk.
    change (String c (old' ++ post)%string)
      with (String c old' ++ post)%string in Hspec.
    rewrite sdrop_app_more in Hspec. specialize (Hspec Hk).
    cbn [String.length] in Hspec. lia.
  - change (String c pre ++ old ++ post)%string
      with (String c (pre ++ old ++ post)%string) in *.
    change (String c pre ++ post)%string with (String c (pre ++ post)%string).
    cbn [remove_aux].
    destruct (String.prefix old (String c (pre ++ old ++ post))) eqn:Hp.
    + specialize (Hspec 0%nat Hp). cbn [String.length] in Hspec. lia.
    + f_equal. apply IH. intros k Hk.
      specialize (Hspec (S k) Hk). cbn [String.length] in Hspec. lia.
Qed.

(** Finding an identifier that occurs once, from a start not beyond it. *)
Lemma py_find_once (old pre post : string) (start : Z) :
  old <> EmptyString ->
  only_at old (pre ++ old ++ post) (String.length pre) = true ->
  0 <= start <= Z.of_nat (String.length pre) ->
  py_find (pre ++ old ++ post) old start = Z.of_nat (String.length pre).
Proof.
  intros Hold Honly Hstart. unfold py_find.
  destruct (Z.ltb_spec start 0); [lia|].
  rewrite (find_aux_first old _ 0 (Z.to_nat start) (String.length pre) Hold).
  - reflexivity.
  - unfold occurs_at. rewrite sdrop_app. apply prefix_app_self.
  - intros k Hk. destruct (occurs_at old (pre ++ old ++ post) k) eqn:Hocc;
      [|reflexivity].
    pose proof (only_at_spec _ _ _ _ Hold Honly Hocc). lia.
  - lia.
Qed.

Section MarkedText.

Context {other : Type}.

(** A region as it stands in the formatted string: its identifier, the
    length it declares, the text from the identifier to the next one, and
    what its dict holds besides. *)
Record part : Type := Part {
  part_id : string;
  part_len : Z;
  part_body : string;
  part_indices : option (Z * Z);
  part_other : other
}.

Definition part_region (p : part) : text_region other :=
  TextRegion (Some (part_id p)) (Some (part_len p)) (part_indices p)
             (part_other p).

Fixpoint marked_text (parts : list part) : string :=
  match parts with
  | [] => EmptyString
  | p :: rest => (part_id p ++ part_body p ++ marked_text rest)%string
  end.

Fixpoint plain_text (parts : list part) : string :=
  match parts with
  | [] => EmptyString
  | p :: rest => (part_body p ++ plain_text rest)%string
  end.

(** The regions with their place in the plain text that follows [pre]. *)
Fixpoint located (pre : string) (parts : list part) : list (text_region other) :=
  match parts with
  | [] => []
  | p :: rest =>
      let start_idx := Z.of_nat (String.length pre) in
      TextRegion None (Some (part_len p))
                 (Some (start_idx, start_idx + part_len p)) (part_other p)
        :: located (pre ++ part_body p) rest
  end.

(** Every identifier is not empty and occurs once in the text as it is
    when the identifier is looked up, and no region reaches beyond the
    next identifier. *)
Fixpoint well_marked (pre : string) (string_search_idx : Z) (parts : list part)
  : bool :=
  match parts with
  | [] => true
  | p :: rest =>
      negb (String.eqb (part_id p) EmptyString)
      && (0 <=? string_search_idx)
      && (string_search_idx <=? Z.of_nat (String.length pre))
      && only_at (part_id p) (pre ++ marked_text parts) (String.length pre)
      && well_marked (pre ++ part_body p)
                     (Z.of_nat (String.length pre) + part_len p) rest
  end.

Lemma find_region_loop_marked (parts : list part) :
  forall (pre : string) (string_search_idx : Z),
  well_marked pre string_search_idx parts = true ->
  find_region_loop (pre ++ marked_text parts, string_search_idx)%string
                   (map part_region parts)
  = Ret ((pre ++ plain_text parts)%string, located pre parts).
Proof.
  induction parts as [|p rest IH]; intros pre idx Hwm.
  - cbn [marked_text plain_text map find_region_loop fst located].
    reflexivity.
  - cbn [well_marked] in Hwm. rewrite !andb_true_iff in Hwm.
    destruct Hwm as [[[[Hid H0] Hle] Honly] Hrest].
    apply negb_true_iff, String.eqb_neq in Hid.
    apply Z.leb_le in H0. apply Z.leb_le in Hle.
    cbn [marked_text] in Honly.
    cbn [marked_text plain_text map find_region_loop located].
    unfold find_region_body.
    cbn [part_region tr_identifier tr_len tr_other default from_option].
    unfold id.
    rewrite (py_find_once _ _ _ idx Hid Honly) by lia.
    destruct (Z.eqb_spec (Z.of_nat (String.length pre)) (-1)); [lia|].
    assert (Hrm : py_remove (pre ++ part_id p ++ part_body p ++ marked_text rest)
                            (part_id p)
                  = ((pre ++ part_body p) ++ marked_text rest)%string).
    { unfold py_remove. destruct (part_id p) as [|c i] eqn:Hi; [congruence|].
      rewrite <- Hi in *. rewrite (remove_aux_once _ _ _ Hid Honly).
      symmetry. apply append_assoc_str. }
    rewrite Hrm. cbn [bind]. rewrite (IH _ _ Hrest). cbn [bind].
    rewrite append_assoc_str. reflexivity.
Qed.

End MarkedText.

(** X23.  [find_region_in_formatted_string] on a text in which each region
    is announced by an identifier.  If every identifier is not empty and
    occurs exactly once in the text at the time it is looked up (the
    identifiers before it taken out), and every region ends before the next
    identifier, then the result is the text without the identifiers, and
    each region has lost its identifier and has as indices the place where
    its text starts in that result and this place plus its [region_len]. *)
Theorem find_regions_of_marked_text {other : Type} (t0 : string)
    (parts : list (@part other)) :
  well_marked t0 0 parts = true ->
  find_region_in_formatted_string (map part_region parts)
                                  (t0 ++ marked_text parts)
  = Ret ((t0 ++ plain_text parts)%string, located t0 parts).
Proof. intros Hwm. apply find_region_loop_marked. exact Hwm. Qed.

Lemma find_regions_of_marked_text_witness :
  find_region_in_formatted_string
    (map part_region [Part "<r0>" 2 "ab " None tt; Part "<r1>" 2 "cd" None tt])
    ("> " ++ marked_text [Part "<r0>" 2 "ab " None tt; Part "<r1>" 2 "cd" None tt])
  = Ret (("> " ++ plain_text [Part "<r0>" 2 "ab " None tt;
                              Part "<r1>" 2 "cd" None tt])%string,
         located "> " [Part "<r0>" 2 "ab " None tt; Part "<r1>" 2 "cd" None tt]).
Proof.
  apply (find_regions_of_marked_text "> "
           [Part "<r0>" 2 "ab " None tt; Part "<r1>" 2 "cd" None tt]).
  vm_compute. reflexivity.
Defined.

Lemma find_aux_none (sub s : string) :
  forall (q skip : nat),
  (forall k, (skip <= k)%nat -> occurs_at sub s k = false) ->
  find_aux sub s q skip = -1.
Proof.
  induction s as [|c rest IH]; intros q skip Hnone.
  - destruct skip; cbn [find_aux]; [|reflexivity].
    pose proof (Hnone 0%nat ltac:(lia)) as H0. unfold occurs_at in H0.
    cbn [sdrop] in H0. rewrite H0. reflexivity.
  - destruct skip as [|skip']; cbn [find_aux].
    + pose proof (Hnone 0%nat ltac:(lia)) as H0. unfold occurs_at in H0.
      cbn [sdrop] in H0. rewrite H0. apply IH.
      intros k Hk. apply (Hnone (S k)). lia.
    + apply IH. intros k Hk. apply (Hnone (S k)). lia.
Qed.

(** X24.  A region that declares more characters than there are before the
    next identifier makes [find_region_in_formatted_string] fail: the
    search for the next identifier starts beyond it, and the assertion
    raises [AssertionError] although the identifier is in the text. *)
Theorem find_region_overshoot {other : Type} (t0 : string)
    (p1 p2 : @part other) (rest : list (@part other)) :
  part_id p1 <> EmptyString ->
  only_at (part_id p1) (t0 ++ marked_text (p1 :: p2 :: rest)) (String.length t0)
  = true ->
  part_id p2 <> EmptyString ->
  only_at (part_id p2) ((t0 ++ part_body p1) ++ marked_text (p2 :: rest))
          (String.length (t0 ++ part_body p1)) = true ->
  Z.of_nat (String.length (part_body p1)) < part_len p1 ->
  find_region_in_formatted_string (map part_region (p1 :: p2 :: rest))
                                  (t0 ++ marked_text (p1 :: p2 :: rest))
  = Raise AssertionError.
Proof.
  intros Hid1 Honly1 Hid2 Honly2 Hlen.
  unfold find_region_in_formatted_string.
  cbn [map find_region_loop]. unfold find_region_body at 1.
  cbn [part_region tr_identifier tr_len tr_other default from_option].
  unfold id. cbn [marked_text] in Honly1 |- *.
  rewrite (py_find_once _ _ _ 0 Hid1 Honly1) by lia.
  destruct (Z.eqb_spec (Z.of_nat (String.length t0)) (-1)); [lia|].
  assert (Hrm : py_remove (t0 ++ part_id p1 ++ part_body p1 ++ part_id p2
                              ++ part_body p2 ++ marked_text rest) (part_id p1)
                = ((t0 ++ part_body p1) ++ marked_text (p2 :: rest))%string).
  { unfold py_remove. destruct (part_id p1) as [|c i] eqn:Hi; [congruence|].
    rewrite <- Hi in *. rewrite (remove_aux_once _ _ _ Hid1 Honly1).
    symmetry. apply append_assoc_str. }
  rewrite Hrm. cbn [bind find_region_loop]. unfold find_region_body.
  cbn [part_region tr_identifier tr_len tr_other default from_option].
  unfold id.
  assert (Hfind : py_find ((t0 ++ part_body p1) ++ marked_text (p2 :: rest))
                          (part_id p2)
                          (Z.of_nat (String.length t0) + part_len p1) = -1).
  { unfold py_find.
    destruct (Z.ltb_spec (Z.of_nat (String.length t0) + part_len p1) 0); [lia|].
    apply find_aux_none. intros k Hk.
    destruct (occurs_at (part_id p2) _ k) eqn:Hocc; [|reflexivity].
    pose proof (only_at_spec _ _ _ _ Hid2 Honly2 Hocc) as Hpos.
    rewrite length_append in Hpos. lia. }
  rewrite Hfind. reflexivity.
Qed.

Lemma find_region_overshoot_witness :
  find_region_in_formatted_string
    (map part_region [Part "<r0>" 5 "ab " None tt; Part "<r1>" 2 "cd" None tt])
    ("> " ++ marked_text [Part "<r0>" 5 "ab " None tt; Part "<r1>" 2 "cd" None tt])
  = Raise AssertionError.
Proof.
  apply (find_region_overshoot "> " (Part "<r0>" 5 "ab " None tt)
           (Part "<r1>" 2 "cd" None tt) []).
  - discriminate.
  - vm_compute. reflexivity.
  - discriminate.
  - vm_compute. reflexivity.
  - vm_compute. reflexivity.
Defined.

(** * End-of-sequence tokens after semantic regions *)

Lemma prefix_length (a b : string) :
  String.prefix a b = true -> (String.length a <= String.length b)%nat.
Proof.
  revert b. induction a as [|x a IH]; intros b H; [cbn; lia|].
  destruct b as [|y b]; [discriminate|].
  change (String.prefix (String x a) (String y b))
    with (if ascii_dec x y then String.prefix a b else false) in H.
  destruct (ascii_dec x y); [|discriminate].
  specialize (IH b H). cbn [String.length]. lia.
Qed.

Lemma sdrop_length (s : string) (k : nat) :
  String.length (sdrop k s) = (String.length s - k)%nat.
Proof.
  revert k. induction s as [|c s IH]; intros k; [destruct k; reflexivity|].
  destruct k as [|k]; [reflexivity|]. cbn [sdrop String.length]. apply IH.
Qed.

(** What [find] returns is [-1] or a place, not before the start, where
    [sub] occurs. *)
Lemma find_aux_found (sub s : string) :
  forall (q skip : nat),
  find_aux sub s q skip = -1
  \/ (Z.of_nat (q + skip) <= find_aux sub s q skip
      /\ occurs_at sub s (Z.to_nat (find_aux sub s q skip) - q) = true).
Proof.
  induction s as [|c rest IH]; intros q skip.
  - destruct skip; cbn [find_aux]; [|left; reflexivity].
    destruct (String.prefix sub "") eqn:Hp; [|left; reflexivity].
    right. split; [lia|]. rewrite Nat2Z.id, Nat.sub_diag. exact Hp.
  - destruct skip as [|skip']; cbn [find_aux].
    + destruct (String.prefix sub (String c rest)) eqn:Hp.
      * right. split; [lia|]. rewrite Nat2Z.id, Nat.sub_diag. exact Hp.
      * destruct (IH (S q) 0%nat) as [->|[Hge Hocc]]; [left; reflexivity|].
        right. split; [lia|].
        replace (Z.to_nat (find_aux sub rest (S q) 0) - q)%nat
          with (S (Z.to_nat (find_aux sub rest (S q) 0) - S q)) by lia.
        exact Hocc.
    + destruct (IH (S q) skip') as [->|[Hge Hocc]]; [left; reflexivity|].
      right. split; [lia|].
      replace (Z.to_nat (find_aux sub rest (S q) skip') - q)%nat
        with (S (Z.to_nat (find_aux sub rest (S q) skip') - S q)) by lia.
      exact Hocc.
Qed.

Lemma occurs_at_bound (sub s : string) (k : nat) :
  sub <> EmptyString -> occurs_at sub s k = true ->
  (k + String.length sub <= String.length s)%nat.
Proof.
  intros Hsub Hocc. unfold occurs_at in Hocc.
  pose proof (prefix_length _ _ Hocc) as Hlen. rewrite sdrop_length in Hlen.
  destruct sub; [congruence|]. cbn [String.length] in *. lia.
Qed.

Lemma py_find_found (s sub : string) (start : Z) :
  sub <> EmptyString ->
  py_find s sub start = -1
  \/ (0 <= py_find s sub start
      /\ start <= py_find s sub start
      /\ py_find s sub start + Z.of_nat (String.length sub)
         <= Z.of_nat (String.length s)
      /\ occurs_at sub s (Z.to_nat (py_find s sub start)) = true).
Proof.
  intros Hsub. unfold py_find.
  set (skip := Z.to_nat (if start <? 0
                         then Z.max 0 (Z.of_nat (String.length s) + start)
                         else start)).
  destruct (find_aux_found sub s 0 skip) as [->|[Hge Hocc]]; [left; reflexivity|].
  right. rewrite Nat.sub_0_r in Hocc.
  pose proof (occurs_at_bound _ _ _ Hsub Hocc).
  assert (Hstart : start <= find_aux sub s 0 skip).
  { revert Hge. unfold skip. destruct (Z.ltb_spec start 0); intros; lia. }
  repeat split; try exact Hocc; lia.
Qed.

Section CollectEos.

Variables formatted_data eos_token : string.
Hypothesis eos_not_empty : eos_token <> EmptyString.

Local Abbreviation n := (Z.of_nat (String.length formatted_data)).

(** An entry of [eos_indices]: a place where the token occurs, with the
    place where it ends. *)
Definition eos_entry (p : Z * Z) : Prop :=
  0 <= fst p
  /\ snd p = fst p + Z.of_nat (String.length eos_token)
  /\ snd p <= n
  /\ occurs_at eos_token formatted_data (Z.to_nat (fst p)) = true.

(** The entries come in order, none before [lo], none overlapping. *)
Fixpoint sorted_from (lo : Z) (eos_indices : list (Z * Z)) : Prop :=
  match eos_indices with
  | [] => True
  | p :: rest => lo <= fst p /\ fst p < snd p /\ sorted_from (snd p) rest
  end.

(** The passes the first loop can still make. *)
Definition passes_left (start_search_index : Z) : Z :=
  if start_search_index <? 0 then n + 1 else n - start_search_index.

Lemma eos_length_pos : 1 <= Z.of_nat (String.length eos_token).
Proof using eos_not_empty.
  destruct eos_token; [congruence|]. cbn [String.length]. lia.
Qed.

Lemma collect_eos_spec (fuel : nat) :
  forall (start_search_index : Z) (acc : list (Z * Z)),
  passes_left start_search_index <= Z.of_nat fuel ->
  exists found,
    collect_eos fuel formatted_data eos_token start_search_index acc
    = Ret (acc ++ found)
    /\ Forall eos_entry found
    /\ sorted_from start_search_index found
    /\ Z.of_nat (length found) <= Z.max 0 (passes_left start_search_index).
Proof using eos_not_empty.
  pose proof eos_length_pos as Hpos.
  induction fuel as [|fuel IH]; intros start acc Hfuel.
  - cbn [collect_eos]. destruct (Z.ltb_spec start n) as [Hlt|Hge].
    + unfold passes_left in Hfuel. destruct (Z.ltb_spec start 0); lia.
    + exists []. rewrite app_nil_r. cbn. repeat split; [constructor|lia].
  - cbn [collect_eos]. destruct (Z.ltb_spec start n) as [Hlt|Hge].
    2:{ exists []. rewrite app_nil_r. cbn. repeat split; [constructor|lia]. }
    destruct (py_find_found formatted_data eos_token start eos_not_empty)
      as [Hr|(H0 & Hs & Hend & Hocc)].
    + rewrite Hr. cbn [Z.eqb]. exists []. rewrite app_nil_r. cbn.
      repeat split; [constructor|lia].
    + set (r := py_find formatted_data eos_token start) in *.
      destruct (Z.eqb_spec r (-1)); [lia|].
      set (e := r + Z.of_nat (String.length eos_token)).
      destruct (IH e (acc ++ [(r, e)])) as (found & Hrun & Hall & Hsorted & Hlen).
      { unfold passes_left in *. destruct (Z.ltb_spec e 0); [lia|].
        destruct (Z.ltb_spec start 0); lia. }
      exists ((r, e) :: found). rewrite Hrun, <- app_assoc. cbn [app].
      split; [reflexivity|]. split; [|split].
      * constructor; [|exact Hall]. unfold eos_entry. cbn [fst snd].
        unfold e. repeat split; try lia. exact Hocc.
      * cbn [sorted_from fst snd]. unfold e. repeat split; try lia.
        exact Hsorted.
      * cbn [length]. unfold passes_left in *.
        destruct (Z.ltb_spec e 0); [lia|]. destruct (Z.ltb_spec start 0); lia.
Qed.

End CollectEos.

Section AttachProofs.

Context {other : Type}.
Variable formatted_data : string.
Variable image_token : option string.
Variable eos_indices : list (Z * Z).

(** What the second loop may do to a region: move its end to the end of a
    token that was found. *)
Definition end_moved (r0 r : data_range other) : Prop :=
  fst (dr_indices r) = fst (dr_indices r0)
  /\ dr_other r = dr_other r0
  /\ dr_handle_turn_token r = dr_handle_turn_token r0
  /\ (snd (dr_indices r) = snd (dr_indices r0)
      \/ exists a, (a, snd (dr_indices r)) ∈ eos_indices).

Lemma end_moved_refl (r : data_range other) : end_moved r r.
Proof. unfold end_moved. auto. Qed.

Lemma end_moved_trans (r0 r1 r2 : data_range other) :
  end_moved r0 r1 -> end_moved r1 r2 -> end_moved r0 r2.
Proof.
  unfold end_moved. intros (H1 & H2 & H3 & H4) (K1 & K2 & K3 & K4).
  repeat split; try congruence.
  destruct K4 as [K4|K4]; [|right; exact K4].
  destruct H4 as [H4|H4]; [left; congruence|right].
  rewrite K4. exact H4.
Qed.

Lemma end_moved_all_refl (l : list (data_range other)) :
  Forall2 end_moved l l.
Proof. induction l; constructor; [apply end_moved_refl|assumption]. Qed.

Lemma end_moved_all_trans (l0 l1 l2 : list (data_range other)) :
  Forall2 end_moved l0 l1 -> Forall2 end_moved l1 l2 -> Forall2 end_moved l0 l2.
Proof.
  intros H01. revert l2. induction H01 as [|x y l l' Hxy _ IH]; intros l2 H12.
  - inversion H12. constructor.
  - inversion H12 as [|? z ? l2' Hyz Hrest]; subst. constructor.
    + eapply end_moved_trans; eassumption.
    + apply IH. exact Hrest.
Qed.

Lemma end_moved_insert (data_ranges : list (data_range other)) (i : nat)
    (region : data_range other) (a b : Z) :
  data_ranges !! i = Some region ->
  (a, b) ∈ eos_indices ->
  Forall2 end_moved data_ranges
    (<[i := set_indices region (fst (dr_indices region), b)]> data_ranges).
Proof.
  intros Hi Hin.
  rewrite <- (list_insert_id data_ranges i region Hi) at 1.
  apply Forall2_insert; [apply end_moved_all_refl|].
  unfold end_moved, set_indices. cbn [dr_indices dr_other dr_handle_turn_token
    fst snd]. repeat split. right. exists a. exact Hin.
Qed.

(** One pass of the second loop: it moves on in one of the two lists. *)
Lemma attach_body_step (current_eos_pos current_data_range_pos : nat)
    (data_ranges : list (data_range other)) :
  (current_eos_pos < length eos_indices)%nat ->
  (current_data_range_pos < length data_ranges)%nat ->
  exists j i data_ranges',
    attach_body formatted_data image_token eos_indices
                (current_eos_pos, current_data_range_pos, data_ranges)
    = Ret (j, i, data_ranges')
    /\ Forall2 end_moved data_ranges data_ranges'
    /\ (current_eos_pos <= j <= length eos_indices)%nat
    /\ (current_data_range_pos <= i <= length data_ranges)%nat
    /\ (current_eos_pos + current_data_range_pos < j + i)%nat.
Proof.
  intros Hj Hi. unfold attach_body.
  destruct (lookup_lt_is_Some_2 _ _ Hj) as [[a b] Ha].
  destruct (lookup_lt_is_Some_2 _ _ Hi) as [region Hr].
  rewrite Ha, Hr. destruct (dr_indices region) as [s e] eqn:Hidx.
  assert (Hin : (a, b) ∈ eos_indices) by (eapply list_elem_of_lookup_2; eauto).
  assert (Hmoved : Forall2 end_moved data_ranges
            (<[current_data_range_pos := set_indices region (s, b)]> data_ranges)).
  { replace s with (fst (dr_indices region)) by (rewrite Hidx; reflexivity).
    eapply end_moved_insert; eauto. }
  destruct ((s <=? a) && (a <? e)).
  { eexists _, _, _. split; [reflexivity|].
    split; [apply end_moved_all_refl|]. lia. }
  destruct (Nat.ltb_spec (current_data_range_pos + 1) (length data_ranges))
    as [Hnext|Hlast].
  - destruct (lookup_lt_is_Some_2 _ _ Hnext) as [next Hn]. rewrite Hn.
    destruct (dr_indices next) as [s' e'].
    destruct ((e <=? a) && (a <? s'));
      [destruct (no_image_between formatted_data image_token e a)|];
      (eexists _, _, _; split; [reflexivity|]);
      (split; [first [exact Hmoved|apply end_moved_all_refl]|]); lia.
  - destruct (no_image_between formatted_data image_token e a);
      (eexists _, _, _; split; [reflexivity|]);
      (split; [first [exact Hmoved|apply end_moved_all_refl]|]); lia.
Qed.

(** The second loop ends within as many passes as there are tokens found
    and regions. *)
Lemma attach_loop_total (fuel : nat) :
  forall (current_eos_pos current_data_range_pos : nat)
         (data_ranges : list (data_range other)),
  (length eos_indices - current_eos_pos
   + (length data_ranges - current_data_range_pos) <= fuel)%nat ->
  exists data_ranges',
    attach_loop fuel formatted_data image_token eos_indices
                (current_eos_pos, current_data_range_pos, data_ranges)
    = Ret data_ranges'
    /\ Forall2 end_moved data_ranges data_ranges'.
Proof.
  induction fuel as [|fuel IH]; intros j i data_ranges Hfuel;
    cbn [attach_loop].
  - destruct (Nat.ltb_spec j (length eos_indices));
      destruct (Nat.ltb_spec i (length data_ranges)); cbn [andb];
      try lia; eexists; (split; [reflexivity|apply end_moved_all_refl]).
  - destruct (Nat.ltb_spec j (length eos_indices)) as [Hj|Hj];
      destruct (Nat.ltb_spec i (length data_ranges)) as [Hi|Hi]; cbn [andb];
      try (eexists; split; [reflexivity|apply end_moved_all_refl]).
    destruct (attach_body_step j i data_ranges Hj Hi)
      as (j' & i' & d' & Hbody & Hmoved & Hjb & Hib & Hprog).
    rewrite Hbody. cbn [bind].
    pose proof (Forall2_length _ _ _ Hmoved) as Hlen.
    destruct (IH j' i' d' ltac:(lia)) as (d'' & Hrun & Hmoved').
    exists d''. split; [exact Hrun|].
    eapply end_moved_all_trans; eassumption.
Qed.

End AttachProofs.

Section TurnTokens.

Context {other : Type}.
Variable formatted_data : string.

(** What the last loop may do to a region: set its flag. *)
Definition flag_set (r0 r : data_range other) : Prop :=
  dr_indices r = dr_indices r0
  /\ dr_other r = dr_other r0
  /\ (dr_handle_turn_token r = dr_handle_turn_token r0
      \/ dr_handle_turn_token r = Some true).

Lemma flag_set_all_refl (l : list (data_range other)) : Forall2 flag_set l l.
Proof. induction l; constructor; [unfold flag_set; auto|assumption]. Qed.

Lemma flag_set_all_trans (l0 l1 l2 : list (data_range other)) :
  Forall2 flag_set l0 l1 -> Forall2 flag_set l1 l2 -> Forall2 flag_set l0 l2.
Proof.
  intros H01. revert l2. induction H01 as [|x y l l' Hxy _ IH]; intros l2 H12.
  - inversion H12. constructor.
  - inversion H12 as [|? z ? l2' Hyz Hrest]; subst. constructor.
    + unfold flag_set in *. destruct Hxy as (A1 & A2 & A3).
      destruct Hyz as (B1 & B2 & B3). repeat split; try congruence.
      destruct B3 as [B3|B3]; [|right; exact B3].
      destruct A3 as [A3|A3]; [left|right]; congruence.
    + apply IH. exact Hrest.
Qed.

Lemma flag_set_insert (data_ranges : list (data_range other)) (i : nat)
    (region : data_range other) :
  data_ranges !! i = Some region ->
  Forall2 flag_set data_ranges
          (<[i := set_handle_turn_token region]> data_ranges).
Proof.
  intros Hi. rewrite <- (list_insert_id data_ranges i region Hi) at 1.
  apply Forall2_insert; [apply flag_set_all_refl|].
  unfold flag_set, set_handle_turn_token. cbn. auto.
Qed.

Lemma turn_token_body_total (data_ranges : list (data_range other)) (i : nat) :
  (1 <= i < length data_ranges)%nat ->
  exists data_ranges',
    turn_token_body formatted_data data_ranges i = Ret data_ranges'
    /\ Forall2 flag_set data_ranges data_ranges'.
Proof.
  intros Hi. unfold turn_token_body.
  destruct (lookup_lt_is_Some_2 data_ranges i ltac:(lia)) as [cur Hcur].
  destruct (lookup_lt_is_Some_2 data_ranges (i - 1) ltac:(lia)) as [prev Hprev].
  rewrite Hcur, Hprev.
  destruct (dr_indices cur) as [s e]. destruct (dr_indices prev) as [ps pe].
  set (d1 := if negb (pe =? s)
             then <[(i - 1)%nat := set_handle_turn_token prev]> data_ranges
             else data_ranges).
  assert (H1 : Forall2 flag_set data_ranges d1).
  { unfold d1. destruct (negb (pe =? s));
      [apply flag_set_insert; exact Hprev|apply flag_set_all_refl]. }
  pose proof (Forall2_length _ _ _ H1) as Hlen.
  destruct ((i =? length d1 - 1)%nat && (e <? Z.of_nat (String.length formatted_data))).
  - destruct (lookup_lt_is_Some_2 d1 i ltac:(lia)) as [cur' Hcur'].
    rewrite Hcur'. eexists. split; [reflexivity|].
    eapply flag_set_all_trans; [exact H1|]. apply flag_set_insert. exact Hcur'.
  - eexists. split; [reflexivity|exact H1].
Qed.

Lemma turn_token_loop_total (idxs : list nat) :
  forall data_ranges : list (data_range other),
  Forall (fun i => (1 <= i < length data_ranges)%nat) idxs ->
  exists data_ranges',
    turn_token_loop formatted_data data_ranges idxs = Ret data_ranges'
    /\ Forall2 flag_set data_ranges data_ranges'.
Proof.
  induction idxs as [|i rest IH]; intros data_ranges Hall.
  - exists data_ranges. split; [reflexivity|apply flag_set_all_refl].
  - inversion Hall as [|? ? Hi Hrest]; subst. cbn [turn_token_loop].
    destruct (turn_token_body_total data_ranges i Hi) as (d1 & Hbody & H1).
    rewrite Hbody. cbn [bind].
    pose proof (Forall2_length _ _ _ H1) as Hlen.
    destruct (IH d1) as (d2 & Hrun & H2).
    { eapply Forall_impl; [exact Hrest|]. intros k Hk. cbn in Hk. lia. }
    exists d2. split; [exact Hrun|].
    eapply flag_set_all_trans; eassumption.
Qed.

End TurnTokens.

(** What [append_eos_to_multiple_semantic_regions] may do to a region: move
    its end to the end of an occurrence of the token, and, for chat data,
    set its flag. *)
Definition region_kept {other : Type} (formatted_data : string)
    (eos_token : option string) (is_chat_data : bool)
    (r0 r : data_range other) : Prop :=
  fst (dr_indices r) = fst (dr_indices r0)
  /\ dr_other r = dr_other r0
  /\ (snd (dr_indices r) = snd (dr_indices r0)
      \/ exists tok a,
           eos_token = Some tok
           /\ eos_entry formatted_data tok (a, snd (dr_indices r)))
  /\ (dr_handle_turn_token r = dr_handle_turn_token r0
      \/ (is_chat_data = true /\ dr_handle_turn_token r = Some true)).

(** X25.  [append_eos_to_multiple_semantic_regions] always returns: its two
    [while] loops end within [len(formatted_data) + len(data_ranges) + 1]
    passes each.  It returns as many regions as it was given, in the same
    order, with the same start and the same other keys; the end of a
    region is the one it had or the end of an occurrence of [eos_token] in
    the text, and [handle_turn_token] is only ever set for chat data. *)
Theorem append_eos_returns {other : Type} (fuel : nat) (formatted_data : string)
    (data_ranges : list (data_range other))
    (eos_token image_token : option string) (is_chat_data : bool) :
  (String.length formatted_data + length data_ranges + 1 <= fuel)%nat ->
  exists data_ranges',
    append_eos_to_multiple_semantic_regions fuel formatted_data data_ranges
      eos_token image_token is_chat_data
    = Ret data_ranges'
    /\ Forall2 (region_kept formatted_data eos_token is_chat_data)
               data_ranges data_ranges'.
Proof.
  intros Hfuel.
  assert (Hsame : Forall2 (region_kept formatted_data eos_token is_chat_data)
                          data_ranges data_ranges).
  { clear. induction data_ranges; constructor; [|assumption].
    unfold region_kept. auto. }
  unfold append_eos_to_multiple_semantic_regions.
  destruct data_ranges as [|first rest]; [eauto|].
  destruct eos_token as [tok|]; [|eauto].
  destruct tok as [|c tok']; [eauto|].
  set (tok := String c tok') in *.
  set (data_ranges := first :: rest) in *.
  assert (Hne : tok <> EmptyString) by discriminate.
  cbv iota beta.
  destruct (collect_eos_spec formatted_data tok Hne fuel
              (fst (dr_indices first)) [])
    as (found & Hrun & Hentries & _ & Hcount).
  { unfold passes_left. destruct (Z.ltb_spec (fst (dr_indices first)) 0); lia. }
  cbn [app] in Hrun. rewrite Hrun. cbn [bind].
  assert (Hfound : (length found <= String.length formatted_data + 1)%nat).
  { unfold passes_left in Hcount.
    destruct (Z.ltb_spec (fst (dr_indices first)) 0); lia. }
  destruct (attach_loop_total formatted_data image_token found fuel 0 0
              data_ranges ltac:(lia)) as (d1 & Hloop & Hmoved).
  rewrite Hloop. cbn [bind].
  assert (H1 : Forall2 (region_kept formatted_data (Some tok) is_chat_data)
                       data_ranges d1).
  { eapply Forall2_impl; [exact Hmoved|].
    intros r0 r (A1 & A2 & A3 & A4). unfold region_kept.
    repeat split; auto.
    destruct A4 as [A4|[a Ha]]; [left; exact A4|right].
    exists tok, a. split; [reflexivity|].
    rewrite Forall_forall in Hentries. exact (Hentries _ Ha). }
  destruct (negb is_chat_data || (1 <? length found)%nat) eqn:Hchat.
  { exists d1. split; [reflexivity|exact H1]. }
  apply orb_false_iff in Hchat. destruct Hchat as [Hchat _].
  apply negb_false_iff in Hchat.
  destruct (turn_token_loop_total formatted_data (seq 1 (length d1 - 1)) d1)
    as (d2 & Hturn & Hflags).
  { apply Forall_forall. intros i Hi. apply list_elem_of_In, in_seq in Hi. lia. }
  exists d2. split; [exact Hturn|].
  clear -H1 Hflags Hchat. revert d2 Hflags.
  induction H1 as [|r0 r1 l0 l1 H01 _ IH]; intros d2 Hflags.
  - inversion Hflags. constructor.
  - inversion Hflags as [|? r2 ? l2 H12 Hrest]; subst. constructor.
    + destruct H01 as (A1 & A2 & A3 & A4). destruct H12 as (B1 & B2 & B3).
      unfold region_kept. rewrite B1.
      split; [exact A1|]. split; [congruence|]. split; [exact A3|].
      destruct B3 as [B3|B3]; [|right; auto].
      destruct A4 as [A4|A4]; [left; congruence|right].
      destruct A4 as [_ A4]. split; [reflexivity|congruence].
    + apply IH. exact Hrest.
Qed.

Lemma append_eos_returns_witness :
  exists data_ranges',
    append_eos_to_multiple_semantic_regions 20 "ab<e>cd"
      [DataRange (0, 2) None tt] (Some "<e>"%string) None false
    = Ret data_ranges'
    /\ Forall2 (region_kept "ab<e>cd" (Some "<e>"%string) false)
               [DataRange (0, 2) None tt] data_ranges'.
Proof.
  apply (append_eos_returns 20 "ab<e>cd" [DataRange (0, 2) None tt]
           (Some "<e>"%string) None false).
  simpl. lia.
Defined.

(** ** Regions in order, one token after each *)

(** The token [p] starts in the gap after a region that ends at [e]; [rest]
    are the regions that follow. *)
Definition in_gap (e : Z) (rest : list (Z * Z)) (p : Z * Z) : bool :=
  (e <=? fst p)
  && match rest with
     | [] => true
     | next :: _ => fst p <? fst next
     end.

(** The indices after the second loop: a region takes in the first token
    that starts in the gap after it. *)
Fixpoint extended (eos_indices : list (Z * Z)) (indices : list (Z * Z))
  : list (Z * Z) :=
  match indices with
  | [] => []
  | (s, e) :: rest =>
      (s, match List.find (in_gap e rest) eos_indices with
          | Some p => snd p
          | None => e
          end) :: extended eos_indices rest
  end.

(** Every region ends where it starts or later, and the next one starts
    where it ends or later. *)
Fixpoint regions_in_order (indices : list (Z * Z)) : bool :=
  match indices with
  | [] => true
  | (s, e) :: rest =>
      (s <=? e)
      && match rest with
         | [] => true
         | next :: _ => e <=? fst next
         end
      && regions_in_order rest
  end.

(** No gap between two regions holds the start of two tokens. *)
Fixpoint one_per_gap (eos_indices : list (Z * Z)) (indices : list (Z * Z))
  : bool :=
  match indices with
  | [] => true
  | (s, e) :: rest =>
      match rest with
      | [] => true
      | _ :: _ =>
          (length (List.filter (in_gap e rest) eos_indices) <=? 1)%nat
      end
      && one_per_gap eos_indices rest
  end.

Lemma extended_nil (indices : list (Z * Z)) : extended [] indices = indices.
Proof.
  induction indices as [|[s e] rest IH]; [reflexivity|].
  cbn [extended List.find]. rewrite IH. reflexivity.
Qed.

Lemma regions_in_order_ends (indices : list (Z * Z)) (lo : Z) :
  regions_in_order indices = true ->
  match indices with [] => True | first :: _ => lo <= fst first end ->
  Forall (fun r => lo <= snd r) indices.
Proof.
  revert lo. induction indices as [|[s e] rest IH]; intros lo Hord Hlo;
    [constructor|].
  cbn [regions_in_order] in Hord. rewrite !andb_true_iff in Hord.
  destruct Hord as [[Hse Hnext] Hrest]. apply Z.leb_le in Hse.
  cbn [fst] in Hlo. constructor; [cbn [snd]; lia|].
  apply IH; [exact Hrest|].
  destruct rest as [|next rest']; [exact I|]. apply Z.leb_le in Hnext. lia.
Qed.

(** A token that starts before every region ends is taken in by none. *)
Lemma extended_skip (p : Z * Z) (eos_indices : list (Z * Z))
    (indices : list (Z * Z)) :
  Forall (fun r => fst p < snd r) indices ->
  extended (p :: eos_indices) indices = extended eos_indices indices.
Proof.
  induction 1 as [|[s e] rest Hlt _ IH]; [reflexivity|].
  cbn [extended List.find]. cbn [snd] in Hlt. unfold in_gap at 1.
  destruct (Z.leb_spec e (fst p)); [lia|]. cbn [andb]. rewrite IH. reflexivity.
Qed.

Lemma one_per_gap_tail (p : Z * Z) (eos_indices : list (Z * Z))
    (indices : list (Z * Z)) :
  one_per_gap (p :: eos_indices) indices = true ->
  one_per_gap eos_indices indices = true.
Proof.
  induction indices as [|[s e] rest IH]; [reflexivity|].
  cbn [one_per_gap]. rewrite !andb_true_iff. intros [Hhead Hrest].
  split; [|apply IH; exact Hrest].
  destruct rest as [|next rest']; [reflexivity|].
  apply Nat.leb_le in Hhead. apply Nat.leb_le.
  cbn [List.filter] in Hhead. destruct (in_gap e (next :: rest') p);
    cbn [length] in Hhead; lia.
Qed.

Lemma sorted_from_weaken (lo lo' : Z) (eos_indices : list (Z * Z)) :
  lo' <= lo -> sorted_from lo eos_indices -> sorted_from lo' eos_indices.
Proof.
  destruct eos_indices as [|p rest]; [auto|]. cbn [sorted_from].
  intros Hle (H1 & H2 & H3). repeat split; [lia|lia|exact H3].
Qed.

Lemma sorted_from_all (eos_indices : list (Z * Z)) :
  forall lo, sorted_from lo eos_indices ->
  Forall (fun p => lo <= fst p) eos_indices.
Proof.
  induction eos_indices as [|p rest IH]; intros lo Hs; [constructor|].
  cbn [sorted_from] in Hs. destruct Hs as (H1 & H2 & H3).
  constructor; [exact H1|].
  eapply Forall_impl; [apply (IH (snd p) H3)|]. intros q Hq. cbn in Hq. lia.
Qed.

Lemma find_none_all {A : Type} (f : A -> bool) (l : list A) :
  Forall (fun x => f x = false) l -> List.find f l = None.
Proof.
  induction 1 as [|x l Hx _ IH]; [reflexivity|].
  cbn [List.find]. rewrite Hx. exact IH.
Qed.

Section Separated.

Context {other : Type}.
Variable formatted_data : string.

Lemma lookup_mid {A : Type} (pre : list A) (x : A) (rest : list A) :
  (pre ++ x :: rest) !! length pre = Some x.
Proof. induction pre as [|y pre IH]; [reflexivity|exact IH]. Qed.

Lemma lookup_mid_next {A : Type} (pre : list A) (x y : A) (rest : list A) :
  (pre ++ x :: y :: rest) !! (length pre + 1)%nat = Some y.
Proof. induction pre as [|z pre IH]; [reflexivity|exact IH]. Qed.

Lemma insert_mid {A : Type} (pre : list A) (x x' : A) (rest : list A) :
  <[length pre := x']> (pre ++ x :: rest) = (pre ++ [x']) ++ rest.
Proof.
  induction pre as [|y pre IH]; [reflexivity|].
  cbn [length app]. change (<[S (length pre) := x']> (y :: pre ++ x :: rest))
    with (y :: <[length pre := x']> (pre ++ x :: rest)).
  rewrite IH. reflexivity.
Qed.

Lemma extended_cons (eos_indices : list (Z * Z)) (s e : Z)
    (rest : list (Z * Z)) :
  extended eos_indices ((s, e) :: rest)
  = (s, match List.find (in_gap e rest) eos_indices with
        | Some p => snd p
        | None => e
        end) :: extended eos_indices rest.
Proof. reflexivity. Qed.

Lemma later_ends (s e : Z) (rest : list (Z * Z)) :
  regions_in_order ((s, e) :: rest) = true ->
  Forall (fun r => e <= snd r) ((s, e) :: rest).
Proof.
  intros Hord. cbn [regions_in_order] in Hord. rewrite !andb_true_iff in Hord.
  destruct Hord as [[_ Hnext] Hrest].
  constructor; [cbn [snd]; lia|].
  apply regions_in_order_ends; [exact Hrest|].
  destruct rest as [|next rest']; [exact I|]. apply Z.leb_le in Hnext. exact Hnext.
Qed.

(** The second loop, started with the tokens [pending] and the regions
    [todo]: each region takes in the token in the gap after it. *)
Lemma attach_loop_separated (fuel : nat) :
  forall (seen pending : list (Z * Z)) (pre todo : list (data_range other)),
  (length pending + length todo <= fuel)%nat ->
  regions_in_order (map dr_indices todo) = true ->
  one_per_gap pending (map dr_indices todo) = true ->
  match todo with
  | [] => True
  | r :: _ => sorted_from (fst (dr_indices r)) pending
  end ->
  exists todo',
    attach_loop fuel formatted_data None (seen ++ pending)
                (length seen, length pre, pre ++ todo)
    = Ret (pre ++ todo')
    /\ map dr_indices todo' = extended pending (map dr_indices todo).
Proof.
  induction fuel as [|fuel IH]; intros seen pending pre todo Hfuel Hord Hgap Hs.
  - destruct pending; destruct todo; cbn [length] in Hfuel; try lia.
    exists []. cbn [attach_loop].
    rewrite !app_nil_r, !Nat.ltb_irrefl. split; reflexivity.
  - cbn [attach_loop].
    destruct pending as [|[a b] pend'].
    { rewrite app_nil_r, Nat.ltb_irrefl. cbn [andb]. exists todo.
      split; [reflexivity|]. symmetry. apply extended_nil. }
    destruct todo as [|r rest].
    { rewrite (app_nil_r pre), (Nat.ltb_irrefl (length pre)), andb_false_r.
      exists []. rewrite app_nil_r. split; reflexivity. }
    assert (G1 : (length seen <? length (seen ++ (a, b) :: pend'))%nat = true).
    { apply Nat.ltb_lt. rewrite length_app. cbn [length]. lia. }
    assert (G2 : (length pre <? length (pre ++ r :: rest))%nat = true).
    { apply Nat.ltb_lt. rewrite length_app. cbn [length]. lia. }
    rewrite G1, G2. cbn [andb]. unfold attach_body.
    rewrite (lookup_mid seen), (lookup_mid pre).
    destruct (dr_indices r) as [s e] eqn:Hidx. cbn [fst] in Hs.
    cbn [sorted_from fst snd] in Hs. destruct Hs as (Hsa & Hab & Hsorted).
    cbn [map] in Hord, Hgap. rewrite Hidx in Hord, Hgap.
    pose proof (later_ends _ _ _ Hord) as Hends.
    pose proof Hord as Hord'. cbn [regions_in_order] in Hord'.
    rewrite !andb_true_iff in Hord'. destruct Hord' as [[Hse Hnext] Hrest].
    apply Z.leb_le in Hse.
    pose proof Hgap as Hgap'. cbn [one_per_gap] in Hgap'.
    rewrite andb_true_iff in Hgap'. destruct Hgap' as [Hone Hgaprest].
    cbn [length] in Hfuel.
    assert (Hseen : seen ++ (a, b) :: pend' = (seen ++ [(a, b)]) ++ pend')
      by (rewrite <- app_assoc; reflexivity).
    assert (Hseenlen : S (length seen) = length (seen ++ [(a, b)]))
      by (rewrite length_app; cbn [length]; lia).
    destruct (Z.leb_spec s a) as [_|]; [|lia].
    destruct (Z.ltb_spec a e) as [Hin|Hout]; cbn [andb bind].
    + (* the token starts inside the region *)
      rewrite Hseen, Hseenlen.
      destruct (IH (seen ++ [(a, b)]) pend' pre (r :: rest)) as (todo' & Hrun & Hmap).
      * cbn [length]. lia.
      * cbn [map]. rewrite Hidx. exact Hord.
      * cbn [map]. rewrite Hidx. eapply one_per_gap_tail. exact Hgap.
      * cbn [fst]. rewrite Hidx. cbn [fst].
        apply (sorted_from_weaken b); [lia|exact Hsorted].
      * exists todo'. split; [exact Hrun|]. rewrite Hmap. cbn [map].
        rewrite Hidx. symmetry. apply extended_skip.
        eapply Forall_impl; [exact Hends|]. intros q Hq. cbn in *. lia.
    + (* the token starts after the region *)
      unfold no_image_between.
      set (r' := set_indices r (s, b)).
      assert (Hpre' : S (length pre) = length (pre ++ [r']))
        by (rewrite length_app; cbn [length]; lia).
      assert (Hpre0 : S (length pre) = length (pre ++ [r]))
        by (rewrite length_app; cbn [length]; lia).
      assert (Hpending : Forall (fun p => b <= fst p) pend')
        by (apply sorted_from_all; exact Hsorted).
      destruct rest as [|next rest'].
      * (* the last region *)
        assert (G3 : (length pre + 1 <? length (pre ++ [r]))%nat = false).
        { apply Nat.ltb_ge. rewrite length_app. cbn [length]. lia. }
        rewrite G3. cbn [andb bind]. rewrite insert_mid. fold r'.
        rewrite Hseen, Hseenlen, Hpre'.
        destruct (IH (seen ++ [(a, b)]) pend' (pre ++ [r']) []) as (todo' & Hrun & Hmap);
          [cbn [length]; lia|reflexivity|reflexivity|exact I|].
        destruct todo'; [|discriminate].
        exists [r']. rewrite !app_nil_r in Hrun. rewrite app_nil_r. split; [exact Hrun|].
        cbn [map extended List.find]. rewrite Hidx. unfold in_gap. cbn [fst snd].
        destruct (Z.leb_spec e a); [|lia]. reflexivity.
      * (* another region follows *)
        assert (G3 : (length pre + 1 <? length (pre ++ r :: next :: rest'))%nat
                     = true).
        { apply Nat.ltb_lt. rewrite length_app. cbn [length]. lia. }
        rewrite G3, lookup_mid_next.
        destruct (dr_indices next) as [s' e'] eqn:Hnidx.
        cbn [map fst] in Hnext, Hone, Hgaprest, Hrest, Hends.
        rewrite Hnidx in Hnext, Hone, Hgaprest, Hrest, Hends. cbn [fst] in Hnext.
        apply Z.leb_le in Hnext.
        pose proof (later_ends _ _ _ Hrest) as Hends'.
        destruct (Z.leb_spec e a); [|lia].
        destruct (Z.ltb_spec a s') as [Hgapa|Hpast]; cbn [andb bind].
        -- (* in the gap: the region takes the token in *)
           rewrite insert_mid. fold r'. rewrite Hseen, Hseenlen, Hpre'.
           assert (Hnone : Forall (fun p => s' <= fst p) pend').
           { apply Nat.leb_le in Hone. cbn [List.filter] in Hone.
             unfold in_gap at 1 in Hone. cbn [fst] in Hone.
             destruct (Z.leb_spec e a); [|lia].
             destruct (Z.ltb_spec a s'); [|lia]. cbn [andb length] in Hone.
             assert (Hnil : List.filter (in_gap e ((s', e') :: map dr_indices rest'))
                                        pend' = [])
               by (destruct (List.filter _ pend'); [reflexivity|cbn in Hone; lia]).
             apply Forall_forall. intros q Hq.
             rewrite Forall_forall in Hpending. specialize (Hpending q Hq).
             destruct (Z.le_gt_cases s' (fst q)) as [|Hlt]; [assumption|].
             exfalso. apply list_elem_of_In in Hq.
             assert (Hf : In q (List.filter (in_gap e ((s', e') :: map dr_indices rest'))
                                            pend')).
             { apply filter_In. split; [exact Hq|]. unfold in_gap. cbn [fst].
               destruct (Z.leb_spec e (fst q)); [|lia].
               destruct (Z.ltb_spec (fst q) s'); [reflexivity|lia]. }
             rewrite Hnil in Hf. exact Hf. }
           destruct (IH (seen ++ [(a, b)]) pend' (pre ++ [r']) (next :: rest'))
             as (todo' & Hrun & Hmap).
           ++ cbn [length] in *. lia.
           ++ cbn [map]. rewrite Hnidx. exact Hrest.
           ++ cbn [map]. rewrite Hnidx. eapply one_per_gap_tail. exact Hgaprest.
           ++ rewrite Hnidx. cbn [fst]. destruct pend' as [|q pend'']; [exact I|].
              cbn [sorted_from] in *. destruct Hsorted as (K1 & K2 & K3).
              inversion Hnone; subst. repeat split; assumption.
           ++ exists (r' :: todo').
              replace (pre ++ r' :: todo') with ((pre ++ [r']) ++ todo')
                by (rewrite <- app_assoc; reflexivity).
              split; [exact Hrun|]. cbn [map] in Hmap |- *.
              rewrite Hmap, Hidx, Hnidx. rewrite (extended_cons _ s e).
              rewrite (extended_skip (a, b)).
              2:{ eapply Forall_impl; [exact Hends'|]. intros q Hq. cbn in *. lia. }
              cbn [List.find]. unfold in_gap at 1. cbn [fst snd].
              destruct (Z.leb_spec e a); [|lia].
              destruct (Z.ltb_spec a s'); [|lia]. reflexivity.
        -- (* past the gap: the region stays *)
           rewrite Hpre0.
           replace (pre ++ r :: next :: rest') with ((pre ++ [r]) ++ next :: rest')
             by (rewrite <- app_assoc; reflexivity).
           destruct (IH seen ((a, b) :: pend') (pre ++ [r]) (next :: rest'))
             as (todo' & Hrun & Hmap).
           ++ cbn [length] in *. lia.
           ++ cbn [map]. rewrite Hnidx. exact Hrest.
           ++ cbn [map]. rewrite Hnidx. exact Hgaprest.
           ++ rewrite Hnidx. cbn [fst sorted_from snd]. repeat split; [lia|lia|exact Hsorted].
           ++ exists (r :: todo').
              replace (pre ++ r :: todo') with ((pre ++ [r]) ++ todo')
                by (rewrite <- app_assoc; reflexivity).
              split; [exact Hrun|]. cbn [map] in Hmap |- *.
              rewrite Hmap, Hidx, Hnidx. rewrite (extended_cons _ s e).
              rewrite find_none_all; [reflexivity|].
              constructor.
              ** unfold in_gap. cbn [fst]. destruct (Z.ltb_spec a s'); [lia|].
                 apply andb_false_r.
              ** eapply Forall_impl; [exact Hpending|]. intros q Hq. cbn in Hq.
                 unfold in_gap. cbn [fst]. destruct (Z.ltb_spec (fst q) s'); [lia|].
                 apply andb_false_r.
Qed.

End Separated.

Lemma flag_set_indices {other : Type} (l0 l1 : list (data_range other)) :
  Forall2 flag_set l0 l1 -> map dr_indices l1 = map dr_indices l0.
Proof.
  induction 1 as [|r0 r1 l0 l1 (Hidx & _) _ IH]; [reflexivity|].
  cbn [map]. rewrite Hidx, IH. reflexivity.
Qed.

(** X26.  Regions in order, no image token, and no gap between two regions
    holding the start of two [eos_token]s: every region that has a token
    starting in the gap after it (anywhere after it, for the last region)
    ends at the end of that token, and the other regions keep their
    indices.  Tokens inside a region are passed over. *)
Theorem append_eos_one_per_gap {other : Type} (fuel : nat)
    (formatted_data eos_token : string)
    (first : data_range other) (rest : list (data_range other))
    (eos_indices : list (Z * Z)) (is_chat_data : bool) :
  eos_token <> EmptyString ->
  (String.length formatted_data + length (first :: rest) + 1 <= fuel)%nat ->
  regions_in_order (map dr_indices (first :: rest)) = true ->
  collect_eos fuel formatted_data eos_token (fst (dr_indices first)) []
  = Ret eos_indices ->
  one_per_gap eos_indices (map dr_indices (first :: rest)) = true ->
  exists data_ranges',
    append_eos_to_multiple_semantic_regions fuel formatted_data (first :: rest)
      (Some eos_token) None is_chat_data
    = Ret data_ranges'
    /\ map dr_indices data_ranges'
       = extended eos_indices (map dr_indices (first :: rest)).
Proof.
  intros Hne Hfuel Hord Hcollect Hgap.
  unfold append_eos_to_multiple_semantic_regions.
  destruct eos_token as [|c tok']; [congruence|].
  set (tok := String c tok') in *.
  set (data_ranges := first :: rest) in *.
  cbv iota beta.
  destruct (collect_eos_spec formatted_data tok Hne fuel
              (fst (dr_indices first)) [])
    as (found & Hrun & _ & Hsorted & Hcount).
  { unfold passes_left. destruct (Z.ltb_spec (fst (dr_indices first)) 0); lia. }
  cbn [app] in Hrun. rewrite Hcollect in Hrun. injection Hrun as Hrun.
  subst found. rewrite Hcollect. cbn [bind].
  assert (Hfound : (length eos_indices <= String.length formatted_data + 1)%nat).
  { unfold passes_left in Hcount.
    destruct (Z.ltb_spec (fst (dr_indices first)) 0); lia. }
  destruct (attach_loop_separated formatted_data fuel [] eos_indices []
              data_ranges) as (d1 & Hloop & Hmap);
    [lia|exact Hord|exact Hgap|exact Hsorted|].
  cbn [app length] in Hloop. rewrite Hloop. cbn [bind].
  destruct (negb is_chat_data || (1 <? length eos_indices)%nat).
  { exists d1. split; [reflexivity|exact Hmap]. }
  destruct (turn_token_loop_total formatted_data (seq 1 (length d1 - 1)) d1)
    as (d2 & Hturn & Hflags).
  { apply Forall_forall. intros i Hi. apply list_elem_of_In, in_seq in Hi. lia. }
  exists d2. split; [exact Hturn|].
  rewrite (flag_set_indices _ _ Hflags). exact Hmap.
Qed.

Lemma append_eos_one_per_gap_witness :
  exists data_ranges',
    append_eos_to_multiple_semantic_regions 20 "ab<e>cd<e>x<e>"%string
      [DataRange (0, 2) None tt; DataRange (5, 10) None tt;
       DataRange (10, 11) None tt]
      (Some "<e>"%string) None false
    = Ret data_ranges'
    /\ map dr_indices data_ranges' = [(0, 5); (5, 10); (10, 14)].
Proof.
  apply (append_eos_one_per_gap 20 "ab<e>cd<e>x<e>"%string "<e>"%string
           (DataRange (0, 2) None tt)
           [DataRange (5, 10) None tt; DataRange (10, 11) None tt]
           [(2, 5); (7, 10); (11, 14)] false);
    [discriminate|cbn; lia|reflexivity|reflexivity|reflexivity].
Defined.

(** The indices with the end of the last region set to [b]. *)
Fixpoint set_last_end (b : Z) (indices : list (Z * Z)) : list (Z * Z) :=
  match indices with
  | [] => []
  | (s, e) :: rest =>
      match rest with
      | [] => [(s, b)]
      | _ :: _ => (s, e) :: set_last_end b rest
      end
  end.

Section StaleToken.

Context {other : Type}.
Variable formatted_data : string.

Lemma attach_loop_done (fuel : nat) (image_token : option string)
    (eos_indices : list (Z * Z)) (j i : nat)
    (data_ranges : list (data_range other)) :
  (length data_ranges <= i)%nat ->
  attach_loop fuel formatted_data image_token eos_indices (j, i, data_ranges)
  = Ret data_ranges.
Proof.
  intros Hi. apply Nat.ltb_ge in Hi.
  destruct fuel; cbn [attach_loop]; rewrite Hi, andb_false_r; reflexivity.
Qed.

(** A token that starts before the region at hand is never passed: the
    regions up to the last stay as they are, and the last one takes it in. *)
Lemma attach_loop_stale (a b : Z) (seen pend' : list (Z * Z)) :
  forall (todo pre : list (data_range other)) (fuel : nat),
  todo <> [] ->
  (length todo <= fuel)%nat ->
  regions_in_order (map dr_indices todo) = true ->
  Forall (fun r => a < fst (dr_indices r)) (firstn 1 todo) ->
  exists todo',
    attach_loop fuel formatted_data None (seen ++ (a, b) :: pend')
                (length seen, length pre, pre ++ todo)
    = Ret (pre ++ todo')
    /\ map dr_indices todo' = set_last_end b (map dr_indices todo).
Proof.
  induction todo as [|r rest IH]; intros pre fuel Hne Hfuel Hord Hstart;
    [congruence|].
  destruct fuel as [|fuel]; [cbn [length] in Hfuel; lia|].
  cbn [attach_loop].
  assert (G1 : (length seen <? length (seen ++ (a, b) :: pend'))%nat = true).
  { apply Nat.ltb_lt. rewrite length_app. cbn [length]. lia. }
  assert (G2 : (length pre <? length (pre ++ r :: rest))%nat = true).
  { apply Nat.ltb_lt. rewrite length_app. cbn [length]. lia. }
  rewrite G1, G2. cbn [andb]. unfold attach_body.
  rewrite (lookup_mid seen), (lookup_mid pre).
  destruct (dr_indices r) as [s e] eqn:Hidx.
  cbn [firstn] in Hstart. inversion Hstart as [|? ? Has _]; subst.
  rewrite Hidx in Has. cbn [fst] in Has.
  cbn [map] in Hord. rewrite Hidx in Hord. cbn [regions_in_order] in Hord.
  rewrite !andb_true_iff in Hord. destruct Hord as [[Hse Hnext] Hrest].
  apply Z.leb_le in Hse.
  destruct (Z.leb_spec s a); [lia|]. cbn [andb bind].
  unfold no_image_between.
  destruct rest as [|next rest'].
  - assert (G3 : (length pre + 1 <? length (pre ++ [r]))%nat = false).
    { apply Nat.ltb_ge. rewrite length_app. cbn [length]. lia. }
    rewrite G3. cbn [bind]. rewrite insert_mid, app_nil_r.
    rewrite attach_loop_done by (rewrite length_app; cbn [length]; lia).
    exists [set_indices r (s, b)]. split; [reflexivity|].
    cbn [map set_last_end]. rewrite Hidx. reflexivity.
  - assert (G3 : (length pre + 1 <? length (pre ++ r :: next :: rest'))%nat
                 = true).
    { apply Nat.ltb_lt. rewrite length_app. cbn [length]. lia. }
    rewrite G3, lookup_mid_next.
    destruct (dr_indices next) as [s' e'] eqn:Hnidx.
    cbn [map] in Hnext. rewrite Hnidx in Hnext. cbn [fst] in Hnext.
    apply Z.leb_le in Hnext.
    destruct (Z.leb_spec e a); [lia|]. cbn [andb bind].
    assert (Hpre0 : S (length pre) = length (pre ++ [r]))
      by (rewrite length_app; cbn [length]; lia).
    rewrite Hpre0.
    replace (pre ++ r :: next :: rest') with ((pre ++ [r]) ++ next :: rest')
      by (rewrite <- app_assoc; reflexivity).
    destruct (IH (pre ++ [r]) fuel) as (todo' & Hrun & Hmap).
    + discriminate.
    + cbn [length] in *. lia.
    + exact Hrest.
    + cbn [firstn]. constructor; [|constructor]. rewrite Hnidx. cbn [fst]. lia.
    + exists (r :: todo').
      replace (pre ++ r :: todo') with ((pre ++ [r]) ++ todo')
        by (rewrite <- app_assoc; reflexivity).
      split; [exact Hrun|]. cbn [map] in Hmap |- *. rewrite Hmap, Hidx, Hnidx.
      reflexivity.
Qed.

End StaleToken.

(** X27.  Two [eos_token]s that start in the gap between the first region
    and the second (regions in order, no image token): the first region
    takes in the first token; the second token is never passed, so no
    region after the first takes in a token of its own, and the last
    region ends at the end of that second token, less than
    [len(eos_token)] characters after the start of the second region. *)
Theorem append_eos_two_in_first_gap {other : Type} (fuel : nat)
    (formatted_data eos_token : string)
    (first second : data_range other) (rest : list (data_range other))
    (a1 b1 a2 b2 : Z) (more : list (Z * Z)) (is_chat_data : bool) :
  eos_token <> EmptyString ->
  (String.length formatted_data + length (first :: second :: rest) + 1
   <= fuel)%nat ->
  regions_in_order (map dr_indices (first :: second :: rest)) = true ->
  collect_eos fuel formatted_data eos_token (fst (dr_indices first)) []
  = Ret ((a1, b1) :: (a2, b2) :: more) ->
  snd (dr_indices first) <= a1 ->
  a2 < fst (dr_indices second) ->
  exists data_ranges',
    append_eos_to_multiple_semantic_regions fuel formatted_data
      (first :: second :: rest) (Some eos_token) None is_chat_data
    = Ret data_ranges'
    /\ map dr_indices data_ranges'
       = (fst (dr_indices first), b1)
         :: set_last_end b2 (map dr_indices (second :: rest))
    /\ b2 < fst (dr_indices second) + Z.of_nat (String.length eos_token).
Proof.
  intros Hne Hfuel Hord Hcollect He1 Ha2.
  unfold append_eos_to_multiple_semantic_regions.
  destruct eos_token as [|c tok']; [congruence|].
  set (tok := String c tok') in *.
  cbv iota beta.
  destruct (collect_eos_spec formatted_data tok Hne fuel
              (fst (dr_indices first)) [])
    as (found & Hrun & Hentries & Hsorted & _).
  { unfold passes_left. destruct (Z.ltb_spec (fst (dr_indices first)) 0); lia. }
  cbn [app] in Hrun. rewrite Hcollect in Hrun. injection Hrun as Hrun.
  subst found. rewrite Hcollect. cbn [bind].
  cbn [sorted_from fst snd] in Hsorted.
  destruct Hsorted as (Hs1 & Hab1 & Hb1 & Hab2 & _).
  inversion Hentries as [|? ? _ Hentries']; subst.
  inversion Hentries' as [|? ? (_ & Hb2 & _) _]; subst. cbn [fst snd] in Hb2.
  destruct (dr_indices first) as [s1 e1] eqn:Hidx1.
  destruct (dr_indices second) as [s2 e2] eqn:Hidx2.
  cbn [fst snd] in *.
  pose proof Hord as Hord'. cbn [map] in Hord'. rewrite Hidx1, Hidx2 in Hord'.
  change (regions_in_order ((s1, e1) :: (s2, e2) :: map dr_indices rest))
    with ((s1 <=? e1) && (e1 <=? s2)
          && regions_in_order ((s2, e2) :: map dr_indices rest)) in Hord'.
  apply andb_true_iff in Hord'. destruct Hord' as [_ Hrest].
  destruct fuel as [|fuel]; [cbn [length] in Hfuel; lia|].
  cbn [attach_loop length Nat.ltb Nat.leb andb]. unfold attach_body.
  change ((first :: second :: rest) !! 0%nat) with (Some first).
  change (((a1, b1) :: (a2, b2) :: more) !! 0%nat) with (Some (a1, b1)).
  cbv beta iota. rewrite Hidx1.
  destruct (Z.leb_spec s1 a1); [|lia].
  destruct (Z.ltb_spec a1 e1); [lia|]. cbn [andb bind Nat.add].
  change ((first :: second :: rest) !! 1%nat) with (Some second).
  cbv beta iota. rewrite Hidx2.
  destruct (Z.leb_spec e1 a1); [|lia].
  destruct (Z.ltb_spec a1 s2); [|lia]. cbn [andb bind].
  unfold no_image_between.
  set (first' := set_indices first (s1, b1)).
  change (<[0%nat := first']> (first :: second :: rest))
    with ([first'] ++ second :: rest).
  destruct (attach_loop_stale formatted_data a2 b2 [(a1, b1)] more
              (second :: rest) [first'] fuel) as (todo' & Hloop & Hmap).
  { discriminate. }
  { cbn [length] in *. lia. }
  { cbn [map]. rewrite Hidx2. exact Hrest. }
  { cbn [firstn]. constructor; [|constructor]. rewrite Hidx2. cbn [fst]. lia. }
  cbn [app length] in Hloop. cbn [app].
  change (1 <? length (first :: second :: rest))%nat with true.
  cbv iota. cbn [bind]. rewrite Hloop. cbn [bind].
  assert (Hres : map dr_indices (first' :: todo')
                 = (s1, b1) :: set_last_end b2 (map dr_indices (second :: rest))).
  { cbn [map]. rewrite Hmap. reflexivity. }
  destruct (negb is_chat_data || _).
  { exists (first' :: todo'). split; [reflexivity|]. split; [exact Hres|lia]. }
  destruct (turn_token_loop_total formatted_data
              (seq 1 (length (first' :: todo') - 1)) (first' :: todo'))
    as (d2 & Hturn & Hflags).
  { apply Forall_forall. intros i Hi. apply list_elem_of_In, in_seq in Hi. lia. }
  exists d2. split; [exact Hturn|]. split; [|lia].
  rewrite (flag_set_indices _ _ Hflags). exact Hres.
Qed.

Lemma append_eos_two_in_first_gap_witness :
  exists data_ranges',
    append_eos_to_multiple_semantic_regions 30 "ab<e><e>cdefgh<e>ij<e>"%string
      [DataRange (0, 2) None tt; DataRange (8, 14) None tt;
       DataRange (17, 19) None tt]
      (Some "<e>"%string) None false
    = Ret data_ranges'
    /\ map dr_indices data_ranges' = [(0, 5); (8, 14); (17, 8)]
    /\ 8 < 8 + 3.
Proof.
  apply (append_eos_two_in_first_gap 30 "ab<e><e>cdefgh<e>ij<e>"%string
           "<e>"%string (DataRange (0, 2) None tt) (DataRange (8, 14) None tt)
           [DataRange (17, 19) None tt] 2 5 5 8 [(14, 17); (19, 22)] false);
    [discriminate|cbn; lia|reflexivity|reflexivity|cbn; lia|cbn; lia].
Defined.






(** * Truncation of a tokenized sequence *)

Lemma del_slice_length_le {A : Type} (l : list A) (a b : Z) :
  (length (del_slice l a b) <= length l)%nat.
Proof.
  unfold del_slice.
  destruct (Nat.ltb_spec (clamp_index (length l) a) (clamp_index (length l) b));
    [|lia].
  rewrite length_app, length_take, length_drop. lia.
Qed.

Lemma del_ranges_length_le (ranges : list turn_removal) :
  forall token_ids : list Z,
  (length (del_ranges token_ids ranges) <= length token_ids)%nat.
Proof.
  unfold del_ranges.
  induction ranges as [|[[[i p] m] [s e]] ranges IH]; intros token_ids;
    cbn [fold_left]; [lia|].
  etransitivity; [apply IH|apply del_slice_length_le].
Qed.

Lemma insert_sorted_length {A : Type} (f : A -> A -> bool) (x : A) (l : list A) :
  length (insert_sorted f x l) = S (length l).
Proof.
  induction l as [|y l IH]; [reflexivity|]. cbn [insert_sorted].
  destruct (f x y); cbn [length]; [reflexivity|]. rewrite IH. reflexivity.
Qed.

Lemma py_sorted_length {A : Type} (key : A -> Z) (reverse : bool) (l : list A) :
  length (py_sorted key reverse l) = length l.
Proof.
  unfold py_sorted. induction l as [|x l IH]; [reflexivity|].
  cbn [foldr]. rewrite insert_sorted_length, IH. reflexivity.
Qed.

Lemma updated_ranges_length (combined_rem : list turn_removal)
    (combined_list : list turn_entry) :
  forall (updated_ranges : list (Z * Z)) (cumulative_shift : Z),
  length (fst (fold_left (updated_range combined_rem) combined_list
                         (updated_ranges, cumulative_shift)))
  = (length updated_ranges + length combined_list)%nat.
Proof.
  induction combined_list as [|[[i p] [s e]] combined_list IH];
    intros updated_ranges cumulative_shift; cbn [fold_left length]; [cbn; lia|].
  unfold updated_range at 2.
  destruct (rem_get combined_rem i p) as [[m [rs re]]|];
    rewrite IH, length_app; cbn [length]; lia.
Qed.

(** [update_semantic_regions] only returns when the two parts hold as many
    turns as there are regions. *)
Lemma update_semantic_regions_count {other : Type}
    (regions regions' : list (token_region other))
    (part_one_list part_two_list : list turn_entry)
    (rem_one rem_two : list turn_removal) :
  update_semantic_regions regions part_one_list part_two_list rem_one rem_two
  = Ret regions' ->
  (length part_one_list + length part_two_list)%nat = length regions.
Proof.
  unfold update_semantic_regions.
  pose proof (updated_ranges_length (rem_one ++ rem_two)
                (py_sorted (fun x : turn_entry => fst (snd x)) false
                           (part_one_list ++ part_two_list)) [] 0) as Hlen.
  destruct (fold_left _ _ _) as [updated_ranges shift]. cbn [fst length] in Hlen.
  rewrite py_sorted_length, length_app in Hlen.
  destruct (Nat.eqb_spec (length updated_ranges) (length regions)) as [Heq|];
    [|discriminate].
  intros _. lia.
Qed.

Section TruncateProofs.

Context {other : Type}.
Variables max_sequence_length max_turn_length : Z.
Variable prompt_truncation_mode : string.

Local Abbreviation loop :=
  (part_one_loop (other := other) max_sequence_length max_turn_length
                 prompt_truncation_mode).

(** The first loop on a sequence shorter than [max_sequence_length]. *)
Lemma part_one_loop_no_excess (regions : list (token_region other))
    (token_ids : list Z) (part_one_list part_two_list : list turn_entry)
    (truncate_length : Z) (sorted_part_one : list turn_entry) :
  Z.of_nat (length token_ids) < max_sequence_length ->
  truncate_length < 0 ->
  forall rem_one,
  loop regions token_ids part_one_list part_two_list sorted_part_one
       truncate_length rem_one
  = Raise AssertionError
  \/ loop regions token_ids part_one_list part_two_list sorted_part_one
          truncate_length rem_one
     = Ret (inr (truncate_length, rem_one)).
Proof.
  intros Hshort Hneg.
  induction sorted_part_one as [|[[i p] [s e]] rest IH]; intros rem_one;
    cbn [part_one_loop]; [right; reflexivity|].
  destruct (Z.geb_spec max_turn_length (e - s)) as [|Hlong]; [apply IH|].
  destruct (Z.ltb_spec (e - s - max_turn_length) truncate_length); [lia|].
  left.
  match goal with
  | |- context [del_ranges token_ids ?r] =>
      pose proof (del_ranges_length_le r token_ids) as Hle;
      destruct (Z.eqb_spec (Z.of_nat (length (del_ranges token_ids r)))
                           max_sequence_length) as [Heq|]; [lia|reflexivity]
  end.
Qed.

Lemma part_one_loop_count (regions : list (token_region other))
    (token_ids : list Z) (part_one_list part_two_list : list turn_entry)
    (sorted_part_one : list turn_entry) :
  forall truncate_length rem_one regions' result,
  loop regions token_ids part_one_list part_two_list sorted_part_one
       truncate_length rem_one
  = Ret (inl (regions', result)) ->
  (length part_one_list + length part_two_list)%nat = length regions.
Proof.
  induction sorted_part_one as [|[[i p] [s e]] rest IH];
    intros truncate_length rem_one regions' result; cbn [part_one_loop];
    [discriminate|].
  destruct (max_turn_length >=? e - s); [apply IH|].
  destruct (e - s - max_turn_length <? truncate_length); [apply IH|].
  destruct (negb _); [discriminate|].
  destruct (update_semantic_regions _ _ _ _ _) as [r'| |] eqn:Hupd;
    try discriminate.
  intros _. exact (update_semantic_regions_count _ _ _ _ _ _ Hupd).
Qed.

Lemma truncate_parts_no_excess (regions : list (token_region other))
    (token_ids : list Z) (part_one_list part_two_list : list (Z * Z))
    (truncate_length : Z) :
  Z.of_nat (length token_ids) < max_sequence_length ->
  truncate_length < 0 ->
  truncate_parts max_sequence_length max_turn_length prompt_truncation_mode
                 regions token_ids part_one_list part_two_list truncate_length
  = Raise AssertionError.
Proof.
  intros Hshort Hneg. unfold truncate_parts.
  destruct (part_one_loop_no_excess regions token_ids
              (enumerate_part part_one part_one_list)
              (enumerate_part part_two part_two_list) truncate_length
              (py_sorted turn_length true (enumerate_part part_one part_one_list))
              Hshort Hneg []) as [H|H]; rewrite H; cbn [bind]; [reflexivity|].
  destruct (Z.ltb_spec 0 truncate_length); [lia|reflexivity].
Qed.

Lemma enumerate_part_length (part : part_name) (l : list (Z * Z)) :
  length (enumerate_part part l) = length l.
Proof. unfold enumerate_part. apply length_imap. Qed.

(** [_truncate] only returns token ids when the two parts hold as many
    turns as there are regions. *)
Lemma truncate_parts_count (regions regions' : list (token_region other))
    (token_ids token_ids' : list Z) (part_one_list part_two_list : list (Z * Z))
    (truncate_length : Z) :
  truncate_parts max_sequence_length max_turn_length prompt_truncation_mode
                 regions token_ids part_one_list part_two_list truncate_length
  = Ret (regions', Tokens token_ids') ->
  (length part_one_list + length part_two_list)%nat = length regions.
Proof.
  unfold truncate_parts.
  destruct (part_one_loop _ _ _ _ _ _ _ _ _ _) as [[[r1 t1]|[tl rem_one]]| |]
    eqn:Hloop; cbn [bind]; try discriminate.
  - intros _. apply part_one_loop_count in Hloop.
    rewrite !enumerate_part_length in Hloop. exact Hloop.
  - destruct (negb (0 <? tl)); [discriminate|].
    destruct (_ <? tl); [discriminate|].
    destruct (negb _); [discriminate|].
    destruct (update_semantic_regions _ _ _ _ _) as [r'| |] eqn:Hupd;
      try discriminate.
    intros _. apply update_semantic_regions_count in Hupd.
    rewrite !enumerate_part_length in Hupd. exact Hupd.
Qed.

End TruncateProofs.

Lemma truncation_indices_length {other : Type}
    (regions : list (token_region other)) (role : string) :
  length (truncation_indices regions role)
  = length (List.filter (String.eqb role) (map tk_role regions)).
Proof.
  unfold truncation_indices. rewrite length_map.
  induction regions as [|r regions IH]; [reflexivity|].
  cbn [map List.filter]. rewrite (String.eqb_sym role).
  destruct (String.eqb (tk_role r) role); cbn [length]; rewrite IH; reflexivity.
Qed.

(** Two roles hold fewer regions than there are when a region has neither. *)
Lemma two_roles_count (roles : list string) (a b : string) :
  a <> b ->
  (length (List.filter (String.eqb a) roles)
   + length (List.filter (String.eqb b) roles) <= length roles)%nat
  /\ (Exists (fun r => r <> a /\ r <> b) roles ->
      (length (List.filter (String.eqb a) roles)
       + length (List.filter (String.eqb b) roles) < length roles)%nat).
Proof.
  intros Hab. induction roles as [|r roles [IH1 IH2]].
  - split; [cbn; lia|]. intros H. inversion H.
  - cbn [List.filter length].
    destruct (String.eqb_spec a r) as [->|Har];
      destruct (String.eqb_spec b r) as [->|Hbr]; try congruence;
      cbn [length]; (split; [lia|]); intros H;
      inversion H as [? ? [Hx Hy]|? ? Hrest]; subst;
      try congruence; try (specialize (IH2 Hrest); lia); lia.
Qed.

Lemma adjust_first_prompt_roles {other : Type}
    (regions regions' : list (token_region other)) :
  adjust_first_prompt regions = Ret regions' ->
  map tk_role regions' = map tk_role regions.
Proof.
  revert regions'. induction regions as [|r regions IH]; intros regions';
    cbn [adjust_first_prompt]; [discriminate|].
  destruct (String.eqb (tk_role r) "prompt").
  - destruct (negb _); [|intros [= <-]; reflexivity].
    destruct (tk_kind r); [discriminate|]. intros [= <-]. reflexivity.
  - destruct (adjust_first_prompt regions) as [rest| |]; try discriminate.
    cbn [bind]. intros [= <-]. cbn [map]. rewrite (IH rest eq_refl).
    reflexivity.
Qed.

(** [truncate_sequence] on a tuple: the first prompt region is found and
    assigned to. *)
Lemma adjust_first_prompt_tuple {other : Type}
    (before after : list (token_region other)) (r : token_region other) :
  Forall (fun r0 => tk_role r0 <> "prompt"%string) before ->
  tk_role r = "prompt"%string ->
  tk_kind r = PyTuple ->
  fst (tk_indices r) <> 0 ->
  adjust_first_prompt (before ++ r :: after)
  = Raise (TypeError "'tuple' object does not support item assignment").
Proof.
  intros Hbefore Hrole Hkind Hstart.
  induction Hbefore as [|r0 before Hr0 _ IH]; cbn [app adjust_first_prompt].
  - rewrite Hrole, Hkind. cbn [String.eqb Ascii.eqb Bool.eqb andb].
    destruct (Z.eqb_spec (fst (tk_indices r)) 0); [contradiction|reflexivity].
  - destruct (String.eqb_spec (tk_role r0) "prompt"); [contradiction|].
    rewrite IH. reflexivity.
Qed.

Definition other_role (role : string) : Prop :=
  role <> "prompt"%string /\ role <> "completion"%string
  /\ role <> "user"%string /\ role <> "assistant"%string.

(** X28.  [truncate_sequence] never returns for a sequence that is shorter
    than [max_sequence_length]: it raises, and the exception is
    [AssertionError] whenever the mode is valid, one of the two pairs of
    roles is there and the assignment to the first prompt region, if it is
    made, does not fail. *)
Theorem truncate_sequence_needs_excess {other : Type}
    (max_sequence_length max_turn_length : Z) (prompt_truncation_mode : string)
    (token_ids : list Z) (regions : list (token_region other)) :
  Z.of_nat (length token_ids) < max_sequence_length ->
  exists e,
    truncate_sequence max_sequence_length max_turn_length
                      prompt_truncation_mode token_ids regions
    = Raise e
    /\ (String.eqb prompt_truncation_mode "keep_start"
        || String.eqb prompt_truncation_mode "keep_end" = true ->
        has_role regions "prompt" && has_role regions "completion"
        || has_role regions "user" && has_role regions "assistant" = true ->
        (has_role regions "prompt" && has_role regions "completion" = true ->
         exists regions', adjust_first_prompt regions = Ret regions') ->
        e = AssertionError).
Proof.
  intros Hshort. unfold truncate_sequence.
  destruct (_ || _); cbn [negb]; [|eexists; split; [reflexivity|discriminate]].
  destruct (has_role regions "prompt" && has_role regions "completion").
  - destruct (adjust_first_prompt regions) as [regions'|e|] eqn:Hadj.
    + cbn [bind]. rewrite truncate_parts_no_excess by lia.
      eexists. split; reflexivity.
    + cbn [bind]. exists e. split; [reflexivity|].
      intros _ _ Hok. destruct (Hok eq_refl) as [? ?]. discriminate.
    + exfalso. clear -Hadj. induction regions as [|r regions IH];
        cbn [adjust_first_prompt] in Hadj; [discriminate|].
      destruct (String.eqb _ _).
      * destruct (negb _); [destruct (tk_kind r)|]; discriminate.
      * destruct (adjust_first_prompt regions); try discriminate.
        apply IH. reflexivity.
  - cbn [orb].
    destruct (has_role regions "user" && has_role regions "assistant").
    + rewrite truncate_parts_no_excess by lia. eexists. split; reflexivity.
    + eexists. split; [reflexivity|]. discriminate.
Qed.

Lemma truncate_sequence_needs_excess_witness :
  exists e,
    truncate_sequence 5 1 "keep_start" [11; 12; 13; 14]
      [TokenRegion "user" PyTuple (0, 2) tt;
       TokenRegion "assistant" PyTuple (2, 4) tt]
    = Raise e
    /\ (String.eqb "keep_start" "keep_start"
        || String.eqb "keep_start" "keep_end" = true ->
        has_role [TokenRegion "user" PyTuple (0, 2) tt;
                  TokenRegion "assistant" PyTuple (2, 4) tt] "prompt"
        && has_role [TokenRegion "user" PyTuple (0, 2) tt;
                     TokenRegion "assistant" PyTuple (2, 4) tt] "completion"
        || has_role [TokenRegion "user" PyTuple (0, 2) tt;
                     TokenRegion "assistant" PyTuple (2, 4) tt] "user"
           && has_role [TokenRegion "user" PyTuple (0, 2) tt;
                        TokenRegion "assistant" PyTuple (2, 4) tt] "assistant"
           = true ->
        (has_role [TokenRegion "user" PyTuple (0, 2) tt;
                   TokenRegion "assistant" PyTuple (2, 4) tt] "prompt"
         && has_role [TokenRegion "user" PyTuple (0, 2) tt;
                      TokenRegion "assistant" PyTuple (2, 4) tt] "completion"
         = true ->
         exists regions',
           adjust_first_prompt [TokenRegion "user" PyTuple (0, 2) tt;
                                TokenRegion "assistant" PyTuple (2, 4) tt]
           = Ret regions') ->
        e = AssertionError).
Proof.
  apply (truncate_sequence_needs_excess 5 1 "keep_start" [11; 12; 13; 14]
           [TokenRegion "user" PyTuple (0, 2) tt;
            TokenRegion "assistant" PyTuple (2, 4) tt]).
  simpl. lia.
Defined.

(** X29.  Regions [truncate_sequence] cannot work with.  A region whose
    role is none of prompt, completion, user and assistant makes the count
    of updated ranges differ from the count of regions: the call never
    returns token ids.  A first prompt region that does not start at 0 and
    whose indices are a tuple makes the assignment to its start raise
    [TypeError], when there is a completion region and the mode is valid. *)
Theorem truncate_sequence_rejected_regions {other : Type}
    (max_sequence_length max_turn_length : Z) (prompt_truncation_mode : string)
    (token_ids : list Z) (regions : list (token_region other)) :
  (Exists (fun r => other_role (tk_role r)) regions ->
   forall regions' token_ids',
     truncate_sequence max_sequence_length max_turn_length
                       prompt_truncation_mode token_ids regions
     <> Ret (regions', Tokens token_ids'))
  /\ (String.eqb prompt_truncation_mode "keep_start"
      || String.eqb prompt_truncation_mode "keep_end" = true ->
      has_role regions "completion" = true ->
      forall before r after,
        regions = before ++ r :: after ->
        Forall (fun r0 => tk_role r0 <> "prompt"%string) before ->
        tk_role r = "prompt"%string ->
        tk_kind r = PyTuple ->
        fst (tk_indices r) <> 0 ->
        truncate_sequence max_sequence_length max_turn_length
                          prompt_truncation_mode token_ids regions
        = Raise (TypeError "'tuple' object does not support item assignment")).
Proof.
  split.
  - intros Hother regions' token_ids'. unfold truncate_sequence.
    destruct (negb _); [discriminate|].
    assert (Hroles : Exists (fun role => other_role role) (map tk_role regions)).
    { clear -Hother. induction Hother as [r l H|r l _ IH]; cbn [map];
        [left; exact H|right; exact IH]. }
    destruct (has_role regions "prompt" && has_role regions "completion").
    + destruct (adjust_first_prompt regions) as [regions1| |] eqn:Hadj;
        try discriminate.
      cbn [bind]. intros Hrun. apply truncate_parts_count in Hrun.
      rewrite !truncation_indices_length in Hrun.
      apply adjust_first_prompt_roles in Hadj.
      rewrite Hadj in Hrun.
      destruct (two_roles_count (map tk_role regions) "prompt" "completion")
        as [_ Hlt]; [discriminate|].
      rewrite <- (length_map tk_role regions1), Hadj in Hrun.
      assert (Hex : Exists (fun r => r <> "prompt"%string
                                     /\ r <> "completion"%string)
                           (map tk_role regions)).
      { eapply Exists_impl; [exact Hroles|]. intros r (H1 & H2 & _). auto. }
      specialize (Hlt Hex). lia.
    + destruct (has_role regions "user" && has_role regions "assistant");
        [|discriminate].
      intros Hrun. apply truncate_parts_count in Hrun.
      rewrite !truncation_indices_length in Hrun.
      destruct (two_roles_count (map tk_role regions) "user" "assistant")
        as [_ Hlt]; [discriminate|].
      rewrite <- (length_map tk_role regions) in Hrun.
      assert (Hex : Exists (fun r => r <> "user"%string
                                     /\ r <> "assistant"%string)
                           (map tk_role regions)).
      { eapply Exists_impl; [exact Hroles|]. intros r (_ & _ & H1 & H2). auto. }
      specialize (Hlt Hex). lia.
  - intros Hmode Hcompletion before r after -> Hbefore Hrole Hkind Hstart.
    unfold truncate_sequence. rewrite Hmode. cbn [negb].
    assert (Hprompt : has_role (before ++ r :: after) "prompt" = true).
    { unfold has_role. apply existsb_exists. exists r.
      split; [apply in_or_app; right; left; reflexivity|].
      rewrite Hrole. reflexivity. }
    rewrite Hprompt, Hcompletion. cbn [andb].
    rewrite (adjust_first_prompt_tuple before after r Hbefore Hrole Hkind Hstart).
    reflexivity.
Qed.

Lemma truncate_sequence_rejected_regions_witness :
  (forall regions' token_ids',
     truncate_sequence 3 1 "keep_start" [11; 12; 13; 14]
       [TokenRegion "system" PyTuple (0, 1) tt;
        TokenRegion "user" PyTuple (1, 3) tt;
        TokenRegion "assistant" PyTuple (3, 4) tt]
     <> Ret (regions', Tokens token_ids'))
  /\ truncate_sequence 3 1 "keep_start" [11; 12; 13; 14]
       ([] ++ TokenRegion "prompt" PyTuple (1, 3) tt
           :: [TokenRegion "completion" PyTuple (3, 4) tt])
     = Raise (TypeError "'tuple' object does not support item assignment").
Proof.
  split.
  - apply (proj1 (truncate_sequence_rejected_regions 3 1 "keep_start"
                    [11; 12; 13; 14]
                    [TokenRegion "system" PyTuple (0, 1) tt;
                     TokenRegion "user" PyTuple (1, 3) tt;
                     TokenRegion "assistant" PyTuple (3, 4) tt])).
    left. unfold other_role. simpl. repeat split; discriminate.
  - apply (proj2 (truncate_sequence_rejected_regions 3 1 "keep_start"
                    [11; 12; 13; 14]
                    ([] ++ TokenRegion "prompt" PyTuple (1, 3) tt
                        :: [TokenRegion "completion" PyTuple (3, 4) tt]))
             eq_refl eq_refl [] (TokenRegion "prompt" PyTuple (1, 3) tt)
             [TokenRegion "completion" PyTuple (3, 4) tt] eq_refl);
      [constructor|reflexivity|reflexivity|simpl; lia].
Defined.

(** ** The longest turn of the first part takes the whole truncation *)

(** An element that goes before all that follow it, and that none of
    those before it goes before, is first after sorting. *)
Lemma sort_extract {A : Type} (goes_first : A -> A -> bool) (x : A)
    (l1 l2 : list A) :
  Forall (fun z => goes_first z x = false) l1 ->
  Forall (fun y => goes_first x y = true) l2 ->
  foldr (insert_sorted goes_first) [] (l1 ++ x :: l2)
  = x :: foldr (insert_sorted goes_first) [] (l1 ++ l2).
Proof.
  intros H1 H2.
  assert (Hall : forall l, Forall (fun y => goes_first x y = true) l ->
                 Forall (fun y => goes_first x y = true)
                        (foldr (insert_sorted goes_first) [] l)).
  { induction 1 as [|y l Hy _ IH]; [constructor|]. cbn [foldr].
    revert IH. generalize (foldr (insert_sorted goes_first) [] l).
    induction l0 as [|z l0 IHl]; intros Hl; cbn [insert_sorted].
    - repeat constructor. exact Hy.
    - inversion Hl; subst. destruct (goes_first y z).
      + repeat constructor; assumption.
      + constructor; [assumption|]. apply IHl. assumption. }
  induction H1 as [|z l1 Hz _ IH]; cbn [app foldr].
  - specialize (Hall l2 H2).
    destruct (foldr (insert_sorted goes_first) [] l2) as [|y m];
      [reflexivity|]. cbn [insert_sorted]. inversion Hall as [|? ? Hy _]; subst.
    rewrite Hy. reflexivity.
  - rewrite IH. cbn [insert_sorted]. rewrite Hz. reflexivity.
Qed.

Definition enumerate_from (part : part_name) (n : nat) (l : list (Z * Z))
  : list turn_entry :=
  imap (fun i x => ((n + i)%nat, part, x)) l.

Lemma enumerate_from_cons (part : part_name) (n : nat) (x : Z * Z)
    (l : list (Z * Z)) :
  enumerate_from part n (x :: l) = (n, part, x) :: enumerate_from part (S n) l.
Proof.
  unfold enumerate_from. cbn [imap]. rewrite Nat.add_0_r. f_equal.
  apply imap_ext. intros i y _. cbn. do 2 f_equal. lia.
Qed.

Lemma enumerate_from_app (part : part_name) (l1 l2 : list (Z * Z)) :
  forall n,
  enumerate_from part n (l1 ++ l2)
  = enumerate_from part n l1 ++ enumerate_from part (n + length l1) l2.
Proof.
  induction l1 as [|x l1 IH]; intros n; cbn [app length].
  - rewrite Nat.add_0_r. reflexivity.
  - rewrite !enumerate_from_cons, IH. cbn [app]. do 3 f_equal. lia.
Qed.

Lemma enumerate_from_Forall (P : Z * Z -> Prop) (part : part_name)
    (l : list (Z * Z)) :
  Forall P l -> forall n, Forall (fun e : turn_entry => P (snd e))
                                 (enumerate_from part n l).
Proof.
  induction 1 as [|x l Hx _ IH]; intros n; [constructor|].
  rewrite enumerate_from_cons. constructor; [exact Hx|apply IH].
Qed.

Lemma truncation_indices_cons {other : Type} (r : token_region other)
    (regions : list (token_region other)) (role : string) :
  truncation_indices (r :: regions) role
  = if String.eqb (tk_role r) role
    then tk_indices r :: truncation_indices regions role
    else truncation_indices regions role.
Proof.
  unfold truncation_indices. cbn [List.filter].
  destruct (String.eqb (tk_role r) role); reflexivity.
Qed.

Lemma truncation_indices_app {other : Type}
    (l1 l2 : list (token_region other)) (role : string) :
  truncation_indices (l1 ++ l2) role
  = truncation_indices l1 role ++ truncation_indices l2 role.
Proof.
  unfold truncation_indices. rewrite List.filter_app, map_app. reflexivity.
Qed.

Lemma truncation_indices_Forall {other : Type} (P : Z * Z -> Prop)
    (regions : list (token_region other)) (role : string) :
  Forall (fun r => tk_role r = role -> P (tk_indices r)) regions ->
  Forall P (truncation_indices regions role).
Proof.
  induction 1 as [|r regions Hr _ IH]; [constructor|].
  rewrite truncation_indices_cons.
  destruct (String.eqb_spec (tk_role r) role); [|exact IH].
  constructor; [apply Hr; assumption|exact IH].
Qed.

(** The regions in the order of the list, each with its part and its place
    in the part. *)
Fixpoint tag_turns {other : Type} (a : string)
    (regions : list (token_region other)) (n1 n2 : nat) : list turn_entry :=
  match regions with
  | [] => []
  | r :: rest =>
      if String.eqb (tk_role r) a
      then (n1, part_one, tk_indices r) :: tag_turns a rest (S n1) n2
      else (n2, part_two, tk_indices r) :: tag_turns a rest n1 (S n2)
  end.

(** Every region starts before the ones that follow it. *)
Fixpoint starts_ascend (indices : list (Z * Z)) : Prop :=
  match indices with
  | [] => True
  | p :: rest => Forall (fun q => fst p < fst q) rest /\ starts_ascend rest
  end.

Lemma tag_turns_Forall {other : Type} (P : Z * Z -> Prop) (a : string)
    (regions : list (token_region other)) :
  Forall P (map tk_indices regions) ->
  forall n1 n2, Forall (fun e : turn_entry => P (snd e))
                       (tag_turns a regions n1 n2).
Proof.
  induction regions as [|r regions IH]; intros H n1 n2; [constructor|].
  cbn [map] in H. inversion H; subst. cbn [tag_turns].
  destruct (String.eqb (tk_role r) a); constructor; auto.
Qed.

(** Sorting the two parts by start gives the regions back in their order. *)
Lemma combined_list_in_order {other : Type} (a b : string)
    (regions : list (token_region other)) :
  a <> b ->
  Forall (fun r => tk_role r = a \/ tk_role r = b) regions ->
  starts_ascend (map tk_indices regions) ->
  forall n1 n2,
  py_sorted (fun x : turn_entry => fst (snd x)) false
            (enumerate_from part_one n1 (truncation_indices regions a)
               ++ enumerate_from part_two n2 (truncation_indices regions b))
  = tag_turns a regions n1 n2.
Proof.
  intros Hab Hroles. induction Hroles as [|r regions Hr _ IH];
    intros Hasc n1 n2; [reflexivity|].
  cbn [map starts_ascend] in Hasc. destruct Hasc as [Hfirst Hasc].
  specialize (IH Hasc). rewrite !truncation_indices_cons. cbn [tag_turns].
  assert (Hafter : forall part n role,
             Forall (fun e : turn_entry => fst (tk_indices r) < fst (snd e))
                    (enumerate_from part n (truncation_indices regions role))).
  { intros part n role.
    apply (enumerate_from_Forall (fun q => fst (tk_indices r) < fst q)).
    apply truncation_indices_Forall. clear -Hfirst.
    induction regions as [|r0 regions IH]; [constructor|].
    cbn [map] in Hfirst. inversion Hfirst; subst.
    constructor; [intros _; assumption|apply IH; assumption]. }
  unfold py_sorted in *.
  destruct Hr as [Hr|Hr]; rewrite Hr.
  - rewrite String.eqb_refl.
    destruct (String.eqb_spec a b) as [|_]; [contradiction|].
    rewrite enumerate_from_cons. cbn [app].
    match goal with
    | |- foldr (insert_sorted ?gf) [] (?x :: ?l) = _ =>
        pose proof (sort_extract gf x [] l) as Hsort
    end.
    cbn [app] in Hsort. rewrite Hsort.
    + rewrite IH. reflexivity.
    + constructor.
    + apply Forall_app. split;
        (eapply Forall_impl; [apply Hafter|]); intros e He; cbv beta in He |- *; cbn [snd fst] in He |- *;
        apply Z.leb_le; lia.
  - destruct (String.eqb_spec b a) as [|_]; [congruence|].
    rewrite String.eqb_refl, enumerate_from_cons.
    rewrite sort_extract.
    + rewrite IH. reflexivity.
    + eapply Forall_impl; [apply Hafter|]. intros e He. cbv beta in He |- *. cbn [snd fst] in He |- *.
      apply Z.leb_gt. lia.
    + eapply Forall_impl; [apply Hafter|]. intros e He. cbv beta in He |- *. cbn [snd fst] in He |- *.
      apply Z.leb_le. lia.
Qed.

Lemma rem_get_single (i : nat) (mode : keep_mode) (removed : Z * Z)
    (index : nat) (part : part_name) :
  rem_get [(i, part_one, mode, removed)] index part
  = if (i =? index)%nat && part_name_eqb part_one part
    then Some (mode, removed) else None.
Proof.
  unfold rem_get. cbn [rev app List.find].
  destruct ((i =? index)%nat && part_name_eqb part_one part); reflexivity.
Qed.

(** A range moved down by [shift]. *)
Definition shifted (shift : Z) (p : Z * Z) : Z * Z :=
  (fst p - shift, snd p - shift).

Section OneRemoval.

Context {other : Type}.
Variable a : string.
Variable mode : keep_mode.
Variables removed_start removed_end : Z.

(** The regions after the one that is cut are moved down. *)
Lemma fold_tag_past (i : nat) (regions : list (token_region other)) :
  forall (n1 n2 : nat) (acc : list (Z * Z)) (shift : Z),
  (i < n1)%nat ->
  fold_left (updated_range [(i, part_one, mode, (removed_start, removed_end))])
            (tag_turns a regions n1 n2) (acc, shift)
  = (acc ++ map (fun r => shifted shift (tk_indices r)) regions, shift).
Proof.
  induction regions as [|r regions IH]; intros n1 n2 acc shift Hi;
    cbn [tag_turns map]; [rewrite app_nil_r; reflexivity|].
  destruct (String.eqb (tk_role r) a); cbn [fold_left];
    unfold updated_range at 2; destruct (tk_indices r) as [s e] eqn:Hidx;
    rewrite rem_get_single.
  - destruct (Nat.eqb_spec i n1); [lia|]. cbn [andb].
    rewrite IH by lia. rewrite Z.add_0_r, <- app_assoc. reflexivity.
  - rewrite andb_false_r. rewrite IH by lia.
    rewrite Z.add_0_r, <- app_assoc. reflexivity.
Qed.

Lemma fold_tag_single (r : token_region other)
    (after : list (token_region other)) (s e : Z) :
  tk_role r = a ->
  tk_indices r = (s, e) ->
  forall (before : list (token_region other)) (n1 n2 : nat)
         (acc : list (Z * Z)) (shift : Z),
  fold_left
    (updated_range [((n1 + length (truncation_indices before a))%nat, part_one,
                     mode, (removed_start, removed_end))])
    (tag_turns a (before ++ r :: after) n1 n2) (acc, shift)
  = (acc ++ map (fun r0 => shifted shift (tk_indices r0)) before
         ++ match mode with
            | keep_start => (s - shift, removed_start - shift)
            | keep_end =>
                (removed_end - shift - (removed_end - removed_start),
                 e - shift - (removed_end - removed_start))
            end
         :: map (fun r0 => shifted (shift + (removed_end - removed_start))
                                   (tk_indices r0)) after,
     shift + (removed_end - removed_start)).
Proof.
  intros Hrole Hidx.
  induction before as [|r0 before IH]; intros n1 n2 acc shift;
    cbn [app tag_turns map].
  - rewrite Hrole, String.eqb_refl. cbn [fold_left].
    unfold updated_range at 2. rewrite Hidx, rem_get_single.
    unfold truncation_indices. cbn [List.filter map length].
    rewrite Nat.add_0_r, Nat.eqb_refl.
    cbn [andb part_name_eqb].
    rewrite fold_tag_past by lia. rewrite <- app_assoc. reflexivity.
  - rewrite truncation_indices_cons.
    destruct (String.eqb (tk_role r0) a); cbn [fold_left];
      unfold updated_range at 2; destruct (tk_indices r0) as [s0 e0] eqn:Hidx0;
      rewrite rem_get_single.
    + cbn [length].
      destruct (Nat.eqb_spec (n1 + S (length (truncation_indices before a))) n1);
        [lia|].
      cbn [andb]. rewrite Nat.add_succ_r, <- Nat.add_succ_l.
      rewrite IH. rewrite Z.add_0_r, <- app_assoc. cbn [app].
      reflexivity.
    + rewrite andb_false_r. rewrite IH.
      rewrite Z.add_0_r, <- app_assoc. cbn [app].
      reflexivity.
Qed.

End OneRemoval.

Lemma del_slice_inside {A : Type} (l : list A) (a b : Z) :
  0 <= a <= b ->
  b <= Z.of_nat (length l) ->
  del_slice l a b = take (Z.to_nat a) l ++ drop (Z.to_nat b) l.
Proof.
  intros Hab Hb. unfold del_slice, clamp_index.
  destruct (Z.ltb_spec a 0); [lia|]. destruct (Z.ltb_spec b 0); [lia|].
  rewrite !Nat.min_r by lia.
  destruct (Nat.ltb_spec (Z.to_nat a) (Z.to_nat b)); [reflexivity|].
  replace (Z.to_nat b) with (Z.to_nat a) by lia.
  symmetry. apply take_drop.
Qed.

Lemma has_role_none {other : Type} (regions : list (token_region other))
    (a b c : string) :
  Forall (fun r => tk_role r = a \/ tk_role r = b) regions ->
  c <> a -> c <> b ->
  has_role regions c = false.
Proof.
  intros Hroles Ha Hb. unfold has_role.
  induction Hroles as [|r regions Hr _ IH]; [reflexivity|].
  cbn [existsb]. rewrite IH.
  destruct (String.eqb_spec (tk_role r) c) as [Heq|]; [|reflexivity].
  destruct Hr; congruence.
Qed.

Lemma has_role_middle {other : Type} (before after : list (token_region other))
    (r : token_region other) :
  has_role (before ++ r :: after) (tk_role r) = true.
Proof.
  unfold has_role. apply existsb_exists. exists r.
  split; [apply in_or_app; right; left; reflexivity|apply String.eqb_refl].
Qed.

(** The regions written by [update_semantic_regions] when one turn of the
    first part was cut. *)
Lemma update_one_removal {other : Type} (a b : string)
    (before after : list (token_region other)) (r : token_region other)
    (s e : Z) (mode : keep_mode) (removed_start removed_end : Z) :
  a <> b ->
  Forall (fun r0 => tk_role r0 = a \/ tk_role r0 = b) (before ++ r :: after) ->
  starts_ascend (map tk_indices (before ++ r :: after)) ->
  tk_role r = a ->
  tk_indices r = (s, e) ->
  update_semantic_regions (before ++ r :: after)
    (enumerate_part part_one (truncation_indices (before ++ r :: after) a))
    (enumerate_part part_two (truncation_indices (before ++ r :: after) b))
    [(length (truncation_indices before a), part_one, mode,
      (removed_start, removed_end))] []
  = Ret (map (fun r0 => set_region_indices r0 (shifted 0 (tk_indices r0))) before
         ++ set_region_indices r
              match mode with
              | keep_start => (s - 0, removed_start - 0)
              | keep_end =>
                  (removed_end - 0 - (removed_end - removed_start),
                   e - 0 - (removed_end - removed_start))
              end
         :: map (fun r0 =>
                   set_region_indices r0
                     (shifted (0 + (removed_end - removed_start))
                              (tk_indices r0))) after).
Proof.
  intros Hab Hroles Hasc Hrole Hidx. unfold update_semantic_regions.
  change (enumerate_part part_one) with (enumerate_from part_one 0).
  change (enumerate_part part_two) with (enumerate_from part_two 0).
  rewrite (combined_list_in_order a b _ Hab Hroles Hasc 0 0).
  cbn [app].
  pose proof (fold_tag_single a mode removed_start removed_end r after s e
                Hrole Hidx before 0 0 [] 0) as Hfold.
  cbn [Nat.add app] in Hfold.
  match goal with
  | |- context [fold_left ?f ?l ?i] =>
      match type of Hfold with
      | _ = ?rhs => replace (fold_left f l i) with rhs by (symmetry; exact Hfold)
      end
  end.
  rewrite length_app, !length_map. cbn [length]. rewrite length_map.
  rewrite length_app. cbn [length]. rewrite Nat.eqb_refl. cbn [negb].
  f_equal.
  rewrite zip_with_app by (rewrite length_map; reflexivity).
  cbn [zip_with]. rewrite !zip_with_fmap_r, !zip_with_diag. reflexivity.
Qed.

(** The number of tokens that do not fit. *)
Definition excess (token_ids : list Z) (max_sequence_length : Z) : Z :=
  Z.of_nat (length token_ids) - max_sequence_length.

Definition turn_size {other : Type} (r : token_region other) : Z :=
  snd (tk_indices r) - fst (tk_indices r).

(** X30.  The regions are user and assistant turns (or prompt and
    completion, with the first prompt region starting at 0), listed by
    ascending start.  When the longest turn of the first part, the first
    one among equals, is longer than [max_turn_length] by at least the
    excess of the sequence, [truncate_sequence] takes the whole excess from
    it: from its end for ["keep_start"], from its start for ["keep_end"].
    The regions before it keep their indices, the cut region ends
    [excess] earlier, and the regions after it are moved down by
    [excess]; every region's indices are written as a tuple. *)
Theorem truncate_sequence_longest_turn {other : Type}
    (max_sequence_length max_turn_length : Z) (prompt_truncation_mode : string)
    (token_ids : list Z) (before after : list (token_region other))
    (r : token_region other) (a b : string) (s e : Z) :
  (a, b) = ("user"%string, "assistant"%string)
  \/ ((a, b) = ("prompt"%string, "completion"%string)
      /\ adjust_first_prompt (before ++ r :: after)
         = Ret (before ++ r :: after)) ->
  prompt_truncation_mode = "keep_start"%string
  \/ prompt_truncation_mode = "keep_end"%string ->
  Forall (fun r0 => tk_role r0 = a \/ tk_role r0 = b) (before ++ r :: after) ->
  has_role (before ++ r :: after) b = true ->
  starts_ascend (map tk_indices (before ++ r :: after)) ->
  tk_role r = a ->
  tk_indices r = (s, e) ->
  0 <= s ->
  e <= Z.of_nat (length token_ids) ->
  0 <= max_turn_length < e - s ->
  Forall (fun r0 => tk_role r0 = a -> turn_size r0 < e - s) before ->
  Forall (fun r0 => tk_role r0 = a -> turn_size r0 <= e - s) after ->
  0 <= excess token_ids max_sequence_length <= e - s - max_turn_length ->
  truncate_sequence max_sequence_length max_turn_length prompt_truncation_mode
                    token_ids (before ++ r :: after)
  = Ret (map (fun r0 => set_region_indices r0 (tk_indices r0)) before
         ++ set_region_indices r (s, e - excess token_ids max_sequence_length)
         :: map (fun r0 =>
                   set_region_indices r0
                     (shifted (excess token_ids max_sequence_length)
                              (tk_indices r0))) after,
         Tokens
           (if String.eqb prompt_truncation_mode "keep_start"
            then take (Z.to_nat (e - excess token_ids max_sequence_length))
                      token_ids
                 ++ drop (Z.to_nat e) token_ids
            else take (Z.to_nat s) token_ids
                 ++ drop (Z.to_nat (s + excess token_ids max_sequence_length))
                         token_ids)).
Proof.
  intros Hpair Hmode Hroles Hb Hasc Hrole Hidx Hs He Hturn Hbefore Hafter Hexc.
  set (regions := before ++ r :: after) in *.
  set (k := excess token_ids max_sequence_length) in *.
  assert (Hab : a <> b) by (destruct Hpair as [H|[H _]]; injection H as -> ->;
                            discriminate).
  assert (Ha : has_role regions a = true)
    by (rewrite <- Hrole; apply has_role_middle).
  (* the call comes down to [_truncate] on the two parts *)
  assert (Hcall :
    truncate_sequence max_sequence_length max_turn_length
                      prompt_truncation_mode token_ids regions
    = truncate_parts max_sequence_length max_turn_length prompt_truncation_mode
        regions token_ids (truncation_indices regions a)
        (truncation_indices regions b) k).
  { unfold truncate_sequence.
    replace (String.eqb prompt_truncation_mode "keep_start"
             || String.eqb prompt_truncation_mode "keep_end") with true
      by (destruct Hmode as [-> | ->]; reflexivity).
    cbn [negb].
    destruct Hpair as [H|[H Hadj]]; injection H as -> ->.
    - rewrite (has_role_none regions "user" "assistant" "prompt" Hroles)
        by discriminate.
      cbn [andb]. rewrite Ha, Hb. reflexivity.
    - rewrite Ha, Hb. cbn [andb]. rewrite Hadj. reflexivity. }
  rewrite Hcall. unfold truncate_parts.
  (* the turn is the first one in [sorted_part_one] *)
  assert (Hsorted :
    py_sorted turn_length true
              (enumerate_part part_one (truncation_indices regions a))
    = (length (truncation_indices before a), part_one, (s, e))
      :: py_sorted turn_length true
           (enumerate_from part_one 0 (truncation_indices before a)
              ++ enumerate_from part_one
                   (S (length (truncation_indices before a)))
                   (truncation_indices after a))).
  { change (enumerate_part part_one) with (enumerate_from part_one 0).
    unfold regions. rewrite truncation_indices_app, truncation_indices_cons.
    rewrite Hrole, String.eqb_refl, Hidx.
    rewrite enumerate_from_app, enumerate_from_cons. cbn [Nat.add].
    unfold py_sorted. apply sort_extract.
    - eapply Forall_impl.
      + apply (enumerate_from_Forall (fun q => snd q - fst q < e - s)).
        apply truncation_indices_Forall. exact Hbefore.
      + intros x Hx. cbv beta in Hx |- *. unfold turn_length. cbn [snd fst].
        apply Z.leb_gt. exact Hx.
    - eapply Forall_impl.
      + apply (enumerate_from_Forall (fun q => snd q - fst q <= e - s)).
        apply truncation_indices_Forall. exact Hafter.
      + intros x Hx. cbv beta in Hx |- *. unfold turn_length. cbn [snd fst].
        apply Z.leb_le. exact Hx. }
  rewrite Hsorted. cbn [part_one_loop].
  destruct (Z.geb_spec max_turn_length (e - s)); [lia|].
  destruct (Z.ltb_spec (e - s - max_turn_length) k); [lia|].
  cbn [app].
  assert (Hlen : forall lo hi, 0 <= lo -> hi = lo + k ->
                 hi <= Z.of_nat (length token_ids) ->
                 del_slice token_ids lo hi
                 = take (Z.to_nat lo) token_ids ++ drop (Z.to_nat hi) token_ids
                 /\ Z.of_nat (length (del_slice token_ids lo hi))
                    = max_sequence_length).
  { intros lo hi Hlo Hhi Hn.
    rewrite del_slice_inside by lia. split; [reflexivity|].
    rewrite length_app, length_take, length_drop. unfold k, excess in *. lia. }
  pose proof (update_one_removal a b before after r s e) as Hupd.
  unfold part_one_removal.
  destruct Hmode as [-> | ->];
    cbn [String.eqb Ascii.eqb Bool.eqb andb py_sorted foldr insert_sorted
         del_ranges fold_left].
  - destruct (Hlen (e - k) e) as [Hdel Hmsl]; [lia|lia|lia|].
    rewrite Hmsl, Z.eqb_refl. cbn [negb].
    fold regions in Hupd.
    rewrite (Hupd keep_start (e - k) e Hab Hroles Hasc Hrole Hidx).
    cbn [bind]. rewrite Hdel. do 2 f_equal.
    f_equal; [apply map_ext; intros r0; unfold shifted; f_equal;
              destruct (tk_indices r0); cbn [fst snd]; f_equal; lia|].
    f_equal; [f_equal; f_equal; lia|].
    apply map_ext. intros r0. do 2 f_equal. lia.
  - destruct (Hlen s (s + k)) as [Hdel Hmsl]; [lia|lia|lia|].
    rewrite Hmsl, Z.eqb_refl. cbn [negb].
    fold regions in Hupd.
    rewrite (Hupd keep_end s (s + k) Hab Hroles Hasc Hrole Hidx).
    cbn [bind]. rewrite Hdel. do 2 f_equal.
    f_equal; [apply map_ext; intros r0; unfold shifted; f_equal;
              destruct (tk_indices r0); cbn [fst snd]; f_equal; lia|].
    f_equal; [f_equal; f_equal; lia|].
    apply map_ext. intros r0. do 2 f_equal. lia.
Qed.

Lemma truncate_sequence_longest_turn_witness :
  truncate_sequence 6 1 "keep_start" [10; 11; 12; 13; 14; 15; 16; 17]
    ([TokenRegion "user" PyList (0, 2) tt;
      TokenRegion "assistant" PyList (2, 3) tt]
       ++ TokenRegion "user" PyList (3, 7) tt
       :: [TokenRegion "assistant" PyList (7, 8) tt])
  = Ret ([TokenRegion "user" PyTuple (0, 2) tt;
          TokenRegion "assistant" PyTuple (2, 3) tt;
          TokenRegion "user" PyTuple (3, 5) tt;
          TokenRegion "assistant" PyTuple (5, 6) tt],
         Tokens [10; 11; 12; 13; 14; 17]).
Proof.
  apply (truncate_sequence_longest_turn 6 1 "keep_start"
           [10; 11; 12; 13; 14; 15; 16; 17]
           [TokenRegion "user" PyList (0, 2) tt;
            TokenRegion "assistant" PyList (2, 3) tt]
           [TokenRegion "assistant" PyList (7, 8) tt]
           (TokenRegion "user" PyList (3, 7) tt) "user" "assistant" 3 7).
  - left. reflexivity.
  - left. reflexivity.
  - cbn [app].
    repeat (constructor; [(left; reflexivity) || (right; reflexivity)|]).
    constructor.
  - reflexivity.
  - simpl. repeat split; repeat constructor; simpl; lia.
  - reflexivity.
  - reflexivity.
  - lia.
  - simpl. lia.
  - lia.
  - repeat constructor; unfold turn_size; simpl; intros; lia.
  - repeat constructor; unfold turn_size; simpl; intros; lia.
  - unfold excess. simpl. lia.
Defined.
